(* ===== verification/_CoqProject ===== *)
-Q . S2P
Prelude.v
Types.v
HashTable.v
HashChains.v
HashRefine.v
IntervalArray.v
CfiDecode.v
Arch.v
CfiProgram.v
CfiOps.v
DwarfEval.v
Cfi.v
CfiParse.v
Frame.v
Stress.v
ElfRanges.v
Maps.v
Bench.v
PathWalk.v
DebugFile.v
VdsoPath.v
Comm.v
NameHeap.v
Symbols.v
KernelSyms.v
KernelHash.v
KernelLock.v
Dump.v
ProcStat.v
BtStats.v
Timer.v
Context.v
Events.v
ContextInv.v
ContextSafe.v
Unwind.v
Typed.v
Session.v
Lifecycle.v
LoadElf.v
BtDebug.v
Regress.v
SymTest.v
