(* ===== verification/Prelude.v ===== *)
(** * A verification of libgunwinder

    libgunwinder unwinds user stacks offline: a sampler captures the registers
    and a piece of the stack of a process ([struct gu_stack_info]), the library
    maps program counters to ELF images through [/proc/<pid>/maps], decodes the
    DWARF call-frame information of the images, computes the registers of each
    caller from it, and hands the frames with their symbols to a callback.
    Everything it learns about processes and images is cached in one
    [gu_context].

    ** Parts and files

    Paths are relative to [src/]; each definition keeps the name of the C
    function, type or macro it translates.

    - [Prelude]: machine integers, the [outcome] monad, bytes, tactics.
    - [Types] ([include/gunwinder/unwinder_types.h]): snapshot, frame records,
      stop reasons, the [flags] word.
    - [HashTable], [HashChains], [HashRefine] ([include/uthash.h]): the hash
      tables behind the processes, the images, the sections and the kernel
      symbols: the macros on handles and buckets in memory, the lemmas on their
      doubly linked chains, and the refinement of lists and maps.
    - [IntervalArray] ([src/gu_interval_array.c,h]): sorted arrays of address
      intervals; used for mappings, ELF symbols, kernel symbols and FDEs.
    - [CfiDecode], [CfiProgram], [CfiOps], [Cfi], [CfiParse]
      ([src/gu_cfi_helper.c,h]): encoded reads, the call-frame interpreter, the
      operations of a row, the FDE index of an image, and the look-up of a pc
      with its cache of 64 rows.
    - [Arch], [DwarfEval] ([include/arch/*/arch.h], [src/gu_unwinder.c]): the
      register blocks of the two targets, the DWARF stack machine and [gen_reg].
    - [Frame]: the composition of the above, from the bytes of an FDE to the
      registers of the caller.
    - [ElfRanges] ([src/gu_elf.c]): executable segments of an image.
    - [Maps] ([src/gu_comm.c]): reading and merging [/proc/<pid>/maps].
    - [Comm] ([src/gu_comm.c,h]): logging, the MD5 key of a file, the dump of the
      vDSO, the name of a process, the copy of a file.
    - [PathWalk] ([gu_open_pid_root_path] of [src/gu_stacktrace.c] and what it
      calls): opening a path inside the root directory of a process.
    - [DebugFile], [NameHeap], [Symbols] ([src/gu_stacktrace.c], lines 104-154
      and 393-967, 1337-1370): tracked sections, build-id, debug link and its
      CRC, the choice of the debug file; the memory of symbol names with the
      arena of Go names; [fill_symbols_debug_info].
    - [VdsoPath] (lines 996-1008): the name under which the vDSO is dumped.
    - [KernelSyms], [KernelHash], [KernelLock] (lines 1859-1870, 2072-2221):
      [/proc/kallsyms] and the two searches; the table of names as a uthash
      table, and its destruction; the lock between a loader and the searching threads as a
      transition system over schedules.
    - [Dump] ([src/profile_debug.c]): writing a sample to a file, with the files
      it refers to, and reading it back in both formats.
    - [ProcStat] (lines 1958-1991): the identity of a process, from its stat file.
    - [Timer] (lines 158-251): the retire timer thread, its start and stop.
    - [Context] ([src/gu_stacktrace.c,h]): the state of a [gu_context] and the
      operations on it: reference counts and retirement of images, process
      entries, loading, clearing and throttled reloading of mappings, events.
      [ContextInv] states the invariant and proves it for the loading half,
      [ContextSafe] for the rest, with the load bias of a mapping.
    - [Events] ([src/gu_pid_ctx_event.c]): the table of listeners.
    - [Unwind] (lines 2226-2854): [gu_unwind], the DWARF walk, the tail along
      saved frame pointers, and samples that carry a pc list.
    - [Typed]: the registers of an unwound frame stay 64-bit words.
    - [LoadElf] (lines 996-1447): [load_elf] from the name of a mapping to the
      tables in the cache, composing [PathWalk], [DebugFile], [Cfi], [Symbols]
      and [ElfRanges], with every descriptor and handle it opens.
    - [BtStats], [BtDebug] ([tools/bt_debug.c]): the tool that replays dumps: its
      statistics in binary64 arithmetic; the rewriting of the saved maps, the
      passes over a snapshot, and the loop over a directory.
    - [Stress], [Bench], [Regress] ([tools/cfi_stress.c], [tools/cfi_bench.c],
      [tools/test_zero_size_func_lookup.c],
      [tools/test_stable_fp_miss_reload.c]): the project's tests and its
      benchmark, transcribed over the model and run in it.
    - [SymTest] ([tools/test_symbol_resolution.c]): the test that unwinds a
      stopped child: the snapshot it takes, its verdicts, and a run of it.
    - [Session]: any sequence of public operations on a context; [Lifecycle]:
      the events such a sequence emits.

    ** How the code is modelled

    A [w]-bit integer is a [Z] in its range and every store wraps explicitly.
    Fallible code returns [outcome]: [Done], or [Undef] with the fault the C
    code would commit (out-of-bounds access, dangling or null pointer, undefined
    shift, signed overflow, division by zero, read of an indeterminate object).
    A theorem that ends in [Done] therefore says that no such fault happens.
    Error returns of the C code are ordinary values.  State is passed
    explicitly; pointers are addresses into maps where sharing or lifetime
    matters ([CfiProgram.cfi_heap], [Context.gu_context],
    [NameHeap.name_heap]), tags of pointers included.  The callback is the list
    of the records it was called with.  Threads are lists of steps
    ([KernelLock.run_schedule], [Timer.timer_run]).

    What is outside the repository is a parameter with its documented
    behaviour as laws:

    - [Arch.PtRegsX86]: the kernel's [struct pt_regs] layout; [Arch.Arch] is the
      interface both targets implement;
    - [IntervalArray.Qsort]: a sorted permutation;
    - [Cfi]: [dwarf_next_cfi] of libdw and the sections libelf returns;
    - [PathWalk.Fs]: a file system that may change between any two calls;
      [PathWalk.StaticFs]: one that does not;
    - [Symbols.sym_source], [DebugFile.elf_scn], [DebugFile.candidate]: answers
      of libelf and of the files;
    - [NameHeap.Malloc]: blocks that do not overlap; any call may be refused;
    - [KernelSyms.UtHash]: what the kernel symbols need of a hash table: it finds
      an entry of the key, any one of several; [KernelHash.uthash_table] is the
      instance made of the macros of uthash;
    - [Context.Env]: clock, process state, maps files, images and the allocator,
      every answer indexed by the position of the call, so that they may change
      at any time.  The fields the timer thread writes are such answers too.
      [Env.read_build_id] and [Env.read_image] stand for the parts of [load_elf]
      that read files; [LoadElf] computes them and proves that [load_elf] with
      the computed answers is the whole function.
    - [LoadElf.LoadOs]: what open, libelf and the allocator answer while one image
      is loaded; a new descriptor is not in use;
    - the demangler and [log2], arguments of [BtDebug] and [BtStats].

    ** What the theorems show

    - Frames: decoding and evaluation give each register the value its DWARF
      rule prescribes ([Frame.frame_registers_correct]); the interpreter refines
      the abstract table of the program
      ([CfiProgram.program_computes_table_row]); expressions evaluate to the
      value of their tree, are decoded from their bytes, and the fast paths and
      the row cache change nothing ([DwarfEval.dwarf_expression_correct],
      [CfiOps.expression_decodes], [DwarfEval.gen_reg_fast_path_equivalent],
      [CfiParse.parse_cache_transparent]); arbitrary bytes cause no bad access
      ([CfiProgram.program_memory_safe], [DwarfEval.dwarf_eval_safe],
      [DwarfEval.stack_read_exact]); registers stay 64-bit words
      ([Typed.caller_registers_typed]).
    - Loading: on every path of [load_elf] all files are closed, and what it
      caches are the tables of those files
      ([LoadElf.load_elf_closes_and_refines]); an address is then answered with
      the symbol of the table ([LoadElf.loaded_image_symbolizes]).
    - Tools: a dumped sample is replayed as it was taken
      ([BtDebug.replay_of_dump]), rewriting the saved maps changes paths only
      ([BtDebug.maps_rewrite_keeps_vma]), template arguments are cut out in place
      ([BtDebug.template_params_removed]), what the statistics hold and where
      they fail ([BtStats.timing_samples_bounded],
      [BtStats.power_of_2_terminates]).
    - Agreement with the project's tests: the model gives the expected results in
      30 of the 32 cases of [tools/cfi_stress.c] and in both regression tests
      ([Stress.stress_cases_hold], [Regress.regressions_pass]; the two other
      cases expect a failure the code does not report), and every frame of the
      benchmark unwinds to the registers it expects ([Bench.bench_self_check]).
      The LEB128 bytes the test programs emit decode to their values
      ([Stress.emitted_leb_decodes]).  The snapshot of a stopped child reads as its
      stack ([SymTest.snapshot_reads_child]).
    - Hash tables: whatever is added and deleted, and whichever allocation is
      refused, a table behaves as the list of its elements
      ([HashRefine.hash_table_refines_list]), a sweep that deletes and frees while
      it iterates follows no freed pointer ([HashRefine.hash_sweep_exact]), and
      a table of integer keys is a finite map ([HashRefine.int_table_is_map]),
      which is how [Context] represents its tables.
    - Look-ups: [IntervalArray.interval_search_correct],
      [Cfi.fde_lookup_correct], [Symbols.symbol_lookup_correct],
      [KernelSyms.kernel_lookup_correct] against linear references.
    - Unwinding: equivalence of the frame-pointer path with a reference, strict
      progress and bounds of the DWARF walk, the tail as a prefix of the chain in
      the captured stack ([Unwind]).
    - The context: an invariant of every session, memory safety of every public
      operation, complete release at the end, frames that name live images,
      sweeps that free exactly what expired, the throttle of reloads, an event
      stream that mirrors the process table ([Session], [Lifecycle]), and exact
      load biases ([ContextSafe.mapping_bias_exact]).
    - Files and text: confinement and soundness of the path walk, faithful
      merging and scanning of maps, the choice of the debug file and its CRC,
      names that stay inside their blocks and are released once, the round trip
      of dumps, exact copies of files ([Comm.copy_file_exact]), the start time of
      a process whatever its command is called ([ProcStat.start_time_exact]),
      dumps of the vDSO that are named apart ([VdsoPath.vdso_paths_distinct]).
    - Threads: no search follows a destroyed kernel table and none deadlocks;
      the timer stops within six steps of a request.
    - Defects: some theorems prove a behaviour that is not meant
      ([Unwind.recursive_frame_lost], [CfiParse.unbalanced_cie_use_after_free],
      [KernelLock.kernel_address_race], [Dump.dump_level_overflow],
      [CfiDecode.leb128_large_values], [DwarfEval.self_referential_cfa_diverges],
      [KernelSyms.kernel_reload_reads_uninit], [Maps.maps_line_misread],
      [BtDebug.operator_arrow_cut], [BtDebug.maps_rewrite_space],
      [Bench.bench_cycles_wrap], [SymTest.test_registers_misplaced],
      [SymTest.large_pages_overflow]).

    ** Bounds and fuel

    A walk over a chain of a hash table takes the number of handles in memory as
    fuel, which is proved enough as no handle is met twice; an iteration takes any
    fuel that is not below the number of elements.  Allocations of 64 GiB
    and more are assumed to be refused ([HashChains.bounded]), which keeps the
    number of buckets in 32 bits.  The copy of a child's stack takes a step per
    byte of the buffer, and each of them copies a page.
    The powers of two of [BtStats] end within 64 steps below 2^63 and never
    above, which is proved.  LEB128 emitters take 10 groups of 7 bits, which hold
    64.  Loops of the code that count are recursions on their counter: 512 frames of
    a walk and 128 of its tail, 127 entries of a pc list, the 4096 steps of an
    evaluation.  Loops without a counter take a fuel that is proved enough:
    one more than the number of bytes for the decoders and the interpreter (each
    iteration consumes a byte), one more than the length for bisections, the
    number of cells for the chain of remembered states, [PathWalk.walk_fuel] =
    42 * (PATH_MAX + 1) for the path walk (40 links, each followed by at most
    PATH_MAX components).  The scan of a CFI section takes its fuel as an
    argument, since it ends when libdw says so; more than the size of the
    section is enough when libdw's offsets grow ([Cfi.count_fdes_ok]).  The nesting of [DW_OP_call_frame_cfa] is an argument
    too; it is unbounded in the code, and proved to diverge for a CFA expression
    that uses it.

    ** Not modelled

    [openat2], the digest of libcrypto and libdw, libelf and libiberty are
    parameters.  [include/utlist.h] is not used by the sources, and of
    [include/uthash.h] neither are sorting, selection, replacement, ordered
    insertion, the Bloom filter and the hash functions other than [HASH_JEN].
    Verbose messages are not part of the
    state and are left out, with the names of operations and registers that only
    they print; where a message has an effect (a counter in its arguments) the
    effect is kept.  Of the tools, the layout of printed statistics and the text
    of the commands and programs a test builds are left out.  *)

From stdpp Require Export base tactics option list numbers gmap sorting.
From Stdlib Require Export ZArith Lia.

#[export] Set Default Goal Selector "!".

Declare Scope gu_scope.
Delimit Scope gu_scope with gu.
Open Scope Z_scope.

(** ** Machine integers

    A [w]-bit C integer is a [Z] in its range; the functions below are the
    conversions the C code performs implicitly.  [uN] is the value of an
    unsigned [N]-bit object after a store, [sN] the signed reading of the low
    [N] bits (two's complement, as GCC and Clang define the conversion). *)
Definition wrap (w x : Z) : Z := x mod 2 ^ w.
Definition swrap (w x : Z) : Z :=
  if wrap w x <? 2 ^ (w - 1) then wrap w x else wrap w x - 2 ^ w.

Abbreviation u8 := (wrap 8).
Abbreviation u16 := (wrap 16).
Abbreviation u32 := (wrap 32).
Abbreviation u64 := (wrap 64).
Abbreviation s8 := (swrap 8).
Abbreviation s16 := (swrap 16).
Abbreviation s32 := (swrap 32).
Abbreviation s64 := (swrap 64).

Definition UINT32_MAX : Z := 2 ^ 32 - 1.
Definition UINT64_MAX : Z := 2 ^ 64 - 1.
Definition INT64_MIN : Z := - 2 ^ 63.

(** Membership in the range of an unsigned [w]-bit type. *)
Definition in_width (w x : Z) : Prop := 0 <= x < 2 ^ w.
Abbreviation is_u8 := (in_width 8).
Abbreviation is_u32 := (in_width 32).
Abbreviation is_u64 := (in_width 64).

#[export] Instance in_width_dec w x : Decision (in_width w x).
Proof. unfold in_width. apply _. Defined.

(** Modular 64-bit arithmetic, as [uint64_t] computes it. *)
Definition add64 (a b : Z) : Z := u64 (a + b).
Definition sub64 (a b : Z) : Z := u64 (a - b).
Definition mul64 (a b : Z) : Z := u64 (a * b).
Definition shl64 (a n : Z) : Z := u64 (Z.shiftl a n).
Definition not64 (a : Z) : Z := u64 (Z.lnot a).

Infix "+w" := add64 (at level 50, left associativity) : gu_scope.
Infix "-w" := sub64 (at level 50, left associativity) : gu_scope.
Infix "*w" := mul64 (at level 40, left associativity) : gu_scope.
Open Scope gu_scope.

Create HintDb gu discriminated.
Create Rewrite HintDb gu_rw.

Lemma wrap_range w x : 0 <= w -> in_width w (wrap w x).
Proof. intros. unfold in_width, wrap. apply Z.mod_pos_bound. lia. Qed.

Lemma wrap_small w x : in_width w x -> wrap w x = x.
Proof. intros. unfold wrap. by apply Z.mod_small. Qed.

Lemma wrap_wrap w x : wrap w (wrap w x) = wrap w x.
Proof. unfold wrap. apply Zmod_mod. Qed.

Lemma wrap_add_l w x y : wrap w (wrap w x + y) = wrap w (x + y).
Proof. unfold wrap. apply Zplus_mod_idemp_l. Qed.

Lemma wrap_add_r w x y : wrap w (x + wrap w y) = wrap w (x + y).
Proof. unfold wrap. apply Zplus_mod_idemp_r. Qed.

Lemma wrap_sub_l w x y : wrap w (wrap w x - y) = wrap w (x - y).
Proof. unfold wrap. apply Zminus_mod_idemp_l. Qed.

Lemma wrap_sub_r w x y : wrap w (x - wrap w y) = wrap w (x - y).
Proof. unfold wrap. apply Zminus_mod_idemp_r. Qed.

#[export] Hint Rewrite wrap_wrap wrap_add_l wrap_add_r wrap_sub_l wrap_sub_r : gu_rw.
#[export] Hint Resolve wrap_range : gu.

Lemma u64_range x : is_u64 (u64 x).
Proof. by apply wrap_range. Qed.

Lemma add64_range a b : is_u64 (a +w b).
Proof. apply u64_range. Qed.
Lemma sub64_range a b : is_u64 (a -w b).
Proof. apply u64_range. Qed.
Lemma mul64_range a b : is_u64 (a *w b).
Proof. apply u64_range. Qed.
Lemma shl64_range a b : is_u64 (shl64 a b).
Proof. apply u64_range. Qed.
Lemma not64_range a : is_u64 (not64 a).
Proof. apply u64_range. Qed.

#[export] Hint Resolve u64_range add64_range sub64_range mul64_range
  shl64_range not64_range : gu.

Lemma sub64_small a b : is_u64 a -> 0 <= b <= a -> a -w b = a - b.
Proof. unfold in_width, sub64. intros. apply wrap_small. unfold in_width. lia. Qed.

Lemma add64_small a b : 0 <= a + b < 2 ^ 64 -> a +w b = a + b.
Proof. intros. by apply wrap_small. Qed.

Lemma add64_sub64 a b : is_u64 a -> (a +w b) -w b = a.
Proof.
  intros. unfold add64, sub64. rewrite wrap_sub_l, Z.add_simpl_r.
  by apply wrap_small.
Qed.

Lemma sub64_add64 a b : is_u64 a -> (a -w b) +w b = a.
Proof.
  intros. unfold add64, sub64. rewrite wrap_add_l, Z.sub_add.
  by apply wrap_small.
Qed.

Lemma sub64_sub64 a b : is_u64 b -> a -w (a -w b) = b.
Proof.
  intros. unfold sub64. rewrite wrap_sub_r.
  replace (a - (a - b)) with b by lia. by apply wrap_small.
Qed.

Lemma swrap_small w x :
  0 < w -> - 2 ^ (w - 1) <= x < 2 ^ (w - 1) -> swrap w x = x.
Proof.
  intros Hw Hx. unfold swrap, wrap.
  assert (2 ^ w = 2 * 2 ^ (w - 1)) as E.
  { rewrite <- Z.pow_succ_r by lia. f_equal. lia. }
  destruct (Z_lt_le_dec x 0) as [Hneg|Hpos].
  - assert (x mod 2 ^ w = x + 2 ^ w) as ->.
    { symmetry. apply Z.mod_unique with (-1); lia. }
    destruct (Z.ltb_spec (x + 2 ^ w) (2 ^ (w - 1))); lia.
  - rewrite Z.mod_small by lia.
    destruct (Z.ltb_spec x (2 ^ (w - 1))); lia.
Qed.

Lemma wrap_swrap w x : 0 < w -> wrap w (swrap w x) = wrap w x.
Proof.
  intros Hw. unfold swrap. case_match; [apply wrap_wrap|].
  rewrite wrap_sub_l. unfold wrap.
  replace (x - 2 ^ w) with (x + (-1) * 2 ^ w) by lia. by apply Z_mod_plus_full.
Qed.

Lemma swrap_wrap w x : swrap w (wrap w x) = swrap w x.
Proof. unfold swrap. by rewrite wrap_wrap. Qed.

Lemma wrap_eq_inj w x y : in_width w x -> in_width w y -> wrap w x = wrap w y -> x = y.
Proof. intros Hx Hy. by rewrite !wrap_small. Qed.

(** ** Bit fields *)
Lemma testbit_small x k i : 0 <= x < 2 ^ k -> k <= i -> Z.testbit x i = false.
Proof.
  intros Hx Hi. destruct (Z_lt_le_dec k 0); [rewrite Z.pow_neg_r in Hx by done; lia|].
  rewrite <- (Z.mod_small x (2 ^ k)) by done. apply Z.mod_pow2_bits_high. lia.
Qed.

(** Or-ing a field above the bits in use adds it. *)
Lemma lor_field r a k : 0 <= k -> 0 <= r < 2 ^ k -> Z.lor r (Z.shiftl a k) = r + a * 2 ^ k.
Proof.
  intros Hk Hr. rewrite <- Z.shiftl_mul_pow2 by done. symmetry.
  apply Z.add_nocarry_lor. apply Z.bits_inj'. intros i Hi.
  rewrite Z.land_spec, Z.testbit_0_l. destruct (Z_lt_le_dec i k).
  - by rewrite (Z.shiftl_spec_low a), andb_false_r by done.
  - by rewrite (testbit_small r k i).
Qed.

Lemma lor_range k a b : 0 <= k -> in_width k a -> in_width k b -> in_width k (Z.lor a b).
Proof.
  unfold in_width. intros Hk Ha Hb. assert (0 <= Z.lor a b) by (apply Z.lor_nonneg; lia).
  split; [done|]. destruct (decide (Z.lor a b = 0)) as [->|]; [lia|].
  destruct (decide (k = 0)) as [->|].
  { assert (a = 0) as -> by lia. assert (b = 0) as -> by lia. done. }
  apply Z.log2_lt_pow2; [lia|]. rewrite Z.log2_lor by lia.
  assert (Hlog : forall x, 0 <= x < 2 ^ k -> Z.log2 x < k).
  { intros x Hx. destruct (decide (x = 0)) as [->|]; [simpl; lia|].
    apply Z.log2_lt_pow2; lia. }
  by apply Z.max_lub_lt; apply Hlog.
Qed.

Lemma land_7F b : Z.land b 0x7F = b mod 128.
Proof. change 0x7F with (Z.ones 7). by rewrite Z.land_ones. Qed.

Lemma land_pow2_zero b k : 0 <= k -> (Z.land b (2 ^ k) =? 0) = negb (Z.testbit b k).
Proof.
  intros Hk. destruct (Z.testbit b k) eqn:E; simpl.
  - apply Z.eqb_neq. intros H0. apply (f_equal (fun z => Z.testbit z k)) in H0.
    by rewrite Z.land_spec, Z.pow2_bits_true, E, Z.testbit_0_l in H0.
  - apply Z.eqb_eq, Z.bits_inj'. intros i Hi.
    rewrite Z.land_spec, Z.testbit_0_l.
    destruct (decide (k = i)) as [->|]; [by rewrite E|].
    by rewrite Z.pow2_bits_false, andb_false_r.
Qed.

(** ** Undefined behaviour

    Computations that may hit undefined behaviour return an [outcome].
    [Undef] is absorbing: nothing is claimed of an execution past it, and the
    theorems that exclude it are stated as such.  The cause is kept so that
    memory safety can be stated apart from arithmetic faults. *)
Inductive fault : Type :=
  | OutOfBounds      (** access outside the object *)
  | BadPointer       (** [NULL], wild or freed pointer dereferenced *)
  | BadShift         (** shift by the operand width or more *)
  | Uninit           (** an indeterminate value is read *)
  | SignedOverflow   (** signed arithmetic leaves its type *)
  | DivByZero        (** division by zero *)
  | OutOfFuel.       (** a loop or recursion bound of the model was reached *)

Inductive outcome (A : Type) : Type :=
  | Done (a : A)
  | Undef (why : fault).
Arguments Done {A} _.
Arguments Undef {A} _.

#[export] Instance fault_eq_dec : EqDecision fault.
Proof. solve_decision. Defined.
#[export] Instance outcome_ret : MRet outcome := @Done.
#[export] Instance outcome_bind : MBind outcome := fun A B f m =>
  match m with Done a => f a | Undef u => Undef u end.
#[export] Instance outcome_eq_dec {A} `{EqDecision A} : EqDecision (outcome A).
Proof. solve_decision. Defined.

(** [of_opt o] reads memory: [None] is outside the object. *)
Definition of_opt {A} (o : option A) : outcome A :=
  match o with Some a => Done a | None => Undef OutOfBounds end.

(** [deref o] follows a pointer that may be invalid. *)
Definition deref {A} (o : option A) : outcome A :=
  match o with Some a => Done a | None => Undef BadPointer end.

(** The runs that do not end in fault [u]. *)
Definition avoids {A} (u : fault) (m : outcome A) : Prop := m <> Undef u.

Lemma bind_Done {A B} (m : outcome A) (f : A -> outcome B) b :
  (m ≫= f) = Done b <-> exists a, m = Done a /\ f a = Done b.
Proof.
  destruct m; simpl; split; [eauto| |done|]; intros (? & ? & ?); by simplify_eq.
Qed.

Lemma of_opt_Done {A} (o : option A) a : of_opt o = Done a <-> o = Some a.
Proof. destruct o; simpl; naive_solver. Qed.

Lemma deref_Done {A} (o : option A) a : deref o = Done a <-> o = Some a.
Proof. destruct o; simpl; naive_solver. Qed.

Lemma avoids_bind {A B} u (m : outcome A) (f : A -> outcome B) :
  avoids u m -> (forall a, m = Done a -> avoids u (f a)) -> avoids u (m ≫= f).
Proof. unfold avoids. destruct m; simpl; [by auto|congruence]. Qed.

Lemma avoids_ret {A} u (a : A) : avoids u (mret a).
Proof. done. Qed.

#[export] Hint Resolve avoids_bind avoids_ret : gu.

(** ** Little-endian memory

    Both supported targets are little-endian; a buffer is a list of byte
    values. *)
Definition is_byte (b : Z) : Prop := is_u8 b.
Abbreviation bytes_ok := (Forall is_byte).

Fixpoint le_value (l : list Z) : Z :=
  match l with
  | [] => 0
  | b :: l' => b + 256 * le_value l'
  end.

Fixpoint le_bytes (n : nat) (z : Z) : list Z :=
  match n with
  | O => []
  | S n' => z mod 256 :: le_bytes n' (z / 256)
  end.

(** The value of an [n]-byte little-endian object at the front of [l], and the
    bytes after it; [None] when the object does not fit. *)
Definition read_le (n : nat) (l : list Z) : option (Z * list Z) :=
  if decide (n <= length l)%nat then Some (le_value (take n l), drop n l) else None.

Lemma length_le_bytes n z : length (le_bytes n z) = n.
Proof. revert z; induction n; intros; simpl; auto. Qed.

Lemma le_bytes_ok n z : bytes_ok (le_bytes n z).
Proof.
  revert z. induction n as [|n IH]; intros z; simpl; constructor; auto.
  unfold is_byte, in_width. apply Z.mod_pos_bound. lia.
Qed.

Lemma le_value_range l : bytes_ok l -> 0 <= le_value l < 256 ^ Z.of_nat (length l).
Proof.
  induction 1 as [|b l Hb Hl IH]; cbn [le_value length]; [lia|].
  rewrite Nat2Z.inj_succ, Z.pow_succ_r by lia. unfold is_byte, in_width in Hb. lia.
Qed.

Lemma le_value_bytes n z :
  0 <= z < 256 ^ Z.of_nat n -> le_value (le_bytes n z) = z.
Proof.
  revert z. induction n as [|n IH]; intros z Hz; simpl le_bytes; simpl le_value.
  - change (256 ^ Z.of_nat 0) with 1 in Hz. lia.
  - rewrite Nat2Z.inj_succ, Z.pow_succ_r in Hz by lia.
    rewrite IH.
    + pose proof (Z.div_mod z 256). lia.
    + split; [apply Z.div_pos; lia|]. apply Z.div_lt_upper_bound; lia.
Qed.

Lemma le_bytes_value l :
  bytes_ok l -> le_bytes (length l) (le_value l) = l.
Proof.
  induction 1 as [|b l Hb Hl IH]; simpl; [done|]. unfold is_byte, in_width in Hb.
  change (2 ^ 8) with 256 in Hb.
  rewrite (Z.add_comm b), Z.mul_comm, Z.add_comm, Z.mod_add, Z.div_add by lia.
  rewrite Z.mod_small, Z.div_small, Z.add_0_l by lia. by rewrite IH.
Qed.

Lemma read_le_app n l r : length l = n -> read_le n (l ++ r) = Some (le_value l, r).
Proof.
  intros <-. unfold read_le. rewrite length_app, decide_True by lia.
  by rewrite take_app_length, drop_app_length.
Qed.

Lemma read_le_Some n l v r :
  read_le n l = Some (v, r) -> exists p, l = p ++ r /\ length p = n /\ v = le_value p.
Proof.
  unfold read_le. case_decide as H; [|done]. intros [= <- <-].
  exists (take n l). rewrite take_drop, length_take. split_and!; auto. lia.
Qed.

#[export] Hint Resolve le_bytes_ok : gu.
#[export] Hint Rewrite length_le_bytes : gu_rw.

(** ** Sorted lists *)
Lemma StronglySorted_impl {A} (R1 R2 : relation A) l :
  (forall x y, R1 x y -> R2 x y) -> StronglySorted R1 l -> StronglySorted R2 l.
Proof. intros Himp H. rewrite <- (list_fmap_id l). by eapply StronglySorted_fmap. Qed.

(** A list without duplicate keys has one element per key. *)
Lemma NoDup_fmap_key {A B} (f : A -> B) l x y :
  NoDup (f <$> l) -> x ∈ l -> y ∈ l -> f x = f y -> x = y.
Proof.
  intros Hn [i Hi]%list_elem_of_lookup [j Hj]%list_elem_of_lookup Hf.
  assert (i = j) as ->; [|congruence].
  apply (NoDup_lookup _ i j (f x) Hn); rewrite list_lookup_fmap; [by rewrite Hi|].
  by rewrite Hj, Hf.
Qed.

(** ** Tactics *)

(** Case analysis on the outermost [if]/[match] of the goal, as often as
    possible, closing the contradictory branches. *)
Ltac split_cases := repeat (case_match; simplify_eq/=; try done).

(** Decompose a successful run of monadic code in the hypotheses. *)
Ltac run_inv :=
  repeat match goal with
  | H : (_ ≫= _) = Done _ |- _ => apply bind_Done in H; destruct H as (? & ? & H)
  | H : of_opt _ = Done _ |- _ => apply of_opt_Done in H
  | H : deref _ = Done _ |- _ => apply deref_Done in H
  | H : mret _ = Done _ |- _ => injection H as H
  | H : exists _, _ |- _ => destruct H
  | H : _ /\ _ |- _ => destruct H
  | _ => progress simplify_eq/=
  end.

(** Run the monadic plumbing without unfolding anything else. *)
Ltac run := cbn [mbind outcome_bind mret outcome_ret of_opt deref].

(** Decide the [if]s of the goal whose condition is a closed boolean. *)
Ltac eval_ifs :=
  repeat match goal with
  | |- context [if ?c then _ else _] =>
    let v := eval vm_compute in c in
    match v with
    | true => change c with true; cbv match
    | false => change c with false; cbv match
    end
  end.

(** Equality of results, component by component. *)
Ltac tuple_eq :=
  repeat match goal with
  | |- mret _ = _ => unfold mret, outcome_ret
  | |- Done _ = Done _ => apply f_equal
  | |- Some _ = Some _ => apply f_equal
  | |- (_, _) = (_, _) => apply pair_equal_spec; split
  end.

Ltac word := unfold in_width, UINT32_MAX, UINT64_MAX, INT64_MIN in *; lia.
