(* ===== verification/Types.v ===== *)
(** * Public types: [include/gunwinder/unwinder_types.h]

    The stack snapshot [gu_stack_info] the caller hands to the unwinder, the
    frame records it gets back, and the [flags] word that carries both the
    unwind hints and the encoded stop reason. *)

From S2P Require Import Prelude.

(** ** Stop reasons ([enum gu_unwind_reason]) *)
Inductive gu_unwind_reason : Type :=
  | GU_UNWIND_REASON_OK
  | GU_UNWIND_REASON_NO_REGS
  | GU_UNWIND_REASON_NO_ELF
  | GU_UNWIND_REASON_NO_CFI
  | GU_UNWIND_REASON_CFI_FAIL
  | GU_UNWIND_REASON_ARCH_FAIL
  | GU_UNWIND_REASON_PROCESS_EXIT
  | GU_UNWIND_REASON_LANG_SKIP
  | GU_UNWIND_REASON_TRUNCATED
  | GU_UNWIND_REASON_NO_EXEC_PC
  | GU_UNWIND_REASON_CFI_FRAME_DECODE_FAILED
  | GU_UNWIND_REASON_CFI_FRAME_CFA_FAILED
  | GU_UNWIND_REASON_CFI_FRAME_CFA_CALC_FAILED
  | GU_UNWIND_REASON_END_OF_STACK
  | GU_UNWIND_REASON_STACK_READ_OUT_OF_RANGE
  | GU_UNWIND_REASON_NO_PROGRESS
  | GU_UNWIND_REASON_UNKNOWN.

#[export] Instance gu_unwind_reason_eq_dec : EqDecision gu_unwind_reason.
Proof. solve_decision. Defined.

(** The enumerator values. *)
Definition reason_code (r : gu_unwind_reason) : Z :=
  match r with
  | GU_UNWIND_REASON_OK => 0
  | GU_UNWIND_REASON_NO_REGS => 1
  | GU_UNWIND_REASON_NO_ELF => 2
  | GU_UNWIND_REASON_NO_CFI => 3
  | GU_UNWIND_REASON_CFI_FAIL => 4
  | GU_UNWIND_REASON_ARCH_FAIL => 5
  | GU_UNWIND_REASON_PROCESS_EXIT => 6
  | GU_UNWIND_REASON_LANG_SKIP => 7
  | GU_UNWIND_REASON_TRUNCATED => 8
  | GU_UNWIND_REASON_NO_EXEC_PC => 9
  | GU_UNWIND_REASON_CFI_FRAME_DECODE_FAILED => 10
  | GU_UNWIND_REASON_CFI_FRAME_CFA_FAILED => 11
  | GU_UNWIND_REASON_CFI_FRAME_CFA_CALC_FAILED => 12
  | GU_UNWIND_REASON_END_OF_STACK => 13
  | GU_UNWIND_REASON_STACK_READ_OUT_OF_RANGE => 14
  | GU_UNWIND_REASON_NO_PROGRESS => 15
  | GU_UNWIND_REASON_UNKNOWN => 255
  end.

(** ** The stack snapshot ([struct gu_stack_info])

    [regs] and [stack_data] are caller-owned pointers: [None] is [NULL], the
    register block is its array of 64-bit words, the stack its bytes.
    [ustack_fp] has [MAX_FP_STACK_LEVEL + 1] entries. *)
Definition MAX_FP_STACK_LEVEL : Z := 128 - 1.

Record gu_stack_info : Type := mk_gu_stack_info {
  si_pid : Z;
  stack_size : Z;
  si_unique_id : Z;
  regs : option (list Z);
  regs_size : Z;
  flags : Z;
  ustack_fp : list Z;
  ustack_fp_level : Z;
  stack_data : option (list Z);
}.

Definition with_flags (info : gu_stack_info) (f : Z) : gu_stack_info :=
  mk_gu_stack_info (si_pid info) (stack_size info) (si_unique_id info) (regs info)
    (regs_size info) f (ustack_fp info) (ustack_fp_level info) (stack_data info).

Definition with_regs (info : gu_stack_info) (r : option (list Z)) : gu_stack_info :=
  mk_gu_stack_info (si_pid info) (stack_size info) (si_unique_id info) r
    (regs_size info) (flags info) (ustack_fp info) (ustack_fp_level info)
    (stack_data info).

(** ** Unwind flags

    Both enumerators fit [unsigned int], which is therefore the type a flag
    has in [~flag]: the complement is taken on 32 bits and then widened. *)
Inductive gu_unwind_flag : Type :=
  | GU_FLAG_HINT_SET_FP
  | GU_FLAG_FP_ALLOW_UNKNOWN.

#[export] Instance gu_unwind_flag_eq_dec : EqDecision gu_unwind_flag.
Proof. solve_decision. Defined.

Definition flag_bit (f : gu_unwind_flag) : Z :=
  match f with GU_FLAG_HINT_SET_FP => 0 | GU_FLAG_FP_ALLOW_UNKNOWN => 1 end.
Definition flag_value (f : gu_unwind_flag) : Z := Z.shiftl 1 (flag_bit f).

Definition gu_flags_set (info : gu_stack_info) (f : gu_unwind_flag) : gu_stack_info :=
  with_flags info (Z.lor (flags info) (flag_value f)).

Definition gu_flags_clear (info : gu_stack_info) (f : gu_unwind_flag) : gu_stack_info :=
  with_flags info (Z.land (flags info) (u32 (Z.lnot (flag_value f)))).

Definition gu_flags_is_set (info : gu_stack_info) (f : gu_unwind_flag) : bool :=
  negb (Z.land (flags info) (flag_value f) =? 0).

Definition GU_FLAG_REASON_SHIFT : Z := 16.
Definition GU_FLAG_REASON_MASK : Z := Z.shiftl 255 GU_FLAG_REASON_SHIFT.

Definition gu_flags_reason (fl : Z) : Z :=
  Z.shiftr (Z.land fl GU_FLAG_REASON_MASK) GU_FLAG_REASON_SHIFT.

Definition gu_flags_set_reason (info : gu_stack_info) (r : gu_unwind_reason)
  : gu_stack_info :=
  with_flags info
    (Z.lor (Z.land (flags info) (not64 GU_FLAG_REASON_MASK))
           (Z.shiftl (reason_code r) GU_FLAG_REASON_SHIFT)).

(** ** Frame records ([struct gu_frame_record])

    [symbol] and [elf_info] are borrowed pointers; they are kept as the value
    the unwinder stores ([0] is [NULL]). *)
Definition GU_FRAME_ANON_EXEC : Z := 1.

Record gu_frame_record : Type := mk_gu_frame_record {
  fr_pc : Z;
  fr_abs_pc : Z;
  fr_offset : Z;
  fr_symbol : Z;
  fr_elf_info : Z;
  fr_flags : Z;
}.

#[export] Instance gu_frame_record_eq_dec : EqDecision gu_frame_record.
Proof. solve_decision. Defined.

(** ** Lifecycle events and statistics *)
Inductive gu_event_type : Type := GU_EVENT_PROCESS_EXIT | GU_EVENT_MODULE_RELOAD.

Record gu_statistics : Type := mk_gu_statistics {
  elf_ctx_count : Z;
  pid_ctx_count : Z;
  elf_ctx_alloc_count : Z;
  pid_ctx_alloc_count : Z;
  retired_elf_ctx_count : Z;
  retired_elf_cache_hit : Z;
  retired_elf_expired : Z;
  pid_maps_reload_count : Z;
  pid_maps_reload_throttle_count : Z;
  symbols_mem_size : Z;
  cfi_mem_size : Z;
  cfi_data_mem_size : Z;
  kernel_symbols_mem_size : Z;
  unique_id_caused_reload_count : Z;
}.

(** ** Bit-level lemmas on the flags word *)

Lemma reason_code_range r : 0 <= reason_code r < 256.
Proof. by destruct r. Qed.

Lemma reason_code_inj r1 r2 : reason_code r1 = reason_code r2 -> r1 = r2.
Proof. by destruct r1, r2. Qed.

Lemma testbit_reason_high r i : 8 <= i -> Z.testbit (reason_code r) i = false.
Proof.
  intros Hi. pose proof (reason_code_range r) as Hr.
  destruct (decide (reason_code r = 0)) as [->|]; [apply Z.testbit_0_l|].
  apply Z.bits_above_log2; [lia|].
  assert (Z.log2 (reason_code r) < 8); [|lia].
  apply Z.log2_lt_pow2; lia.
Qed.

Lemma testbit_low_mask w x i :
  0 <= w -> Z.testbit (wrap w x) i = if decide (i < w) then Z.testbit x i else false.
Proof.
  intros Hw. unfold wrap. case_decide.
  - destruct (Z_lt_le_dec i 0); [by rewrite !Z.testbit_neg_r by lia|].
    apply Z.mod_pow2_bits_low. lia.
  - apply Z.mod_pow2_bits_high. lia.
Qed.

(** Bit [i] of the reason mask. *)
Lemma testbit_reason_mask i :
  Z.testbit GU_FLAG_REASON_MASK i = bool_decide (16 <= i < 24).
Proof.
  unfold GU_FLAG_REASON_MASK, GU_FLAG_REASON_SHIFT.
  change 255 with (Z.ones 8).
  destruct (Z_lt_le_dec i 0).
  { rewrite Z.testbit_neg_r, bool_decide_eq_false_2 by lia. done. }
  rewrite Z.shiftl_spec by lia.
  destruct (Z_lt_le_dec i 16).
  { rewrite Z.testbit_neg_r, bool_decide_eq_false_2 by lia. done. }
  destruct (Z_lt_le_dec i 24).
  - rewrite Z.ones_spec_low, bool_decide_eq_true_2 by lia. done.
  - rewrite Z.ones_spec_high, bool_decide_eq_false_2 by lia. done.
Qed.

Lemma testbit_flag_value f i :
  Z.testbit (flag_value f) i = bool_decide (i = flag_bit f).
Proof.
  unfold flag_value. rewrite Z.shiftl_1_l.
  destruct (decide (i = flag_bit f)) as [->|Hne].
  - rewrite bool_decide_eq_true_2 by done. apply Z.pow2_bits_true. by destruct f.
  - rewrite bool_decide_eq_false_2 by done. by apply Z.pow2_bits_false.
Qed.

(** A flag test is a bit test. *)
Lemma gu_flags_is_set_testbit info f :
  gu_flags_is_set info f = Z.testbit (flags info) (flag_bit f).
Proof.
  unfold gu_flags_is_set.
  assert (0 <= flag_bit f) by by destruct f.
  destruct (Z.testbit (flags info) (flag_bit f)) eqn:E.
  - apply negb_true_iff, Z.eqb_neq. intros H0.
    assert (Z.testbit (Z.land (flags info) (flag_value f)) (flag_bit f) = false) as H1
      by by rewrite H0, Z.testbit_0_l.
    rewrite Z.land_spec, testbit_flag_value, bool_decide_eq_true_2, E in H1; done.
  - apply negb_false_iff, Z.eqb_eq. apply Z.bits_inj'. intros i Hi.
    rewrite Z.land_spec, testbit_flag_value, Z.testbit_0_l.
    case_bool_decide; subst; [by rewrite E | by rewrite andb_false_r].
Qed.

Lemma testbit_set_reason info r i :
  0 <= i < 64 ->
  Z.testbit (flags (gu_flags_set_reason info r)) i =
  if decide (16 <= i < 24) then Z.testbit (reason_code r) (i - 16)
  else Z.testbit (flags info) i.
Proof.
  intros Hi. simpl. rewrite Z.lor_spec, Z.land_spec. unfold not64.
  rewrite testbit_low_mask, decide_True, Z.lnot_spec, testbit_reason_mask by lia.
  rewrite Z.shiftl_spec by lia. unfold GU_FLAG_REASON_SHIFT.
  case_decide.
  - rewrite bool_decide_eq_true_2 by done. by rewrite andb_false_r.
  - rewrite bool_decide_eq_false_2, andb_true_r by done.
    destruct (Z_lt_le_dec i 16).
    + rewrite (Z.testbit_neg_r (reason_code r)) by lia. apply orb_false_r.
    + rewrite testbit_reason_high by lia. apply orb_false_r.
Qed.

(** Setting a hint leaves the other hint and the reason alone. *)
Lemma testbit_flags_set info f i :
  Z.testbit (flags (gu_flags_set info f)) i =
  Z.testbit (flags info) i || bool_decide (i = flag_bit f).
Proof. simpl. by rewrite Z.lor_spec, testbit_flag_value. Qed.

Lemma gu_flags_reason_testbit fl i :
  0 <= i ->
  Z.testbit (gu_flags_reason fl) i =
  if decide (i < 8) then Z.testbit fl (i + 16) else false.
Proof.
  intros Hi. unfold gu_flags_reason, GU_FLAG_REASON_SHIFT.
  rewrite Z.shiftr_spec, Z.land_spec, testbit_reason_mask by lia.
  case_decide.
  - rewrite bool_decide_eq_true_2 by lia. apply andb_true_r.
  - rewrite bool_decide_eq_false_2 by lia. apply andb_false_r.
Qed.

(** The stored reason is the one read back. *)
Lemma reason_stored info r : gu_flags_reason (flags (gu_flags_set_reason info r)) = reason_code r.
Proof.
  apply Z.bits_inj'. intros i Hi. rewrite gu_flags_reason_testbit by done.
  case_decide.
  - rewrite testbit_set_reason, decide_True by lia. f_equal. lia.
  - by rewrite testbit_reason_high by lia.
Qed.

(** ** Properties *)

(** Storing a stop reason and reading it back yields that reason, whatever
    was stored before, and leaves every unwind hint as it was. *)
Theorem set_reason_roundtrip info r :
  gu_flags_reason (flags (gu_flags_set_reason info r)) = reason_code r /\
  forall f, gu_flags_is_set (gu_flags_set_reason info r) f = gu_flags_is_set info f.
Proof.
  split; [apply reason_stored|].
  intros f. rewrite !gu_flags_is_set_testbit, testbit_set_reason by (destruct f; simpl; lia).
  by destruct f.
Qed.

(** Setting and clearing one hint are visible to [gu_flags_is_set], do not
    change the other hint, and keep the encoded stop reason. *)
Lemma flag_update_spec info f g :
  gu_flags_is_set (gu_flags_set info f) g = (bool_decide (f = g) || gu_flags_is_set info g) /\
  gu_flags_is_set (gu_flags_clear info f) g =
    (negb (bool_decide (f = g)) && gu_flags_is_set info g) /\
  gu_flags_reason (flags (gu_flags_set info f)) = gu_flags_reason (flags info) /\
  gu_flags_reason (flags (gu_flags_clear info f)) = gu_flags_reason (flags info).
Proof.
  assert (Hclear : forall i, 0 <= i < 32 ->
    Z.testbit (flags (gu_flags_clear info f)) i =
    Z.testbit (flags info) i && negb (bool_decide (i = flag_bit f))).
  { intros i Hi. simpl. rewrite Z.land_spec, testbit_low_mask, decide_True by lia.
    by rewrite Z.lnot_spec, testbit_flag_value by lia. }
  split_and!.
  - rewrite !gu_flags_is_set_testbit, testbit_flags_set, orb_comm. by destruct f, g.
  - rewrite !gu_flags_is_set_testbit, Hclear, andb_comm by (destruct g; simpl; lia).
    by destruct f, g.
  - apply Z.bits_inj'. intros i Hi. rewrite !gu_flags_reason_testbit by done.
    case_decide; [|done]. rewrite testbit_flags_set, bool_decide_eq_false_2, orb_false_r;
      [done|destruct f; simpl; lia].
  - apply Z.bits_inj'. intros i Hi. rewrite !gu_flags_reason_testbit by done.
    case_decide; [|done]. rewrite Hclear, bool_decide_eq_false_2, andb_true_r;
      [done| |lia]. destruct f; simpl; lia.
Qed.

(** Clearing a hint also clears bits 32 to 63 of the 64-bit flags word,
    because the complement of the flag is computed on 32 bits. *)
Theorem flag_clear_drops_high_bits info f i :
  32 <= i -> Z.testbit (flags (gu_flags_clear info f)) i = false.
Proof.
  intros Hi. simpl. rewrite Z.land_spec, testbit_low_mask, decide_False by lia.
  apply andb_false_r.
Qed.

Lemma flag_clear_drops_high_bits_witness :
  Z.testbit (flags (gu_flags_clear
    (mk_gu_stack_info 1 0 0 None 0 (2 ^ 40) [] 0 None) GU_FLAG_HINT_SET_FP)) 40 = false.
Proof. apply flag_clear_drops_high_bits. lia. Defined.
