(* ===== verification/HashTable.v ===== *)
(** * The hash table: [include/uthash.h]

    Every list of the library (processes, cached images, CIEs, section
    mappings, kernel symbols) is a uthash table.  This file models the macros
    the library uses, at the level of the pointers they patch: an element is in
    a doubly linked list in the order of its addition ([prev], [next]) and in
    the doubly linked chain of its bucket ([hh_prev], [hh_next]); a bucket that
    grows too long doubles the number of buckets and redistributes the chains.
    The macros are compiled without [HASH_BLOOM] and with fatal allocation
    failures, as the library includes the header; the integrity check
    [HASH_FSCK] of debug builds is modelled too, as a check of the result.
    The abstract state is the list of elements with their keys. *)

From S2P Require Import Prelude.

Module Uthash.

(** ** Data *)

(** [UT_hash_handle]: [prev] and [next] point to elements, [hh_prev] and
    [hh_next] to handles, [None] is [NULL].  [key] is the memory behind the key
    pointer. *)
Record UT_hash_handle : Type := mk_hh {
  tbl : Z;
  prev : option Z;
  next : option Z;
  hh_prev : option Z;
  hh_next : option Z;
  key : list Z;
  keylen : Z;
  hashv : Z;
}.

Record UT_hash_bucket : Type := mk_bkt {
  hh_head : option Z;
  count : Z;
  expand_mult : Z;
}.

Record UT_hash_table : Type := mk_tbl {
  buckets : list UT_hash_bucket;
  num_buckets : Z;
  log2_num_buckets : Z;
  num_items : Z;
  tail : Z;
  hho : Z;
  ideal_chain_maxlen : Z;
  nonideal_items : Z;
  ineff_expands : Z;
  noexpand : Z;
  signature : Z;
}.

(** The memory: handles by their address, tables by theirs. *)
Record memory : Type := mk_mem {
  handles : gmap Z UT_hash_handle;
  tables : gmap Z UT_hash_table;
}.

(** What [malloc] answers during an addition: the address of the table, and
    whether the bucket arrays are allocated, the new one by its size. *)
Record mallocs : Type := mk_mallocs {
  m_table : option Z;
  m_buckets : bool;
  m_expand : Z -> bool;
}.

Definition set_tbl (v : Z) (h : UT_hash_handle) : UT_hash_handle :=
  mk_hh v (prev h) (next h) (hh_prev h) (hh_next h) (key h) (keylen h) (hashv h).
Definition set_prev (v : option Z) (h : UT_hash_handle) : UT_hash_handle :=
  mk_hh (tbl h) v (next h) (hh_prev h) (hh_next h) (key h) (keylen h) (hashv h).
Definition set_next (v : option Z) (h : UT_hash_handle) : UT_hash_handle :=
  mk_hh (tbl h) (prev h) v (hh_prev h) (hh_next h) (key h) (keylen h) (hashv h).
Definition set_hh_prev (v : option Z) (h : UT_hash_handle) : UT_hash_handle :=
  mk_hh (tbl h) (prev h) (next h) v (hh_next h) (key h) (keylen h) (hashv h).
Definition set_hh_next (v : option Z) (h : UT_hash_handle) : UT_hash_handle :=
  mk_hh (tbl h) (prev h) (next h) (hh_prev h) v (key h) (keylen h) (hashv h).
Definition set_key (k : list Z) (n hv : Z) (h : UT_hash_handle) : UT_hash_handle :=
  mk_hh (tbl h) (prev h) (next h) (hh_prev h) (hh_next h) k n hv.

Definition set_buckets (v : list UT_hash_bucket) (T : UT_hash_table) : UT_hash_table :=
  mk_tbl v (num_buckets T) (log2_num_buckets T) (num_items T) (tail T) (hho T)
    (ideal_chain_maxlen T) (nonideal_items T) (ineff_expands T) (noexpand T) (signature T).
Definition set_num_items (v : Z) (T : UT_hash_table) : UT_hash_table :=
  mk_tbl (buckets T) (num_buckets T) (log2_num_buckets T) v (tail T) (hho T)
    (ideal_chain_maxlen T) (nonideal_items T) (ineff_expands T) (noexpand T) (signature T).
Definition set_tail (v : Z) (T : UT_hash_table) : UT_hash_table :=
  mk_tbl (buckets T) (num_buckets T) (log2_num_buckets T) (num_items T) v (hho T)
    (ideal_chain_maxlen T) (nonideal_items T) (ineff_expands T) (noexpand T) (signature T).

(** A read of a handle, a write to one, the same for a table. *)
Definition get_hh (H : gmap Z UT_hash_handle) (p : Z) : outcome UT_hash_handle := deref (H !! p).
Definition upd_hh (f : UT_hash_handle -> UT_hash_handle) (p : Z) (H : gmap Z UT_hash_handle)
    : outcome (gmap Z UT_hash_handle) :=
  h ← get_hh H p; mret (<[p := f h]> H).
Definition get_table (m : memory) (t : Z) : outcome UT_hash_table := deref (tables m !! t).
Definition put_handles (H : gmap Z UT_hash_handle) (m : memory) : memory := mk_mem H (tables m).
Definition put_table (t : Z) (T : UT_hash_table) (m : memory) : memory :=
  mk_mem (handles m) (<[t := T]> (tables m)).

(** A write through a pointer that may be [NULL], guarded as the code guards it. *)
Definition upd_opt (f : UT_hash_handle -> UT_hash_handle) (p : option Z) (H : gmap Z UT_hash_handle)
    : outcome (gmap Z UT_hash_handle) :=
  match p with Some p => upd_hh f p H | None => mret H end.

(** ** The hash function *)

Definition add32 (a b : Z) : Z := u32 (a + b).
Definition sub32 (a b : Z) : Z := u32 (a - b).
Definition shl32 (a n : Z) : Z := u32 (Z.shiftl a n).

(** One line of the mix: [x -= y; x -= z; x ^= s]. *)
Definition mix_line (x y z s : Z) : Z := Z.lxor (sub32 (sub32 x y) z) s.

Definition HASH_JEN_MIX (a b c : Z) : Z * Z * Z :=
  let a := mix_line a b c (Z.shiftr c 13) in
  let b := mix_line b c a (shl32 a 8) in
  let c := mix_line c a b (Z.shiftr b 13) in
  let a := mix_line a b c (Z.shiftr c 12) in
  let b := mix_line b c a (shl32 a 16) in
  let c := mix_line c a b (Z.shiftr b 5) in
  let a := mix_line a b c (Z.shiftr c 3) in
  let b := mix_line b c a (shl32 a 10) in
  let c := mix_line c a b (Z.shiftr b 15) in
  (a, b, c).

(** Four bytes of the key from index [i] on, as the block loop adds them. *)
Definition jen_word (k : list Z) (i : nat) : outcome Z :=
  b0 ← of_opt (k !! i); b1 ← of_opt (k !! S i);
  b2 ← of_opt (k !! S (S i)); b3 ← of_opt (k !! S (S (S i)));
  mret (u32 (u32 (u32 (b0 + shl32 b1 8) + shl32 b2 16) + shl32 b3 24)).

(** The loop over blocks of twelve bytes: the rest of the key, its length, and
    [_hj_i], [_hj_j] and [hashv]. *)
Fixpoint jen_blocks (fuel : nat) (k : list Z) (n i j hv : Z) : outcome (list Z * Z * Z * Z * Z) :=
  if 12 <=? n then
    match fuel with
    | O => Undef OutOfFuel
    | S fuel =>
      w0 ← jen_word k 0; w1 ← jen_word k 4; w2 ← jen_word k 8;
      let '(i, j, hv) := HASH_JEN_MIX (add32 i w0) (add32 j w1) (add32 hv w2) in
      jen_blocks fuel (drop 12 k) (n - 12) i j hv
    end
  else mret (k, n, i, j, hv).

(** [case c: acc += key[c - 1] << s], entered or fallen into when [c <= n]. *)
Definition jen_case (k : list Z) (n c s acc : Z) : outcome Z :=
  if c <=? n then b ← of_opt (k !! Z.to_nat (c - 1)); mret (add32 acc (shl32 b s)) else mret acc.

Definition jen_tail (k : list Z) (n i j hv : Z) : outcome (Z * Z * Z) :=
  hv ← jen_case k n 11 24 hv; hv ← jen_case k n 10 16 hv; hv ← jen_case k n 9 8 hv;
  j ← jen_case k n 8 24 j; j ← jen_case k n 7 16 j; j ← jen_case k n 6 8 j; j ← jen_case k n 5 0 j;
  i ← jen_case k n 4 24 i; i ← jen_case k n 3 16 i; i ← jen_case k n 2 8 i; i ← jen_case k n 1 0 i;
  mret (i, j, hv).

Definition HASH_JEN (k : list Z) (len : Z) : outcome Z :=
  '(k, n, i, j, hv) ← jen_blocks (Z.to_nat (u32 len / 12)) k (u32 len) 0x9e3779b9 0x9e3779b9 0xfeedbeef;
  '(i, j, hv) ← jen_tail k n i j (add32 hv (u32 len));
  let '(_, _, hv) := HASH_JEN_MIX i j hv in mret hv.

(** ** Buckets *)

Definition HASH_INITIAL_NUM_BUCKETS : Z := 32.
Definition HASH_INITIAL_NUM_BUCKETS_LOG2 : Z := 5.
Definition HASH_BKT_CAPACITY_THRESH : Z := 10.
Definition HASH_SIGNATURE : Z := 0xa0111fe1.

Definition HASH_TO_BKT (hv num_bkts : Z) : Z := Z.land hv (sub32 num_bkts 1).

(** [memcmp] of [n] bytes is 0. *)
Definition HASH_KEYCMP (a b : list Z) (n : Z) : outcome bool :=
  if (Z.of_nat (length a) <? n) || (Z.of_nat (length b) <? n) then Undef OutOfBounds
  else mret (bool_decide (take (Z.to_nat n) a = take (Z.to_nat n) b)).

(** The state the redistribution changes: the handles, the new buckets and
    [nonideal_items]. *)
Record expansion : Type := mk_exp {
  ex_handles : gmap Z UT_hash_handle;
  ex_buckets : list UT_hash_bucket;
  ex_nonideal : Z;
}.

(** The body of the loop for the handle [thh]. *)
Definition expand_item (nb ideal : Z) (thh : Z) (s : expansion) : outcome expansion :=
  h ← get_hh (ex_handles s) thh;
  let i := Z.to_nat (HASH_TO_BKT (hashv h) nb) in
  b ← of_opt (ex_buckets s !! i);
  let c := u32 (count b + 1) in
  let over := ideal <? c in
  let mult := if over && (u32 (expand_mult b * ideal) <? c) then u32 (expand_mult b + 1) else expand_mult b in
  H ← upd_hh (fun h => set_hh_next (hh_head b) (set_hh_prev None h)) thh (ex_handles s);
  H ← upd_opt (set_hh_prev (Some thh)) (hh_head b) H;
  mret (mk_exp H (<[i := mk_bkt (Some thh) c mult]> (ex_buckets s))
          (if over then u32 (ex_nonideal s + 1) else ex_nonideal s)).

(** The loop over the chain of an old bucket, which reads [hh_next] before the
    body overwrites it. *)
Fixpoint expand_chain (fuel : nat) (nb ideal : Z) (thh : option Z) (s : expansion) : outcome expansion :=
  match thh with
  | None => mret s
  | Some p =>
    match fuel with
    | O => Undef OutOfFuel
    | S fuel =>
      h ← get_hh (ex_handles s) p;
      s ← expand_item nb ideal p s;
      expand_chain fuel nb ideal (hh_next h) s
    end
  end.

(** The loop over the old buckets, here those with the numbers [ids]. *)
Fixpoint expand_loop (bks : list UT_hash_bucket) (nb ideal : Z) (ids : list nat) (s : expansion)
    : outcome expansion :=
  match ids with
  | [] => mret s
  | i :: ids =>
    b ← of_opt (bks !! i);
    s ← expand_chain (S (size (ex_handles s))) nb ideal (hh_head b) s;
    expand_loop bks nb ideal ids s
  end.

Definition sizeof_bucket : Z := 16.
Definition empty_bucket : UT_hash_bucket := mk_bkt None 0 0.

(** [HASH_EXPAND_BUCKETS] on the table at [t]; [None] is [exit(-1)] after a
    failed allocation. *)
Definition HASH_EXPAND_BUCKETS (o : mallocs) (t : Z) (m : memory) : outcome (option memory) :=
  T ← get_table m t;
  if negb (m_expand o (sizeof_bucket * num_buckets T * 2)) then mret None else
  if 32 <=? u32 (log2_num_buckets T + 1) then Undef BadShift else
  let nb := u32 (num_buckets T * 2) in
  let ideal := u32 (Z.shiftr (num_items T) (u32 (log2_num_buckets T + 1)) +
                    (if Z.land (num_items T) (sub32 nb 1) =? 0 then 0 else 1)) in
  s ← expand_loop (buckets T) nb ideal (seq 0 (Z.to_nat (num_buckets T)))
        (mk_exp (handles m) (replicate (Z.to_nat (num_buckets T * 2)) empty_bucket) 0);
  let ineff := if Z.shiftr (num_items T) 1 <? ex_nonideal s then u32 (ineff_expands T + 1) else 0 in
  mret (Some (put_table t
    (mk_tbl (ex_buckets s) nb (u32 (log2_num_buckets T + 1)) (num_items T) (tail T) (hho T)
       ideal (ex_nonideal s) ineff (if 1 <? ineff then 1 else noexpand T) (signature T))
    (put_handles (ex_handles s) m))).

(** [HASH_ADD_TO_BKT] on bucket [i] of the table at [t]. *)
Definition HASH_ADD_TO_BKT (o : mallocs) (t : Z) (i : nat) (addhh : Z) (m : memory) : outcome (option memory) :=
  T ← get_table m t;
  b ← of_opt (buckets T !! i);
  let c := u32 (count b + 1) in
  H ← upd_hh (fun h => set_hh_prev None (set_hh_next (hh_head b) h)) addhh (handles m);
  H ← upd_opt (set_hh_prev (Some addhh)) (hh_head b) H;
  let m := put_table t (set_buckets (<[i := mk_bkt (Some addhh) c (expand_mult b)]> (buckets T)) T)
             (put_handles H m) in
  h ← get_hh H addhh;
  T ← get_table m (tbl h);
  if (u32 (u32 (expand_mult b + 1) * HASH_BKT_CAPACITY_THRESH) <=? c) && (noexpand T =? 0)
  then HASH_EXPAND_BUCKETS o (tbl h) m
  else mret (Some m).

Definition HASH_DEL_IN_BKT (t : Z) (i : nat) (delhh : Z) (m : memory) : outcome memory :=
  T ← get_table m t;
  b ← of_opt (buckets T !! i);
  d ← get_hh (handles m) delhh;
  let hd := if bool_decide (hh_head b = Some delhh) then hh_next d else hh_head b in
  H ← upd_opt (set_hh_next (hh_next d)) (hh_prev d) (handles m);
  d ← get_hh H delhh;
  H ← upd_opt (set_hh_prev (hh_prev d)) (hh_next d) H;
  mret (put_table t (set_buckets (<[i := mk_bkt hd (sub32 (count b) 1) (expand_mult b)]> (buckets T)) T)
          (put_handles H m)).

(** ** The operations *)

Section operations.
(** The offset of the handle in the element type of the table. *)
Context (off : Z).

Definition HH_FROM_ELMT (T : UT_hash_table) (e : Z) : Z := e + hho T.
Definition ELMT_FROM_HH (T : UT_hash_table) (p : Z) : Z := p - hho T.

(** [(head)->hh.tbl]. *)
Definition head_table (m : memory) (e : Z) : outcome (Z * UT_hash_table) :=
  h ← get_hh (handles m) (e + off);
  T ← get_table m (tbl h);
  mret (tbl h, T).

(** The chain walk of [HASH_FIND_IN_BKT]: [out] is an element. *)
Fixpoint find_chain (fuel : nat) (T : UT_hash_table) (H : gmap Z UT_hash_handle) (k : list Z) (n hv : Z)
    (out : option Z) : outcome (option Z) :=
  match out with
  | None => mret None
  | Some e =>
    match fuel with
    | O => Undef OutOfFuel
    | S fuel =>
      h ← get_hh H (e + off);
      found ← (if (hashv h =? hv) && (keylen h =? n) then HASH_KEYCMP (key h) k n else mret false);
      if found : bool then mret (Some e)
      else find_chain fuel T H k n hv (ELMT_FROM_HH T <$> hh_next h)
    end
  end.

Definition HASH_FIND_IN_BKT (T : UT_hash_table) (H : gmap Z UT_hash_handle) (b : UT_hash_bucket)
    (k : list Z) (n hv : Z) : outcome (option Z) :=
  find_chain (S (size H)) T H k n hv (ELMT_FROM_HH T <$> hh_head b).

Definition HASH_FIND_BYHASHVALUE (m : memory) (head : option Z) (k : list Z) (n hv : Z) : outcome (option Z) :=
  match head with
  | None => mret None
  | Some e =>
    '(_, T) ← head_table m e;
    b ← of_opt (buckets T !! Z.to_nat (HASH_TO_BKT hv (num_buckets T)));
    HASH_FIND_IN_BKT T (handles m) b k n hv
  end.

Definition HASH_FIND (m : memory) (head : option Z) (k : list Z) (n : Z) : outcome (option Z) :=
  match head with
  | None => mret None
  | Some _ => hv ← HASH_JEN k n; HASH_FIND_BYHASHVALUE m head k n hv
  end.

Definition HASH_FIND_STR (m : memory) (head : option Z) (s : list Z) : outcome (option Z) :=
  HASH_FIND m head s (u32 (Z.of_nat (length s))).

(** [HASH_FIND_INT]: the key is the object representation of the [int]. *)
Definition HASH_FIND_INT (m : memory) (head : option Z) (x : Z) : outcome (option Z) :=
  HASH_FIND m head (le_bytes 4 x) 4.

(** The table of one element, as [HASH_MAKE_TABLE] initialises it. *)
Definition initial_table (e : Z) : UT_hash_table :=
  mk_tbl (replicate (Z.to_nat HASH_INITIAL_NUM_BUCKETS) empty_bucket)
    HASH_INITIAL_NUM_BUCKETS HASH_INITIAL_NUM_BUCKETS_LOG2 0 (e + off) off 0 0 0 0 HASH_SIGNATURE.

(** [HASH_MAKE_TABLE] for the element [e], which is to be the only one. *)
Definition HASH_MAKE_TABLE (o : mallocs) (e : Z) (m : memory) : outcome (option memory) :=
  match m_table o with
  | None => mret None
  | Some t =>
    H ← upd_hh (set_tbl t) (e + off) (handles m);
    if negb (m_buckets o) then mret None else
    mret (Some (put_table t (initial_table e) (put_handles H m)))
  end.

Definition HASH_APPEND_LIST (head e : Z) (m : memory) : outcome memory :=
  '(t, T) ← head_table m head;
  H ← upd_hh (fun h => set_prev (Some (ELMT_FROM_HH T (tail T))) (set_next None h)) (e + off) (handles m);
  H ← upd_hh (set_next (Some e)) (tail T) H;
  mret (put_table t (set_tail (e + off) T) (put_handles H m)).

Definition HASH_ADD_TO_TABLE (o : mallocs) (head : Z) (hv : Z) (e : Z) (m : memory) : outcome (option memory) :=
  '(t, T) ← head_table m head;
  let m := put_table t (set_num_items (add32 (num_items T) 1) T) m in
  HASH_ADD_TO_BKT o t (Z.to_nat (HASH_TO_BKT hv (num_buckets T))) (e + off) m.

(** [HASH_ADD_KEYPTR_BYHASHVALUE]: the new memory and head. *)
Definition HASH_ADD_KEYPTR_BYHASHVALUE (o : mallocs) (m : memory) (head : option Z) (k : list Z) (n hv : Z)
    (e : Z) : outcome (option (memory * option Z)) :=
  H ← upd_hh (set_key k (u32 n) hv) (e + off) (handles m);
  let m := put_handles H m in
  linked ← match head with
    | None =>
      H ← upd_hh (fun h => set_prev None (set_next None h)) (e + off) (handles m);
      m ← HASH_MAKE_TABLE o e (put_handles H m);
      mret ((fun m => (m, e)) <$> m)
    | Some hd =>
      hh ← get_hh (handles m) (hd + off);
      H ← upd_hh (set_tbl (tbl hh)) (e + off) (handles m);
      m ← HASH_APPEND_LIST hd e (put_handles H m);
      mret (Some (m, hd))
    end;
  match linked with
  | None => mret None
  | Some (m, hd) =>
    m ← HASH_ADD_TO_TABLE o hd hv e m;
    mret ((fun m => (m, Some hd)) <$> m)
  end.

Definition HASH_ADD_KEYPTR (o : mallocs) (m : memory) (head : option Z) (k : list Z) (n : Z) (e : Z)
    : outcome (option (memory * option Z)) :=
  hv ← HASH_JEN k n; HASH_ADD_KEYPTR_BYHASHVALUE o m head k n hv e.

(** [HASH_ADD_INT] of an element whose [int] field holds [x]. *)
Definition HASH_ADD_INT (o : mallocs) (m : memory) (head : option Z) (x : Z) (e : Z)
    : outcome (option (memory * option Z)) :=
  HASH_ADD_KEYPTR o m head (le_bytes 4 x) 4 e.

(** [HASH_DELETE_HH]: the patching when the element is not the only one. *)
Definition delete_linked (m : memory) (head : Z) (del : Z) : outcome (memory * option Z) :=
  '(t, T) ← head_table m head;
  d ← get_hh (handles m) del;
  T' ← (if bool_decide (del = tail T)
        then p ← deref (prev d); mret (set_tail (HH_FROM_ELMT T p) T) else mret T);
  let m := put_table t T' m in
  '(H, head) ← match prev d with
    | Some p => H ← upd_hh (set_next (next d)) (HH_FROM_ELMT T' p) (handles m); mret (H, Some head)
    | None => mret (handles m, next d)
    end;
  hd ← deref head;
  '(_, T') ← head_table (put_handles H m) hd;
  d ← get_hh H del;
  H ← match next d with
    | Some q => upd_hh (set_prev (prev d)) (HH_FROM_ELMT T' q) H
    | None => mret H
    end;
  '(t, T') ← head_table (put_handles H m) hd;
  m ← HASH_DEL_IN_BKT t (Z.to_nat (HASH_TO_BKT (hashv d) (num_buckets T'))) del (put_handles H m);
  '(t, T') ← head_table m hd;
  mret (put_table t (set_num_items (sub32 (num_items T') 1) T') m, head).

Definition HASH_DELETE_HH (m : memory) (head : option Z) (del : Z) : outcome (memory * option Z) :=
  d ← get_hh (handles m) del;
  hd ← deref head;
  if bool_decide (prev d = None) && bool_decide (next d = None) then
    '(t, _) ← head_table m hd;
    mret (mk_mem (handles m) (delete t (tables m)), None)
  else delete_linked m hd del.

Definition HASH_DEL (m : memory) (head : option Z) (e : Z) : outcome (memory * option Z) :=
  HASH_DELETE_HH m head (e + off).

(** [HASH_ITER] with a body that may change the table: [tmp] is read before the
    body runs. *)
Definition next_elt (m : memory) (e : option Z) : outcome (option Z) :=
  match e with
  | None => mret None
  | Some e => h ← get_hh (handles m) (e + off); mret (next h)
  end.

Section iterate.
Context {S : Type} (mem : S -> memory) (body : Z -> S -> outcome S).

Fixpoint iter_loop (fuel : nat) (el tmp : option Z) (s : S) : outcome S :=
  match el with
  | None => mret s
  | Some e =>
    match fuel with
    | O => Undef OutOfFuel
    | Datatypes.S fuel =>
      s ← body e s;
      tmp' ← next_elt (mem s) tmp;
      iter_loop fuel tmp tmp' s
    end
  end.

Definition HASH_ITER (fuel : nat) (head : option Z) (s : S) : outcome S :=
  tmp ← next_elt (mem s) head;
  iter_loop fuel head tmp s.
End iterate.

(** [HASH_CNT]. *)
Definition HASH_CNT (m : memory) (head : option Z) : outcome Z :=
  match head with
  | None => mret 0
  | Some e => '(_, T) ← head_table m e; mret (num_items T)
  end.

(** ** The integrity check

    [HASH_FSCK]; [false] is [HASH_OOPS].  The walk along one bucket: [prv] is
    [_prev], [n] is [_bkt_count]; the result is the count, or [None] after
    [HASH_OOPS]. *)
Fixpoint fsck_chain (fuel : nat) (H : gmap Z UT_hash_handle) (prv thh : option Z) (n : Z) : outcome (option Z) :=
  match thh with
  | None => mret (Some n)
  | Some p =>
    match fuel with
    | O => Undef OutOfFuel
    | S fuel =>
      h ← get_hh H p;
      if bool_decide (prv = hh_prev h) then fsck_chain fuel H (Some p) (hh_next h) (add32 n 1) else mret None
    end
  end.

Fixpoint fsck_buckets (H : gmap Z UT_hash_handle) (bks : list UT_hash_bucket) (ids : list nat) (total : Z)
    : outcome (option Z) :=
  match ids with
  | [] => mret (Some total)
  | i :: ids =>
    b ← of_opt (bks !! i);
    n ← fsck_chain (S (size H)) H None (hh_head b) 0;
    match n with
    | None => mret None
    | Some n => if count b =? n then fsck_buckets H bks ids (add32 total n) else mret None
    end
  end.

(** The walk in the order of addition, over handles; [prv] is an element. *)
Fixpoint fsck_app (fuel : nat) (T : UT_hash_table) (H : gmap Z UT_hash_handle) (prv thh : option Z) (n : Z)
    : outcome (option Z) :=
  match thh with
  | None => mret (Some n)
  | Some p =>
    match fuel with
    | O => Undef OutOfFuel
    | S fuel =>
      h ← get_hh H p;
      if bool_decide (prv = prev h)
      then fsck_app fuel T H (Some (ELMT_FROM_HH T p)) (HH_FROM_ELMT T <$> next h) (add32 n 1)
      else mret None
    end
  end.

Definition HASH_FSCK (m : memory) (head : option Z) : outcome bool :=
  match head with
  | None => mret true
  | Some e =>
    '(_, T) ← head_table m e;
    n ← fsck_buckets (handles m) (buckets T) (seq 0 (Z.to_nat (num_buckets T))) 0;
    match n with
    | None => mret false
    | Some n =>
      if negb (n =? num_items T) then mret false else
      a ← fsck_app (S (size (handles m))) T (handles m) None (Some (e + off)) 0;
      mret (match a with Some a => a =? num_items T | None => false end)
    end
  end.
End operations.
End Uthash.
