(* ===== verification/HashChains.v ===== *)
(** * The linked lists of a hash table

    The doubly linked lists of [HashTable] as lists of addresses; the hash
    function; the chains of the buckets under insertion, removal and the
    redistribution of [HASH_EXPAND_BUCKETS]. *)

From S2P Require Import Prelude HashTable.
Import Uthash.

#[local] Opaque HASH_JEN_MIX.

(** ** Doubly linked lists *)

Definition hd_or (n : option Z) (l : list Z) : option Z := match l with [] => n | a :: _ => Some a end.
Fixpoint last_or (p : option Z) (l : list Z) : option Z :=
  match l with [] => p | a :: l => last_or (Some a) l end.

(** [dseg nx pv p l n]: following [nx] visits [l] and then [n]; [pv] leads back
    to [p]. *)
Fixpoint dseg (nx pv : Z -> option (option Z)) (p : option Z) (l : list Z) (n : option Z) : Prop :=
  match l with
  | [] => True
  | a :: l => pv a = Some p /\ nx a = Some (hd_or n l) /\ dseg nx pv (Some a) l n
  end.

Lemma last_or_app p l1 l2 : last_or p (l1 ++ l2) = last_or (last_or p l1) l2.
Proof. revert p. induction l1; simpl; auto. Qed.

Lemma last_or_snoc p l a : last_or p (l ++ [a]) = Some a.
Proof. by rewrite last_or_app. Qed.

Lemma last_or_in p l a : last_or p l = Some a -> p = Some a \/ a ∈ l.
Proof.
  revert p. induction l as [|b l IH]; simpl; intros p Hl; [by left|].
  destruct (IH _ Hl) as [[= ->]|]; right; set_solver.
Qed.

Lemma hd_or_app n l1 l2 : hd_or n (l1 ++ l2) = hd_or (hd_or n l2) l1.
Proof. by destruct l1. Qed.

Lemma dseg_app nx pv p l1 l2 n :
  dseg nx pv p (l1 ++ l2) n <-> dseg nx pv p l1 (hd_or n l2) /\ dseg nx pv (last_or p l1) l2 n.
Proof.
  revert p. induction l1 as [|a l1 IH]; simpl; intros p; [tauto|].
  rewrite IH, hd_or_app. tauto.
Qed.

Lemma dseg_ext nx pv nx' pv' p l n :
  (forall a, a ∈ l -> nx' a = nx a /\ pv' a = pv a) -> dseg nx pv p l n -> dseg nx' pv' p l n.
Proof.
  revert p. induction l as [|a l IH]; simpl; [done|]. intros p He (? & ? & ?).
  destruct (He a) as [-> ->]; [set_solver|]. split_and!; try done. apply IH; [set_solver|done].
Qed.

(** A new [next] for the last element, a new [prev] for the first. *)
Lemma dseg_relink_next nx pv nx' pv' p l n n' :
  NoDup l ->
  (forall a, a ∈ l -> pv' a = pv a) ->
  (forall a, a ∈ l -> last_or None l <> Some a -> nx' a = nx a) ->
  (forall a, last_or None l = Some a -> nx' a = Some n') ->
  dseg nx pv p l n -> dseg nx' pv' p l n'.
Proof.
  destruct l as [|z l _] using rev_ind; [done|]. rewrite last_or_snoc.
  intros (Hnd & Hz & _)%NoDup_app Hp Hn Hl [H1 (H2 & _ & _)]%dseg_app.
  apply dseg_app. split.
  - eapply dseg_ext; [|exact H1]. intros a Ha. split; [apply Hn|apply Hp]; set_solver.
  - simpl. split_and!; [rewrite Hp; [done|set_solver]|by apply Hl|done].
Qed.

Lemma dseg_relink_prev nx pv nx' pv' p p' l n :
  NoDup l ->
  (forall a, a ∈ l -> nx' a = nx a) ->
  (forall a, a ∈ l -> hd_or None l <> Some a -> pv' a = pv a) ->
  (forall a, hd_or None l = Some a -> pv' a = Some p') ->
  dseg nx pv p l n -> dseg nx' pv' p' l n.
Proof.
  destruct l as [|z l]; [done|]. simpl.
  intros [Hz Hnd]%NoDup_cons Hn Hp Hh (_ & H1 & H2).
  split_and!; [by apply Hh|rewrite Hn; [done|set_solver]|].
  eapply dseg_ext; [|exact H2]. intros a Ha. split; [apply Hn|apply Hp]; set_solver.
Qed.

(** Removal of an element, with the patches of its neighbours. *)
Lemma dseg_unlink nx pv nx' pv' l1 a l2 :
  NoDup (l1 ++ a :: l2) ->
  (forall x, x ∈ l1 ++ l2 -> last_or None l1 <> Some x -> nx' x = nx x) ->
  (forall x, x ∈ l1 ++ l2 -> hd_or None l2 <> Some x -> pv' x = pv x) ->
  (forall x, last_or None l1 = Some x -> nx' x = Some (hd_or None l2)) ->
  (forall x, hd_or None l2 = Some x -> pv' x = Some (last_or None l1)) ->
  dseg nx pv None (l1 ++ a :: l2) None -> dseg nx' pv' None (l1 ++ l2) None.
Proof.
  intros (Hn1 & Hd & [Ha Hn2]%NoDup_cons)%NoDup_app Hn Hp Hl Hh [H1 (_ & _ & H2)]%dseg_app.
  apply dseg_app. split.
  - eapply dseg_relink_next; [done| | |done|exact H1].
    + intros x Hx. apply Hp; [set_solver|]. intros Hx2. destruct l2; [done|]. set_solver.
    + intros x Hx. apply Hn. set_solver.
  - eapply dseg_relink_prev; [done| | |done|exact H2].
    + intros x Hx. apply Hn; [set_solver|]. intros [?|?]%last_or_in; [done|set_solver].
    + intros x Hx. apply Hp. set_solver.
Qed.

Lemma dseg_push nx pv nx' pv' a l :
  NoDup (a :: l) ->
  nx' a = Some (hd_or None l) -> pv' a = Some None ->
  (forall x, x ∈ l -> nx' x = nx x) ->
  (forall x, x ∈ l -> hd_or None l <> Some x -> pv' x = pv x) ->
  (forall x, hd_or None l = Some x -> pv' x = Some (Some a)) ->
  dseg nx pv None l None -> dseg nx' pv' None (a :: l) None.
Proof.
  intros [Ha Hnd]%NoDup_cons ? ? ? ? ? Hl. simpl. split_and!; [done..|].
  by eapply dseg_relink_prev.
Qed.

Lemma dseg_snoc nx pv nx' pv' a l :
  NoDup (l ++ [a]) ->
  nx' a = Some None -> pv' a = Some (last_or None l) ->
  (forall x, x ∈ l -> pv' x = pv x) ->
  (forall x, x ∈ l -> last_or None l <> Some x -> nx' x = nx x) ->
  (forall x, last_or None l = Some x -> nx' x = Some (Some a)) ->
  dseg nx pv None l None -> dseg nx' pv' None (l ++ [a]) None.
Proof.
  intros (Hnd & _)%NoDup_app ? ? ? ? ? Hl. apply dseg_app. split; [by eapply dseg_relink_next|done].
Qed.

(** ** The hash function is total and reads only the key *)

Lemma jen_word_total k i : (S (S (S i)) < length k)%nat -> exists w, jen_word k i = Done w.
Proof.
  intros Hi. unfold jen_word.
  destruct (lookup_lt_is_Some_2 k i) as [? ->]; [lia|].
  destruct (lookup_lt_is_Some_2 k (S i)) as [? ->]; [lia|].
  destruct (lookup_lt_is_Some_2 k (S (S i))) as [? ->]; [lia|].
  destruct (lookup_lt_is_Some_2 k (S (S (S i)))) as [? ->]; [lia|]. run. eauto.
Qed.

Lemma jen_word_app k r i w : jen_word k i = Done w -> jen_word (k ++ r) i = Done w.
Proof.
  unfold jen_word. intros ?. run_inv.
  repeat erewrite lookup_app_l_Some by eassumption. by run.
Qed.

Lemma jen_case_total k n c s acc :
  1 <= c -> n <= Z.of_nat (length k) -> exists a, jen_case k n c s acc = Done a.
Proof.
  intros Hc Hn. unfold jen_case. destruct (Z.leb_spec c n); [|run; eauto].
  destruct (lookup_lt_is_Some_2 k (Z.to_nat (c - 1))) as [? ->]; [lia|]. run. eauto.
Qed.

Lemma jen_case_app k r n c s acc a : jen_case k n c s acc = Done a -> jen_case (k ++ r) n c s acc = Done a.
Proof.
  unfold jen_case. intros ?. case_match; [|done]. run_inv. erewrite lookup_app_l_Some by eassumption. by run.
Qed.

Lemma jen_tail_total k n i j hv : n <= Z.of_nat (length k) -> exists r, jen_tail k n i j hv = Done r.
Proof.
  intros Hn. unfold jen_tail.
  repeat match goal with |- context [jen_case k n ?c ?s ?acc] =>
    destruct (jen_case_total k n c s acc) as [? ->]; [lia|done|run]
  end. eauto.
Qed.

Lemma jen_tail_app k r n i j hv x : jen_tail k n i j hv = Done x -> jen_tail (k ++ r) n i j hv = Done x.
Proof.
  unfold jen_tail. intros ?. run_inv. repeat (erewrite jen_case_app by eassumption; run). done.
Qed.

Lemma jen_blocks_total fuel k n i j hv :
  0 <= n <= Z.of_nat (length k) -> n / 12 <= Z.of_nat fuel ->
  exists k' n' i' j' hv', jen_blocks fuel k n i j hv = Done (k', n', i', j', hv') /\ n' <= Z.of_nat (length k').
Proof.
  revert k n i j hv. induction fuel as [|fuel IH]; intros k n i j hv Hn Hf; cbn [jen_blocks].
  - destruct (Z.leb_spec 12 n); [exfalso; pose proof (Z.div_le_lower_bound n 12 1); lia|].
    run. do 5 eexists. split; [done|lia].
  - destruct (Z.leb_spec 12 n); [|run; do 5 eexists; split; [done|lia]].
    destruct (jen_word_total k 0) as [? ->]; [lia|]. destruct (jen_word_total k 4) as [? ->]; [lia|].
    destruct (jen_word_total k 8) as [? ->]; [lia|]. run.
    destruct (HASH_JEN_MIX _ _ _) as [[i' j'] hv']. apply IH; [rewrite length_drop; lia|].
    replace n with ((n - 12) + 1 * 12) in Hf by lia. rewrite Z.div_add in Hf by lia. lia.
Qed.

Lemma jen_blocks_app fuel k r n i j hv k' n' i' j' hv' :
  n <= Z.of_nat (length k) ->
  jen_blocks fuel k n i j hv = Done (k', n', i', j', hv') ->
  jen_blocks fuel (k ++ r) n i j hv = Done (k' ++ r, n', i', j', hv').
Proof.
  revert k n i j hv. induction fuel as [|fuel IH]; intros k n i j hv Hn; cbn [jen_blocks].
  - destruct (12 <=? n); [done|]. intros ?. run_inv. done.
  - destruct (Z.leb_spec 12 n); [|intros ?; by run_inv]. intros ?. run_inv.
    repeat (erewrite jen_word_app by eassumption; run).
    destruct (HASH_JEN_MIX _ _ _) as [[? ?] ?].
    rewrite drop_app_le by lia. apply IH; [rewrite length_drop; lia|done].
Qed.

Lemma HASH_JEN_total k n : is_u32 n -> n <= Z.of_nat (length k) -> exists hv, HASH_JEN k n = Done hv.
Proof.
  intros Hn Hl. unfold HASH_JEN. rewrite wrap_small by done.
  destruct (jen_blocks_total (Z.to_nat (n / 12)) k n 0x9e3779b9 0x9e3779b9 0xfeedbeef)
    as (k' & n' & i & j & hv & -> & Hl'); [word|rewrite Z2Nat.id; [lia|apply Z.div_pos; word]|]. run.
  destruct (jen_tail_total k' n' i j (add32 hv n)) as [[[? ?] ?] ->]; [done|]. run.
  destruct (HASH_JEN_MIX _ _ _) as [[? ?] ?]. eauto.
Qed.

Lemma HASH_JEN_app k r n hv :
  is_u32 n -> n <= Z.of_nat (length k) -> HASH_JEN k n = Done hv -> HASH_JEN (k ++ r) n = Done hv.
Proof.
  intros Hn Hl. unfold HASH_JEN. rewrite wrap_small by done. intros ?. run_inv.
  destruct x as [[[[k' n'] i] j] h']. run_inv. destruct x as [[? ?] ?].
  erewrite jen_blocks_app by eassumption. run. erewrite jen_tail_app by eassumption. run. done.
Qed.

(** The hash of a key is the hash of its bytes. *)
Lemma HASH_JEN_take k n :
  is_u32 n -> n <= Z.of_nat (length k) -> HASH_JEN k n = HASH_JEN (take (Z.to_nat n) k) n.
Proof.
  intros Hn Hl. assert (n <= Z.of_nat (length (take (Z.to_nat n) k))) as Hl' by (rewrite length_take; word).
  destruct (HASH_JEN_total _ _ Hn Hl') as [hv Hhv]. rewrite Hhv.
  rewrite <- (take_drop (Z.to_nat n) k). by apply HASH_JEN_app.
Qed.

(** ** Handles and buckets *)

Abbreviation heap := (gmap Z UT_hash_handle).

Definition hnx (H : heap) (p : Z) : option (option Z) := hh_next <$> H !! p.
Definition hpv (H : heap) (p : Z) : option (option Z) := hh_prev <$> H !! p.
Definition anx (off : Z) (H : heap) (e : Z) : option (option Z) := next <$> H !! (e + off).
Definition apv (off : Z) (H : heap) (e : Z) : option (option Z) := prev <$> H !! (e + off).

(** The part of a handle that operations on buckets leave alone, and the part
    that operations on the list of elements leave alone. *)
Definition app_part (h : UT_hash_handle) := (tbl h, prev h, next h, key h, keylen h, hashv h).
Definition bkt_part (h : UT_hash_handle) := (hh_prev h, hh_next h, hashv h).
Definition same_app (H H' : heap) : Prop := forall p, app_part <$> H' !! p = app_part <$> H !! p.

#[export] Instance same_app_refl : Reflexive same_app.
Proof. by intros H p. Qed.
#[export] Instance same_app_trans : Transitive same_app.
Proof. intros H1 H2 H3 E1 E2 p. by rewrite E2, E1. Qed.

Lemma same_app_handle H H' p h :
  same_app H H' -> H !! p = Some h -> exists h', H' !! p = Some h' /\ app_part h' = app_part h.
Proof.
  intros Hs Hp. specialize (Hs p). rewrite Hp in Hs.
  destruct (H' !! p) as [h'|]; [|done]. exists h'. split; [done|]. by apply (inj Some).
Qed.

Lemma same_app_size H H' : same_app H H' -> size H' = size H.
Proof.
  intros Hs. rewrite <- !size_dom. f_equal. apply set_eq. intros p. rewrite !elem_of_dom.
  specialize (Hs p). destruct (H !! p), (H' !! p); simpl in Hs; simplify_eq; naive_solver.
Qed.

Lemma get_hh_run p H h : H !! p = Some h -> get_hh H p = Done h.
Proof. intros Hp. unfold get_hh. by rewrite Hp. Qed.

Lemma upd_hh_run f p H h : H !! p = Some h -> upd_hh f p H = Done (<[p := f h]> H).
Proof. intros Hp. unfold upd_hh, get_hh. by rewrite Hp. Qed.

Lemma same_app_upd H p h h' :
  H !! p = Some h -> app_part h' = app_part h -> same_app H (<[p := h']> H).
Proof.
  intros Hp Hf q. destruct (decide (p = q)) as [->|].
  - by rewrite lookup_insert_eq, Hp; simpl; rewrite Hf.
  - by rewrite lookup_insert_ne.
Qed.

(** The number of a bucket is in range. *)
Lemma bkt_range hv l : 0 <= l <= 31 -> 0 <= HASH_TO_BKT hv (2 ^ l) < 2 ^ l.
Proof.
  intros Hl. unfold HASH_TO_BKT, sub32.
  pose proof (Z.pow_le_mono_r 2 l 31) as Hle. pose proof (Z.pow_pos_nonneg 2 l).
  rewrite wrap_small by word. replace (2 ^ l - 1) with (Z.ones l) by (rewrite Z.ones_equiv; lia).
  rewrite Z.land_ones by lia. apply Z.mod_pos_bound. lia.
Qed.

(** [chain_ok H nb i b c]: bucket [i] of [nb] heads the chain of handles [c]. *)
Record chain_ok (H : heap) (nb : Z) (i : nat) (b : UT_hash_bucket) (c : list Z) : Prop := {
  ck_head : hh_head b = hd_or None c;
  ck_count : count b = u32 (Z.of_nat (length c));
  ck_links : dseg (hnx H) (hpv H) None c None;
  ck_nodup : NoDup c;
  ck_hash p : p ∈ c -> exists h, H !! p = Some h /\ Z.to_nat (HASH_TO_BKT (hashv h) nb) = i;
}.

Record bkts_ok (H : heap) (nb : Z) (bks : list UT_hash_bucket) (chains : list (list Z)) : Prop := {
  bo_len : length bks = Z.to_nat nb;
  bo_chains : length chains = length bks;
  bo_ok i b c : bks !! i = Some b -> chains !! i = Some c -> chain_ok H nb i b c;
}.

Lemma chain_ok_ext H H' nb i b c :
  (forall p, p ∈ c -> bkt_part <$> H' !! p = bkt_part <$> H !! p) ->
  chain_ok H nb i b c -> chain_ok H' nb i b c.
Proof.
  intros He [h1 h2 h3 h4 h5]. split; [done|done| |done|].
  - eapply dseg_ext; [|exact h3]. intros a Ha. specialize (He a Ha). unfold hnx, hpv.
    destruct (H !! a), (H' !! a); simpl in He; simplify_eq/=; split; congruence.
  - intros p Hp. destruct (h5 p Hp) as (h & Hh & Hi). specialize (He p Hp). rewrite Hh in He.
    destruct (H' !! p) as [h'|]; simpl in He; simplify_eq/=. eexists. split; [done|congruence].
Qed.

Lemma bkts_chain H nb bks chains i c :
  bkts_ok H nb bks chains -> chains !! i = Some c -> exists b, bks !! i = Some b /\ chain_ok H nb i b c.
Proof.
  intros [h1 h2 h3] Hc. destruct (lookup_lt_is_Some_2 bks i) as [b Hb].
  { rewrite <- h2. by eapply lookup_lt_Some. }
  eauto.
Qed.

Lemma join_lookup {A} (ls : list (list A)) x : x ∈ mjoin ls <-> exists i l, ls !! i = Some l /\ x ∈ l.
Proof.
  rewrite list_elem_of_join. split.
  - intros (l & Hx & [i Hi]%list_elem_of_lookup_1). eauto.
  - intros (i & l & Hi & Hx). exists l. split; [done|]. by eapply list_elem_of_lookup_2.
Qed.

Lemma join_insert {A} (ls : list (list A)) i c c' :
  ls !! i = Some c -> mjoin (<[i := c']> ls) ++ c ≡ₚ c' ++ mjoin ls.
Proof.
  revert i. induction ls as [|l ls IH]; intros [|i]; simpl; intros Hi; simplify_eq.
  - rewrite <- app_assoc. f_equiv. apply Permutation_app_comm.
  - rewrite <- app_assoc, (IH i Hi), !app_assoc. f_equiv. apply Permutation_app_comm.
Qed.

Lemma join_push {A} (ls : list (list A)) i c p :
  ls !! i = Some c -> mjoin (<[i := p :: c]> ls) ≡ₚ p :: mjoin ls.
Proof.
  intros Hi. apply (Permutation_app_inv_r c). rewrite (join_insert _ _ _ _ Hi). simpl.
  f_equiv. apply Permutation_app_comm.
Qed.

Lemma size_bound (H : heap) l : NoDup l -> (forall p, p ∈ l -> is_Some (H !! p)) -> (length l <= size H)%nat.
Proof.
  intros Hnd Hl. rewrite <- (size_list_to_set (C := gset Z)) by done. rewrite <- size_dom.
  apply subseteq_size. intros p Hp. apply elem_of_dom. set_solver.
Qed.

(** A handle pushed on the chain of its bucket. *)
Lemma chain_push_ok H nb bks chains p h i b c mult :
  bkts_ok H nb bks chains -> bks !! i = Some b -> chains !! i = Some c ->
  H !! p = Some h -> p ∉ mjoin chains -> Z.to_nat (HASH_TO_BKT (hashv h) nb) = i ->
  exists H',
    upd_opt (set_hh_prev (Some p)) (hh_head b) (<[p := set_hh_next (hh_head b) (set_hh_prev None h)]> H) = Done H' /\
    same_app H H' /\
    bkts_ok H' nb (<[i := mk_bkt (Some p) (u32 (count b + 1)) mult]> bks) (<[i := p :: c]> chains) /\
    (forall q, q <> p -> q ∉ mjoin chains -> H' !! q = H !! q).
Proof.
  intros Hok Hb Hc Hp Hfresh Hi. pose proof (bo_ok _ _ _ _ Hok _ _ _ Hb Hc) as [h1 h2 h3 h4 h5].
  set (H1 := <[p := set_hh_next (hh_head b) (set_hh_prev None h)]> H).
  assert (same_app H H1) as Hs1 by by eapply same_app_upd.
  assert (p ∉ c) as Hpc by (intros ?; apply Hfresh, join_lookup; eauto).
  assert (exists H', upd_opt (set_hh_prev (Some p)) (hh_head b) H1 = Done H' /\ same_app H1 H' /\
    H' !! p = H1 !! p /\
    (forall q, q <> p -> hd_or None c <> Some q -> H' !! q = H !! q) /\
    (forall q, hd_or None c = Some q -> exists hq, H !! q = Some hq /\ H' !! q = Some (set_hh_prev (Some p) hq)))
    as (H' & Hrun & Hs2 & Hpp & Hrest & Hhd).
  { rewrite h1. destruct c as [|q c]; simpl.
    - exists H1. split_and!; [done|done|done| |done]. intros. unfold H1. by rewrite lookup_insert_ne.
    - destruct (h5 q) as (hq & Hq & _); [set_solver|]. assert (q <> p) by set_solver.
      assert (H1 !! q = Some hq) as Hq1 by (unfold H1; by rewrite lookup_insert_ne).
      exists (<[q := set_hh_prev (Some p) hq]> H1).
      split_and!; [by apply upd_hh_run|by eapply same_app_upd|by rewrite lookup_insert_ne| |].
      + intros r ? ?. rewrite lookup_insert_ne by congruence. unfold H1. by rewrite lookup_insert_ne.
      + intros r [= <-]. exists hq. by rewrite lookup_insert_eq. }
  exists H'. split; [done|]. split; [by etrans|].
  assert (forall q, q <> p -> q ∉ c -> H' !! q = H !! q) as Hout.
  { intros q ? Hq. apply Hrest; [done|]. intros ?. apply Hq. destruct c; simplify_eq/=; set_solver. }
  split; [|intros q ? Hq; apply Hout; [done|]; intros ?; apply Hq, join_lookup; eauto].
  destruct Hok as [g1 g2 g3]. split; [by rewrite length_insert|by rewrite !length_insert|].
  intros j b' c' [(-> & <- & Hlt)|[Hne Hb']]%list_lookup_insert_Some Hc'.
  - rewrite list_lookup_insert_eq in Hc' by lia. simplify_eq. split; simpl.
    + done.
    + rewrite h2, wrap_add_l. f_equal. lia.
    + eapply (dseg_push (hnx H) (hpv H)); [by apply NoDup_cons| | | | | |done];
        unfold hnx, hpv; [by rewrite Hpp; unfold H1; rewrite lookup_insert_eq; simpl; rewrite h1
                         |by rewrite Hpp; unfold H1; rewrite lookup_insert_eq| | |].
      * intros x Hx. destruct (decide (hd_or None c = Some x)) as [Hx'|].
        -- by destruct (Hhd x Hx') as (hq & -> & ->).
        -- rewrite Hrest; [done|set_solver|done].
      * intros x Hx ?. rewrite Hrest; [done|set_solver|done].
      * intros x Hx'. by destruct (Hhd x Hx') as (hq & _ & ->).
    + by apply NoDup_cons.
    + intros q [->|Hq]%elem_of_cons.
      * exists (set_hh_next (hh_head b) (set_hh_prev None h)). rewrite Hpp. unfold H1. by rewrite lookup_insert_eq.
      * destruct (h5 q Hq) as (hq & Hhq & Hbk).
        destruct (same_app_handle H H' q hq) as (hq' & Hhq' & Hpart); [by etrans|done|].
        exists hq'. split; [done|]. injection Hpart as _ _ _ _ _ ->. congruence.
  - rewrite list_lookup_insert_ne in Hc' by done. eapply chain_ok_ext; [|by eapply g3].
    intros q Hq. rewrite Hout; [done| |].
    + intros ->. apply Hfresh, join_lookup. eauto.
    + intros Hq'. destruct (h5 q Hq') as (hq & Hhq & Hbk).
      destruct (ck_hash _ _ _ _ _ (g3 _ _ _ Hb' Hc') q Hq) as (hq2 & ? & Hbk2). simplify_eq.
Qed.

(** ** Writes through optional pointers, as a function *)

Definition set_opt (f : UT_hash_handle -> UT_hash_handle) (o : option Z) (H : heap) : heap :=
  match o with Some q => alter f q H | None => H end.

Lemma lookup_set_opt f o H q :
  set_opt f o H !! q = if decide (o = Some q) then f <$> H !! q else H !! q.
Proof.
  destruct o as [r|]; cbn [set_opt]; [|by rewrite decide_False].
  destruct (decide (r = q)) as [->|].
  - by rewrite lookup_alter_eq, decide_True.
  - rewrite lookup_alter_ne, decide_False; congruence.
Qed.

Lemma upd_hh_alter f p H : is_Some (H !! p) -> upd_hh f p H = Done (alter f p H).
Proof.
  intros [h Hp]. rewrite (upd_hh_run f p H h Hp). f_equal. apply map_eq. intros q.
  destruct (decide (p = q)) as [->|].
  - by rewrite lookup_insert_eq, lookup_alter_eq, Hp.
  - by rewrite lookup_insert_ne, lookup_alter_ne.
Qed.

Lemma upd_opt_run f o H :
  (forall q, o = Some q -> is_Some (H !! q)) -> upd_opt f o H = Done (set_opt f o H).
Proof. intros Ho. destruct o as [q|]; simpl; [|done]. by apply upd_hh_alter, Ho. Qed.

Lemma set_opt_is_Some f o H q : is_Some (H !! q) -> is_Some (set_opt f o H !! q).
Proof. rewrite lookup_set_opt. intros [h ->]. case_decide; simpl; eauto. Qed.

Lemma same_app_set_opt f o H : (forall h, app_part (f h) = app_part h) -> same_app H (set_opt f o H).
Proof.
  intros Hf p. rewrite lookup_set_opt. case_decide; [|done].
  destruct (H !! p); simpl; [by rewrite Hf|done].
Qed.

Lemma hnx_set_prev v o H x : hnx (set_opt (set_hh_prev v) o H) x = hnx H x.
Proof. unfold hnx. rewrite lookup_set_opt. case_decide; [|done]. by destruct (H !! x). Qed.
Lemma hpv_set_next v o H x : hpv (set_opt (set_hh_next v) o H) x = hpv H x.
Proof. unfold hpv. rewrite lookup_set_opt. case_decide; [|done]. by destruct (H !! x). Qed.
Lemma hnx_set_next v o H x :
  hnx (set_opt (set_hh_next v) o H) x = if decide (o = Some x) then (fun _ => v) <$> H !! x else hnx H x.
Proof. unfold hnx. rewrite lookup_set_opt. case_decide; [|done]. by destruct (H !! x). Qed.
Lemma hpv_set_prev v o H x :
  hpv (set_opt (set_hh_prev v) o H) x = if decide (o = Some x) then (fun _ => v) <$> H !! x else hpv H x.
Proof. unfold hpv. rewrite lookup_set_opt. case_decide; [|done]. by destruct (H !! x). Qed.

Lemma hd_or_in l x : hd_or None l = Some x -> x ∈ l.
Proof. destruct l; intros; simplify_eq/=; set_solver. Qed.
Lemma last_or_None_in l x : last_or None l = Some x -> x ∈ l.
Proof. by intros [?|?]%last_or_in. Qed.

Lemma dseg_mid nx pv l1 a l2 :
  dseg nx pv None (l1 ++ a :: l2) None -> pv a = Some (last_or None l1) /\ nx a = Some (hd_or None l2).
Proof. intros [_ (? & ? & _)]%dseg_app. done. Qed.

(** A handle taken out of the chain of its bucket. *)
Lemma unlink_ok H nb bks chains p d i b c1 c2 mult :
  bkts_ok H nb bks chains -> bks !! i = Some b -> chains !! i = Some (c1 ++ p :: c2) -> H !! p = Some d ->
  let H' := set_opt (set_hh_prev (hh_prev d)) (hh_next d) (set_opt (set_hh_next (hh_next d)) (hh_prev d) H) in
  let hd := if bool_decide (hh_head b = Some p) then hh_next d else hh_head b in
  upd_opt (set_hh_next (hh_next d)) (hh_prev d) H = Done (set_opt (set_hh_next (hh_next d)) (hh_prev d) H) /\
  set_opt (set_hh_next (hh_next d)) (hh_prev d) H !! p = Some d /\
  upd_opt (set_hh_prev (hh_prev d)) (hh_next d) (set_opt (set_hh_next (hh_next d)) (hh_prev d) H) = Done H' /\
  same_app H H' /\
  bkts_ok H' nb (<[i := mk_bkt hd (sub32 (count b) 1) mult]> bks) (<[i := c1 ++ c2]> chains) /\
  (forall q, q ∉ c1 ++ p :: c2 -> H' !! q = H !! q).
Proof.
  intros Hok Hb Hc Hp H' hd. pose proof (bo_ok _ _ _ _ Hok _ _ _ Hb Hc) as [h1 h2 h3 h4 h5].
  destruct (dseg_mid _ _ _ _ _ h3) as [Hpv Hnx]. unfold hpv, hnx in Hpv, Hnx. rewrite Hp in Hpv, Hnx.
  injection Hpv as Hpv. injection Hnx as Hnx.
  assert (forall q, q ∈ c1 ++ p :: c2 -> is_Some (H !! q)) as Hdef.
  { intros q Hq. destruct (h5 q Hq) as (? & -> & _). eauto. }
  pose proof h4 as (_ & Hd12 & [Hp2 _]%NoDup_cons)%NoDup_app.
  assert (last_or None c1 <> Some p) as HnP by (intros ?%last_or_None_in; set_solver).
  assert (hd_or None c2 <> Some p) as HnN by (intros ?%hd_or_in; set_solver).
  subst H'. rewrite Hpv, Hnx. set (P := last_or None c1) in *. set (N := hd_or None c2) in *.
  set (H1 := set_opt (set_hh_next N) P H). set (H' := set_opt (set_hh_prev P) N H1).
  assert (same_app H H') as Hs.
  { etrans; by apply same_app_set_opt. }
  assert (forall q, q ∉ c1 ++ p :: c2 -> H' !! q = H !! q) as Hout.
  { intros q Hq. unfold H', H1. rewrite !lookup_set_opt, !decide_False; [done| |].
    - intros ?%last_or_None_in. set_solver.
    - intros ?%hd_or_in. set_solver. }
  split; [|split; [|split; [|split; [done|split; [|done]]]]].
  - apply upd_opt_run. intros q Hq. apply Hdef. apply last_or_None_in in Hq. set_solver.
  - unfold H1. by rewrite lookup_set_opt, decide_False.
  - apply upd_opt_run. intros q Hq. apply set_opt_is_Some, Hdef. apply hd_or_in in Hq. set_solver.
  - destruct Hok as [g1 g2 g3]. split; [by rewrite length_insert|by rewrite !length_insert|].
    intros j b' c' [(-> & <- & Hlt)|[Hne Hb']]%list_lookup_insert_Some Hc'.
    + rewrite list_lookup_insert_eq in Hc' by lia. simplify_eq. split; simpl.
      * unfold hd. rewrite h1. destruct c1 as [|x c1]; simpl; [by rewrite bool_decide_true|].
        rewrite bool_decide_false; [done|]. intros [= ->]. apply (Hd12 p); set_solver.
      * rewrite h2. unfold sub32. rewrite wrap_sub_l. f_equal. rewrite !length_app. simpl. lia.
      * eapply (dseg_unlink (hnx H) (hpv H)); [exact h4| | | | |exact h3]; unfold H', H1; intros x Hx; try intros Hx'.
        -- by rewrite hnx_set_prev, hnx_set_next, decide_False.
        -- by rewrite hpv_set_prev, decide_False, hpv_set_next.
        -- rewrite hnx_set_prev, hnx_set_next, decide_True by done.
           destruct (Hdef x) as [? ->]; [apply last_or_None_in in Hx; set_solver|done].
        -- rewrite hpv_set_prev, decide_True by done.
           destruct (set_opt_is_Some (set_hh_next (hd_or None c2)) (last_or None c1) H x) as [? ->]; [|done].
           apply Hdef. apply hd_or_in in Hx. set_solver.
      * apply NoDup_app in h4 as (? & ? & [? ?]%NoDup_cons). apply NoDup_app. set_solver.
      * intros q Hq. destruct (h5 q) as (hq & Hhq & Hbk); [set_solver|].
        destruct (same_app_handle H H' q hq) as (hq' & Hhq' & Hpart); [done|done|].
        exists hq'. split; [done|]. injection Hpart as _ _ _ _ _ ->. congruence.
    + rewrite list_lookup_insert_ne in Hc' by done. eapply chain_ok_ext; [|by eapply g3].
      intros q Hq.
      assert (q ∉ c1 ++ p :: c2) as Hq'.
      { intros Hq'. destruct (h5 q Hq') as (hq & Hhq & Hbk).
        destruct (ck_hash _ _ _ _ _ (g3 _ _ _ Hb' Hc') q Hq) as (hq2 & ? & Hbk2). simplify_eq. }
      by rewrite Hout.
Qed.

(** ** Expansion *)

Lemma bkts_empty H nb : bkts_ok H nb (replicate (Z.to_nat nb) empty_bucket) (replicate (Z.to_nat nb) []).
Proof.
  split; [by rewrite !length_replicate..|].
  intros i b c [-> _]%lookup_replicate [-> _]%lookup_replicate. split; simpl; try done.
  - constructor.
  - intros p ?. set_solver.
Qed.

Lemma join_replicate_nil n : mjoin (replicate n []) = @nil Z.
Proof. induction n; [done|]. simpl. done. Qed.

Section expand.
Context (l : Z) (Hl : 0 <= l <= 31).

Lemma bkts_find H bks chains hv :
  bkts_ok H (2 ^ l) bks chains ->
  exists b c, bks !! Z.to_nat (HASH_TO_BKT hv (2 ^ l)) = Some b /\ chains !! Z.to_nat (HASH_TO_BKT hv (2 ^ l)) = Some c.
Proof.
  intros [h1 h2 _]. pose proof (bkt_range hv l Hl).
  destruct (lookup_lt_is_Some_2 bks (Z.to_nat (HASH_TO_BKT hv (2 ^ l)))) as [b Hb]; [lia|].
  destruct (lookup_lt_is_Some_2 chains (Z.to_nat (HASH_TO_BKT hv (2 ^ l)))) as [c Hc]; [lia|]. eauto.
Qed.

Lemma expand_item_ok ideal p h s chains :
  bkts_ok (ex_handles s) (2 ^ l) (ex_buckets s) chains ->
  ex_handles s !! p = Some h -> p ∉ mjoin chains ->
  exists s' chains',
    expand_item (2 ^ l) ideal p s = Done s' /\ same_app (ex_handles s) (ex_handles s') /\
    bkts_ok (ex_handles s') (2 ^ l) (ex_buckets s') chains' /\ mjoin chains' ≡ₚ p :: mjoin chains /\
    (forall q, q <> p -> q ∉ mjoin chains -> ex_handles s' !! q = ex_handles s !! q).
Proof.
  intros Hok Hp Hfresh. destruct (bkts_find _ _ _ (hashv h) Hok) as (b & c & Hb & Hc).
  unfold expand_item, get_hh. rewrite Hp. run. rewrite Hb. run.
  rewrite (upd_hh_run _ _ _ _ Hp). run.
  match goal with |- context [mk_bkt _ _ ?mult] =>
    destruct (chain_push_ok _ _ _ _ _ _ _ _ _ mult Hok Hb Hc Hp Hfresh eq_refl) as (H' & Hrun & Hs & Hok' & Hrest)
  end.
  rewrite Hrun. run. eexists _, _. split; [done|]. simpl. split_and!; [done|exact Hok'| |done].
  by apply join_push.
Qed.

Lemma expand_chain_ok ideal c : forall fuel pr s chains,
  bkts_ok (ex_handles s) (2 ^ l) (ex_buckets s) chains ->
  dseg (hnx (ex_handles s)) (hpv (ex_handles s)) pr c None ->
  NoDup (c ++ mjoin chains) -> (length c <= fuel)%nat ->
  exists s' chains',
    expand_chain fuel (2 ^ l) ideal (hd_or None c) s = Done s' /\ same_app (ex_handles s) (ex_handles s') /\
    bkts_ok (ex_handles s') (2 ^ l) (ex_buckets s') chains' /\ mjoin chains' ≡ₚ c ++ mjoin chains /\
    (forall q, q ∉ c ++ mjoin chains -> ex_handles s' !! q = ex_handles s !! q).
Proof.
  induction c as [|p c IH]; intros fuel pr s chains Hok Hseg Hnd Hf.
  { exists s, chains. by destruct fuel. }
  destruct fuel as [|fuel]; [simpl in Hf; lia|]. simpl in Hseg, Hnd, Hf. destruct Hseg as (_ & Hnx & Hseg).
  apply NoDup_cons in Hnd as [Hp Hnd]. unfold hnx in Hnx.
  destruct (ex_handles s !! p) as [h|] eqn:Hh; [|done]. injection Hnx as Hnx.
  destruct (expand_item_ok ideal p h s chains) as (s1 & chains1 & Hrun & Hs1 & Hok1 & Hperm & Hrest); [done..|set_solver|].
  destruct (IH fuel (Some p) s1 chains1) as (s' & chains' & Hrun' & Hs' & Hok' & Hperm' & Hrest'); [done| | |lia|].
  { eapply dseg_ext; [|exact Hseg]. intros a Ha. unfold hnx, hpv.
    assert (a <> p /\ a ∉ mjoin chains) as [? ?].
    { apply NoDup_app in Hnd as (_ & Hd & _). split; [set_solver|by apply Hd]. }
    by rewrite Hrest. }
  { rewrite Hperm, <- Permutation_middle. by apply NoDup_cons. }
  exists s', chains'. cbn [expand_chain hd_or]. unfold get_hh. rewrite Hh. run. rewrite Hrun. run.
  rewrite Hnx. split_and!; [done|by etrans|done| |].
  - rewrite Hperm', Hperm. by rewrite <- Permutation_middle.
  - intros q Hq. rewrite Hrest', Hrest; [done|set_solver|set_solver|].
    rewrite Hperm. set_solver.
Qed.

Lemma expand_loop_ok bks ideal olds : forall k s chains,
  bkts_ok (ex_handles s) (2 ^ l) (ex_buckets s) chains ->
  (forall j c, olds !! j = Some c -> exists b, bks !! (k + j)%nat = Some b /\ hh_head b = hd_or None c) ->
  (forall c, c ∈ olds -> dseg (hnx (ex_handles s)) (hpv (ex_handles s)) None c None) ->
  NoDup (mjoin olds ++ mjoin chains) ->
  exists s' chains',
    expand_loop bks (2 ^ l) ideal (seq k (length olds)) s = Done s' /\ same_app (ex_handles s) (ex_handles s') /\
    bkts_ok (ex_handles s') (2 ^ l) (ex_buckets s') chains' /\ mjoin chains' ≡ₚ mjoin olds ++ mjoin chains /\
    (forall q, q ∉ mjoin olds ++ mjoin chains -> ex_handles s' !! q = ex_handles s !! q).
Proof.
  induction olds as [|c olds IH]; intros k s chains Hok Hbks Hseg Hnd.
  { exists s, chains. done. }
  destruct (Hbks 0%nat c) as (b & Hb & Hhead); [done|]. rewrite Nat.add_0_r in Hb.
  simpl in Hnd. rewrite <- app_assoc in Hnd. pose proof Hnd as (Hc & Hd & Hnd')%NoDup_app.
  assert (dseg (hnx (ex_handles s)) (hpv (ex_handles s)) None c None) as Hsc by (apply Hseg; set_solver).
  destruct (expand_chain_ok ideal c (S (size (ex_handles s))) None s chains)
    as (s1 & chains1 & Hrun & Hs1 & Hok1 & Hperm & Hrest); [done|done| | |].
  { apply NoDup_app. split_and!; [done|set_solver|by apply NoDup_app in Hnd' as (_ & _ & ?)]. }
  { transitivity (size (ex_handles s)); [|lia]. apply size_bound; [done|].
    clear - Hsc. revert Hsc. generalize (@None Z) at 1. induction c as [|a c IH]; intros o Hsc p Hp; [set_solver|].
    destruct Hsc as (_ & Hnx & Hsc). apply elem_of_cons in Hp as [->|Hp]; [|by eapply IH].
    unfold hnx in Hnx. by destruct (ex_handles s !! a). }
  destruct (IH (S k) s1 chains1) as (s' & chains' & Hrun' & Hs' & Hok' & Hperm' & Hrest'); [done| | | |].
  { intros j c' Hj. destruct (Hbks (S j) c') as (b' & Hb' & ?); [done|]. exists b'. split; [|done]. by rewrite Nat.add_succ_r in Hb'. }
  { intros c' Hc'. eapply dseg_ext; [|apply Hseg; set_solver]. intros a Ha. unfold hnx, hpv.
    rewrite Hrest; [done|]. assert (a ∈ mjoin olds) by (apply list_elem_of_join; eauto).
    apply NoDup_app in Hnd' as (_ & Hd2 & _). intros [?|?]%elem_of_app; [|by eapply Hd2].
    eapply Hd; [done|set_solver]. }
  { rewrite Hperm, !app_assoc, (Permutation_app_comm (mjoin olds) c), <- app_assoc. done. }
  exists s', chains'. cbn [length seq expand_loop]. rewrite Hb. run. rewrite Hhead, Hrun. run.
  split_and!; [done|by etrans|done| |].
  - rewrite Hperm', Hperm. simpl. by rewrite !app_assoc, (Permutation_app_comm (mjoin olds) c).
  - simpl. intros q Hq. rewrite Hrest', Hrest; [done|set_solver|]. rewrite Hperm. set_solver.
Qed.
End expand.

(** What a change of the buckets leaves of the table. *)
Definition same_list (T T' : UT_hash_table) : Prop :=
  num_items T' = num_items T /\ tail T' = tail T /\ hho T' = hho T.

(** A table whose buckets hold the handles [ps]. *)
Record bucketed (H : heap) (T : UT_hash_table) (ps : list Z) : Prop := {
  bu_log : 5 <= log2_num_buckets T <= 31;
  bu_num : num_buckets T = 2 ^ log2_num_buckets T;
  bu_chains : exists chains, bkts_ok H (num_buckets T) (buckets T) chains /\ mjoin chains ≡ₚ ps;
}.

(** [malloc] gives no block of 64 GiB or more, so that the number of buckets
    does not overflow. *)
Definition bounded (o : mallocs) : Prop := forall sz, 2 ^ 36 <= sz -> m_expand o sz = false.

Lemma expand_ok o t T m ps :
  bounded o -> tables m !! t = Some T -> bucketed (handles m) T ps -> NoDup ps ->
  (HASH_EXPAND_BUCKETS o t m = Done None /\ m_expand o (sizeof_bucket * num_buckets T * 2) = false) \/
  exists H' T', HASH_EXPAND_BUCKETS o t m = Done (Some (mk_mem H' (<[t := T']> (tables m)))) /\
    same_app (handles m) H' /\ bucketed H' T' ps /\ same_list T T' /\
    (forall q, q ∉ ps -> H' !! q = handles m !! q).
Proof.
  intros Ho Ht [Hlog Hnum (chains & Hok & Hperm)] Hnd. unfold HASH_EXPAND_BUCKETS, get_table. rewrite Ht. run.
  destruct (m_expand o _) eqn:Hm; [|by eauto]. right. cbn [negb].
  set (l := log2_num_buckets T) in *.
  assert (l <= 30) as Hl30.
  { destruct (decide (l = 31)) as [E|]; [|lia]. rewrite Ho in Hm; [done|].
    rewrite Hnum, E. unfold sizeof_bucket. vm_compute. done. }
  assert (num_buckets T * 2 = 2 ^ (l + 1)) as Hnb by (rewrite Hnum, Z.pow_add_r by lia; lia).
  pose proof (Z.pow_le_mono_r 2 (l + 1) 31) as Hle. pose proof (Z.pow_pos_nonneg 2 (l + 1)) as Hpos.
  rewrite !Hnb. rewrite (wrap_small 32 (2 ^ (l + 1))) by word. rewrite (wrap_small 32 (l + 1)) by word.
  rewrite (proj2 (Z.leb_gt 32 (l + 1))) by lia.
  pose proof (bo_len _ _ _ _ Hok) as Hlen. pose proof (bo_chains _ _ _ _ Hok) as Hlc.
  match goal with |- context [expand_loop _ _ ?ideal _ ?s0] =>
    destruct (expand_loop_ok (l + 1) ltac:(lia) (buckets T) ideal chains 0 s0 (replicate (Z.to_nat (2 ^ (l + 1))) []))
      as (s' & chains' & Hrun & Hs & Hok' & Hperm' & Hrest)
  end.
  { apply bkts_empty. }
  { intros j c Hj. destruct (bkts_chain _ _ _ _ _ _ Hok Hj) as (b & Hb & Hck). exists b. split; [done|]. apply Hck. }
  { intros c [j Hj]%list_elem_of_lookup_1. destruct (bkts_chain _ _ _ _ _ _ Hok Hj) as (b & Hb & Hck). apply Hck. }
  { rewrite join_replicate_nil, app_nil_r. by rewrite Hperm. }
  rewrite <- Hlen, <- Hlc. rewrite Hrun. run.
  rewrite join_replicate_nil, app_nil_r in Hperm', Hrest. rewrite Hperm in Hperm'.
  eexists _, _. split; [done|]. split; [exact Hs|]. split; [|split; [done|]].
  - split; simpl; [lia|done|]. by exists chains'.
  - intros q Hq. apply Hrest. by rewrite Hperm.
Qed.

Lemma bucketed_ext H H' T T' ps :
  (forall p, p ∈ ps -> bkt_part <$> H' !! p = bkt_part <$> H !! p) ->
  buckets T' = buckets T -> num_buckets T' = num_buckets T -> log2_num_buckets T' = log2_num_buckets T ->
  bucketed H T ps -> bucketed H' T' ps.
Proof.
  intros He E1 E2 E3 [Hlog Hnum (chains & [h1 h2 h3] & Hperm)].
  split; [by rewrite E3|by rewrite E2, E3|]. exists chains. split; [|done]. rewrite E1, E2.
  split; [done|done|]. intros i b c Hb Hc. eapply chain_ok_ext; [|by apply h3].
  intros p Hp. apply He. rewrite <- Hperm. apply join_lookup. eauto.
Qed.

(** [HASH_ADD_TO_BKT] of a handle whose bucket is computed by the caller. *)
Lemma add_to_bkt_ok o t T m ps p h :
  bounded o -> tables m !! t = Some T -> bucketed (handles m) T ps -> NoDup (p :: ps) ->
  handles m !! p = Some h -> tbl h = t ->
  let r := HASH_ADD_TO_BKT o t (Z.to_nat (HASH_TO_BKT (hashv h) (num_buckets T))) p m in
  (r = Done None /\ m_expand o (sizeof_bucket * num_buckets T * 2) = false) \/
  exists H' T', r = Done (Some (mk_mem H' (<[t := T']> (tables m)))) /\
    same_app (handles m) H' /\ bucketed H' T' (p :: ps) /\ same_list T T' /\
    (forall q, q ∉ p :: ps -> H' !! q = handles m !! q).
Proof.
  intros Ho Ht [Hlog Hnum (chains & Hok & Hperm)] Hnd Hh Htbl r. subst r.
  unfold HASH_ADD_TO_BKT, get_table. rewrite Ht. run. rewrite Hnum in Hok |- *.
  destruct (bkts_find (log2_num_buckets T) ltac:(lia) _ _ _ (hashv h) Hok) as (b & c & Hb & Hc).
  rewrite Hb. run. rewrite (upd_hh_run _ _ _ _ Hh). run.
  replace (set_hh_prev None (set_hh_next (hh_head b) h)) with (set_hh_next (hh_head b) (set_hh_prev None h)) by done.
  destruct (chain_push_ok _ _ _ _ _ _ _ _ _ (expand_mult b) Hok Hb Hc Hh) as (H' & Hrun & Hs & Hok' & Hrest).
  { rewrite Hperm. apply NoDup_cons in Hnd. tauto. }
  { done. }
  rewrite Hrun. run. destruct (same_app_handle _ _ _ _ Hs Hh) as (h' & Hh' & Hpart).
  injection Hpart as Htbl' _ _ _ _ _. unfold get_hh. rewrite Hh'. run. rewrite Htbl', Htbl. simpl.
  rewrite lookup_insert_eq. run.
  set (T1 := set_buckets _ T). set (m1 := put_table t T1 (put_handles H' m)).
  assert (bucketed H' T1 (p :: ps)) as Hbk.
  { split; [done|done|]. eexists. unfold T1. cbn [num_buckets buckets set_buckets]. rewrite Hnum. split; [exact Hok'|]. by rewrite (join_push _ _ _ _ Hc), Hperm. }
  destruct (_ && _).
  - destruct (expand_ok o t T1 m1 (p :: ps)) as [[-> Hf]|(H2 & T2 & -> & Hs2 & Hbk2 & Hsl & Hrest2)];
      [done| |done|done|by left; rewrite <- Hnum|].
    { unfold m1. simpl. by rewrite lookup_insert_eq. }
    right. exists H2, T2. split; [unfold m1; simpl; by rewrite insert_insert_eq|].
    split; [by etrans|]. split; [done|]. split; [done|].
    intros q Hq. rewrite Hrest2 by done. apply Hrest; [set_solver|]. rewrite Hperm. set_solver.
  - right. exists H', T1. split_and!; try done. intros q Hq. apply Hrest; [set_solver|]. rewrite Hperm. set_solver.
Qed.

(** [HASH_DEL_IN_BKT] of a handle of the table. *)
Lemma del_in_bkt_ok t T m ps p d :
  tables m !! t = Some T -> bucketed (handles m) T (p :: ps) -> NoDup (p :: ps) -> handles m !! p = Some d ->
  exists H' T',
    HASH_DEL_IN_BKT t (Z.to_nat (HASH_TO_BKT (hashv d) (num_buckets T))) p m = Done (mk_mem H' (<[t := T']> (tables m))) /\
    same_app (handles m) H' /\ bucketed H' T' ps /\ same_list T T' /\
    (forall q, q ∉ p :: ps -> H' !! q = handles m !! q).
Proof.
  intros Ht [Hlog Hnum (chains & Hok & Hperm)] Hnd Hd.
  assert (exists i c, chains !! i = Some c /\ p ∈ c) as (i & c & Hc & [c1 [c2 ->]]%list_elem_of_split).
  { apply join_lookup. rewrite Hperm. set_solver. }
  destruct (bkts_chain _ _ _ _ _ _ Hok Hc) as (b & Hb & Hck).
  destruct (ck_hash _ _ _ _ _ Hck p) as (d' & Hd' & Hi); [set_solver|]. simplify_eq.
  destruct (unlink_ok _ _ _ _ _ _ _ _ _ _ (expand_mult b) Hok Hb Hc Hd) as (R1 & R2 & R3 & Hs & Hok' & Hrest).
  unfold HASH_DEL_IN_BKT, get_table, get_hh. rewrite Ht. run. rewrite Hb. run. rewrite Hd. run.
  rewrite R1. run. rewrite R2. run. rewrite R3. run.
  eexists _, _. split; [done|]. split; [exact Hs|]. split; [|split; [done|]].
  2: { intros q Hq. apply Hrest. rewrite <- Hperm in Hq. intros ?. apply Hq, join_lookup. eauto. }
  split; [done|done|]. eexists. split; [exact Hok'|].
  apply (Permutation_app_inv_r (c1 ++ p :: c2)). rewrite (join_insert _ _ _ _ Hc), Hperm.
  rewrite <- (Permutation_middle c1 c2 p), <- !Permutation_middle. f_equiv. apply Permutation_app_comm.
Qed.
