(* ===== verification/HashRefine.v ===== *)
(** * A hash table is a list of elements

    The representation of a list of elements with their keys by the pointers of
    [HashTable], kept by every operation, and what clients of the table see of
    it.  Every list of the library is used through these operations: the
    process entries and CIEs by [HASH_ADD_INT] and [HASH_FIND_INT], images by
    their build id, kernel symbols by their name. *)

From S2P Require Import Prelude HashTable HashChains.
Import Uthash.

(** ** Tables as lists of elements *)

Section represents.
Context (off : Z).

(** The handle [h] carries the key [k]. *)
Record keyed (k : list Z) (h : UT_hash_handle) : Prop := {
  kd_width : is_u32 (Z.of_nat (length k));
  kd_len : keylen h = Z.of_nat (length k);
  kd_key : exists r, key h = k ++ r;
  kd_hash : HASH_JEN k (Z.of_nat (length k)) = Done (hashv h);
}.

Abbreviation handles_of items := ((fun e => e + off) <$> (items : list (Z * list Z)).*1).

(** The table [T] at [t] links [items], elements with their keys in the order of
    their addition, and its buckets hold the handles [ps]; [base] are the other
    tables of the memory. *)
Record table_rep (base : gmap Z UT_hash_table) (m : memory) (t : Z) (T : UT_hash_table)
    (items : list (Z * list Z)) (ps : list Z) : Prop := {
  to_table : tables m = <[t := T]> base;
  to_other : base !! t = None;
  to_nodup : NoDup items.*1;
  to_items e k : (e, k) ∈ items -> exists h, handles m !! (e + off) = Some h /\ tbl h = t /\ keyed k h;
  to_links : dseg (anx off (handles m)) (apv off (handles m)) None items.*1 None;
  to_tail : last_or None items.*1 = Some (tail T - off);
  to_hho : hho T = off;
  to_num : num_items T = u32 (Z.of_nat (length ps));
  to_buckets : bucketed (handles m) T ps;
}.
Abbreviation table_of base m t T items := (table_rep base m t T items (handles_of items)).

Definition represents (base : gmap Z UT_hash_table) (m : memory) (head : option Z) (items : list (Z * list Z)) : Prop :=
  head = hd_or None items.*1 /\
  match items with [] => tables m = base | _ => exists t T, table_of base m t T items end.

Lemma keyed_inj k k' h : keyed k h -> keyed k' h -> k = k'.
Proof.
  intros [_ L [r E] _] [_ L' [r' E'] _].
  apply (f_equal (take (length k))) in E. rewrite take_app_length in E. rewrite <- E, E'.
  replace (length k) with (length k') by lia. by rewrite take_app_length.
Qed.

Definition key_part (h : UT_hash_handle) := (key h, keylen h, hashv h).

Lemma keyed_part k h h' : key_part h' = key_part h -> keyed k h -> keyed k h'.
Proof. intros Hp [? ? ? ?]. injection Hp as Hk Hl Hv. split; congruence || by rewrite Hk. Qed.

Lemma app_key_part h h' : app_part h' = app_part h -> key_part h' = key_part h.
Proof. unfold app_part, key_part. congruence. Qed.

Lemma keyed_hashv k h hv : keyed k h -> HASH_JEN k (Z.of_nat (length k)) = Done hv -> hashv h = hv.
Proof. intros Hk Hhv. rewrite (kd_hash _ _ Hk) in Hhv. by injection Hhv. Qed.

Lemma NoDup_handles items : NoDup items.*1 -> NoDup (handles_of items).
Proof. intros Hn. apply NoDup_fmap_2; [|done]. intros x y. lia. Qed.

Lemma in_handles items e : e + off ∈ handles_of items <-> e ∈ items.*1.
Proof.
  rewrite list_elem_of_fmap. split; [intros (e' & He & Hin); by replace e with e' by lia|eauto].
Qed.

Lemma head_table_run base m t T items ps e :
  table_rep base m t T items ps -> e ∈ items.*1 -> head_table off m e = Done (t, T).
Proof.
  intros HT ([e' k] & -> & Hin)%list_elem_of_fmap. destruct (to_items _ _ _ _ _ _ HT _ _ Hin) as (h & Hh & Htb & _).
  unfold head_table, get_hh, get_table. simpl. rewrite Hh. run.
  by rewrite (to_table _ _ _ _ _ _ HT), Htb, lookup_insert_eq.
Qed.

(** *** Look-up *)

Lemma keycmp_run k h K kmem n :
  keyed k h -> keylen h = n -> n = Z.of_nat (length K) -> (exists r, kmem = K ++ r) ->
  HASH_KEYCMP (key h) kmem n = Done (bool_decide (k = K)).
Proof.
  intros [_ Hl [r ->] _] Hn HK [r' ->]. unfold HASH_KEYCMP. rewrite !length_app.
  replace (_ || _) with false by (symmetry; apply orb_false_iff; split; apply Z.ltb_ge; lia).
  by rewrite (take_app_length' k), (take_app_length' K) by lia.
Qed.

Lemma find_chain_ok T H K kmem hv c : forall fuel pr,
  hho T = off -> dseg (hnx H) (hpv H) pr c None -> (length c <= fuel)%nat ->
  (forall p, p ∈ c -> exists h k, H !! p = Some h /\ keyed k h) ->
  (exists r, kmem = K ++ r) -> HASH_JEN K (Z.of_nat (length K)) = Done hv ->
  exists r, find_chain off fuel T H kmem (Z.of_nat (length K)) hv (ELMT_FROM_HH T <$> hd_or None c) = Done r /\
    match r with
    | Some e => e + off ∈ c /\ exists h, H !! (e + off) = Some h /\ keyed K h
    | None => forall p h, p ∈ c -> H !! p = Some h -> ~ keyed K h
    end.
Proof.
  induction c as [|p c IH]; intros fuel pr Hho Hseg Hf Hkey Hmem Hhv.
  { exists None. split; [by destruct fuel|set_solver]. }
  destruct fuel as [|fuel]; [simpl in Hf; lia|]. destruct Hseg as (_ & Hnx & Hseg).
  destruct (Hkey p) as (h & k & Hh & Hk); [set_solver|].
  cbn [hd_or fmap option_fmap option_map find_chain].
  assert (ELMT_FROM_HH T p + off = p) as -> by (unfold ELMT_FROM_HH; lia). unfold get_hh. rewrite Hh. run.
  unfold hnx in Hnx. rewrite Hh in Hnx. injection Hnx as Hnx. rewrite Hnx.
  destruct (IH fuel (Some p)) as (r & Hrun & Hr); [done|done|simpl in Hf; lia|set_solver|done|done|].
  destruct (decide (k = K)) as [->|Hne].
  - rewrite (proj2 (Z.eqb_eq _ _)); [|by eapply keyed_hashv].
    rewrite (proj2 (Z.eqb_eq _ _)) by apply Hk. cbn [andb].
    rewrite (keycmp_run K h K kmem) by (done || apply Hk). rewrite bool_decide_true by done. run.
    exists (Some (ELMT_FROM_HH T p)). split; [done|].
    assert (ELMT_FROM_HH T p + off = p) as -> by (unfold ELMT_FROM_HH; lia). set_solver.
  - assert ((if (hashv h =? hv) && (keylen h =? Z.of_nat (length K)) then HASH_KEYCMP (key h) kmem (Z.of_nat (length K))
             else mret false) = Done false) as ->.
    { destruct (_ && _) eqn:E; [|done]. apply andb_true_iff in E as [_ E%Z.eqb_eq].
      rewrite (keycmp_run k h K kmem) by done. by rewrite bool_decide_false. }
    run. exists r. split; [done|]. destruct r as [e|].
    + destruct Hr as [? ?]. split; [set_solver|done].
    + intros q h' [->|Hq]%elem_of_cons Hh'; [|by eapply Hr]. simplify_eq. intros HK. apply Hne. by eapply keyed_inj.
Qed.

Lemma find_ok base m head items kmem n :
  represents base m head items -> is_u32 n -> n <= Z.of_nat (length kmem) ->
  exists r, HASH_FIND off m head kmem n = Done r /\
    match r with
    | Some e => (e, take (Z.to_nat n) kmem) ∈ items
    | None => forall e, (e, take (Z.to_nat n) kmem) ∉ items
    end.
Proof.
  intros [-> Hrep] Hn Hlen. destruct items as [|[e0 k0] items0].
  { exists None. split; [done|set_solver]. }
  set (items := (e0, k0) :: items0) in *. destruct Hrep as (t & T & HT).
  set (K := take (Z.to_nat n) kmem).
  assert (Z.of_nat (length K) = n) as HKn by (unfold K; rewrite length_take; word).
  destruct (HASH_JEN_total kmem n Hn Hlen) as [hv Hhv].
  assert (HASH_JEN K (Z.of_nat (length K)) = Done hv) as HK by (rewrite HKn, <- Hhv; symmetry; by apply HASH_JEN_take).
  assert (e0 ∈ items.*1) as He0 by (unfold items; set_solver).
  cbn [items hd_or fmap list_fmap HASH_FIND HASH_FIND_BYHASHVALUE fst]. rewrite Hhv. run.
  rewrite (head_table_run _ _ _ _ _ _ _ HT He0). run.
  destruct (to_buckets _ _ _ _ _ _ HT) as [Hlog Hnum (chains & Hok & Hperm)]. rewrite Hnum in Hok |- *.
  destruct (bkts_find (log2_num_buckets T) ltac:(lia) _ _ _ hv Hok) as (b & c & Hb & Hc). rewrite Hb. run.
  pose proof (bo_ok _ _ _ _ Hok _ _ _ Hb Hc) as [C1 C2 C3 C4 C5].
  assert (forall p, p ∈ c -> exists e k, p = e + off /\ (e, k) ∈ items) as Hc_items.
  { intros p Hp. assert (p ∈ handles_of items) as Hp' by (rewrite <- Hperm; apply join_lookup; eauto).
    apply list_elem_of_fmap in Hp' as (e & -> & ([e' k] & -> & Hin)%list_elem_of_fmap). eauto. }
  unfold HASH_FIND_IN_BKT. rewrite C1, <- HKn.
  destruct (find_chain_ok T (handles m) K kmem hv c (S (size (handles m))) None) as (r & Hrun & Hr);
    [apply HT|done| | | |done|].
  { transitivity (size (handles m)); [|lia]. apply size_bound; [done|]. intros p Hp. destruct (C5 p Hp) as (? & -> & _). eauto. }
  { intros p Hp. destruct (Hc_items p Hp) as (e & k & -> & Hin).
    destruct (to_items _ _ _ _ _ _ HT _ _ Hin) as (h & Hh & _ & Hk). eauto. }
  { exists (drop (Z.to_nat n) kmem). unfold K. by rewrite take_drop. }
  exists r. split; [done|]. destruct r as [e|].
  - destruct Hr as (Hec & h & Hh & Hk). destruct (Hc_items _ Hec) as (e' & k & He & Hin).
    assert (e = e') as -> by lia. destruct (to_items _ _ _ _ _ _ HT _ _ Hin) as (h' & Hh' & _ & Hk'). simplify_eq.
    by rewrite (keyed_inj _ _ _ Hk Hk').
  - intros e Hin. destruct (to_items _ _ _ _ _ _ HT _ _ Hin) as (h & Hh & _ & Hk).
    apply (Hr (e + off) h); [|done|done].
    assert (e + off ∈ mjoin chains) as (i & c' & Hc' & Hin')%join_lookup.
    { rewrite Hperm. apply in_handles, list_elem_of_fmap. by exists (e, K). }
    destruct (bkts_chain _ _ _ _ _ _ Hok Hc') as (b' & Hb' & Hck).
    destruct (ck_hash _ _ _ _ _ Hck _ Hin') as (h' & Hh' & <-).
    assert (h' = h) as -> by congruence. rewrite (keyed_hashv _ _ _ Hk HK) in Hc'. by simplify_eq.
Qed.

(** *** Addition *)

Lemma dseg_same_app H H' p l n :
  same_app H H' -> dseg (anx off H) (apv off H) p l n -> dseg (anx off H') (apv off H') p l n.
Proof.
  intros Hs. apply dseg_ext. intros a _. unfold anx, apv. specialize (Hs (a + off)).
  destruct (H !! (a + off)), (H' !! (a + off)); simpl in Hs; simplify_eq/=; split; congruence.
Qed.

(** A change of the buckets only. *)
Lemma table_rebucket base m t T items ps H' T' ps' :
  table_rep base m t T items ps -> same_app (handles m) H' -> tail T' = tail T -> hho T' = hho T ->
  num_items T' = u32 (Z.of_nat (length ps')) -> bucketed H' T' ps' ->
  table_rep base (mk_mem H' (<[t := T']> (tables m))) t T' items ps'.
Proof.
  intros [h1 h2 h3 h4 h5 h6 h7 h8 h9] Hs Et Eo En Hb. split; simpl; [|done|done| | |congruence|congruence|done|done].
  - by rewrite h1, insert_insert_eq.
  - intros e k (h & Hh & Htb & Hk)%h4. destruct (same_app_handle _ _ _ _ Hs Hh) as (h' & Hh' & Hp).
    exists h'. split; [done|]. split; [|apply (keyed_part _ h); [by apply app_key_part|done]]. by injection Hp as -> _ _ _ _ _.
  - by eapply dseg_same_app.
Qed.

Lemma table_perm base m t T items ps ps' :
  ps ≡ₚ ps' -> table_rep base m t T items ps -> table_rep base m t T items ps'.
Proof.
  intros Hp [h1 h2 h3 h4 h5 h6 h7 h8 [g1 g2 (chains & g3 & g4)]].
  split; [done..|by rewrite <- Hp|]. split; [done|done|]. exists chains. split; [done|]. by rewrite g4.
Qed.

Lemma add_to_table_ok o base m t T items ps hd e k h :
  bounded o -> table_rep base m t T items ps -> hd ∈ items.*1 -> (e, k) ∈ items -> NoDup (e + off :: ps) ->
  handles m !! (e + off) = Some h ->
  let r := HASH_ADD_TO_TABLE off o hd (hashv h) e m in
  (r = Done None /\ m_expand o (sizeof_bucket * num_buckets T * 2) = false) \/
  exists m' T', r = Done (Some m') /\ table_rep base m' t T' items (e + off :: ps) /\
    same_app (handles m) (handles m') /\ (forall q, q ∉ e + off :: ps -> handles m' !! q = handles m !! q).
Proof.
  intros Ho HT Hhd Hin Hnd Hh r. subst r. unfold HASH_ADD_TO_TABLE.
  rewrite (head_table_run _ _ _ _ _ _ _ HT Hhd). run.
  set (T1 := set_num_items (add32 (num_items T) 1) T). set (m1 := put_table t T1 m).
  destruct (to_items _ _ _ _ _ _ HT _ _ Hin) as (h' & Hh' & Htb & Hk). simplify_eq.
  change (num_buckets T) with (num_buckets T1).
  destruct (add_to_bkt_ok o (tbl h) T1 m1 ps (e + off) h) as [[-> ?]|(H' & T' & -> & Hs & Hb & (E1 & E2 & E3) & Hrest)];
    [done|by simpl; rewrite lookup_insert_eq| |done|done|done|by left|].
  { eapply bucketed_ext; [..|apply HT]; done. }
  right. eexists _, T'. split; [done|]. split; [|done].
  unfold m1. cbn [put_table tables]. rewrite insert_insert_eq. eapply table_rebucket; [exact HT|done|exact E2|exact E3| |done].
  rewrite E1. simpl. rewrite (to_num _ _ _ _ _ _ HT). unfold add32. rewrite wrap_add_l. f_equal. lia.
Qed.

(** The first element: [HASH_MAKE_TABLE]. *)
Lemma make_table_ok o t base m e k h :
  tables m = base -> base !! t = None -> handles m !! (e + off) = Some h ->
  prev h = None -> next h = None -> keyed k h -> m_table o = Some t -> m_buckets o = true ->
  exists m' T, HASH_MAKE_TABLE off o e m = Done (Some m') /\ table_rep base m' t T [(e, k)] [] /\
    num_buckets T = HASH_INITIAL_NUM_BUCKETS /\
    handles m' = <[e + off := set_tbl t h]> (handles m).
Proof.
  intros Hb Hf Hh Hp Hn Hk Ht Hbk. unfold HASH_MAKE_TABLE. rewrite Ht, (upd_hh_run _ _ _ _ Hh). run. rewrite Hbk. cbn [negb].
  eexists _, (initial_table off e). split; [done|]. split; [|done]. split; simpl; [by rewrite Hb|done|apply NoDup_singleton| | | |done|done|].
  - intros e' k' [= -> ->]%list_elem_of_singleton. eexists. rewrite lookup_insert_eq. split; [done|]. split; [done|].
    by apply (keyed_part _ h).
  - unfold anx, apv. rewrite lookup_insert_eq. simpl. by rewrite Hp, Hn.
  - apply f_equal. cbn [tail initial_table]. lia.
  - split; simpl; [unfold HASH_INITIAL_NUM_BUCKETS_LOG2; lia|done|].
    exists (replicate (Z.to_nat HASH_INITIAL_NUM_BUCKETS) []). split; [apply bkts_empty|by rewrite join_replicate_nil].
Qed.

(** Another element: [HASH_APPEND_LIST], for a handle that has its key and
    table. *)
Lemma append_ok base m t T items ps hd e k h :
  table_rep base m t T items ps -> hd ∈ items.*1 -> e ∉ items.*1 -> e + off ∉ ps ->
  handles m !! (e + off) = Some h -> tbl h = t -> keyed k h ->
  exists m' T' h', HASH_APPEND_LIST off hd e m = Done m' /\ table_rep base m' t T' (items ++ [(e, k)]) ps /\
    num_buckets T' = num_buckets T /\
    handles m' !! (e + off) = Some h' /\ hashv h' = hashv h /\
    (forall q, q ∉ handles_of items -> q <> e + off -> handles m' !! q = handles m !! q).
Proof.
  intros HT Hhd He Heps Hh Htb Hk. pose proof HT as [h1 h2 h3 h4 h5 h6 h7 h8 h9].
  unfold HASH_APPEND_LIST. rewrite (head_table_run _ _ _ _ _ _ _ HT Hhd). run.
  rewrite (upd_hh_run _ _ _ _ Hh). run. set (z := tail T - off) in *.
  assert (tail T = z + off) as Hz by (unfold z; lia). assert (z ∈ items.*1) as Hzin by by apply last_or_None_in.
  assert (z <> e) as Hze by (intros ->; done).
  apply list_elem_of_fmap in Hzin as ([z' kz] & Ez & Hzin). simpl in Ez. subst z'.
  destruct (h4 _ _ Hzin) as (hz & Hhz & Htz & Hkz).
  set (H1 := <[e + off := _]> (handles m)).
  assert (H1 !! (z + off) = Some hz) as Hz1 by (unfold H1; rewrite lookup_insert_ne by lia; done).
  rewrite Hz, (upd_hh_run _ _ _ _ Hz1). run.
  set (h' := set_prev _ _) in H1. set (H2 := <[z + off := set_next (Some e) hz]> H1).
  assert (H2 !! (e + off) = Some h') as He2 by (unfold H2, H1; rewrite lookup_insert_ne, lookup_insert_eq by lia; done).
  assert (forall q, q <> e -> q <> z -> H2 !! (q + off) = handles m !! (q + off)) as Hout.
  { intros q ? ?. unfold H2, H1. by rewrite !lookup_insert_ne by lia. }
  assert (H2 !! (z + off) = Some (set_next (Some e) hz)) as Hz2 by (unfold H2; by rewrite lookup_insert_eq).
  exists (put_table t (set_tail (e + off) T) (put_handles H2 m)), (set_tail (e + off) T), h'.
  split; [done|]. split_and!; [|done|done|done|].
  2: { intros q Hq ?. cbn [put_table put_handles handles]. unfold H2, H1. rewrite !lookup_insert_ne; [done|done|]. intros <-. apply Hq, in_handles.
       apply list_elem_of_fmap. by exists (z, kz). }
  split; simpl.
  - by rewrite h1, insert_insert_eq.
  - done.
  - rewrite fmap_app. simpl. apply NoDup_app. split_and!; [done|set_solver|apply NoDup_singleton].
  - intros e' k' [Hin|[= -> ->]%list_elem_of_singleton]%elem_of_app.
    + destruct (h4 _ _ Hin) as (he' & Hhe' & ? & ?). assert (e' ∈ items.*1) by (apply list_elem_of_fmap; by exists (e', k')).
      destruct (decide (e' = z)) as [->|]; [|exists he'; rewrite Hout; [done|congruence|done]].
      exists (set_next (Some e) he'). assert (he' = hz) as -> by congruence. split; [done|]. split; [done|]. by apply (keyed_part _ hz).
    + exists h'. split; [done|]. split; [done|]. by apply (keyed_part _ h).
  - rewrite fmap_app. simpl. eapply (dseg_snoc (anx off (handles m)) (apv off (handles m))); [| | | | | |done]; unfold anx, apv.
    + apply NoDup_app. split_and!; [done|set_solver|apply NoDup_singleton].
    + by rewrite He2.
    + rewrite He2, h6. unfold h', ELMT_FROM_HH. simpl. do 2 f_equal. lia.
    + intros x Hx. destruct (decide (x = z)) as [->|]; [by rewrite Hz2, Hhz|rewrite Hout; [done|congruence|done]].
    + intros x Hx Hl. rewrite Hout; [done|congruence|congruence].
    + intros x Hx. rewrite h6 in Hx. injection Hx as <-. by rewrite Hz2.
  - rewrite fmap_app, last_or_app. simpl. f_equal. lia.
  - done.
  - done.
  - eapply bucketed_ext; [..|exact h9]; [|done..]. intros p Hp. unfold H2, H1.
    destruct (decide (p = z + off)) as [->|]; [by rewrite lookup_insert_eq, Hhz|].
    rewrite lookup_insert_ne by done. rewrite lookup_insert_ne; [done|]. congruence.
Qed.

Lemma bucketed_defined H T ps p : bucketed H T ps -> p ∈ ps -> is_Some (H !! p).
Proof.
  intros [_ _ (chains & Hok & Hperm)] Hp. rewrite <- Hperm in Hp. apply join_lookup in Hp as (i & c & Hc & Hp).
  destruct (bkts_chain _ _ _ _ _ _ Hok Hc) as (b & _ & Hck). destruct (ck_hash _ _ _ _ _ Hck p Hp) as (? & -> & _). eauto.
Qed.

(** The allocations of an addition that may end the process. *)
Definition alloc_fails (o : mallocs) (m : memory) : Prop :=
  m_table o = None \/ m_buckets o = false \/
  exists nb, (nb = HASH_INITIAL_NUM_BUCKETS \/ exists t T, tables m !! t = Some T /\ num_buckets T = nb) /\
    m_expand o (sizeof_bucket * nb * 2) = false.

Lemma keyed_set_key kmem n hv h :
  is_u32 n -> n <= Z.of_nat (length kmem) -> HASH_JEN kmem n = Done hv ->
  keyed (take (Z.to_nat n) kmem) (set_key kmem (u32 n) hv h).
Proof.
  intros Hn Hl Hhv. assert (Z.of_nat (length (take (Z.to_nat n) kmem)) = n) as E by (rewrite length_take; word).
  split; simpl; [by rewrite E|by rewrite wrap_small, E| |by rewrite E, <- HASH_JEN_take].
  exists (drop (Z.to_nat n) kmem). by rewrite take_drop.
Qed.

Lemma handles_snoc items e k : e + off :: handles_of items ≡ₚ handles_of (items ++ [(e, k)]).
Proof. rewrite fmap_app, fmap_app. simpl. by rewrite <- Permutation_cons_append. Qed.

Lemma represents_intro base m t T items head :
  table_of base m t T items -> head = hd_or None items.*1 -> represents base m head items.
Proof. intros HT ->. split; [done|]. destruct items; [|eauto]. by pose proof (to_tail _ _ _ _ _ _ HT). Qed.

(** The handles an operation on [items] and [e] writes. *)
Definition frame (H H' : heap) (items : list (Z * list Z)) (e : Z) : Prop :=
  forall q, q ∉ handles_of items -> q <> e + off -> H' !! q = H !! q.

(** The end of an addition, once the element is linked. *)
Lemma add_linked_ok o base m m1 t T T1 items hd e k h :
  bounded o -> table_rep base m1 t T1 (items ++ [(e, k)]) (handles_of items) -> e ∉ items.*1 ->
  hd_or None (items ++ [(e, k)]).*1 = Some hd -> handles m1 !! (e + off) = Some h ->
  frame (handles m) (handles m1) items e -> num_buckets T1 = num_buckets T ->
  (num_buckets T = HASH_INITIAL_NUM_BUCKETS \/ tables m !! t = Some T) ->
  (HASH_ADD_TO_TABLE off o hd (hashv h) e m1 = Done None /\ alloc_fails o m) \/
  exists m', HASH_ADD_TO_TABLE off o hd (hashv h) e m1 = Done (Some m') /\
    represents base m' (Some hd) (items ++ [(e, k)]) /\ frame (handles m) (handles m') items e.
Proof.
  intros Ho HT He Hhd Hh Hfr Hnb Hnb'.
  assert (NoDup (e + off :: handles_of items)) as Hnd.
  { rewrite handles_snoc. by apply NoDup_handles, HT. }
  destruct (add_to_table_ok o base m1 t T1 (items ++ [(e, k)]) (handles_of items) hd e k h)
    as [[-> Hf]|(m' & T' & -> & HT' & Hs & Hrest)]; [done|done|by apply hd_or_in|set_solver|done|done| |].
  - left. split; [done|]. right. right. exists (num_buckets T). rewrite <- Hnb at 2. split; [|done].
    destruct Hnb'; [by left|right; eauto].
  - right. exists m'. split; [done|]. split.
    + eapply represents_intro; [|done]. eapply table_perm; [apply handles_snoc|done].
    + intros q Hq Hqe. rewrite Hrest by set_solver. by apply Hfr.
Qed.

(** The last steps of [HASH_ADD_KEYPTR_BYHASHVALUE]. *)
Definition finish_add (o : mallocs) (hd hv e : Z) (m : memory) : outcome (option (memory * option Z)) :=
  m ← HASH_ADD_TO_TABLE off o hd hv e m; mret (option_map (fun m => (m, Some hd)) m).

(** The first element, and another one, given their handle with its key. *)
Lemma add_first_ok o base m e k h :
  let H := <[e + off := h]> (handles m) in let h2 := set_prev None (set_next None h) in
  tables m = base -> bounded o -> (forall t, m_table o = Some t -> base !! t = None) -> keyed k h ->
  let r := m1 ← HASH_MAKE_TABLE off o e (mk_mem (<[e + off := h2]> (handles m)) (tables m));
           match m1 with
           | None => mret None
           | Some m1 => finish_add o e (hashv h) e m1
           end in
  (r = Done None /\ alloc_fails o m) \/
  exists m' head', r = Done (Some (m', head')) /\
    represents base m' head' [(e, k)] /\ frame (handles m) (handles m') [] e.
Proof.
  intros H h2 Hbase Ho Hfresh Hk r. subst r. set (m2 := mk_mem _ (tables m)).
  assert (keyed k h2) as Hk2 by by apply (keyed_part _ h).
  destruct (m_table o) as [t|] eqn:Et.
  2: { left. split; [|by left]. unfold HASH_MAKE_TABLE. by rewrite Et. }
  destruct (m_buckets o) eqn:Eb.
  2: { left. split; [|by right; left]. unfold HASH_MAKE_TABLE. rewrite Et.
       erewrite upd_hh_run by apply lookup_insert_eq. run. by rewrite Eb. }
  destruct (make_table_ok o t base m2 e k h2) as (m' & T & -> & HT & HnT & Hm');
    [done|by apply Hfresh|by simpl; rewrite lookup_insert_eq|done..|].
  run. unfold finish_add. assert (handles m' !! (e + off) = Some (set_tbl t h2)) as Hhe by (rewrite Hm'; apply lookup_insert_eq).
  change (hashv h) with (hashv (set_tbl t h2)).
  destruct (add_linked_ok o base m m' t T T [] e e k (set_tbl t h2)) as [[-> Hf]|(m'' & -> & Hr & Hfr)];
    [done|done|apply not_elem_of_nil|done|done| |done|by left| |].
  - intros q _ Hq. rewrite Hm'. unfold m2. simpl. by rewrite !lookup_insert_ne by done.
  - left. by run.
  - right. exists m'', (Some e). split; [by run|done].
Qed.

(** Handles outside the table may change. *)
Lemma table_other base m t T items H' :
  table_of base m t T items -> (forall x, x ∈ items.*1 -> H' !! (x + off) = handles m !! (x + off)) ->
  table_of base (mk_mem H' (tables m)) t T items.
Proof.
  intros [g1 g2 g3 g4 g5 g6 g7 g8 g9] Hsame. split; try done; simpl.
  - intros e' k' Hin. rewrite Hsame; [by apply g4|]. apply list_elem_of_fmap. by exists (e', k').
  - eapply dseg_ext; [|exact g5]. intros a Ha. unfold anx, apv. by rewrite Hsame.
  - eapply bucketed_ext; [..|exact g9]; [|done..]. intros p (x & -> & Hx)%list_elem_of_fmap. by rewrite Hsame.
Qed.

Lemma add_next_ok o base m t T (items : list (Z * list Z)) hd e k h :
  let h2 := set_tbl t h in
  table_of base m t T items -> hd_or None items.*1 = Some hd -> bounded o -> e ∉ items.*1 -> keyed k h ->
  let r := HASH_APPEND_LIST off hd e (mk_mem (<[e + off := h2]> (handles m)) (tables m)) ≫= finish_add o hd (hashv h) e in
  (r = Done None /\ alloc_fails o m) \/
  exists m' head', r = Done (Some (m', head')) /\
    represents base m' head' (items ++ [(e, k)]) /\ frame (handles m) (handles m') items e.
Proof.
  intros h2 HT Hhd Ho He Hk r. subst r. set (m2 := mk_mem _ (tables m)).
  assert (table_of base m2 t T items) as HT2.
  { apply table_other; [done|]. intros x Hx. rewrite lookup_insert_ne; [done|]. intros ?. assert (e = x) as -> by lia. done. }
  destruct (append_ok base m2 t T items (handles_of items) hd e k h2)
    as (m3 & T3 & h3 & -> & HT3 & Hnb & Hh3 & Hhv3 & Hfr);
    [done|by apply hd_or_in|done|by rewrite in_handles|by apply lookup_insert_eq|done|by apply (keyed_part _ h)|].
  run. unfold finish_add. change (hashv h) with (hashv h2). rewrite <- Hhv3.
  assert (hd_or None (items ++ [(e, k)]).*1 = Some hd) as Hhd'.
  { by destruct items. }
  destruct (add_linked_ok o base m m3 t T T3 items hd e k h3) as [[-> Hf]|(m'' & -> & Hr & Hfr'')];
    [done..| |done| | |].
  - intros q Hq Hqe. rewrite Hfr by done. unfold m2. simpl. by rewrite lookup_insert_ne by done.
  - right. by rewrite (to_table _ _ _ _ _ _ HT), lookup_insert_eq.
  - left. by run.
  - right. exists m'', (Some hd). split; [by run|done].
Qed.

Lemma add_ok o base m head items kmem n e h0 :
  represents base m head items -> bounded o -> (forall t, m_table o = Some t -> base !! t = None) ->
  handles m !! (e + off) = Some h0 -> e ∉ items.*1 -> is_u32 n -> n <= Z.of_nat (length kmem) ->
  (HASH_ADD_KEYPTR off o m head kmem n e = Done None /\ alloc_fails o m) \/
  exists m' head', HASH_ADD_KEYPTR off o m head kmem n e = Done (Some (m', head')) /\
    represents base m' head' (items ++ [(e, take (Z.to_nat n) kmem)]) /\ frame (handles m) (handles m') items e.
Proof.
  intros [-> Hrep] Ho Hfresh Hh He Hn Hl. unfold HASH_ADD_KEYPTR, HASH_ADD_KEYPTR_BYHASHVALUE.
  destruct (HASH_JEN_total kmem n Hn Hl) as [hv Hhv]. rewrite Hhv. run.
  pose proof (keyed_set_key kmem n hv h0 Hn Hl Hhv) as Hk. set (K := take _ kmem) in *.
  rewrite (upd_hh_run _ _ _ _ Hh). run. set (h1 := set_key kmem (u32 n) hv h0) in *.
  cbn [handles put_handles]. set (H1 := <[e + off := h1]> (handles m)).
  assert (H1 !! (e + off) = Some h1) as Hh1 by apply lookup_insert_eq.
  destruct items as [|[e0 k0] items0].
  - pose proof (add_first_ok o base m e K h1 Hrep Ho Hfresh Hk) as Hadd.
    cbn [hd_or fmap list_fmap]. rewrite (upd_hh_run _ _ _ _ Hh1). run. unfold H1. rewrite insert_insert_eq.
    unfold put_handles. cbn [tables]. destruct (HASH_MAKE_TABLE _ _ _ _) as [[m1|]|]; exact Hadd.
  - set (items := (e0, k0) :: items0) in *. destruct Hrep as (t & T & HT).
    change (hd_or None items.*1) with (Some e0). assert (e0 <> e) as Hne by (unfold items in He; set_solver).
    destruct (to_items _ _ _ _ _ _ HT e0 k0) as (hh & Hhh & Hhht & _); [unfold items; set_solver|].
    rewrite (get_hh_run (e0 + off) H1 hh) by (unfold H1; by rewrite lookup_insert_ne by lia). run.
    rewrite (upd_hh_run _ _ _ _ Hh1). run. rewrite Hhht. unfold H1. rewrite insert_insert_eq.
    pose proof (add_next_ok o base m t T items e0 e K h1 HT eq_refl Ho He Hk) as Hadd.
    unfold put_handles. cbn [tables]. destruct (HASH_APPEND_LIST _ _ _ _) as [m1|]; exact Hadd.
Qed.

(** *** Deletion *)

Definition hh_of (o : option Z) : option Z := (fun e => e + off) <$> o.

Lemma anx_set_prev v o H x : anx off (set_opt (set_prev v) o H) x = anx off H x.
Proof. unfold anx. rewrite lookup_set_opt. case_decide; [|done]. by destruct (H !! _). Qed.
Lemma apv_set_next v o H x : apv off (set_opt (set_next v) o H) x = apv off H x.
Proof. unfold apv. rewrite lookup_set_opt. case_decide; [|done]. by destruct (H !! _). Qed.
Lemma hh_of_eq o x : hh_of o = Some (x + off) <-> o = Some x.
Proof.
  unfold hh_of. destruct o as [y|]; simpl; [|done]. split; [|congruence].
  intros [= ?]. f_equal. lia.
Qed.
Lemma anx_set_next v o H x :
  anx off (set_opt (set_next v) (hh_of o) H) x =
  if decide (o = Some x) then (fun _ => v) <$> H !! (x + off) else anx off H x.
Proof.
  unfold anx. rewrite lookup_set_opt. destruct (decide (o = Some x)) as [E|E].
  - rewrite decide_True by by apply hh_of_eq. by destruct (H !! _).
  - by rewrite decide_False by by rewrite hh_of_eq.
Qed.
Lemma apv_set_prev v o H x :
  apv off (set_opt (set_prev v) (hh_of o) H) x =
  if decide (o = Some x) then (fun _ => v) <$> H !! (x + off) else apv off H x.
Proof.
  unfold apv. rewrite lookup_set_opt. destruct (decide (o = Some x)) as [E|E].
  - rewrite decide_True by by apply hh_of_eq. by destruct (H !! _).
  - by rewrite decide_False by by rewrite hh_of_eq.
Qed.

(** What the patches of the list leave of a handle. *)
Definition patched (H H' : heap) : Prop :=
  forall p, bkt_part <$> H' !! p = bkt_part <$> H !! p /\ tbl <$> H' !! p = tbl <$> H !! p /\
            key_part <$> H' !! p = key_part <$> H !! p.

Lemma patched_set_opt f o H :
  (forall h, bkt_part (f h) = bkt_part h /\ tbl (f h) = tbl h /\ key_part (f h) = key_part h) -> patched H (set_opt f o H).
Proof.
  intros Hf p. rewrite lookup_set_opt. case_decide; [|done].
  destruct (H !! p) as [h|]; simpl; [|done]. by destruct (Hf h) as (-> & -> & ->).
Qed.

#[export] Instance patched_trans : Transitive patched.
Proof.
  intros H1 H2 H3 E1 E2 p. destruct (E1 p) as (? & ? & ?), (E2 p) as (? & ? & ?). split_and!; congruence.
Qed.

Lemma patched_handle H H' p h k t :
  patched H H' -> H !! p = Some h -> tbl h = t -> keyed k h ->
  exists h', H' !! p = Some h' /\ tbl h' = t /\ keyed k h'.
Proof.
  intros Hp Hh Ht Hk. destruct (Hp p) as (_ & E1 & E2). rewrite Hh in E1, E2.
  destruct (H' !! p) as [h'|]; [|done]. exists h'. split; [done|]. split.
  - injection E1. congruence.
  - apply (keyed_part _ h); [|done]. by apply (inj Some).
Qed.

(** The list without the element, its neighbours patched; the element is still
    in its bucket. *)
Lemma patch_ok base m t T T' i1 e k i2 ps :
  let P := last_or None i1.*1 in let N := hd_or None i2.*1 in
  let H1 := set_opt (set_next N) (hh_of P) (handles m) in
  let H2 := set_opt (set_prev P) (hh_of N) H1 in
  table_rep base m t T (i1 ++ (e, k) :: i2) ps ->
  last_or None (i1 ++ i2).*1 = Some (tail T' - off) ->
  buckets T' = buckets T -> num_buckets T' = num_buckets T -> log2_num_buckets T' = log2_num_buckets T ->
  num_items T' = num_items T -> hho T' = hho T ->
  table_rep base (mk_mem H2 (<[t := T']> (tables m))) t T' (i1 ++ i2) ps.
Proof.
  intros P N H1 H2 [h1 h2 h3 h4 h5 h6 h7 h8 h9] Htl E1 E2 E3 E4 E5.
  assert (patched (handles m) H2) as Hpat by (etrans; apply patched_set_opt; by intros).
  rewrite !fmap_app in *. simpl in h3, h5.
  assert (forall x, x ∈ i1.*1 ++ i2.*1 -> is_Some (handles m !! (x + off))) as Hdef.
  { rewrite <- fmap_app. intros x ([e' k'] & -> & Hin)%list_elem_of_fmap.
    simpl. destruct (h4 e' k') as (h' & -> & _); [set_solver|eauto]. }
  split; simpl; [by rewrite h1, insert_insert_eq|done| | | | |congruence|congruence|].
  - rewrite fmap_app. apply NoDup_app in h3 as (? & ? & [? ?]%NoDup_cons). apply NoDup_app. set_solver.
  - intros e' k' Hin. destruct (h4 e' k') as (h' & Hh' & Ht' & Hk'); [set_solver|]. by eapply patched_handle.
  - rewrite fmap_app. eapply (dseg_unlink (anx off (handles m)) (apv off (handles m))); [exact h3| | | | |exact h5];
      unfold H2, H1; intros x Hx; try intros Hx'.
    + by rewrite anx_set_prev, anx_set_next, decide_False.
    + by rewrite apv_set_prev, decide_False, apv_set_next.
    + rewrite anx_set_prev, anx_set_next, decide_True by done.
      destruct (Hdef x) as [? ->]; [apply last_or_None_in in Hx; set_solver|done].
    + rewrite apv_set_prev, decide_True by done.
      destruct (set_opt_is_Some (set_next N) (hh_of P) (handles m) (x + off)) as [? ->]; [|done].
      apply Hdef. apply hd_or_in in Hx. set_solver.
  - by rewrite fmap_app.
  - eapply bucketed_ext; [..|exact h9]; [|done..]. intros p _. apply Hpat.
Qed.

(** The tail after the deletion. *)
Lemma tail_ok i1 e i2 (z : Z) :
  NoDup (i1 ++ e :: i2) -> last_or None (i1 ++ e :: i2) = Some (z - off) ->
  (e + off = z <-> i2 = []).
Proof.
  intros Hnd. rewrite last_or_app. simpl. intros Hl. split.
  - intros Hz. destruct (last_or_in _ _ _ Hl) as [Hl'|Hin].
    + destruct i2 as [|x i2 _] using rev_ind; [done|]. rewrite last_or_snoc in Hl.
      apply NoDup_app in Hnd as (_ & _ & [Hn _]%NoDup_cons). exfalso. apply Hn. simplify_eq. set_solver.
    + apply NoDup_app in Hnd as (_ & _ & [Hn _]%NoDup_cons). by replace (z - off) with e in Hin by lia.
  - intros ->. simplify_eq/=. lia.
Qed.

Lemma patched_table base m t T T' items ps H x :
  table_rep base m t T items ps -> patched (handles m) H -> x ∈ items.*1 ->
  head_table off (mk_mem H (<[t := T']> (tables m))) x = Done (t, T').
Proof.
  intros HT Hp ([e k] & -> & Hin)%list_elem_of_fmap. destruct (to_items _ _ _ _ _ _ HT _ _ Hin) as (h & Hh & Ht & Hk).
  destruct (patched_handle _ _ _ _ _ _ Hp Hh Ht Hk) as (h' & Hh' & Ht' & _).
  unfold head_table, get_hh, get_table. simpl. rewrite Hh'. run. by rewrite Ht', lookup_insert_eq.
Qed.

(** The end of a deletion, once the list is patched. *)
Lemma del_unlinked_ok base m t T items e d hd :
  table_rep base m t T items (e + off :: handles_of items) -> hd ∈ items.*1 -> NoDup (e + off :: handles_of items) ->
  handles m !! (e + off) = Some d ->
  exists m' m'' T'',
    HASH_DEL_IN_BKT t (Z.to_nat (HASH_TO_BKT (hashv d) (num_buckets T))) (e + off) m = Done m' /\
    head_table off m' hd = Done (t, T'') /\
    m'' = put_table t (set_num_items (sub32 (num_items T'') 1) T'') m' /\
    (exists T3, table_of base m'' t T3 items) /\ is_Some (handles m'' !! (e + off)) /\
    (forall q, q ∉ e + off :: handles_of items -> handles m'' !! q = handles m !! q).
Proof.
  intros HT Hhd Hnd Hd.
  destruct (del_in_bkt_ok t T m (handles_of items) (e + off) d) as (H' & T' & -> & Hs & Hb & (E1 & E2 & E3) & Hrest).
  { by rewrite (to_table _ _ _ _ _ _ HT), lookup_insert_eq. }
  { apply HT. }
  { done. }
  { done. }
  eexists _, _, T'. split; [done|]. split_and!; [|done| |by destruct (same_app_handle _ _ _ _ Hs Hd) as (? & ? & _); eauto|done].
  - apply list_elem_of_fmap in Hhd as ([x kx] & -> & Hin). destruct (to_items _ _ _ _ _ _ HT _ _ Hin) as (h & Hh & Ht & _).
    destruct (same_app_handle _ _ _ _ Hs Hh) as (h' & Hh' & Hpart). injection Hpart as Ht' _ _ _ _ _.
    unfold head_table, get_hh, get_table. simpl. rewrite Hh'. run. by rewrite Ht', Ht, lookup_insert_eq.
  - exists (set_num_items (sub32 (num_items T') 1) T'). unfold put_table. simpl. rewrite insert_insert_eq.
    eapply table_rebucket; [exact HT|done|done|done| |].
    + simpl. rewrite E1, (to_num _ _ _ _ _ _ HT). unfold sub32. rewrite wrap_sub_l. f_equal. simpl. lia.
    + eapply bucketed_ext; [..|exact Hb]; done.
Qed.

Lemma handles_middle i1 e k i2 : handles_of (i1 ++ (e, k) :: i2) ≡ₚ e + off :: handles_of (i1 ++ i2).
Proof. rewrite !fmap_app. simpl. by rewrite <- Permutation_middle. Qed.

Lemma set_next_run v P H :
  (forall x, P = Some x -> is_Some (H !! (x + off))) ->
  upd_opt (set_next v) (hh_of P) H = Done (set_opt (set_next v) (hh_of P) H).
Proof.
  intros HP. apply upd_opt_run. intros q Hq. destruct P as [x|]; simplify_eq/=. by apply HP.
Qed.

Lemma last_or_defined a l : exists z, last_or (Some a) l = Some z.
Proof. revert a. induction l as [|b l IH]; simpl; eauto. Qed.

(** The head and the tail after the deletion. *)
Lemma delete_head_ok l1 e l2 hd :
  l1 ++ l2 <> [] -> hd_or None (l1 ++ e :: l2) = Some hd ->
  exists hd', hd_or None (l1 ++ l2) = Some hd' /\
    match last_or None l1 with Some _ => Some hd | None => hd_or None l2 end = Some hd'.
Proof.
  destruct l1 as [|x l1]; simpl.
  - destruct l2 as [|y l2]; [done|]. eauto.
  - intros _ [= ->]. destruct (last_or_defined hd l1) as [z ->]. eauto.
Qed.

Lemma delete_tail_ok T l1 e l2 :
  NoDup (l1 ++ e :: l2) -> l1 ++ l2 <> [] -> hho T = off -> last_or None (l1 ++ e :: l2) = Some (tail T - off) ->
  exists T', (if bool_decide (e + off = tail T)
              then p ← deref (last_or None l1); mret (set_tail (HH_FROM_ELMT T p) T) else mret T) = Done T' /\
    last_or None (l1 ++ l2) = Some (tail T' - off) /\ buckets T' = buckets T /\ num_buckets T' = num_buckets T /\
    log2_num_buckets T' = log2_num_buckets T /\ num_items T' = num_items T /\ hho T' = hho T.
Proof.
  intros Hnd Hne Ho Hl. pose proof (tail_ok _ _ _ _ Hnd Hl) as Hiff. destruct l2 as [|y l2].
  - rewrite bool_decide_true by by apply Hiff. rewrite app_nil_r in *. destruct l1 as [|x l1]; [done|].
    simpl. destruct (last_or_defined x l1) as [z ->]. run. eexists. split; [done|]. split; [|done].
    cbn [tail set_tail]. unfold HH_FROM_ELMT. f_equal. lia.
  - rewrite bool_decide_false by (rewrite Hiff; done). exists T. split; [done|]. split; [|done].
    rewrite last_or_app in *. done.
Qed.

Lemma delete_linked_ok base m t T i1 e k i2 hd :
  table_of base m t T (i1 ++ (e, k) :: i2) -> i1 ++ i2 <> [] -> hd_or None (i1 ++ (e, k) :: i2).*1 = Some hd ->
  exists m' head', delete_linked off m hd (e + off) = Done (m', head') /\
    represents base m' head' (i1 ++ i2) /\ frame (handles m) (handles m') (i1 ++ (e, k) :: i2) e /\
    is_Some (handles m' !! (e + off)).
Proof.
  intros HT Hne Hhd. set (P := last_or None i1.*1). set (N := hd_or None i2.*1).
  set (H1 := set_opt (set_next N) (hh_of P) (handles m)). set (H2 := set_opt (set_prev P) (hh_of N) H1).
  pose proof (to_nodup _ _ _ _ _ _ HT) as Hnd. pose proof (to_links _ _ _ _ _ _ HT) as Hlk.
  pose proof (to_tail _ _ _ _ _ _ HT) as Htl0. pose proof Hhd as Hhd0.
  rewrite fmap_app in Hnd, Hlk, Htl0, Hhd. simpl in Hnd, Hlk, Htl0, Hhd.
  pose proof Hnd as (_ & Hd12 & [He2 _]%NoDup_cons)%NoDup_app.
  destruct (to_items _ _ _ _ _ _ HT e k) as (d & Hd & Htd & Hkd); [set_solver|].
  destruct (dseg_mid _ _ _ _ _ Hlk) as [Hpv Hnx]. unfold apv, anx in Hpv, Hnx. rewrite Hd in Hpv, Hnx.
  injection Hpv as Hpv. injection Hnx as Hnx. change (prev d = P) in Hpv. change (next d = N) in Hnx.
  assert (P <> Some e) as HPe by (intros ?%last_or_None_in; set_solver).
  assert (N <> Some e) as HNe by (intros ?%hd_or_in; set_solver).
  assert (forall x, x ∈ i1.*1 ++ i2.*1 -> is_Some (handles m !! (x + off)) /\ x ∈ (i1 ++ (e, k) :: i2).*1) as Hdef.
  { intros x Hx. assert (x ∈ (i1 ++ (e, k) :: i2).*1) as Hx' by (rewrite fmap_app; set_solver).
    split; [|done]. eapply bucketed_defined; [apply HT|]. by apply in_handles. }
  assert (i1.*1 ++ i2.*1 <> []) as Hne' by (destruct i1, i2; done).
  destruct (delete_head_ok _ _ _ _ Hne' Hhd) as (hd' & Ehd & Ehd'). fold P N in Ehd'.
  destruct (delete_tail_ok T _ _ _ Hnd Hne' (to_hho _ _ _ _ _ _ HT) Htl0) as (T' & HrunT & Htl & E1 & E2 & E3 & E4 & E5).
  fold P in HrunT.
  assert (patched (handles m) H1) as Hp1 by (apply patched_set_opt; by intros).
  assert (patched (handles m) H2) as Hp2 by (etrans; [exact Hp1|apply patched_set_opt; by intros]).
  assert (H1 !! (e + off) = Some d) as Hd1 by (unfold H1; by rewrite lookup_set_opt, decide_False by by rewrite hh_of_eq).
  assert (H2 !! (e + off) = Some d) as Hd2 by (unfold H2; by rewrite lookup_set_opt, decide_False by by rewrite hh_of_eq).
  assert (hho T' = off) as Ho by (rewrite E5; apply HT).
  assert (hd ∈ (i1 ++ (e, k) :: i2).*1) as Hhdin by by apply hd_or_in.
  assert (hd' ∈ (i1 ++ (e, k) :: i2).*1) as Hhdin' by by apply Hdef, hd_or_in.
  unfold delete_linked. rewrite (head_table_run _ _ _ _ _ _ _ HT Hhdin). run.
  rewrite (get_hh_run _ _ _ Hd). run. rewrite Hpv, HrunT. run. cbn [put_table handles tables].
  assert (match P with
          | Some p => H ← upd_hh (set_next (next d)) (HH_FROM_ELMT T' p) (handles m); mret (H, Some hd)
          | None => mret (handles m, next d)
          end = Done (H1, Some hd')) as ->.
  { rewrite Hnx, <- Ehd'. unfold H1, HH_FROM_ELMT. rewrite Ho. destruct P as [p|] eqn:EP; [|done]. simpl.
    rewrite upd_hh_alter; [done|]. apply Hdef. apply last_or_None_in in EP. set_solver. }
  run. change (put_handles H1 _) with (mk_mem H1 (<[t := T']> (tables m))). rewrite (patched_table _ _ _ _ T' _ _ _ _ HT Hp1 Hhdin'). run.
  rewrite (get_hh_run _ _ _ Hd1). run. rewrite Hnx, Hpv.
  assert (match N with Some q => upd_hh (set_prev P) (HH_FROM_ELMT T' q) H1 | None => mret H1 end = Done H2) as ->.
  { unfold H2, HH_FROM_ELMT. rewrite Ho. destruct N as [q|] eqn:EN; [|done]. simpl. apply upd_hh_alter.
    apply set_opt_is_Some, Hdef. apply hd_or_in in EN. set_solver. }
  run. change (put_handles H2 _) with (mk_mem H2 (<[t := T']> (tables m))). rewrite (patched_table _ _ _ _ T' _ _ _ _ HT Hp2 Hhdin'). run.
  destruct (del_unlinked_ok base (mk_mem H2 (<[t := T']> (tables m))) t T' (i1 ++ i2) e d hd')
    as (m' & m'' & T'' & -> & Hht & Em'' & (T3 & HT3) & Hde & Hfr); [| | |done|].
  { eapply table_perm; [apply (handles_middle i1 e k i2)|]. apply (patch_ok base m t T T' i1 e k i2); try done.
    by rewrite fmap_app. }
  { rewrite fmap_app. by apply hd_or_in. }
  { rewrite <- (handles_middle i1 e k i2). by apply NoDup_handles, HT. }
  run. rewrite Hht. run. rewrite <- Em''. exists m'', (Some hd'). split; [done|]. split; [|split; [|done]].
  - eapply represents_intro; [exact HT3|]. by rewrite fmap_app.
  - intros q Hq Hqe. rewrite Hfr by by rewrite <- (handles_middle i1 e k i2). cbn [handles].
    assert (forall x, x ∈ i1.*1 ++ i2.*1 -> Some (x + off) <> Some q) as Hxq.
    { intros x Hx [= <-]. apply Hq. by apply in_handles, Hdef. }
    unfold H2, H1. rewrite !lookup_set_opt, !decide_False; [done| |].
    + unfold hh_of. destruct P as [p|] eqn:EP; [|done]. simpl. apply Hxq. apply last_or_None_in in EP. set_solver.
    + unfold hh_of. destruct N as [n|] eqn:EN; [|done]. simpl. apply Hxq. apply hd_or_in in EN. set_solver.
Qed.

Lemma delete_ok base m head i1 e k i2 :
  represents base m head (i1 ++ (e, k) :: i2) ->
  exists m' head', HASH_DEL off m head e = Done (m', head') /\
    represents base m' head' (i1 ++ i2) /\ frame (handles m) (handles m') (i1 ++ (e, k) :: i2) e /\
    is_Some (handles m' !! (e + off)).
Proof.
  intros [Hhd Hrep]. assert (exists t T, table_of base m t T (i1 ++ (e, k) :: i2)) as (t & T & HT) by by destruct i1.
  assert (exists hd, hd_or None (i1 ++ (e, k) :: i2).*1 = Some hd) as [hd Ehd] by (destruct i1; simpl; eauto).
  rewrite Hhd, Ehd. unfold HASH_DEL, HASH_DELETE_HH.
  destruct (to_items _ _ _ _ _ _ HT e k) as (d & Hd & Htd & Hkd); [set_solver|].
  pose proof (to_links _ _ _ _ _ _ HT) as Hlk. rewrite fmap_app in Hlk. change ((e, k) :: i2).*1 with (e :: i2.*1) in Hlk.
  destruct (dseg_mid _ _ _ _ _ Hlk) as [Hpv Hnx]. unfold apv, anx in Hpv, Hnx. rewrite Hd in Hpv, Hnx.
  injection Hpv as Hpv. injection Hnx as Hnx. unfold get_hh. rewrite Hd. run. rewrite Hpv, Hnx.
  destruct (decide (i1 ++ i2 = [])) as [[-> ->]%app_eq_nil|Hne].
  - simpl in Ehd. injection Ehd as <-. cbn [app fmap list_fmap last_or hd_or]. rewrite !bool_decide_true by done. cbn [andb].
    rewrite (head_table_run _ _ _ _ _ _ _ HT) by set_solver. run. eexists _, _. split; [done|]. split; [|split; [done|by eauto]].
    split; [done|]. simpl. by rewrite (to_table _ _ _ _ _ _ HT), delete_insert_id by apply HT.
  - replace (_ && _) with false; [by eapply delete_linked_ok|]. symmetry. apply andb_false_iff.
    rewrite !bool_decide_eq_false. destruct i1 as [|[x kx] i1]; simpl.
    + right. by destruct i2.
    + left. change (last_or (Some x) i1.*1 <> None). by destruct (last_or_defined x i1.*1) as [z ->].
Qed.

(** *** Iteration *)

Lemma represents_nodup base m head items : represents base m head items -> NoDup items.*1.
Proof. intros [_ Hr]. destruct items; [constructor|]. destruct Hr as (t & T & HT). apply HT. Qed.

Lemma next_elt_run base m head items i1 e k i2 :
  represents base m head items -> items = i1 ++ (e, k) :: i2 -> next_elt off m (Some e) = Done (hd_or None i2.*1).
Proof.
  intros [_ Hrep] ->. assert (exists t T, table_of base m t T (i1 ++ (e, k) :: i2)) as (t & T & HT) by by destruct i1.
  pose proof (to_links _ _ _ _ _ _ HT) as Hlk. rewrite fmap_app in Hlk. change ((e, k) :: i2).*1 with (e :: i2.*1) in Hlk.
  destruct (dseg_mid _ _ _ _ _ Hlk) as [_ Hnx]. unfold anx in Hnx. unfold next_elt, get_hh.
  destruct (handles m !! (e + off)) as [h|]; [|done]. injection Hnx as <-. done.
Qed.

Lemma next_elt_hd base m head i1 i2 :
  represents base m head (i1 ++ i2) -> next_elt off m (hd_or None i2.*1) = Done (hd_or None (drop 1 i2).*1).
Proof. destruct i2 as [|[e k] i2]; [done|]. intros Hr. by eapply next_elt_run. Qed.

(** The loops of the library: [HASH_ITER] with a body that deletes the current
    element and frees it, or keeps it. *)
Definition free_element (e : Z) (m : memory) : memory := mk_mem (delete (e + off) (handles m)) (tables m).
Definition sweep (keep : Z -> bool) (e : Z) (s : memory * option Z) : outcome (memory * option Z) :=
  if keep e then mret s else
  '(m, head) ← HASH_DEL off s.1 s.2 e;
  mret (free_element e m, head).

Lemma free_ok base m head items e :
  represents base m head items -> e ∉ items.*1 -> represents base (free_element e m) head items.
Proof.
  intros [-> Hr] He. split; [done|]. destruct items as [|it items]; [done|]. destruct Hr as (t & T & HT). exists t, T.
  apply table_other; [done|]. intros x Hx. apply lookup_delete_ne. intros ?. assert (e = x) as -> by lia. done.
Qed.

(** One round of the loop that deletes its element. *)
Lemma sweep_deletes base keep kept e k rest m head :
  represents base m head (kept ++ (e, k) :: rest) -> keep e = false ->
  exists m' head', sweep keep e (m, head) = Done (m', head') /\ represents base m' head' (kept ++ rest) /\
    handles m' !! (e + off) = None /\ e ∉ (kept ++ rest).*1 /\
    (forall q, q ∉ handles_of (kept ++ (e, k) :: rest) -> handles m' !! q = handles m !! q).
Proof.
  intros Hr Ek. destruct (delete_ok _ _ _ _ _ _ _ Hr) as (m1 & head1 & Hdel & Hr1 & Hfr & _).
  assert (e ∉ (kept ++ rest).*1) as He.
  { apply represents_nodup in Hr. rewrite fmap_app in Hr |- *. apply NoDup_app in Hr as (_ & Hd & [Hn _]%NoDup_cons).
    intros [Hx|Hx]%elem_of_app; [|done]. apply (Hd e Hx). by left. }
  exists (free_element e m1), head1. split; [unfold sweep; cbn [fst snd]; rewrite Ek, Hdel; done|].
  split; [by apply free_ok|]. split; [apply lookup_delete_eq|]. split; [done|].
  intros q Hq. cbn [handles free_element]. assert (q <> e + off) as Hne.
  { intros ->. apply Hq. rewrite handles_middle. by left. }
  rewrite lookup_delete_ne by done. by apply Hfr.
Qed.

Lemma hash_sweep_loop base keep rest : forall fuel kept m head,
  represents base m head (kept ++ rest) -> (length rest <= fuel)%nat ->
  exists m' head', iter_loop off fst (sweep keep) fuel (hd_or None rest.*1) (hd_or None (drop 1 rest).*1) (m, head) =
      Done (m', head') /\
    represents base m' head' (kept ++ filter (fun x => keep x.1 = true) rest) /\
    (forall q, q ∉ handles_of (kept ++ rest) -> handles m' !! q = handles m !! q) /\
    (forall e k, (e, k) ∈ rest -> keep e = false -> handles m' !! (e + off) = None).
Proof.
  induction rest as [|[e k] rest IH]; intros fuel kept m head Hr Hf.
  { exists m, head. split; [by destruct fuel|]. split_and!; [done|done|set_solver]. }
  destruct fuel as [|fuel]; [simpl in Hf; lia|]. simpl in Hf.
  change (drop 1 ((e, k) :: rest)) with rest. change ((e, k) :: rest).*1 with (e :: rest.*1).
  cbn [iter_loop hd_or]. rewrite filter_cons. cbn [fst].
  destruct (keep e) eqn:Ek.
  - rewrite decide_True by done. assert (sweep keep e (m, head) = Done (m, head)) as -> by (unfold sweep; by rewrite Ek). run. cbn [fst].
    assert (represents base m head ((kept ++ [(e, k)]) ++ rest)) as Hr' by by rewrite <- app_assoc.
    rewrite (next_elt_hd _ _ _ _ _ Hr'). run.
    destruct (IH fuel _ _ _ Hr') as (m' & head' & Hrun & Hr'' & Hfr & Hdel); [lia|]. exists m', head'.
    rewrite <- app_assoc in Hr'', Hfr. split_and!; [done|done|done|].
    intros e' k' [[= -> ->]|Hin]%elem_of_cons Hk; [congruence|by eapply Hdel].
  - rewrite decide_False by done.
    destruct (sweep_deletes _ keep _ _ _ _ _ _ Hr Ek) as (m1 & head1 & -> & Hr1 & Hnone & He & Hfr1). run. cbn [fst].
    rewrite (next_elt_hd _ _ _ _ _ Hr1). run.
    destruct (IH fuel _ _ _ Hr1) as (m' & head' & Hrun & Hr'' & Hfr & Hdel); [lia|]. exists m', head'. split_and!; [done|done| |].
    + intros q Hq. rewrite Hfr, Hfr1; [done|done|]. rewrite handles_middle in Hq. set_solver.
    + intros e' k' [[= -> ->]|Hin]%elem_of_cons Hk; [|by eapply Hdel]. rewrite Hfr; [done|]. by rewrite in_handles.
Qed.

Lemma hash_sweep_ok base keep items m head fuel :
  represents base m head items -> (length items <= fuel)%nat ->
  exists m' head', HASH_ITER off fst (sweep keep) fuel head (m, head) = Done (m', head') /\
    represents base m' head' (filter (fun x => keep x.1 = true) items) /\
    (forall q, q ∉ handles_of items -> handles m' !! q = handles m !! q) /\
    (forall e k, (e, k) ∈ items -> keep e = false -> handles m' !! (e + off) = None).
Proof.
  intros Hr Hf. unfold HASH_ITER. cbn [fst]. pose proof Hr as [-> _].
  rewrite (next_elt_hd _ _ _ [] _ Hr). run. by eapply (hash_sweep_loop base keep items fuel []).
Qed.

(** The elements in the order of the iteration. *)
Definition visit (e : Z) (s : memory * list Z) : outcome (memory * list Z) := mret (s.1, s.2 ++ [e]).

Lemma visit_loop_ok base m head rest : forall fuel i1 acc,
  represents base m head (i1 ++ rest) -> (length rest <= fuel)%nat ->
  iter_loop off fst visit fuel (hd_or None rest.*1) (hd_or None (drop 1 rest).*1) (m, acc) = Done (m, acc ++ rest.*1).
Proof.
  induction rest as [|[e k] rest IH]; intros fuel i1 acc Hr Hf.
  { rewrite app_nil_r. by destruct fuel. }
  destruct fuel as [|fuel]; [simpl in Hf; lia|]. simpl in Hf.
  assert (represents base m head ((i1 ++ [(e, k)]) ++ rest)) as Hr' by by rewrite <- app_assoc.
  change (drop 1 ((e, k) :: rest)) with rest. change ((e, k) :: rest).*1 with (e :: rest.*1).
  cbn [iter_loop hd_or]. assert (visit e (m, acc) = Done (m, acc ++ [e])) as -> by done. run. cbn [fst].
  rewrite (next_elt_hd _ _ _ _ _ Hr'). run.
  rewrite (IH fuel _ _ Hr') by lia. by rewrite <- app_assoc.
Qed.

Lemma visit_ok base m head items fuel :
  represents base m head items -> (length items <= fuel)%nat ->
  HASH_ITER off fst visit fuel head (m, []) = Done (m, items.*1).
Proof.
  intros Hr Hf. unfold HASH_ITER. cbn [fst]. pose proof Hr as [-> _].
  rewrite (next_elt_hd _ _ _ [] _ Hr). run. by rewrite (visit_loop_ok base m (hd_or None items.*1) items fuel [] []).
Qed.

(** *** The integrity check *)

Lemma fsck_chain_ok H c : forall fuel pr n,
  dseg (hnx H) (hpv H) pr c None -> (length c <= fuel)%nat ->
  fsck_chain fuel H pr (hd_or None c) (u32 n) = Done (Some (u32 (n + Z.of_nat (length c)))).
Proof.
  induction c as [|p c IH]; intros fuel pr n Hseg Hf.
  { simpl. rewrite Z.add_0_r. by destruct fuel. }
  destruct fuel as [|fuel]; [simpl in Hf; lia|]. destruct Hseg as (Hpv & Hnx & Hseg). unfold hpv, hnx in Hpv, Hnx.
  cbn [hd_or fsck_chain]. unfold get_hh. destruct (H !! p) as [h|]; [|done]. run.
  injection Hpv as ->. injection Hnx as ->. rewrite bool_decide_true by done.
  unfold add32. rewrite wrap_add_l, IH by (done || simpl in Hf; lia). do 3 f_equal. simpl. lia.
Qed.

Lemma fsck_buckets_ok H nb bks chains olds : forall k n,
  bkts_ok H nb bks chains -> drop k chains = olds ->
  fsck_buckets H bks (seq k (length olds)) (u32 n) = Done (Some (u32 (n + Z.of_nat (length (mjoin olds))))).
Proof.
  induction olds as [|c olds IH]; intros k n Hok Hd.
  { simpl. by rewrite Z.add_0_r. }
  assert (chains !! k = Some c) as Hc by (rewrite <- (Nat.add_0_r k), <- lookup_drop; by rewrite Hd).
  destruct (bkts_chain _ _ _ _ _ _ Hok Hc) as (b & Hb & [h1 h2 h3 h4 h5]).
  cbn [length seq fsck_buckets]. rewrite Hb. run. rewrite h1.
  change 0 with (u32 0). rewrite (fsck_chain_ok H c _ None 0 h3).
  2: { transitivity (size H); [|lia]. apply size_bound; [done|]. intros p Hp. destruct (h5 p Hp) as (? & -> & _). eauto. }
  run. rewrite h2, Z.add_0_l, Z.eqb_refl. unfold add32. rewrite wrap_add_l, wrap_add_r, IH; [|done|].
  - simpl. rewrite length_app. do 3 f_equal. lia.
  - rewrite <- (drop_drop chains k 1) || rewrite <- Nat.add_1_r, <- drop_drop. by rewrite Hd.
Qed.

Lemma fsck_app_ok T H l : forall fuel pr n,
  hho T = off -> dseg (anx off H) (apv off H) pr l None -> (length l <= fuel)%nat ->
  fsck_app fuel T H pr (hh_of (hd_or None l)) (u32 n) = Done (Some (u32 (n + Z.of_nat (length l)))).
Proof.
  induction l as [|e l IH]; intros fuel pr n Ho Hseg Hf.
  { simpl. rewrite Z.add_0_r. by destruct fuel. }
  destruct fuel as [|fuel]; [simpl in Hf; lia|]. destruct Hseg as (Hpv & Hnx & Hseg). unfold apv, anx in Hpv, Hnx.
  unfold hh_of. cbn [hd_or fmap option_fmap option_map fsck_app]. unfold get_hh.
  destruct (H !! (e + off)) as [h|]; [|done]. run.
  injection Hpv as ->. injection Hnx as ->. rewrite bool_decide_true by done.
  replace (ELMT_FROM_HH T (e + off)) with e by (unfold ELMT_FROM_HH; lia).
  replace (HH_FROM_ELMT T <$> hd_or None l) with (hh_of (hd_or None l)) by (unfold hh_of, HH_FROM_ELMT; by rewrite Ho).
  unfold add32. rewrite wrap_add_l, IH by (done || simpl in Hf; lia). do 3 f_equal. simpl. lia.
Qed.

Lemma fsck_ok base m head items : represents base m head items -> HASH_FSCK off m head = Done true.
Proof.
  intros [-> Hrep]. destruct items as [|[e k] items0]; [done|]. set (items := (e, k) :: items0) in *.
  destruct Hrep as (t & T & HT). change (hd_or None items.*1) with (Some e). cbn [HASH_FSCK].
  rewrite (head_table_run _ _ _ _ _ _ _ HT) by (unfold items; set_solver). run.
  pose proof (to_num _ _ _ _ _ _ HT) as Hnum.
  destruct (to_buckets _ _ _ _ _ _ HT) as [_ _ (chains & Hok & Hperm)].
  rewrite <- (bo_len _ _ _ _ Hok), <- (bo_chains _ _ _ _ Hok).
  change 0 with (u32 0). rewrite (fsck_buckets_ok _ _ _ _ chains 0%nat 0 Hok eq_refl). run.
  rewrite Hperm, Z.add_0_l, <- Hnum, Z.eqb_refl. cbn [negb].
  change (Some (e + off)) with (hh_of (hd_or None items.*1)).
  rewrite fsck_app_ok; [|apply HT|apply HT|]. { run. by rewrite Hnum, !length_fmap, Z.add_0_l, Z.eqb_refl. }
  rewrite <- (length_fmap (fun e => e + off)). transitivity (size (handles m)); [|lia].
  apply size_bound; [by apply NoDup_handles, HT|]. intros p Hp. eapply bucketed_defined; [apply HT|done].
Qed.

Lemma count_ok base m head items :
  represents base m head items -> HASH_CNT off m head = Done (u32 (Z.of_nat (length items))).
Proof.
  intros [-> Hrep]. destruct items as [|[e k] items0]; [done|]. destruct Hrep as (t & T & HT). cbn [HASH_CNT hd_or fmap list_fmap].
  rewrite (head_table_run _ _ _ _ _ _ _ HT) by set_solver. run. by rewrite (to_num _ _ _ _ _ _ HT), !length_fmap.
Qed.

(** ** Sequences of operations and their specification *)

Inductive hash_op : Type :=
  | Add (o : mallocs) (e : Z) (k : list Z) (n : Z)
  | Del (e : Z).

Definition apply_op (op : hash_op) (s : memory * option Z) : outcome (option (memory * option Z)) :=
  match op with
  | Add o e k n => HASH_ADD_KEYPTR off o s.1 s.2 k n e
  | Del e => s ← HASH_DEL off s.1 s.2 e; mret (Some s)
  end.

Fixpoint run_ops (ops : list hash_op) (s : memory * option Z) : outcome (option (memory * option Z)) :=
  match ops with
  | [] => mret (Some s)
  | op :: ops =>
    r ← apply_op op s;
    match r with None => mret None | Some s => run_ops ops s end
  end.

(** The specification: a list of elements with their keys. *)
Definition spec_op (items : list (Z * list Z)) (op : hash_op) : list (Z * list Z) :=
  match op with
  | Add _ e k n => items ++ [(e, take (Z.to_nat n) k)]
  | Del e => filter (fun x => x.1 <> e) items
  end.

(** What callers guarantee: an element is added once while it is in the table,
    with a key that can be read, and only elements of the table are deleted;
    [malloc] returns a block of its own. *)
Definition op_ok (base : gmap Z UT_hash_table) (H0 : heap) (items : list (Z * list Z)) (op : hash_op) : Prop :=
  match op with
  | Add o e k n => bounded o /\ (forall t, m_table o = Some t -> base !! t = None) /\ is_Some (H0 !! (e + off)) /\
                   e ∉ items.*1 /\ is_u32 n /\ n <= Z.of_nat (length k)
  | Del e => e ∈ items.*1
  end.

Fixpoint ops_ok (base : gmap Z UT_hash_table) (H0 : heap) (items : list (Z * list Z)) (ops : list hash_op) : Prop :=
  match ops with
  | [] => True
  | op :: ops => op_ok base H0 items op /\ ops_ok base H0 (spec_op items op) ops
  end.

(** What a client of the table sees. *)
Definition finds (m : memory) (head : option Z) (items : list (Z * list Z)) : Prop :=
  forall k n, is_u32 n -> n <= Z.of_nat (length k) ->
  exists r, HASH_FIND off m head k n = Done r /\
    match r with
    | Some e => (e, take (Z.to_nat n) k) ∈ items
    | None => forall e, (e, take (Z.to_nat n) k) ∉ items
    end.

Record observes (base : gmap Z UT_hash_table) (m : memory) (head : option Z) (items : list (Z * list Z)) : Prop := {
  ob_find : finds m head items;
  ob_count : HASH_CNT off m head = Done (u32 (Z.of_nat (length items)));
  ob_order : HASH_ITER off fst visit (length items) head (m, []) = Done (m, items.*1);
  ob_fsck : HASH_FSCK off m head = Done true;
  ob_freed : items = [] -> head = None /\ tables m = base;
}.

Lemma represents_observes base m head items : represents base m head items -> observes base m head items.
Proof.
  intros Hr. split.
  - intros k n Hn Hl. by eapply find_ok.
  - by eapply count_ok.
  - by eapply visit_ok.
  - by eapply fsck_ok.
  - intros ->. by destruct Hr.
Qed.

(** Handles stay allocated. *)
Definition alive (H0 H : heap) : Prop := forall q, is_Some (H0 !! q) -> is_Some (H !! q).

Lemma represents_alive base m head items x : represents base m head items -> x ∈ items.*1 -> is_Some (handles m !! (x + off)).
Proof.
  intros [_ Hr] Hx. destruct items as [|it items]; [set_solver|]. destruct Hr as (t & T & HT).
  eapply bucketed_defined; [apply HT|]. by apply in_handles.
Qed.

Lemma frame_alive base m m' head' items items' e :
  represents base m' head' items' -> frame (handles m) (handles m') items e -> is_Some (handles m' !! (e + off)) ->
  (forall x, x ∈ items.*1 -> x = e \/ x ∈ items'.*1) -> alive (handles m) (handles m').
Proof.
  intros Hr Hf He Hin q Hq. destruct (decide (q = e + off)) as [->|]; [done|].
  destruct (decide (q ∈ handles_of items)) as [(x & -> & Hx)%list_elem_of_fmap|Hn]; [|by rewrite Hf].
  destruct (Hin x Hx) as [->|]; [done|by eapply represents_alive].
Qed.

Lemma filter_keep (l : list (Z * list Z)) e : e ∉ l.*1 -> filter (fun x => x.1 <> e) l = l.
Proof.
  induction l as [|[x k] l IH]; [done|]. simpl. intros [Hx Hl]%not_elem_of_cons.
  rewrite filter_cons, decide_True by (simpl; congruence). by rewrite IH.
Qed.

Lemma filter_other items1 items2 (e : Z) (k : list Z) :
  NoDup (items1 ++ (e, k) :: items2).*1 -> filter (fun x => x.1 <> e) (items1 ++ (e, k) :: items2) = items1 ++ items2.
Proof.
  rewrite fmap_app. intros (_ & Hd & [Hn _]%NoDup_cons)%NoDup_app.
  rewrite filter_app, filter_cons, decide_False by (simpl; tauto).
  rewrite !filter_keep; [done|done|]. intros Hx. by apply (Hd e Hx), elem_of_cons; left.
Qed.

(** One operation. *)
Lemma apply_op_ok base H0 m head items op :
  represents base m head items -> alive H0 (handles m) -> op_ok base H0 items op ->
  (apply_op op (m, head) = Done None /\ exists o e k n, op = Add o e k n /\ alloc_fails o m) \/
  exists m' head', apply_op op (m, head) = Done (Some (m', head')) /\
    represents base m' head' (spec_op items op) /\ alive (handles m) (handles m').
Proof.
  intros Hr Ha Hop. destruct op as [o e k n|e]; cbn [apply_op spec_op fst snd].
  - destruct Hop as (Ho & Hf & [h Hh]%Ha & He & Hn & Hl).
    destruct (add_ok o base m head items k n e h) as [[-> ?]|(m' & head' & -> & Hr' & Hfr)]; [done..|left|right].
    + split; [done|]. by eexists _, _, _, _.
    + exists m', head'. split; [done|]. split; [done|].
      eapply frame_alive; [done|done| |]; [eapply represents_alive; [done|]|]; rewrite fmap_app; set_solver.
  - simpl in Hop. right. apply list_elem_of_fmap in Hop as ([e' k] & E & Hin). simpl in E. subst e'.
    apply list_elem_of_split in Hin as (i1 & i2 & ->). rewrite filter_other by by eapply represents_nodup.
    destruct (delete_ok _ _ _ _ _ _ _ Hr) as (m' & head' & -> & Hr' & Hfr & Hde). exists m', head'.
    split; [done|]. split; [done|]. eapply frame_alive; [done|done|done|]. rewrite !fmap_app. set_solver.
Qed.

Lemma run_ops_ok base H0 ops : forall m head items,
  represents base m head items -> alive H0 (handles m) -> ops_ok base H0 items ops ->
  (exists ops1 o e k n ops2 m1 head1, ops = ops1 ++ Add o e k n :: ops2 /\
     run_ops ops (m, head) = Done None /\ run_ops ops1 (m, head) = Done (Some (m1, head1)) /\ alloc_fails o m1) \/
  exists m' head', run_ops ops (m, head) = Done (Some (m', head')) /\ represents base m' head' (foldl spec_op items ops).
Proof.
  induction ops as [|op ops IH]; intros m head items Hr Ha Hok.
  { right. by exists m, head. }
  destruct Hok as [Hop Hok]. cbn [run_ops foldl].
  destruct (apply_op_ok _ _ _ _ _ _ Hr Ha Hop) as [[Hrun (o & e & k & n & -> & Hf)]|(m1 & head1 & Hrun & Hr1 & Ha1)]; rewrite Hrun; run.
  { left. by exists [], o, e, k, n, ops, m, head. }
  destruct (IH m1 head1 (spec_op items op)) as [(ops1 & o & e & k & n & ops2 & m2 & head2 & -> & Hr2 & Hp & Hf)|?];
    [done|by intros q Hq; apply Ha1, Ha|done| |by right].
  left. exists (op :: ops1), o, e, k, n, ops2, m2, head2. split_and!; [done|done| |done].
  cbn [run_ops]. rewrite Hrun. by run.
Qed.

Lemma represents_empty H0 base : represents base (mk_mem H0 base) None [].
Proof. done. Qed.

(** C19: a uthash table is a list of elements with their keys.  After any
    sequence of [HASH_ADD_KEYPTR] and [HASH_DEL] from the empty table, the
    pointers patched by the macros give a client what the list gives:
    [HASH_FIND] returns an element of the key, or [NULL] when there is none;
    [HASH_CNT] is the length; [HASH_ITER] visits the elements in the order of
    their addition; [HASH_FSCK] accepts both linked structures; and the table
    and its buckets are freed with the last element.  No step is undefined.
    Otherwise the process exits, at an addition one of whose allocations
    failed. *)
Theorem hash_table_refines_list base H0 ops :
  ops_ok base H0 [] ops ->
  (exists ops1 o e k n ops2 m1 head1, ops = ops1 ++ Add o e k n :: ops2 /\
     run_ops ops (mk_mem H0 base, None) = Done None /\
     run_ops ops1 (mk_mem H0 base, None) = Done (Some (m1, head1)) /\ alloc_fails o m1) \/
  exists m head, run_ops ops (mk_mem H0 base, None) = Done (Some (m, head)) /\
    observes base m head (foldl spec_op [] ops).
Proof.
  intros Hok. destruct (run_ops_ok base H0 ops _ _ _ (represents_empty H0 base) (fun _ H => H) Hok)
    as [?|(m & head & ? & ?)]; [by left|right]. exists m, head. split; [done|]. by apply represents_observes.
Qed.

(** C20: the loops that walk a table with [HASH_ITER], delete some of its
    elements and free them visit every element once, free exactly those and
    leave the others in their order: the walk never follows a freed element.  When all are
    deleted the head is [NULL] and the table freed, as the cleanup functions rely
    on. *)
Theorem hash_sweep_exact base H0 ops m head keep :
  ops_ok base H0 [] ops -> run_ops ops (mk_mem H0 base, None) = Done (Some (m, head)) ->
  exists m' head', HASH_ITER off fst (sweep keep) (length (foldl spec_op [] ops)) head (m, head) = Done (m', head') /\
    observes base m' head' (filter (fun x => keep x.1 = true) (foldl spec_op [] ops)) /\
    forall e k, (e, k) ∈ foldl spec_op [] ops -> keep e = false -> handles m' !! (e + off) = None.
Proof.
  intros Hok Hrun. destruct (run_ops_ok base H0 ops _ _ _ (represents_empty H0 base) (fun _ H => H) Hok)
    as [(? & ? & ? & ? & ? & ? & ? & ? & _ & Hx & _)|(m1 & head1 & Hrun1 & Hr)]; [congruence|].
  rewrite Hrun in Hrun1. injection Hrun1 as <- <-.
  destruct (hash_sweep_ok base keep _ m head _ Hr (le_n _)) as (m' & head' & Hs & Hr' & _ & Hfreed). exists m', head'.
  split; [done|]. split; [by apply represents_observes|done].
Qed.

(** ** Tables of integers

    Process entries and CIEs are found by an [int]: [HASH_ADD_INT] and
    [HASH_FIND_INT] take the four bytes of the key.  Callers add a key they did
    not find. *)
Inductive int_op : Type :=
  | IntAdd (o : mallocs) (x : Z) (e : Z)
  | IntDel (e : Z).

Definition apply_int (op : int_op) (s : memory * option Z) : outcome (option (memory * option Z)) :=
  match op with
  | IntAdd o x e => HASH_ADD_INT off o s.1 s.2 x e
  | IntDel e => s ← HASH_DEL off s.1 s.2 e; mret (Some s)
  end.

Fixpoint run_ints (ops : list int_op) (s : memory * option Z) : outcome (option (memory * option Z)) :=
  match ops with
  | [] => mret (Some s)
  | op :: ops =>
    r ← apply_int op s;
    match r with None => mret None | Some s => run_ints ops s end
  end.

(** The specification: a finite map from the key, as an [unsigned], to the
    element. *)
Definition map_op (M : gmap Z Z) (op : int_op) : gmap Z Z :=
  match op with
  | IntAdd _ x e => <[u32 x := e]> M
  | IntDel e => filter (fun x => x.2 <> e) M
  end.

Definition int_ok (base : gmap Z UT_hash_table) (H0 : heap) (M : gmap Z Z) (op : int_op) : Prop :=
  match op with
  | IntAdd o x e => bounded o /\ (forall t, m_table o = Some t -> base !! t = None) /\ is_Some (H0 !! (e + off)) /\
                    M !! u32 x = None /\ (forall k, M !! k <> Some e)
  | IntDel e => exists k, M !! k = Some e
  end.

Fixpoint ints_ok (base : gmap Z UT_hash_table) (H0 : heap) (M : gmap Z Z) (ops : list int_op) : Prop :=
  match ops with
  | [] => True
  | op :: ops => int_ok base H0 M op /\ ints_ok base H0 (map_op M op) ops
  end.

Lemma le_bytes_mod n z : le_bytes n (z mod 256 ^ Z.of_nat n) = le_bytes n z.
Proof.
  revert z. induction n as [|n IH]; intros z; [done|]. cbn [le_bytes].
  rewrite Nat2Z.inj_succ, Z.pow_succ_r by lia. pose proof (Z.pow_pos_nonneg 256 (Z.of_nat n)).
  rewrite Z.rem_mul_r by lia. rewrite (Z.mul_comm 256). f_equal.
  - by rewrite Z.mod_add, Z.mod_mod by lia.
  - rewrite Z.div_add, (Z.div_small (z mod 256)) by (lia || apply Z.mod_pos_bound; lia). apply IH.
Qed.

Lemma int_value x : le_value (le_bytes 4 x) = u32 x.
Proof.
  rewrite <- le_bytes_mod. change (256 ^ Z.of_nat 4) with (2 ^ 32). apply le_value_bytes.
  apply Z.mod_pos_bound. done.
Qed.

Lemma int_bytes x y : le_bytes 4 x = le_bytes 4 y <-> u32 x = u32 y.
Proof.
  split; intros H.
  - by rewrite <- !int_value, H.
  - rewrite <- (le_bytes_mod 4 x), <- (le_bytes_mod 4 y). by f_equal.
Qed.

(** The map of the elements of a table. *)
Record maps (items : list (Z * list Z)) (M : gmap Z Z) : Prop := {
  mp_int e k : (e, k) ∈ items -> exists x, k = le_bytes 4 x;
  mp_dom x e : M !! x = Some e -> is_u32 x;
  mp_in e x : (e, le_bytes 4 x) ∈ items <-> M !! u32 x = Some e;
}.

Lemma maps_element items M e : maps items M -> e ∈ items.*1 <-> exists k, M !! k = Some e.
Proof.
  intros [Hi Hd Hm]. rewrite list_elem_of_fmap. split.
  - intros ([e' k] & -> & Hin). destruct (Hi _ _ Hin) as [x ->]. apply Hm in Hin. eauto.
  - intros [k Hk]. exists (e, le_bytes 4 k). split; [done|]. apply Hm. by rewrite wrap_small by by eapply Hd.
Qed.

(** An [int] operation is the operation on its bytes. *)
Definition bytes_op (op : int_op) : hash_op :=
  match op with IntAdd o x e => Add o e (le_bytes 4 x) 4 | IntDel e => Del e end.

Lemma run_ints_bytes ops s : run_ints ops s = run_ops (bytes_op <$> ops) s.
Proof.
  revert s. induction ops as [|op ops IH]; intros s; [done|]. cbn [run_ints fmap list_fmap run_ops].
  replace (apply_int op s) with (apply_op (bytes_op op) s) by by destruct op.
  destruct (apply_op _ s) as [[s'|]|]; run; [apply IH|done|done].
Qed.

Lemma maps_step base H0 items M op :
  maps items M -> int_ok base H0 M op ->
  op_ok base H0 items (bytes_op op) /\ maps (spec_op items (bytes_op op)) (map_op M op).
Proof.
  intros HM Hop. destruct op as [o x e|e]; cbn [bytes_op op_ok spec_op map_op].
  - destruct Hop as (Ho & Hf & Hh & Hx & He).
    split; [split_and!; [done|done|done|by rewrite (maps_element _ _ _ HM); intros [k Hk]; apply (He k)|word|done]|].
    change (take (Z.to_nat 4) (le_bytes 4 x)) with (le_bytes 4 x). destruct HM as [Hi Hd Hm]. split.
    + intros e' k' [Hin|[= -> ->]%list_elem_of_singleton]%elem_of_app; [by eapply Hi|eauto].
    + intros y e' [[<- _]|[_ Hy]]%lookup_insert_Some; [apply wrap_range; lia|by eapply Hd].
    + intros e' y. rewrite elem_of_app, list_elem_of_singleton, lookup_insert_Some, Hm. split.
      * intros [Hy|[-> Hy%int_bytes]%pair_equal_spec]; [|by left]. right. split; [|done]. intros E. by rewrite E, Hy in Hx.
      * intros [[E ->]|[_ Hy]]; [right|by left]. f_equal. by apply int_bytes.
  - split; [by apply (maps_element _ _ _ HM)|]. destruct HM as [Hi Hd Hm]. split.
    + intros e' k' [_ Hin]%list_elem_of_filter. by eapply Hi.
    + intros y e' [Hy _]%map_lookup_filter_Some. by eapply Hd.
    + intros e' y. rewrite list_elem_of_filter, map_lookup_filter_Some, Hm. cbn [fst snd]. tauto.
Qed.

Lemma maps_steps base H0 ops : forall items M,
  maps items M -> ints_ok base H0 M ops ->
  ops_ok base H0 items (bytes_op <$> ops) /\ maps (foldl spec_op items (bytes_op <$> ops)) (foldl map_op M ops).
Proof.
  induction ops as [|op ops IH]; intros items M HM Hok; [done|]. destruct Hok as [Hop Hok].
  destruct (maps_step _ _ _ _ _ HM Hop) as [Hop' HM']. destruct (IH _ _ HM' Hok). by split.
Qed.

(** C21: the tables of process entries and of CIEs are finite maps.  After any
    sequence of [HASH_ADD_INT] of absent keys and [HASH_DEL], which is how the
    library uses them, [HASH_FIND_INT] is the look-up in the map from the low 32
    bits of the key to the element.  Otherwise the process exits at an addition
    one of whose allocations failed. *)
Theorem int_table_is_map base H0 ops :
  ints_ok base H0 ∅ ops ->
  (exists ops1 o x e ops2 m1 head1, ops = ops1 ++ IntAdd o x e :: ops2 /\
     run_ints ops (mk_mem H0 base, None) = Done None /\
     run_ints ops1 (mk_mem H0 base, None) = Done (Some (m1, head1)) /\ alloc_fails o m1) \/
  exists m head, run_ints ops (mk_mem H0 base, None) = Done (Some (m, head)) /\
    forall x, HASH_FIND_INT off m head x = Done (foldl map_op ∅ ops !! u32 x).
Proof.
  intros Hok. destruct (maps_steps base H0 ops [] ∅) as [Hok' HM]; [|done|].
  { split; [intros ? ? []%not_elem_of_nil|done|]. intros e x. by rewrite elem_of_nil, lookup_empty. }
  destruct (run_ops_ok base H0 (bytes_op <$> ops) _ _ _ (represents_empty H0 base) (fun _ H => H) Hok')
    as [(l1 & o & e & k & n & l2 & m1 & head1 & E & Hrun & Hrun1 & Hf)|(m & head & Hrun & Hr)].
  - left. apply fmap_app_inv in E as (ops1 & ops' & -> & E' & ->). symmetry in E'.
    apply fmap_cons_inv in E' as (op & ops2 & E & -> & ->). destruct op as [o' x e'|]; simplify_eq/=.
    exists ops1, o', x, e', ops2, m1, head1. by rewrite !run_ints_bytes.
  - right. exists m, head. rewrite run_ints_bytes. split; [done|]. intros x. unfold HASH_FIND_INT.
    destruct (find_ok _ _ _ _ (le_bytes 4 x) 4 Hr) as (r & -> & Hres); [word|done|].
    change (take (Z.to_nat 4) (le_bytes 4 x)) with (le_bytes 4 x) in Hres. f_equal. symmetry. destruct r as [e|].
    + by apply (mp_in _ _ HM).
    + destruct (_ !! _) as [e|] eqn:E; [|done]. exfalso. apply (Hres e). by apply (mp_in _ _ HM).
Qed.
End represents.

(** ** Examples *)

(** [calloc] gives elements with zeroed handles; [malloc] serves what is below
    64 GiB. *)
Definition zeroed : UT_hash_handle := mk_hh 0 None None None None [] 0 0.
Definition ample : mallocs := mk_mallocs (Some 7) true (fun sz => sz <? 2 ^ 36).
Definition elements (n : nat) : heap := list_to_map ((fun i => (Z.of_nat i * 64 + 8, zeroed)) <$> seq 1 n).

Definition add_pid (pid : nat) : hash_op := Add ample (Z.of_nat pid * 64) (le_bytes 4 (Z.of_nat pid)) 4.

Lemma ample_bounded : bounded ample.
Proof. intros sz Hsz. simpl. lia. Qed.

Definition three_pids : list hash_op := [add_pid 1; add_pid 2; add_pid 3; Del 128].

Lemma three_pids_ok : ops_ok 8 ∅ (elements 3) [] three_pids.
Proof.
  unfold three_pids, add_pid. cbn [ops_ok op_ok].
  repeat match goal with
  | |- _ /\ _ => split
  | |- bounded _ => exact ample_bounded
  | |- True => exact I
  | |- _ ∉ _ => by vm_compute; set_solver
  | |- _ ∈ _ => by vm_compute; set_solver
  | |- is_Some _ => by vm_compute; eauto
  | |- forall t, _ => intros t _; apply lookup_empty
  | |- in_width _ _ => word
  | |- _ <= _ => by vm_compute
  end.
Qed.

Lemma hash_table_refines_list_witness :
  exists m head, run_ops 8 three_pids (mk_mem (elements 3) ∅, None) = Done (Some (m, head)) /\
    observes 8 ∅ m head [(64, le_bytes 4 1); (192, le_bytes 4 3)].
Proof.
  destruct (hash_table_refines_list 8 ∅ (elements 3) three_pids three_pids_ok)
    as [(? & ? & ? & ? & ? & ? & ? & ? & _ & Hx & _)|(m & head & Hrun & Hob)].
  - exfalso. revert Hx. vm_compute. discriminate.
  - exists m, head. split; [exact Hrun|]. exact Hob.
Defined.

Lemma hash_sweep_exact_witness :
  exists m head m' head', run_ops 8 three_pids (mk_mem (elements 3) ∅, None) = Done (Some (m, head)) /\
    HASH_ITER 8 fst (sweep 8 (fun e => e =? 192)) 2 head (m, head) = Done (m', head') /\
    observes 8 ∅ m' head' [(192, le_bytes 4 3)].
Proof.
  destruct (run_ops 8 three_pids (mk_mem (elements 3) ∅, None)) as [[[m head]|]|] eqn:Hrun; revert Hrun.
  - intros Hrun. destruct (hash_sweep_exact 8 ∅ (elements 3) three_pids m head (fun e => e =? 192) three_pids_ok Hrun)
      as (m' & head' & Hit & Hob & _). exists m, head, m', head'. split; [reflexivity|]. split; [exact Hit|exact Hob].
  - intros Hx. exfalso. revert Hx. vm_compute. discriminate.
  - intros Hx. exfalso. revert Hx. vm_compute. discriminate.
Defined.

(** Two hundred processes: the table has grown, and still finds each. *)
Example grown_table :
  match run_ops 8 (add_pid <$> seq 1 200) (mk_mem (elements 200) ∅, None) with
  | Done (Some (m, head)) =>
    (num_buckets <$> tables m !! 7, HASH_FSCK 8 m head,
     forallb (fun i => match HASH_FIND_INT 8 m head (Z.of_nat i) with
                       | Done (Some e) => e =? Z.of_nat i * 64
                       | _ => false
                       end) (seq 1 200)) = (Some 64, Done true, true)
  | _ => False
  end.
Proof. vm_compute. reflexivity. Qed.

Lemma int_table_is_map_witness :
  exists m head, run_ints 8 [IntAdd ample 41 64; IntAdd ample 42 128; IntDel 64] (mk_mem (elements 2) ∅, None) =
      Done (Some (m, head)) /\
    HASH_FIND_INT 8 m head 42 = Done (Some 128) /\ HASH_FIND_INT 8 m head 41 = Done None.
Proof.
  destruct (int_table_is_map 8 ∅ (elements 2) [IntAdd ample 41 64; IntAdd ample 42 128; IntDel 64])
    as [(? & ? & ? & ? & ? & ? & ? & _ & Hx & _)|(m & head & Hrun & Hfind)].
  - cbn [ints_ok int_ok map_op]. split; [|split; [|split; [|exact I]]].
    + split_and!; [exact ample_bounded|intros t _; apply lookup_empty|by vm_compute; eauto|reflexivity|].
      intros k. by rewrite lookup_empty.
    + split_and!; [exact ample_bounded|intros t _; apply lookup_empty|by vm_compute; eauto|reflexivity|].
      by intros k [[_ ?]|[_ ?]]%lookup_insert_Some.
    + exists 41. reflexivity.
  - exfalso. revert Hx. vm_compute. discriminate.
  - exists m, head. split; [exact Hrun|]. split; rewrite Hfind; by vm_compute.
Defined.
