(* ===== verification/IntervalArray.v ===== *)
(** * Interval arrays: [src/gu_interval_array.h], [src/gu_interval_array.c]

    Sorted arrays of half-open address intervals with a tagged payload pointer,
    searched by bisection.  They index executable mappings, ELF symbols, kernel
    symbols and FDEs.  The reference definition is a linear scan of the
    caller's unsorted input ([covering_item]); the main theorem shows that
    building the array and bisecting it computes that scan. *)

From S2P Require Import Prelude.

(** ** Data

    [private] is the payload pointer as a 64-bit value, [0] for [NULL].  The
    compact entry [interval_array_item_u32] has the same three fields with
    32-bit bounds: it is the same record, and the narrowing is [to_u32]. *)
Record interval_array_item : Type := mk_item {
  start : Z;
  end_ : Z;
  private : Z;
}.

#[export] Instance interval_array_item_eq_dec : EqDecision interval_array_item.
Proof. solve_decision. Defined.

Inductive interval_array_type : Type :=
  | INTERVAL_ARRAY_TYPE_U32
  | INTERVAL_ARRAY_TYPE_U64.

Record interval_array : Type := mk_interval_array {
  items_u32 : option (list interval_array_item);
  items_u64 : option (list interval_array_item);
  arr_count : Z;
  arr_type : interval_array_type;
  arr_min : Z;
  arr_max : Z;
}.

Definition with_items_u32 (a : interval_array) l :=
  mk_interval_array (Some l) (items_u64 a) (arr_count a) (arr_type a) (arr_min a) (arr_max a).
Definition with_items_u64 (a : interval_array) l :=
  mk_interval_array (items_u32 a) (Some l) (arr_count a) (arr_type a) (arr_min a) (arr_max a).

(** ** Payload ownership tags *)
Definition mark_interval_array_pointer_no_free (ptr_value : Z) : Z :=
  Z.lor ptr_value (Z.shiftl 1 63).

(** The untagged pointer and the value stored through [no_free]. *)
Definition get_interval_array_pointer (ptr_value : Z) : Z * bool :=
  let is_marked := negb (Z.land ptr_value (Z.shiftl 1 63) =? 0) in
  (Z.land ptr_value (not64 (Z.shiftl 1 63)), is_marked).

(** ** Construction *)
Definition compare_intervals (a b : interval_array_item) : Z :=
  Z.b2z (start b <? start a) - Z.b2z (start a <? start b).

(** [clear_interval_array_item] on a non-[NULL] item. *)
Definition clear_interval_array_item : interval_array_item := mk_item 0 0 0.

(** What the C standard promises of [qsort] with this comparator: a sorted
    permutation of the input, equal elements in unspecified order. *)
Class Qsort : Type := {
  qsort : list interval_array_item -> list interval_array_item;
  qsort_perm l : qsort l ≡ₚ l;
  qsort_sorted l : Sorted (fun a b => compare_intervals a b <= 0) (qsort l);
}.

Definition close_at (e : Z) (it : interval_array_item) : interval_array_item :=
  if end_ it =? 0 then mk_item (start it) e (private it) else it.

(** The end given to an open last interval. *)
Definition open_last_end (it : interval_array_item) : Z :=
  if start it <? UINT32_MAX then UINT32_MAX - 1 else UINT64_MAX - 1.

(** The two fix-up steps after the sort: an open interval ends at the next
    start, an open last interval at the end of its address space. *)
Fixpoint fix_open_ends (items : list interval_array_item) : list interval_array_item :=
  match items with
  | [] => []
  | [it] => [close_at (open_last_end it) it]
  | it :: ((next :: _) as rest) => close_at (start next) it :: fix_open_ends rest
  end.

Definition to_u32 (it : interval_array_item) : interval_array_item :=
  mk_item (u32 (start it)) (u32 (end_ it)) (private it).

Definition first_start (l : list interval_array_item) : Z :=
  match l with it :: _ => start it | [] => 0 end.
Definition last_end (l : list interval_array_item) : Z :=
  match last l with Some it => end_ it | None => 0 end.

(** [gu_interval_array_init]: [alloc_array] and [alloc_items] say whether the
    two [calloc] calls succeed.  The first component is the caller's array
    after the call (sorted and fixed up in place), the second the result. *)
Definition gu_interval_array_init `{Qsort} (alloc_array alloc_items : bool)
    (items : list interval_array_item)
  : list interval_array_item * option interval_array :=
  if decide (items = []) then (items, None) else
  if negb alloc_array then (items, None) else
  let items := fix_open_ends (qsort items) in
  let cnt := Z.of_nat (length items) in
  if negb alloc_items then (items, None) else
  if last_end items <? UINT32_MAX then
    let l := to_u32 <$> items in
    (items, Some (mk_interval_array (Some l) None cnt INTERVAL_ARRAY_TYPE_U32
                    (first_start l) (last_end l)))
  else
    (items, Some (mk_interval_array None (Some items) cnt INTERVAL_ARRAY_TYPE_U64
                    (first_start items) (last_end items))).

(** ** Search *)
Definition item_contains (addr : Z) (it : interval_array_item) : bool :=
  (start it <=? addr) && (addr <? end_ it).

(** The bisection loop: [Some mid] when it returns inside the loop.  Reading
    past the array is undefined.  [fuel] bounds the iterations;
    [search_loop_spec] shows that one more than the number of entries is
    never exhausted. *)
Fixpoint search_loop (l : list interval_array_item) (addr left right : Z) (fuel : nat)
  : outcome (option Z) :=
  match fuel with
  | O => Undef OutOfFuel
  | S fuel =>
    if left <=? right then
      let mid := left + (right - left) / 2 in
      it ← of_opt (l !! Z.to_nat mid);
      if item_contains addr it then mret (Some mid)
      else if addr <? start it then search_loop l addr left (mid - 1) fuel
      else search_loop l addr (mid + 1) right fuel
    else mret None
  end.

(** One storage width of [__gu_interval_array_search]: the result, the item
    written for the caller and the entries after the optional re-tagging. *)
Definition search_items (l : list interval_array_item) (cnt addr : Z) (set_no_free : bool)
  : outcome (Z * interval_array_item * list interval_array_item) :=
  r ← search_loop l addr 0 (cnt - 1) (S (length l));
  match r with
  | None => mret (-1, clear_interval_array_item, l)
  | Some mid =>
    it ← of_opt (l !! Z.to_nat mid);
    let '(p, no_free) := get_interval_array_pointer (private it) in
    let l' :=
      if set_no_free && negb no_free then
        <[Z.to_nat mid := mk_item (start it) (end_ it)
            (mark_interval_array_pointer_no_free (private it))]> l
      else l in
    mret (mid, mk_item (start it) (end_ it) p, l')
  end.

(** The storage selected by [type], and its update. *)
Definition active_items (a : interval_array) : option (list interval_array_item) :=
  match arr_type a with
  | INTERVAL_ARRAY_TYPE_U32 => items_u32 a
  | INTERVAL_ARRAY_TYPE_U64 => items_u64 a
  end.
Definition with_items (a : interval_array) (l : list interval_array_item) : interval_array :=
  match arr_type a with
  | INTERVAL_ARRAY_TYPE_U32 => with_items_u32 a l
  | INTERVAL_ARRAY_TYPE_U64 => with_items_u64 a l
  end.

(** [__gu_interval_array_search] with a non-[NULL] output item; [None] is a
    [NULL] array.  The source writes the loop once per storage width. *)
Definition gu_interval_array_search_gen (array : option interval_array) (addr : Z)
    (set_no_free : bool) : outcome (Z * interval_array_item * option interval_array) :=
  match array with
  | None => mret (-1, clear_interval_array_item, None)
  | Some a =>
    if (arr_count a <=? 0) || (negb (bool_decide (is_Some (items_u32 a))) &&
                           negb (bool_decide (is_Some (items_u64 a)))) then
      mret (-1, clear_interval_array_item, Some a)
    else if (addr <? arr_min a) || (arr_max a <? addr) then
      mret (-1, clear_interval_array_item, Some a)
    else
      l ← of_opt (active_items a);
      '(ret, it, l') ← search_items l (arr_count a) addr set_no_free;
      mret (ret, it, Some (with_items a l'))
  end.

Definition gu_interval_array_search array addr :=
  gu_interval_array_search_gen array addr false.
Definition gu_interval_array_search_set_no_free array addr :=
  gu_interval_array_search_gen array addr true.

(** ** Visiting and destroying payloads *)
Definition item_visit (it : interval_array_item) : option Z :=
  if private it =? 0 then None else Some (get_interval_array_pointer (private it)).1.

(** The pointers [gu_interval_array_for_each_private] passes to the visitor,
    in order. *)
Definition gu_interval_array_for_each_private (array : option interval_array) : list Z :=
  match array with
  | None => []
  | Some a => omap item_visit (default [] (items_u32 a)) ++
              omap item_visit (default [] (items_u64 a))
  end.

Definition item_free (it : interval_array_item) : option Z :=
  if private it =? 0 then None else
  let '(p, no_free) := get_interval_array_pointer (private it) in
  if no_free then None else Some p.

(** The payloads [gu_interval_array_destroy] passes to [free], in order. *)
Definition gu_interval_array_destroy (array : option interval_array) : list Z :=
  match array with
  | None => []
  | Some a => omap item_free (default [] (items_u32 a)) ++
              omap item_free (default [] (items_u64 a))
  end.

(** ** Reference definition

    What a caller means by an interval list, in any order: an open interval
    runs to the nearest greater start, and an address belongs to the item
    whose interval covers it. *)
Fixpoint next_start (items : list interval_array_item) (s : Z) : option Z :=
  match items with
  | [] => None
  | it :: rest =>
    if s <? start it then
      Some (match next_start rest s with Some e => Z.min (start it) e | None => start it end)
    else next_start rest s
  end.

Definition effective_end (items : list interval_array_item) (it : interval_array_item) : Z :=
  if end_ it =? 0 then default (open_last_end it) (next_start items (start it))
  else end_ it.

Definition closed_item (items : list interval_array_item) (it : interval_array_item)
  : interval_array_item :=
  mk_item (start it) (effective_end items it) (private it).

Definition covering_item (items : list interval_array_item) (addr : Z)
  : option interval_array_item :=
  head (filter (fun it => item_contains addr (closed_item items it) = true) items).

(** The inputs the library builds arrays from: 64-bit bounds, distinct starts,
    no interval reaching past the next start. *)
Record disjoint_items (items : list interval_array_item) : Prop := {
  di_nodup : NoDup (start <$> items);
  di_start it : it ∈ items -> 0 <= start it < UINT64_MAX;
  di_end it : it ∈ items -> is_u64 (end_ it) /\ (end_ it = 0 \/ start it <= end_ it);
  di_order a b : a ∈ items -> b ∈ items -> start a < start b -> end_ a <= start b;
}.

(** A sorted array whose intervals do not overlap. *)
Definition chain (l : list interval_array_item) : Prop :=
  Forall (fun it => start it <= end_ it) l /\
  StronglySorted (fun a b => end_ a <= start b) l.

(** ** Bisection *)

Lemma chain_lookup_lt l i j a b :
  chain l -> l !! i = Some a -> l !! j = Some b -> (i < j)%nat -> end_ a <= start b.
Proof.
  intros [_ Hs] Ha Hb Hij.
  rewrite <- (take_drop_middle _ _ _ Ha) in Hs.
  apply StronglySorted_app_1_r in Hs. inversion Hs as [|?? _ Hall]; simplify_eq.
  rewrite Forall_forall in Hall. apply Hall, list_elem_of_lookup.
  exists (j - S i)%nat. rewrite lookup_drop. by replace (S i + (j - S i))%nat with j by lia.
Qed.

Lemma chain_start_le_end l i a : chain l -> l !! i = Some a -> start a <= end_ a.
Proof. intros [Hf _] Ha. by eapply Forall_lookup_1 in Hf. Qed.

Lemma search_loop_spec l addr fuel left right :
  chain l -> 0 <= left -> right < Z.of_nat (length l) ->
  right - left + 1 < Z.of_nat fuel -> left <= right + 1 ->
  (forall i it, l !! i = Some it -> Z.of_nat i < left -> end_ it <= addr) ->
  (forall i it, l !! i = Some it -> right < Z.of_nat i -> addr < start it) ->
  exists r, search_loop l addr left right fuel = Done r /\
    match r with
    | Some mid => 0 <= mid /\ exists it, l !! Z.to_nat mid = Some it /\ item_contains addr it = true
    | None => forall i it, l !! i = Some it -> item_contains addr it = false
    end.
Proof.
  intros Hch. revert left right.
  induction fuel as [|fuel IH]; intros left right Hl Hr Hf Hlr Hlo Hhi; [lia|].
  simpl. destruct (Z.leb_spec left right) as [Hle|Hgt].
  - set (mid := left + (right - left) / 2).
    assert (left <= mid <= right) as Hmid.
    { unfold mid. pose proof (Z.div_pos (right - left) 2).
      pose proof (Z.mul_div_le (right - left) 2). lia. }
    destruct (lookup_lt_is_Some_2 l (Z.to_nat mid)) as [it Hit]; [lia|].
    rewrite Hit. simpl.
    destruct (item_contains addr it) eqn:Hc.
    { exists (Some mid). split; [done|]. split; [lia|]. eauto. }
    unfold item_contains in Hc.
    destruct (Z.ltb_spec addr (start it)).
    + apply IH; auto; try lia. intros i jt Hj Hij.
      destruct (decide (i = Z.to_nat mid)) as [->|]; [by simplify_eq|].
      pose proof (chain_start_le_end _ _ _ Hch Hit).
      pose proof (chain_lookup_lt _ _ _ _ _ Hch Hit Hj ltac:(lia)). lia.
    + apply IH; auto; try lia. intros i jt Hj Hij.
      destruct (decide (i = Z.to_nat mid)) as [->|]; [simplify_eq; lia|].
      pose proof (chain_lookup_lt _ _ _ _ _ Hch Hj Hit ltac:(lia)). lia.
  - exists None. split; [done|]. intros i it Hi. unfold item_contains.
    destruct (Z_lt_le_dec (Z.of_nat i) left) as [H1|H1].
    + specialize (Hlo _ _ Hi H1). lia.
    + specialize (Hhi _ _ Hi ltac:(lia)). lia.
Qed.

(** At most one interval of a chain contains an address. *)
Lemma chain_contains_unique l i j a b addr :
  chain l -> l !! i = Some a -> l !! j = Some b ->
  item_contains addr a = true -> item_contains addr b = true -> i = j.
Proof.
  intros Hch Ha Hb Hca Hcb. unfold item_contains in *.
  destruct (decide (i < j)%nat) as [Hij|]; [|destruct (decide (j < i)%nat)].
  - pose proof (chain_lookup_lt _ _ _ _ _ Hch Ha Hb Hij). lia.
  - pose proof (chain_lookup_lt _ _ _ _ _ Hch Hb Ha ltac:(lia)). lia.
  - lia.
Qed.

(** ** The fix-up after the sort *)

Lemma next_start_perm l1 l2 s : l1 ≡ₚ l2 -> next_start l1 s = next_start l2 s.
Proof.
  induction 1 as [|x l l' _ IH|x y l|l l' l'' _ IH1 _ IH2]; simpl.
  - done.
  - by rewrite IH.
  - destruct (next_start l s), (s <? start x), (s <? start y); simpl; try done; f_equal; lia.
  - congruence.
Qed.

Lemma effective_end_perm l1 l2 it : l1 ≡ₚ l2 -> effective_end l1 it = effective_end l2 it.
Proof. intros H. unfold effective_end. by rewrite (next_start_perm _ _ _ H). Qed.

Lemma next_start_app_le l1 l2 s :
  Forall (fun it => start it <= s) l1 -> next_start (l1 ++ l2) s = next_start l2 s.
Proof.
  induction 1 as [|x l Hx _ IH]; simpl; [done|].
  destruct (Z.ltb_spec s (start x)); [lia|done].
Qed.

Lemma next_start_sorted_head it l s :
  Forall (fun x => start it <= start x) l -> s < start it ->
  next_start (it :: l) s = Some (start it).
Proof.
  intros Hall Hs. simpl. destruct (Z.ltb_spec s (start it)); [|lia]. f_equal.
  destruct (next_start l s) as [e|] eqn:E; [|done].
  enough (start it <= e) by lia. revert e E.
  induction Hall as [|x l Hx _ IH]; simpl; [done|]; intros e.
  destruct (Z.ltb_spec s (start x)); [|apply IH].
  intros [= <-]. destruct (next_start l s); [|done]. specialize (IH _ eq_refl). lia.
Qed.

Abbreviation starts_lt := (StronglySorted (fun a b => start a < start b)).

(** On a strictly sorted array the fix-up computes [effective_end]. *)
Lemma fix_open_ends_closed pre l :
  starts_lt l -> (forall a b, a ∈ pre -> b ∈ l -> start a < start b) ->
  fix_open_ends l = closed_item (pre ++ l) <$> l.
Proof.
  intros Hs. revert pre. induction Hs as [|it l Hs IH Hall]; intros pre Hpre; [done|].
  assert (Hle : Forall (fun x => start x <= start it) (pre ++ [it])).
  { apply Forall_app. split; [|by constructor].
    apply Forall_forall. intros x Hx. apply Z.lt_le_incl, Hpre; [done|constructor]. }
  assert (Hns : next_start (pre ++ it :: l) (start it) = next_start l (start it)).
  { rewrite (cons_middle it pre l), app_assoc. by apply next_start_app_le. }
  assert (Hrest : fix_open_ends l = closed_item (pre ++ it :: l) <$> l).
  { rewrite (cons_middle it pre l), app_assoc. apply IH.
    intros a b [Ha| ->%list_elem_of_singleton]%elem_of_app Hb.
    - apply Hpre; [done|by right].
    - rewrite Forall_forall in Hall. auto. }
  destruct l as [|next l].
  - simpl. unfold closed_item, effective_end, close_at. rewrite Hns. simpl.
    case_match; [done|by destruct it].
  - change (fix_open_ends (it :: next :: l))
      with (close_at (start next) it :: fix_open_ends (next :: l)).
    rewrite Hrest, (fmap_cons _ it). f_equal.
    unfold closed_item, effective_end, close_at. rewrite Hns.
    inversion Hall as [|?? Hlt Hall']; simplify_eq.
    rewrite (next_start_sorted_head next l (start it)); [|..|done].
    + simpl. case_match; [done|by destruct it].
    + inversion Hs as [|?? _ Hn]; simplify_eq.
      eapply Forall_impl; [exact Hn|]. simpl. lia.
Qed.

Lemma compare_intervals_le a b : compare_intervals a b <= 0 <-> start a <= start b.
Proof.
  unfold compare_intervals.
  destruct (Z.ltb_spec (start b) (start a)), (Z.ltb_spec (start a) (start b));
    simpl; lia.
Qed.

Section sorted.
Context `{Qsort}.

Lemma qsort_starts_lt items : NoDup (start <$> items) -> starts_lt (qsort items).
Proof.
  intros Hnd.
  assert (Hnd' : NoDup (start <$> qsort items)) by by rewrite qsort_perm.
  assert (Hs : StronglySorted (fun a b => start a <= start b) (qsort items)).
  { eapply StronglySorted_impl; [apply compare_intervals_le|].
    apply Sorted_StronglySorted; [|apply qsort_sorted].
    intros a b c. rewrite !compare_intervals_le. lia. }
  clear -Hnd' Hs. induction Hs as [|it l Hs IH Hall]; [constructor|].
  apply NoDup_cons in Hnd' as [Hni Hnd']. constructor; [auto|].
  rewrite Forall_forall in Hall |- *. intros x Hx. specialize (Hall _ Hx).
  assert (start it <> start x); [|lia].
  intros E. apply Hni. rewrite E. by apply list_elem_of_fmap_2.
Qed.

(** The array that is searched: the caller's items, closed. *)
Lemma fixed_items items :
  disjoint_items items ->
  fix_open_ends (qsort items) = closed_item items <$> qsort items.
Proof.
  intros Hd. rewrite (fix_open_ends_closed []).
  - apply list_fmap_ext. intros i it _. unfold closed_item. f_equal.
    apply effective_end_perm, qsort_perm.
  - apply qsort_starts_lt, (di_nodup _ Hd).
  - intros a b Ha. by apply not_elem_of_nil in Ha.
Qed.

Lemma next_start_Some l s e :
  next_start l s = Some e -> s < e /\ (exists it, it ∈ l /\ start it = e) /\
    forall it, it ∈ l -> s < start it -> e <= start it.
Proof.
  revert e. induction l as [|x l IH]; simpl; [done|]. intros e.
  destruct (Z.ltb_spec s (start x)).
  - intros [= <-]. destruct (next_start l s) as [e'|] eqn:E.
    + destruct (IH _ eq_refl) as (? & (it & Hit & <-) & Hmin).
      split; [lia|]. split.
      * destruct (Z.min_spec (start x) (start it)) as [[_ ->]|[_ ->]];
          [exists x|exists it]; (split; [|done]); [by left|by right].
      * intros y [->|Hy]%elem_of_cons Hlt; [lia|]. specialize (Hmin _ Hy Hlt). lia.
    + split; [done|]. split; [exists x; split; [by left|done]|].
      intros y [->|Hy]%elem_of_cons Hlt; [lia|]. clear IH. exfalso.
      induction l as [|z l IH]; [by apply not_elem_of_nil in Hy|]. simpl in E.
      destruct (Z.ltb_spec s (start z)); [done|].
      apply elem_of_cons in Hy as [->|Hy]; [lia|auto].
  - intros E. destruct (IH _ E) as (? & (it & Hit & <-) & Hmin). split; [done|].
    split; [exists it; split; [by right|done]|].
    intros y [->|Hy]%elem_of_cons Hlt; [lia|auto].
Qed.

Lemma next_start_None l s it : next_start l s = None -> it ∈ l -> start it <= s.
Proof.
  induction l as [|x l IH]; simpl; intros E Hit; [by apply not_elem_of_nil in Hit|].
  destruct (Z.ltb_spec s (start x)); [done|].
  apply elem_of_cons in Hit as [->|Hit]; auto.
Qed.
End sorted.

Section correct.
Context `{Qsort}.
Implicit Types items : list interval_array_item.

Lemma effective_end_bounds items it :
  disjoint_items items -> it ∈ items ->
  start it <= effective_end items it < 2 ^ 64 /\
  forall b, b ∈ items -> start it < start b -> effective_end items it <= start b.
Proof.
  intros Hd Hit. destruct (di_start _ Hd _ Hit), (di_end _ Hd _ Hit) as [? He].
  unfold effective_end. destruct (Z.eqb_spec (end_ it) 0) as [Hz|Hz].
  - destruct (next_start items (start it)) as [e|] eqn:E; simpl.
    + destruct (next_start_Some _ _ _ E) as (? & (b & Hb & <-) & Hmin).
      destruct (di_start _ Hd _ Hb). split; [word|]. auto.
    + split.
      * unfold open_last_end. destruct (Z.ltb_spec (start it) UINT32_MAX); word.
      * intros b Hb Hlt. pose proof (next_start_None _ _ _ E Hb). lia.
  - split; [word|]. intros b. by apply (di_order _ Hd).
Qed.

Lemma fixed_items_chain items : disjoint_items items -> chain (fix_open_ends (qsort items)).
Proof.
  intros Hd. rewrite fixed_items by done. split.
  - apply Forall_fmap, Forall_forall. intros it Hit. rewrite qsort_perm in Hit.
    destruct (effective_end_bounds items it) as [? _]; simpl; auto. lia.
  - pose proof (qsort_starts_lt _ (di_nodup _ Hd)) as Hs.
    assert (Forall (fun it => it ∈ items) (qsort items)) as Hall.
    { apply Forall_forall. intros it. by rewrite qsort_perm. }
    induction Hs as [|it l Hs IH Hlt]; [constructor|].
    apply Forall_cons in Hall as [Hit Hall]. constructor; [auto|].
    apply Forall_fmap, Forall_forall. intros b Hb. rewrite Forall_forall in Hlt, Hall.
    destruct (effective_end_bounds items it) as [_ Hle]; simpl; auto.
Qed.

Lemma chain_below_last l i it :
  chain l -> l !! i = Some it -> first_start l <= start it /\ end_ it <= last_end l.
Proof.
  intros Hch Hi. split.
  - destruct l as [|a l]; [done|]. destruct i as [|i]; [simplify_eq/=; lia|].
    pose proof (chain_lookup_lt _ 0 (S i) a it Hch eq_refl Hi ltac:(lia)).
    pose proof (chain_start_le_end _ 0 a Hch eq_refl). simpl. lia.
  - unfold last_end. destruct (last l) as [b|] eqn:E.
    + rewrite last_lookup in E. destruct (decide (i = Nat.pred (length l))) as [->|].
      { simplify_eq. lia. }
      pose proof (lookup_lt_Some _ _ _ Hi).
      pose proof (chain_lookup_lt _ _ _ _ _ Hch Hi E ltac:(lia)).
      pose proof (chain_start_le_end _ _ _ Hch E). lia.
    + apply last_None in E as ->. done.
Qed.

(** Narrowing to 32 bits loses nothing when the last end fits. *)
Lemma chain_to_u32 l :
  chain l -> Forall (fun it => 0 <= start it) l -> last_end l < UINT32_MAX ->
  to_u32 <$> l = l.
Proof.
  intros Hch Hpos Hlast. rewrite <- (list_fmap_id l) at 2.
  apply list_fmap_ext. intros i it Hi. simpl.
  destruct (chain_below_last _ _ _ Hch Hi).
  pose proof (chain_start_le_end _ _ _ Hch Hi).
  pose proof (proj1 (Forall_lookup _ _) Hpos _ _ Hi) as Hp. simpl in Hp.
  unfold to_u32. rewrite !wrap_small by word. by destruct it.
Qed.

(** Searching a chain finds the entry that contains the address. *)
Lemma search_items_chain l addr snf :
  chain l ->
  exists r it l', search_items l (Z.of_nat (length l)) addr snf = Done (r, it, l') /\
  (snf = false -> l' = l) /\
  ((r = -1 /\ it = clear_interval_array_item /\ l' = l /\
    forall i x, l !! i = Some x -> item_contains addr x = false) \/
   exists i x, r = Z.of_nat i /\ l !! i = Some x /\ item_contains addr x = true /\
     it = mk_item (start x) (end_ x) (get_interval_array_pointer (private x)).1 /\
     l' = (if snf && negb (get_interval_array_pointer (private x)).2 then
             <[i := mk_item (start x) (end_ x)
                 (mark_interval_array_pointer_no_free (private x))]> l else l)).
Proof.
  intros Hch.
  destruct (search_loop_spec l addr (S (length l)) 0 (Z.of_nat (length l) - 1))
    as (r & Hr & Hspec); [done|lia..| |].
  { intros i it Hi ?. apply lookup_lt_Some in Hi. lia. }
  unfold search_items. rewrite Hr. simpl. destruct r as [mid|].
  - destruct Hspec as (Hmid & it & Hit & Hc). rewrite Hit. simpl.
    do 3 eexists. split; [reflexivity|]. split; [by intros ->|].
    right. exists (Z.to_nat mid), it. rewrite Z2Nat.id by done. auto.
  - do 3 eexists. split; [reflexivity|]. split; [done|]. left. auto.
Qed.

(** The array [a] stores the non-overlapping entries [l]. *)
Record array_holds (a : interval_array) (l : list interval_array_item) : Prop := {
  ah_chain : chain l;
  ah_nonempty : l <> [];
  ah_count : arr_count a = Z.of_nat (length l);
  ah_min : arr_min a = first_start l;
  ah_max : arr_max a = last_end l;
  ah_items :
    (arr_type a = INTERVAL_ARRAY_TYPE_U32 /\ items_u32 a = Some l /\ items_u64 a = None) \/
    (arr_type a = INTERVAL_ARRAY_TYPE_U64 /\ items_u64 a = Some l /\ items_u32 a = None);
}.

Lemma with_items_same a l : array_holds a l -> with_items a l = a.
Proof.
  intros [_ _ _ _ _ Hit]. unfold with_items, with_items_u32, with_items_u64.
  destruct a, Hit as [(?&?&?)|(?&?&?)]; by simplify_eq/=.
Qed.

(** Re-tagging entry [i], as [set_no_free] does. *)
Definition retag (l : list interval_array_item) (i : nat) (x : interval_array_item) :=
  if (get_interval_array_pointer (private x)).2 then l
  else <[i := mk_item (start x) (end_ x)
          (mark_interval_array_pointer_no_free (private x))]> l.

Lemma search_gen_holds a l addr snf :
  array_holds a l ->
  (gu_interval_array_search_gen (Some a) addr snf = Done (-1, clear_interval_array_item, Some a)
   /\ forall i x, l !! i = Some x -> item_contains addr x = false) \/
  exists i x, l !! i = Some x /\ item_contains addr x = true /\
    gu_interval_array_search_gen (Some a) addr snf =
      Done (Z.of_nat i,
            mk_item (start x) (end_ x) (get_interval_array_pointer (private x)).1,
            Some (with_items a (if snf then retag l i x else l))).
Proof.
  intros Hh. pose proof (ah_chain _ _ Hh) as Hch. pose proof (with_items_same _ _ Hh) as Hsame.
  assert (0 < arr_count a).
  { rewrite (ah_count _ _ Hh). pose proof (ah_nonempty _ _ Hh).
    destruct l; simpl; [done|lia]. }
  unfold gu_interval_array_search_gen. destruct (Z.leb_spec (arr_count a) 0); [lia|].
  rewrite (ah_min _ _ Hh), (ah_max _ _ Hh), (ah_count _ _ Hh). simpl.
  replace (negb (bool_decide (is_Some (items_u32 a))) &&
           negb (bool_decide (is_Some (items_u64 a)))) with false
    by (destruct (ah_items _ _ Hh) as [(_ & -> & ->)|(_ & -> & ->)]; done).
  destruct (Z.ltb_spec addr (first_start l)); [|destruct (Z.ltb_spec (last_end l) addr)]; simpl.
  1,2: left; split; [done|]; intros i x Hi;
    destruct (chain_below_last _ _ _ Hch Hi); unfold item_contains; lia.
  destruct (search_items_chain l addr snf Hch) as (r & it & l' & Hs & _ & Hres).
  replace (active_items a) with (Some l)
    by (unfold active_items; by destruct (ah_items _ _ Hh) as [(-> & -> & _)|(-> & -> & _)]).
  simpl. rewrite Hs. simpl.
  destruct Hres as [(-> & -> & -> & Hno)|(i & x & -> & Hi & Hc & -> & ->)].
  - left. by rewrite Hsame.
  - right. exists i, x. split; [done|]. split; [done|]. unfold retag.
    by destruct snf, (get_interval_array_pointer (private x)).2.
Qed.

Lemma init_holds items :
  items <> [] -> disjoint_items items ->
  exists a, gu_interval_array_init true true items =
              (closed_item items <$> qsort items, Some a) /\
            array_holds a (closed_item items <$> qsort items).
Proof.
  intros Hne Hd. pose proof (fixed_items_chain _ Hd) as Hch.
  rewrite fixed_items in Hch by done.
  assert (Hl : closed_item items <$> qsort items <> []).
  { intros E%fmap_nil_inv. by apply Hne, Permutation_nil_r; rewrite <- qsort_perm, E. }
  unfold gu_interval_array_init. rewrite decide_False by done. simpl.
  rewrite fixed_items by done.
  destruct (Z.ltb_spec (last_end (closed_item items <$> qsort items)) UINT32_MAX).
  - rewrite (chain_to_u32 (closed_item items <$> qsort items)); auto.
    + eexists. split; [done|]. split; simpl; auto.
    + apply Forall_fmap, Forall_forall. intros it Hit.
      rewrite qsort_perm in Hit. destruct (di_start _ Hd _ Hit). simpl. lia.
  - eexists. split; [done|]. split; simpl; auto.
Qed.
End correct.

(** ** Payload tags *)
Lemma testbit_tag i : 0 <= i -> Z.testbit (Z.shiftl 1 63) i = bool_decide (i = 63).
Proof.
  intros. rewrite Z.shiftl_1_l. case_bool_decide as E.
  - subst. by apply Z.pow2_bits_true.
  - by apply Z.pow2_bits_false.
Qed.

Lemma get_pointer_no_free p : (get_interval_array_pointer p).2 = Z.testbit p 63.
Proof.
  unfold get_interval_array_pointer. cbn zeta; cbn [snd]. destruct (Z.testbit p 63) eqn:E.
  - apply negb_true_iff, Z.eqb_neq. intros H0.
    apply (f_equal (fun z => Z.testbit z 63)) in H0.
    rewrite Z.land_spec, testbit_tag, E, Z.testbit_0_l in H0 by lia. done.
  - apply negb_false_iff, Z.eqb_eq, Z.bits_inj'. intros i Hi.
    rewrite Z.land_spec, testbit_tag, Z.testbit_0_l by done.
    case_bool_decide; subst; [by rewrite E|apply andb_false_r].
Qed.

Lemma testbit_get_pointer p i :
  0 <= i < 64 -> Z.testbit (get_interval_array_pointer p).1 i =
                 Z.testbit p i && negb (bool_decide (i = 63)).
Proof.
  intros Hi. unfold get_interval_array_pointer, not64, wrap. cbn zeta; cbn [fst].
  rewrite Z.land_spec, Z.mod_pow2_bits_low, Z.lnot_spec by lia. by rewrite testbit_tag by lia.
Qed.

Lemma testbit_u64_high x i : is_u64 x -> 64 <= i -> Z.testbit x i = false.
Proof.
  intros Hx Hi. rewrite <- (wrap_small 64 x Hx). unfold wrap.
  apply Z.mod_pow2_bits_high. lia.
Qed.

(** Marked payloads are the ones [destroy] keeps. *)
Lemma item_free_spec it :
  item_free it = if private it =? 0 then None else
                 if Z.testbit (private it) 63 then None
                 else Some (get_interval_array_pointer (private it)).1.
Proof.
  unfold item_free. case_match; [done|].
  rewrite <- get_pointer_no_free. by destruct (get_interval_array_pointer _).
Qed.

Lemma mark_testbit p i :
  0 <= i -> Z.testbit (mark_interval_array_pointer_no_free p) i =
            Z.testbit p i || bool_decide (i = 63).
Proof. intros. unfold mark_interval_array_pointer_no_free. by rewrite Z.lor_spec, testbit_tag. Qed.

Lemma get_pointer_u64 p : is_u64 p -> is_u64 (get_interval_array_pointer p).1.
Proof.
  intros Hp. unfold get_interval_array_pointer. cbn zeta; cbn [fst].
  assert (0 <= Z.land p (not64 (Z.shiftl 1 63))) as H0 by (apply Z.land_nonneg; word).
  split; [done|].
  destruct (decide (Z.land p (not64 (Z.shiftl 1 63)) = 0)) as [->|]; [lia|].
  apply Z.log2_lt_pow2; [lia|].
  eapply Z.le_lt_trans; [apply Z.log2_land; [word|apply not64_range]|].
  eapply Z.le_lt_trans; [apply Z.le_min_l|].
  destruct (decide (p = 0)) as [->|]; [done|]. apply Z.log2_lt_pow2; word.
Qed.

(** ** Safety of the search for arbitrary contents *)

Lemma search_loop_safe l addr fuel left right :
  0 <= left -> right < Z.of_nat (length l) -> right - left + 1 < Z.of_nat fuel ->
  left <= right + 1 ->
  exists r, search_loop l addr left right fuel = Done r /\
    forall mid, r = Some mid ->
      0 <= mid /\ exists it, l !! Z.to_nat mid = Some it /\ item_contains addr it = true.
Proof.
  revert left right. induction fuel as [|fuel IH]; intros left right Hl Hr Hf Hlr; [lia|].
  simpl. destruct (Z.leb_spec left right) as [Hle|Hgt]; [|by exists None].
  set (mid := left + (right - left) / 2).
  assert (left <= mid <= right) as Hmid.
  { unfold mid. pose proof (Z.div_pos (right - left) 2).
    pose proof (Z.mul_div_le (right - left) 2). lia. }
  destruct (lookup_lt_is_Some_2 l (Z.to_nat mid)) as [it Hit]; [lia|].
  rewrite Hit. simpl. destruct (item_contains addr it) eqn:Hc.
  - exists (Some mid). split; [done|]. intros ? [= <-]. split; [lia|eauto].
  - destruct (Z.ltb_spec addr (start it)); apply IH; lia.
Qed.

Lemma search_items_safe l addr :
  exists r it, search_items l (Z.of_nat (length l)) addr false = Done (r, it, l) /\
  ((r = -1 /\ it = clear_interval_array_item) \/
   (0 <= r < Z.of_nat (length l) /\ start it <= addr < end_ it)).
Proof.
  destruct (search_loop_safe l addr (S (length l)) 0 (Z.of_nat (length l) - 1))
    as (r & Hr & Hmid); [lia..|].
  unfold search_items. rewrite Hr. simpl. destruct r as [mid|]; [|by do 2 eexists; eauto].
  destruct (Hmid _ eq_refl) as (? & it & Hit & Hc). rewrite Hit. simpl.
  do 2 eexists. split; [done|]. right. pose proof (lookup_lt_Some _ _ _ Hit).
  unfold item_contains in Hc. simpl. lia.
Qed.

Lemma search_built_safe a l n addr :
  arr_count a = n -> Z.of_nat (length l) = n -> active_items a = Some l -> with_items a l = a ->
  exists r it, gu_interval_array_search (Some a) addr = Done (r, it, Some a) /\
  ((r = -1 /\ it = clear_interval_array_item) \/ (0 <= r < n /\ start it <= addr < end_ it)).
Proof.
  intros Hcnt Hlen Hact Hwith.
  unfold gu_interval_array_search, gu_interval_array_search_gen. rewrite Hact, Hcnt. simpl.
  case_match; [by do 2 eexists; eauto|]. case_match; [by do 2 eexists; eauto|].
  destruct (search_items_safe l addr) as (r & it & Hs & Hres). rewrite Hlen in Hs, Hres.
  rewrite Hs. simpl. rewrite Hwith. eauto.
Qed.

(** A search returns the cleared item or an untagged entry. *)
Lemma search_member a l addr r it x :
  active_items a = Some l -> gu_interval_array_search (Some a) addr = Done (r, it, x) ->
  it = clear_interval_array_item \/
  exists y, y ∈ l /\ it = mk_item (start y) (end_ y) (get_interval_array_pointer (private y)).1.
Proof.
  intros Hact. unfold gu_interval_array_search, gu_interval_array_search_gen, search_items. rewrite Hact.
  case_match; [intros [= <- <- <-]; by left|]. case_match; [intros [= <- <- <-]; by left|]. run.
  destruct (search_loop _ _ _ _ _) as [[mid|]|]; run; [| |done].
  - destruct (l !! Z.to_nat mid) as [y|] eqn:Ey; run; [|done].
    destruct (get_interval_array_pointer (private y)) as [p nf] eqn:Ep. run. intros [= <- <- <-]. right.
    exists y. rewrite Ep. split; [by eapply list_elem_of_lookup_2|done].
  - intros [= <- <- <-]. by left.
Qed.

Lemma fix_open_ends_length l : length (fix_open_ends l) = length l.
Proof.
  induction l as [|a l IH]; [done|]. destruct l; [done|].
  change (S (length (fix_open_ends (i :: l))) = S (length (i :: l))). by rewrite IH.
Qed.

(** ** Properties *)

Section properties.
Context `{Qsort}.

(** With disjoint intervals the covering item is unique. *)
Lemma covering_unique items it addr :
  disjoint_items items -> it ∈ items -> item_contains addr (closed_item items it) = true ->
  covering_item items addr = Some it.
Proof.
  intros Hd Hit Hc. unfold covering_item.
  destruct (head _) as [it'|] eqn:E.
  - apply head_Some_elem_of, list_elem_of_filter in E as [Hc' Hit']. f_equal.
    destruct (effective_end_bounds items it Hd Hit) as [_ Hb].
    destruct (effective_end_bounds items it' Hd Hit') as [_ Hb'].
    unfold item_contains in Hc, Hc'. cbn in Hc, Hc'.
    specialize (Hb it' Hit'). specialize (Hb' it Hit).
    eapply (NoDup_fmap_key start); [exact (di_nodup _ Hd)|done|done|lia].
  - apply head_None in E. exfalso. apply (not_elem_of_nil it). rewrite <- E.
    by apply list_elem_of_filter.
Qed.

(** Building and searching an index finds the covering item. *)
Lemma search_covering items :
  items <> [] -> disjoint_items items ->
  exists a, (gu_interval_array_init true true items).2 = Some a /\
  forall addr,
    match covering_item items addr with
    | Some it =>
      exists i, gu_interval_array_search (Some a) addr =
        Done (Z.of_nat i, mk_item (start it) (effective_end items it)
                            (get_interval_array_pointer (private it)).1, Some a)
    | None =>
      gu_interval_array_search (Some a) addr = Done (-1, clear_interval_array_item, Some a)
    end.
Proof.
  intros Hne Hd. destruct (init_holds items Hne Hd) as (a & Hinit & Hh).
  exists a. rewrite Hinit. split; [done|]. intros addr.
  assert (Hmem : forall it, it ∈ items -> exists i,
    (closed_item items <$> qsort items) !! i = Some (closed_item items it)).
  { intros it Hit. rewrite <- qsort_perm in Hit. apply list_elem_of_lookup in Hit as [i Hi].
    exists i. by rewrite list_lookup_fmap, Hi. }
  unfold covering_item, gu_interval_array_search.
  destruct (search_gen_holds a _ addr false Hh) as [[-> Hno]|(i & x & Hi & Hc & ->)].
  - destruct (head _) as [it|] eqn:E; [|done].
    apply head_Some_elem_of, list_elem_of_filter in E as [Hc Hit].
    destruct (Hmem it Hit) as [i Hi]. by rewrite (Hno _ _ Hi) in Hc.
  - rewrite with_items_same by done.
    destruct (head _) as [it|] eqn:E.
    + apply head_Some_elem_of, list_elem_of_filter in E as [Hc' Hit].
      destruct (Hmem it Hit) as [j Hj].
      pose proof (chain_contains_unique _ _ _ _ _ _ (ah_chain _ _ Hh) Hi Hj Hc Hc') as ->.
      simplify_eq/=. eauto.
    + apply head_None in E. rewrite list_lookup_fmap_Some in Hi.
      destruct Hi as (it & -> & Hi). exfalso.
      apply (not_elem_of_nil it). rewrite <- E. apply list_elem_of_filter.
      split; [done|]. rewrite <- qsort_perm. by eapply list_elem_of_lookup_2.
Qed.

(** C4: for any list of non-overlapping intervals in any order (open ends
    included), building the array and bisecting it returns exactly the item a
    linear scan of the caller's list finds, untagged and with its effective
    end, and fails exactly when no item covers the address. *)
Theorem interval_search_correct items :
  items <> [] -> disjoint_items items ->
  exists a, (gu_interval_array_init true true items).2 = Some a /\
  forall addr,
    match covering_item items addr with
    | Some it =>
      exists i, gu_interval_array_search (Some a) addr =
        Done (Z.of_nat i, mk_item (start it) (effective_end items it)
                            (get_interval_array_pointer (private it)).1, Some a)
    | None =>
      gu_interval_array_search (Some a) addr = Done (-1, clear_interval_array_item, Some a)
    end.
Proof. apply search_covering. Qed.

(** Whatever the intervals are (overlapping, inverted, unordered), the
    search of a built array reads only inside the array, terminates, leaves it
    unchanged, and any item it returns contains the address. *)
Theorem interval_search_safe items addr :
  items <> [] ->
  exists a r it, (gu_interval_array_init true true items).2 = Some a /\
    gu_interval_array_search (Some a) addr = Done (r, it, Some a) /\
    ((r = -1 /\ it = clear_interval_array_item) \/
     (0 <= r < Z.of_nat (length items) /\ start it <= addr < end_ it)).
Proof.
  intros Hne. unfold gu_interval_array_init. rewrite decide_False by done. simpl.
  set (l := fix_open_ends (qsort items)).
  assert (Hlen : length l = length items)
    by (unfold l; by rewrite fix_open_ends_length, (Permutation_length (qsort_perm items))).
  assert (0 < Z.of_nat (length l)) by (rewrite Hlen; destruct items; simpl; [done|lia]).
  assert (Hfin : forall a l', arr_count a = Z.of_nat (length l) ->
    Z.of_nat (length l') = Z.of_nat (length l) -> active_items a = Some l' ->
    with_items a l' = a -> exists a0 r it, Some a = Some a0 /\
    gu_interval_array_search (Some a0) addr = Done (r, it, Some a0) /\
    ((r = -1 /\ it = clear_interval_array_item) \/
     (0 <= r < Z.of_nat (length items) /\ start it <= addr < end_ it))).
  { intros a l' H1 H2 H3 H4. exists a. rewrite <- Hlen.
    destruct (search_built_safe a l' _ addr H1 H2 H3 H4) as (r & it & ? & ?).
    exists r, it. auto. }
  destruct (last_end l <? UINT32_MAX);
    [apply (Hfin _ (to_u32 <$> l))|apply (Hfin _ l)]; simpl; rewrite ?length_fmap; done.
Qed.

(** Looking an address up with [gu_interval_array_search_set_no_free]
    transfers the found payload to the caller: destroying the array afterwards
    frees every payload it would have freed before except that one. *)
Theorem set_no_free_transfers_ownership a l addr i it a' :
  array_holds a l -> Forall (fun x => is_u64 (private x)) l ->
  gu_interval_array_search_set_no_free (Some a) addr = Done (Z.of_nat i, it, Some a') ->
  gu_interval_array_destroy (Some a') =
    omap item_free (take i l) ++ omap item_free (drop (S i) l) /\
  gu_interval_array_destroy (Some a) = omap item_free l.
Proof.
  intros Hh Hpriv Hs. unfold gu_interval_array_search_set_no_free in Hs.
  assert (Hd : forall l', gu_interval_array_destroy (Some (with_items a l')) = omap item_free l').
  { intros l'. unfold with_items, with_items_u32, with_items_u64.
    destruct (ah_items _ _ Hh) as [(Ht & _ & Hn)|(Ht & _ & Hn)];
      rewrite Ht; simpl; rewrite Hn; simpl; [apply app_nil_r|done]. }
  destruct (search_gen_holds a l addr true Hh) as [[E _]|(j & x & Hj & Hc & E)];
    rewrite E in Hs; simplify_eq; [lia|].
  split; [|rewrite <- (with_items_same a l Hh); apply Hd].
  rewrite Hd. unfold retag. rewrite get_pointer_no_free.
  destruct (Z.testbit (private x) 63) eqn:Hb.
  - rewrite <- (take_drop_middle _ _ _ Hj) at 1. rewrite omap_app. f_equal.
    cbn [omap list_omap]. rewrite item_free_spec, Hb. by destruct (private x =? 0).
  - rewrite insert_take_drop by by eapply lookup_lt_Some. rewrite omap_app. f_equal.
    cbn [omap list_omap]. rewrite item_free_spec. cbn [private].
    rewrite mark_testbit, bool_decide_eq_true_2, orb_true_r by done. by destruct (_ =? 0).
Qed.
End properties.

(** The ownership tag is invisible to readers of the payload. *)
Lemma tag_roundtrip p :
  0 <= p < 2 ^ 63 ->
  get_interval_array_pointer (mark_interval_array_pointer_no_free p) = (p, true) /\
  get_interval_array_pointer p = (p, false).
Proof.
  intros Hp.
  assert (Hbit : forall q,
    (forall i, 0 <= i -> i <> 63 -> Z.testbit q i = Z.testbit p i) ->
    get_interval_array_pointer q = (p, Z.testbit q 63)).
  { intros q Hq. rewrite (surjective_pairing (get_interval_array_pointer q)).
    rewrite get_pointer_no_free. f_equal. apply Z.bits_inj'. intros i Hi.
    assert (H63 : Z.testbit p 63 = false).
    { rewrite <- (Z.mod_small p (2 ^ 63)) by lia. by apply Z.mod_pow2_bits_high. }
    destruct (Z_lt_le_dec i 64).
    - rewrite testbit_get_pointer by lia. case_bool_decide; subst.
      + by rewrite H63, andb_false_r.
      + rewrite andb_true_r. by apply Hq.
    - unfold get_interval_array_pointer. cbn zeta; cbn [fst].
      rewrite Z.land_spec, (testbit_u64_high p i), (testbit_u64_high (not64 _) i);
        [apply andb_false_r|apply not64_range|done|word|done]. }
  split.
  - rewrite Hbit.
    + by rewrite mark_testbit, bool_decide_eq_true_2, orb_true_r by done.
    + intros i Hi Hne. by rewrite mark_testbit, bool_decide_eq_false_2, orb_false_r by done.
  - rewrite Hbit; auto. f_equal.
    rewrite <- (Z.mod_small p (2 ^ 63)) by lia. by apply Z.mod_pow2_bits_high.
Qed.

(** A marked pointer is never the null payload. *)
Lemma mark_pointer p : 0 < p < 2 ^ 63 ->
  get_interval_array_pointer (mark_interval_array_pointer_no_free p) = (p, true) /\
  mark_interval_array_pointer_no_free p <> 0.
Proof.
  intros Hp. destruct (tag_roundtrip p) as [Htag _]; [lia|]. split; [done|].
  intros E. rewrite E in Htag. by injection Htag as ? ?.
Qed.

(** The fix-up changes no payload. *)
Lemma fix_open_ends_private l : private <$> fix_open_ends l = private <$> l.
Proof.
  induction l as [|it [|next l] IH]; [done|simpl; unfold close_at; by case_match|].
  change (fix_open_ends (it :: next :: l)) with (close_at (start next) it :: fix_open_ends (next :: l)).
  rewrite !fmap_cons. rewrite IH. f_equal. unfold close_at. by case_match.
Qed.

(** What [destroy] frees of an item depends on its payload only. *)
Definition freed_of (p : Z) : option Z := item_free (mk_item 0 0 p).
Lemma omap_item_free (l : list interval_array_item) : omap item_free l = omap freed_of (private <$> l).
Proof.
  induction l as [|it l IH]; [done|]. rewrite fmap_cons. unfold omap in *. cbn [list_omap].
  change (item_free it) with (freed_of (private it)). by rewrite IH.
Qed.

(** Building an index keeps the payloads, in the array and in the caller's items. *)
Definition all_items (a : interval_array) : list interval_array_item :=
  default [] (items_u32 a) ++ default [] (items_u64 a).

Lemma init_private `{Qsort} a1 a2 items items' arr :
  gu_interval_array_init a1 a2 items = (items', arr) ->
  (private <$> items') ≡ₚ (private <$> items) /\
  match arr with Some a => (private <$> all_items a) ≡ₚ (private <$> items) | None => True end.
Proof.
  unfold gu_interval_array_init. case_decide; [by intros [= <- <-]|].
  destruct a1; cbn [negb]; [|by intros [= <- <-]]. set (l := fix_open_ends (qsort items)).
  assert (Hp : (private <$> l) ≡ₚ (private <$> items)) by (unfold l; by rewrite fix_open_ends_private, qsort_perm).
  destruct a2; cbn [negb]; [|by intros [= <- <-]]. unfold all_items.
  destruct (last_end l <? UINT32_MAX); intros [= <- <-]; (split; [done|]); simpl; rewrite ?app_nil_r; [|done].
  by rewrite <- list_fmap_compose.
Qed.

Lemma init_freed `{Qsort} a1 a2 items items' arr :
  gu_interval_array_init a1 a2 items = (items', arr) ->
  omap item_free items' ≡ₚ omap item_free items /\
  (is_Some arr -> gu_interval_array_destroy arr ≡ₚ omap item_free items).
Proof.
  intros [Hp Ha]%init_private. rewrite !omap_item_free. split; [by rewrite Hp|].
  intros [a ->]. cbn [gu_interval_array_destroy]. rewrite <- omap_app, omap_item_free. by fold (all_items a); rewrite Ha.
Qed.

(** ** Witnesses *)

(** A [qsort] that meets the standard's description. *)
Definition interval_le (a b : interval_array_item) : Prop := compare_intervals a b <= 0.
#[export] Instance interval_le_dec a b : Decision (interval_le a b).
Proof. unfold interval_le. apply _. Defined.

#[export] Instance interval_le_total : Total interval_le.
Proof. intros a b. unfold interval_le. rewrite !compare_intervals_le. lia. Qed.

#[export] Instance merge_qsort : Qsort.
Proof.
  refine {| qsort := merge_sort interval_le |}.
  - intros. apply merge_sort_Permutation.
  - intros. apply (Sorted_merge_sort interval_le).
Defined.

(** Three symbols, the middle one open, given out of order. *)
Definition sample_items : list interval_array_item :=
  [mk_item 0x3000 0x3800 30; mk_item 0x1000 0x1400 10; mk_item 0x2000 0 20].

(** Decide [disjoint_items] of a concrete list. *)
Ltac each_item H := repeat (apply elem_of_cons in H as [->|H]); [..|by apply not_elem_of_nil in H].
Ltac solve_disjoint :=
  split; [apply (bool_decide_unpack _); vm_compute; done
         |let it := fresh in let H := fresh in intros it H; each_item H; simpl; word
         |let it := fresh in let H := fresh in intros it H; each_item H; simpl; word
         |let a := fresh in let b := fresh in let Ha := fresh in let Hb := fresh in
          intros a b Ha Hb; each_item Ha; each_item Hb; simpl; lia].

Lemma sample_items_disjoint : disjoint_items sample_items.
Proof. solve_disjoint. Defined.

Lemma interval_search_correct_witness :
  (exists a, (gu_interval_array_init true true sample_items).2 = Some a /\
   forall addr, match covering_item sample_items addr with
    | Some it => exists i, gu_interval_array_search (Some a) addr =
        Done (Z.of_nat i, mk_item (start it) (effective_end sample_items it)
                (get_interval_array_pointer (private it)).1, Some a)
    | None => gu_interval_array_search (Some a) addr =
        Done (-1, clear_interval_array_item, Some a) end) /\
  covering_item sample_items 0x2fff = Some (mk_item 0x2000 0 20).
Proof.
  split; [|reflexivity].
  apply interval_search_correct; [done|exact sample_items_disjoint].
Defined.

Lemma interval_search_safe_witness :
  exists a r it,
    (gu_interval_array_init true true [mk_item 5 3 1; mk_item 2 9 2]).2 = Some a /\
    gu_interval_array_search (Some a) 4 = Done (r, it, Some a) /\
    ((r = -1 /\ it = clear_interval_array_item) \/
     (0 <= r < 2 /\ start it <= 4 < end_ it)).
Proof. apply (interval_search_safe [mk_item 5 3 1; mk_item 2 9 2] 4). done. Defined.

Definition sample_array : interval_array :=
  mk_interval_array (Some [mk_item 1 5 10; mk_item 5 9 20]) None 2 INTERVAL_ARRAY_TYPE_U32 1 9.

Lemma sample_array_holds : array_holds sample_array [mk_item 1 5 10; mk_item 5 9 20].
Proof.
  split; [split| |..]; try done; [| |by left].
  - repeat constructor; simpl; lia.
  - repeat constructor; simpl; lia.
Defined.

Lemma set_no_free_transfers_ownership_witness :
  exists a', gu_interval_array_destroy (Some a') = [10] /\
             gu_interval_array_destroy (Some sample_array) = [10; 20].
Proof.
  eexists. refine (set_no_free_transfers_ownership sample_array _ 6 1 (mk_item 5 9 20) _
    sample_array_holds _ _); [|reflexivity].
  repeat constructor; simpl; lia.
Defined.

(** [max] is the end of the last interval, not the highest end: when an
    interval encloses later ones (nested symbols), an address it covers beyond
    the last end is not found. *)
Theorem enclosing_interval_missed :
  exists a, (gu_interval_array_init true true
               [mk_item 0x1000 0x9000 1; mk_item 0x2000 0x3000 2]).2 = Some a /\
    arr_max a = 0x3000 /\
    gu_interval_array_search (Some a) 0x5000 = Done (-1, clear_interval_array_item, Some a).
Proof. eexists. split; [reflexivity|]. split; reflexivity. Qed.
