(* ===== verification/CfiDecode.v ===== *)
(** * Encoded reads: [src/gu_cfi_helper.c], lines 95-274

    LEB128 numbers and DW_EH_PE encoded values.  A pointer pair [buf, end] is
    the list of bytes between them; a read returns the value and the bytes
    after it. *)

From S2P Require Import Prelude.

(** ** Pointer encodings of the DWARF exception header *)
Definition DW_EH_PE_absptr : Z := 0x00.
Definition DW_EH_PE_omit : Z := 0xff.
Definition DW_EH_PE_uleb128 : Z := 0x01.
Definition DW_EH_PE_udata2 : Z := 0x02.
Definition DW_EH_PE_udata4 : Z := 0x03.
Definition DW_EH_PE_udata8 : Z := 0x04.
Definition DW_EH_PE_sleb128 : Z := 0x09.
Definition DW_EH_PE_sdata2 : Z := 0x0a.
Definition DW_EH_PE_sdata4 : Z := 0x0b.
Definition DW_EH_PE_sdata8 : Z := 0x0c.
Definition DW_EH_PE_pcrel : Z := 0x10.

(** ** LEB128

    [decode_uleb128] shifts an [int]: shifting by 32 or more is undefined, and
    an overflowing result wraps (as GCC and Clang define it) before it is
    converted to [uint64_t], which sign-extends it. *)
Definition int_shl (a n : Z) : outcome Z :=
  if n <? 32 then Done (s32 (Z.shiftl a n)) else Undef BadShift.

(** [n] iterations are left of the eight the loop allows. *)
Fixpoint decode_uleb128_loop (n : nat) (buffer : list Z) (result shift count : Z)
  : outcome (Z * Z) :=
  match n with
  | O => mret (result, count)
  | S n =>
    byte ← of_opt (head buffer);
    part ← int_shl (Z.land byte 0x7F) shift;
    let result := Z.lor result (u64 part) in
    if Z.land byte 0x80 =? 0 then mret (result, count + 1)
    else decode_uleb128_loop n (tail buffer) result (shift + 7) (count + 1)
  end.

Definition decode_uleb128 (buffer : list Z) : outcome (Z * Z) :=
  decode_uleb128_loop 8 buffer 0 0 0.

(** The loop of [decode_sleb128] also leaves [byte] and [shift]. *)
Fixpoint decode_sleb128_loop (n : nat) (buffer : list Z) (byte result shift count : Z)
  : outcome (Z * Z * Z * Z) :=
  match n with
  | O => mret (byte, result, shift, count)
  | S n =>
    byte ← of_opt (head buffer);
    let result := Z.lor result (shl64 (Z.land byte 0x7F) shift) in
    if Z.land byte 0x80 =? 0 then mret (byte, result, shift, count + 1)
    else decode_sleb128_loop n (tail buffer) byte result (shift + 7) (count + 1)
  end.

Definition decode_sleb128 (buffer : list Z) : outcome (Z * Z) :=
  '(byte, result, shift, count) ← decode_sleb128_loop 10 buffer 0 0 0 0;
  if Z.land byte 0x40 =? 0 then mret (result, count)
  else if 64 <=? shift + 7 then Undef BadShift
  else mret (Z.lor result (shl64 UINT64_MAX (shift + 7)), count).

Definition get_encoding_size (type : Z) (test_buf : list Z) : outcome Z :=
  if type =? DW_EH_PE_omit then mret 0 else
  let t := Z.land type 0xf in
  if t =? DW_EH_PE_uleb128 then '(_, size) ← decode_uleb128 test_buf; mret size else
  if t =? DW_EH_PE_sleb128 then '(_, size) ← decode_sleb128 test_buf; mret size else
  if (t =? DW_EH_PE_udata2) || (t =? DW_EH_PE_sdata2) then mret 2 else
  if (t =? DW_EH_PE_udata4) || (t =? DW_EH_PE_sdata4) then mret 4 else
  if (t =? DW_EH_PE_udata8) || (t =? DW_EH_PE_sdata8) then mret 8 else
  if t =? DW_EH_PE_absptr then mret 8 else
  mret 0.

(** ** Encoded values *)

(** A fixed-size read; [conv] is the conversion to [unsigned long]. *)
Definition decode_fixed (n : nat) (conv : Z -> Z) (buf : list Z) : outcome (option (Z * list Z)) :=
  '(v, rest) ← of_opt (read_le n buf); mret (Some (conv v, rest)).

(** [decode_read]: [None] is the [NULL] result of an unknown encoding. *)
Definition decode_read (buf : list Z) (type : Z) : outcome (option (Z * list Z)) :=
  let t := Z.land type 0xf in
  if t =? DW_EH_PE_uleb128 then
    '(res, size) ← decode_uleb128 buf; mret (Some (res, drop (Z.to_nat size) buf)) else
  if t =? DW_EH_PE_sleb128 then
    '(res, size) ← decode_sleb128 buf; mret (Some (res, drop (Z.to_nat size) buf)) else
  if t =? DW_EH_PE_udata2 then decode_fixed 2 (fun v => v) buf else
  if t =? DW_EH_PE_udata4 then decode_fixed 4 (fun v => v) buf else
  if t =? DW_EH_PE_udata8 then decode_fixed 8 (fun v => v) buf else
  if t =? DW_EH_PE_absptr then decode_fixed 8 (fun v => v) buf else
  if t =? DW_EH_PE_sdata2 then decode_fixed 2 (fun v => u64 (s16 v)) buf else
  if t =? DW_EH_PE_sdata4 then decode_fixed 4 (fun v => u64 (s32 v)) buf else
  if t =? DW_EH_PE_sdata8 then decode_fixed 8 (fun v => u64 (s64 v)) buf else
  mret None.

(** The scan for a terminating LEB128 byte among the first [max_len]. *)
Fixpoint leb_terminates (max_len : nat) (buf : list Z) : bool :=
  match max_len, buf with
  | S n, b :: rest => if Z.land b 0x80 =? 0 then true else leb_terminates n rest
  | _, _ => false
  end.

Definition decode_read_fits (buf : list Z) (type : Z) : bool :=
  let t := Z.land type 0xf in
  let avail := Z.of_nat (length buf) in
  if t =? DW_EH_PE_uleb128 then leb_terminates 8 buf else
  if t =? DW_EH_PE_sleb128 then leb_terminates 10 buf else
  if (t =? DW_EH_PE_udata2) || (t =? DW_EH_PE_sdata2) then 2 <=? avail else
  if (t =? DW_EH_PE_udata4) || (t =? DW_EH_PE_sdata4) then 4 <=? avail else
  if (t =? DW_EH_PE_udata8) || (t =? DW_EH_PE_sdata8) || (t =? DW_EH_PE_absptr) then 8 <=? avail else
  false.

(** [decode_read_checked]: the test [next > end] cannot hold in this
    representation, [next] being a suffix of the bytes before [end]. *)
Definition decode_read_checked (buf : list Z) (type : Z) : outcome (option (Z * list Z)) :=
  if decode_read_fits buf type then decode_read buf type else mret None.

Definition block_fits (data : list Z) (len : Z) : bool := len <=? Z.of_nat (length data).

(** ** Reference definitions

    The number a byte sequence denotes in (U)LEB128, and the shape of a
    sequence: continuation bits on every byte but the last. *)
Fixpoint uleb_value (l : list Z) : Z :=
  match l with
  | [] => 0
  | b :: l' => Z.land b 0x7F + 128 * uleb_value l'
  end.

Fixpoint leb_shape (l : list Z) : bool :=
  match l with
  | [] => false
  | [b] => Z.land b 0x80 =? 0
  | b :: l' => negb (Z.land b 0x80 =? 0) && leb_shape l'
  end.

Definition sleb_negative (l : list Z) : bool :=
  match last l with Some b => negb (Z.land b 0x40 =? 0) | None => false end.

Definition sleb_value (l : list Z) : Z :=
  uleb_value l - (if sleb_negative l then 2 ^ (7 * Z.of_nat (length l)) else 0).

(** The shortest ULEB128 encoding, as an assembler emits it. *)
Fixpoint uleb_encode_fuel (fuel : nat) (v : Z) : list Z :=
  match fuel with
  | O => []
  | S fuel => if v <? 128 then [v] else (v mod 128 + 128) :: uleb_encode_fuel fuel (v / 128)
  end.
Definition uleb_encode (v : Z) : list Z := uleb_encode_fuel 5 v.

Example uleb_624485 : decode_uleb128 [0xe5; 0x8e; 0x26] = Done (624485, 3).
Proof. reflexivity. Qed.
Example sleb_m8 : decode_sleb128 [0x78] = Done (u64 (-8), 1).
Proof. reflexivity. Qed.

(** ** LEB128 correctness *)

Lemma uleb_value_range l : 0 <= uleb_value l < 2 ^ (7 * Z.of_nat (length l)).
Proof.
  induction l as [|b l IH]; cbn [uleb_value length]; [done|].
  rewrite Nat2Z.inj_succ, Z.mul_succ_r, Z.pow_add_r by lia. change (2 ^ 7) with 128.
  rewrite land_7F. pose proof (Z.mod_pos_bound b 128). lia.
Qed.

Lemma leb_shape_cons b l :
  leb_shape (b :: l) = true ->
  (l = [] /\ Z.land b 0x80 =? 0 = true) \/
  (l <> [] /\ Z.land b 0x80 =? 0 = false /\ leb_shape l = true).
Proof.
  destruct l; simpl; [by left|]. intros [H1%negb_true_iff H2]%andb_true_iff. by right.
Qed.

(** The fuel-indexed loop on a complete encoding whose value stays in [int]. *)
Lemma decode_uleb128_loop_spec n l rest result shift count :
  leb_shape l = true -> (length l <= n)%nat -> 0 <= shift -> 0 <= result < 2 ^ shift ->
  shift + 7 * Z.of_nat (length l) <= 35 ->
  result + 2 ^ shift * uleb_value l < 2 ^ 31 ->
  decode_uleb128_loop n (l ++ rest) result shift count =
    Done (result + 2 ^ shift * uleb_value l, count + Z.of_nat (length l)).
Proof.
  revert n result shift count.
  induction l as [|b l IH]; intros n result shift count Hs Hn Hsh Hr H35 H31; [done|].
  destruct n as [|n]; [simpl in Hn; lia|].
  pose proof (uleb_value_range l) as [Hl _].
  pose proof (Z.mod_pos_bound b 128 ltac:(lia)) as Hb.
  cbn [uleb_value length] in *. rewrite Nat2Z.inj_succ in *. rewrite land_7F in *.
  cbn [app decode_uleb128_loop head tail].
  assert (Hpow : 0 < 2 ^ shift) by lia.
  assert (Hpart : 0 <= (b mod 128) * 2 ^ shift < 2 ^ 31) by nia.
  unfold int_shl. destruct (Z.ltb_spec shift 32); [|lia]. simpl.
  rewrite land_7F.
  assert (Z.lor result (u64 (s32 (Z.shiftl (b mod 128) shift))) =
          result + (b mod 128) * 2 ^ shift) as ->.
  { rewrite swrap_small, wrap_small by (rewrite ?Z.shiftl_mul_pow2 by done; word).
    by apply lor_field. }
  destruct (leb_shape_cons _ _ Hs) as [[-> ->]|(Hne & -> & Hs')].
  - simpl. tuple_eq; first [ring|lia].
  - replace (2 ^ shift * (b mod 128 + 128 * uleb_value l))
      with ((b mod 128) * 2 ^ shift + 2 ^ (shift + 7) * uleb_value l)
      by (rewrite Z.pow_add_r by lia; change (2 ^ 7) with 128; ring).
    rewrite IH; try done.
    + tuple_eq; first [ring|lia].
    + simpl in Hn. lia.
    + lia.
    + rewrite Z.pow_add_r by lia. change (2 ^ 7) with 128. nia.
    + lia.
    + rewrite Z.pow_add_r by lia. change (2 ^ 7) with 128. nia.
Qed.

Lemma decode_sleb128_loop_spec n l rest b0 result shift count :
  leb_shape l = true -> (length l <= n)%nat -> 0 <= shift -> 0 <= result < 2 ^ shift ->
  shift + 7 * Z.of_nat (length l) <= 63 ->
  decode_sleb128_loop n (l ++ rest) b0 result shift count =
    Done (default 0 (last l), result + 2 ^ shift * uleb_value l,
          shift + 7 * (Z.of_nat (length l) - 1), count + Z.of_nat (length l)).
Proof.
  revert n b0 result shift count.
  induction l as [|b l IH]; intros n b0 result shift count Hs Hn Hsh Hr H63; [done|].
  destruct n as [|n]; [simpl in Hn; lia|].
  pose proof (Z.mod_pos_bound b 128 ltac:(lia)) as Hb.
  cbn [uleb_value length] in *. rewrite Nat2Z.inj_succ in *. rewrite land_7F in *.
  cbn [app decode_sleb128_loop head tail]. simpl of_opt. run.
  assert (Hpow : 0 < 2 ^ shift <= 2 ^ 56)
    by (split; [lia|apply Z.pow_le_mono_r; lia]).
  rewrite land_7F. unfold shl64.
  rewrite wrap_small by (unfold in_width; rewrite Z.shiftl_mul_pow2 by done; nia).
  rewrite lor_field by done.
  destruct (leb_shape_cons _ _ Hs) as [[-> ->]|(Hne & -> & Hs')].
  - simpl. tuple_eq; first [done|ring|lia].
  - replace (2 ^ shift * (b mod 128 + 128 * uleb_value l))
      with ((b mod 128) * 2 ^ shift + 2 ^ (shift + 7) * uleb_value l)
      by (rewrite Z.pow_add_r by lia; change (2 ^ 7) with 128; ring).
    rewrite IH; try done.
    + rewrite last_cons. destruct (last l) as [x|] eqn:E; [|by apply last_None in E].
      simpl. tuple_eq; first [done|ring|lia].
    + simpl in Hn. lia.
    + lia.
    + rewrite Z.pow_add_r by lia. change (2 ^ 7) with 128. nia.
    + lia.
Qed.

Lemma leb_terminates_shape n l rest :
  leb_shape l = true -> (length l <= n)%nat -> leb_terminates n (l ++ rest) = true.
Proof.
  revert n. induction l as [|b l IH]; intros n Hs Hn; [done|].
  destruct n as [|n]; simpl in Hn; [lia|]. simpl.
  destruct (leb_shape_cons _ _ Hs) as [[-> ->]|(_ & -> & Hs')]; [done|]. apply IH; [done|lia].
Qed.

Lemma decode_checked_uleb buf :
  decode_read_checked buf DW_EH_PE_uleb128 =
  if leb_terminates 8 buf then
    '(res, size) ← decode_uleb128 buf; mret (Some (res, drop (Z.to_nat size) buf))
  else mret None.
Proof. reflexivity. Qed.

Lemma decode_checked_sleb buf :
  decode_read_checked buf DW_EH_PE_sleb128 =
  if leb_terminates 10 buf then
    '(res, size) ← decode_sleb128 buf; mret (Some (res, drop (Z.to_nat size) buf))
  else mret None.
Proof. reflexivity. Qed.

Lemma decode_uleb128_spec l rest :
  leb_shape l = true -> (length l <= 5)%nat -> uleb_value l < 2 ^ 31 ->
  decode_read_checked (l ++ rest) DW_EH_PE_uleb128 = Done (Some (uleb_value l, rest)).
Proof.
  intros Hs Hn Hv. rewrite decode_checked_uleb.
  rewrite leb_terminates_shape by (done || lia).
  unfold decode_uleb128. rewrite decode_uleb128_loop_spec by (done || lia).
  run.
  by rewrite !Z.add_0_l, Z.pow_0_r, Z.mul_1_l, Nat2Z.id, drop_app_length.
Qed.

Lemma sleb_sign_extend u k :
  0 <= k < 64 -> 0 <= u < 2 ^ k -> Z.lor u (shl64 UINT64_MAX k) = u64 (u - 2 ^ k).
Proof.
  intros Hk Hu.
  assert (Hp : 2 ^ (64 - k) * 2 ^ k = 2 ^ 64) by (rewrite <- Z.pow_add_r by lia; f_equal; lia).
  assert (2 ^ k < 2 ^ 64) by (apply Z.pow_lt_mono_r; lia).
  assert (E : shl64 UINT64_MAX k = Z.shiftl (2 ^ (64 - k) - 1) k).
  { unfold shl64, UINT64_MAX, wrap. rewrite !Z.shiftl_mul_pow2 by lia.
    symmetry. apply Z.mod_unique with (2 ^ k - 1); lia. }
  rewrite E, lor_field by lia. unfold wrap. apply Z.mod_unique with (-1); lia.
Qed.

Lemma decode_sleb128_spec l rest :
  leb_shape l = true -> (length l <= 9)%nat ->
  decode_read_checked (l ++ rest) DW_EH_PE_sleb128 = Done (Some (u64 (sleb_value l), rest)).
Proof.
  intros Hs Hn. rewrite decode_checked_sleb.
  rewrite leb_terminates_shape by (done || lia).
  unfold decode_sleb128. rewrite decode_sleb128_loop_spec by (done || lia).
  run. rewrite !Z.add_0_l, Z.pow_0_r, Z.mul_1_l.
  pose proof (uleb_value_range l) as Hv.
  assert (Hpow : 2 ^ (7 * Z.of_nat (length l)) <= 2 ^ 63) by (apply Z.pow_le_mono_r; lia).
  unfold sleb_value, sleb_negative.
  destruct (last l) as [b|] eqn:Hlast; [|by apply last_None in Hlast as ->]. change (default 0 (Some b)) with b.
  destruct (Z.land b 0x40 =? 0); cbn [negb mbind outcome_bind mret outcome_ret].
  - rewrite Nat2Z.id, drop_app_length, Z.sub_0_r, wrap_small by word. done.
  - destruct (Z.leb_spec 64 (7 * (Z.of_nat (length l) - 1) + 7)); [lia|].
    run. rewrite Nat2Z.id, drop_app_length. tuple_eq; [|done].
    replace (7 * (Z.of_nat (length l) - 1) + 7) with (7 * Z.of_nat (length l)) by lia.
    apply sleb_sign_extend; lia.
Qed.

Lemma uleb_encode_fuel_spec n v :
  0 <= v < 2 ^ (7 * Z.of_nat n) -> (0 < n)%nat ->
  leb_shape (uleb_encode_fuel n v) = true /\ uleb_value (uleb_encode_fuel n v) = v /\
  (length (uleb_encode_fuel n v) <= n)%nat.
Proof.
  revert v. induction n as [|n IH]; intros v Hv Hn; [lia|]. clear Hn.
  rewrite Nat2Z.inj_succ, Z.mul_succ_r, Z.pow_add_r in Hv by lia.
  change (2 ^ 7) with 128 in Hv. simpl.
  destruct (Z.ltb_spec v 128) as [Hlt|Hge].
  - split_and!; simpl; [|rewrite land_7F, Z.mod_small by lia; lia|lia].
    apply Z.eqb_eq. change 0x80 with (2 ^ 7).
    apply Z.eqb_eq. rewrite land_pow2_zero by done. by rewrite (testbit_small v 7) by lia.
  - assert (Hn : (0 < n)%nat).
    { destruct n; [|lia]. change (2 ^ (7 * Z.of_nat 0)) with 1 in Hv. lia. }
    destruct (IH (v / 128)) as (H1 & H2 & H3); [|done|].
    { split; [apply Z.div_pos; lia|apply Z.div_lt_upper_bound; lia]. }
    pose proof (Z.mod_pos_bound v 128).
    assert (Hcont : Z.land (v mod 128 + 128) 0x80 =? 0 = false).
    { assert (v mod 128 + 128 = Z.lor (v mod 128) (Z.shiftl 1 7)) as ->
        by (rewrite lor_field by lia; lia).
      rewrite (land_pow2_zero _ 7), Z.lor_spec, Z.shiftl_spec by done.
      by rewrite (testbit_small _ 7) by lia. }
    cbn [uleb_value length]. rewrite H2, land_7F.
    split_and!; [|pose proof (Z.div_mod v 128)|lia].
    + simpl. destruct (uleb_encode_fuel n (v / 128)) eqn:E; [done|]. by rewrite Hcont.
    + replace (v mod 128 + 128) with (v mod 128 + 1 * 128) by lia.
      rewrite Z.mod_add, Z.mod_mod by lia. lia.
Qed.

(** ** Safety *)

Lemma decode_uleb128_loop_safe n buf result shift count :
  leb_terminates n buf = true -> is_u64 result ->
  match decode_uleb128_loop n buf result shift count with
  | Done (v, c) => is_u64 v /\ count < c <= count + Z.of_nat (length buf)
  | Undef u => u = BadShift
  end.
Proof.
  revert buf result shift count.
  induction n as [|n IH]; intros buf result shift count Ht Hr; [done|].
  destruct buf as [|b buf]; [done|]. cbn [leb_terminates] in Ht.
  cbn [decode_uleb128_loop head tail length]. run. rewrite Nat2Z.inj_succ.
  unfold int_shl. destruct (shift <? 32); run; [|done].
  assert (Hr' : is_u64 (Z.lor result (u64 (s32 (Z.shiftl (Z.land b 127) shift)))))
    by (apply lor_range; auto with gu; lia).
  destruct (Z.land b 128 =? 0); run; [split; [done|lia]|].
  specialize (IH buf _ (shift + 7) (count + 1) Ht Hr').
  destruct (decode_uleb128_loop _ _ _ _ _) as [[v c]|u]; [|done].
  destruct IH. split; [done|lia].
Qed.

Lemma decode_sleb128_loop_safe n buf b0 result shift count :
  leb_terminates n buf = true -> is_u64 result ->
  exists b v s c, decode_sleb128_loop n buf b0 result shift count = Done (b, v, s, c) /\
    is_u64 v /\ count < c <= count + Z.of_nat (length buf).
Proof.
  revert buf b0 result shift count.
  induction n as [|n IH]; intros buf b0 result shift count Ht Hr; [done|].
  destruct buf as [|b buf]; [done|]. cbn [leb_terminates] in Ht.
  cbn [decode_sleb128_loop head tail length]. run. rewrite Nat2Z.inj_succ.
  assert (Hr' : is_u64 (Z.lor result (shl64 (Z.land b 127) shift)))
    by (apply lor_range; auto with gu; lia).
  destruct (Z.land b 128 =? 0).
  - run. do 4 eexists. split; [done|]. split; [done|lia].
  - destruct (IH buf b _ (shift + 7) (count + 1) Ht Hr') as (b' & v & s & c & E & ? & ?).
    exists b', v, s, c. split; [done|]. split; [done|lia].
Qed.

(** What a checked read guarantees: the value fits, at least one byte of the
    buffer is consumed, and what remains is a suffix of the buffer. *)
Definition read_ok (buf : list Z) (r : option (Z * list Z)) : Prop :=
  match r with
  | Some (v, rest) =>
    is_u64 v /\ exists p, buf = p ++ rest /\ (0 < length p)%nat
  | None => True
  end.

Lemma read_ok_drop v buf size :
  is_u64 v -> 0 < size <= Z.of_nat (length buf) ->
  read_ok buf (Some (v, drop (Z.to_nat size) buf)).
Proof.
  intros Hv Hs. split; [done|]. exists (take (Z.to_nat size) buf).
  rewrite take_drop, length_take. split; [done|lia].
Qed.

Lemma decode_fixed_ok n conv buf :
  (0 < n <= length buf)%nat -> (n <= 8)%nat -> bytes_ok buf ->
  (forall v, 0 <= v < 256 ^ Z.of_nat n -> is_u64 (conv v)) ->
  exists r, decode_fixed n conv buf = Done r /\ read_ok buf r.
Proof.
  intros Hn Hn8 Hb Hconv. unfold decode_fixed, read_le. rewrite decide_True by lia. run.
  eexists. split; [done|]. split.
  - apply Hconv. pose proof (le_value_range (take n buf)) as Hr.
    rewrite length_take, Nat.min_l in Hr by lia. apply Hr. by apply Forall_take.
  - exists (take n buf). rewrite take_drop, length_take. split; [done|lia].
Qed.

(** One fixed-size case of [decode_read_checked]. *)
Ltac fixed_case Hb Hid :=
  cbn -[decode_fixed Z.leb Z.of_nat];
  match goal with
  | |- context [if ?k <=? ?n then decode_fixed ?m ?conv ?buf else _] =>
    destruct (Z.leb_spec k n); [|done];
    destruct (decode_fixed_ok m conv buf) as (? & -> & ?);
      [lia|lia|exact Hb|solve [apply (Hid m); lia|intros; apply u64_range]|done]
  end.

Lemma decode_read_checked_ok buf ty :
  bytes_ok buf ->
  match decode_read_checked buf ty with
  | Done r => read_ok buf r
  | Undef u => u = BadShift
  end.
Proof.
  intros Hb. unfold decode_read_checked, decode_read_fits, decode_read.
  set (t := Z.land ty 0xf). cbn zeta.
  assert (H0 : is_u64 0) by done.
  assert (Hid : forall n, (n <= 8)%nat -> forall v, 0 <= v < 256 ^ Z.of_nat n -> is_u64 v).
  { intros n Hn v Hv. assert (256 ^ Z.of_nat n <= 256 ^ 8) by (apply Z.pow_le_mono_r; lia).
    unfold in_width. change (2 ^ 64) with (256 ^ 8). lia. }
  destruct (t =? DW_EH_PE_uleb128).
  { destruct (leb_terminates 8 buf) eqn:Ht; [|done].
    pose proof (decode_uleb128_loop_safe 8 buf 0 0 0 Ht H0) as Hs. unfold decode_uleb128.
    destruct (decode_uleb128_loop _ _ _ _ _) as [[v c]|u]; run; [|done].
    destruct Hs. apply read_ok_drop; [done|lia]. }
  destruct (t =? DW_EH_PE_sleb128).
  { destruct (leb_terminates 10 buf) eqn:Ht; [|done].
    destruct (decode_sleb128_loop_safe 10 buf 0 0 0 0 Ht H0) as (b & v & s & c & E & Hv & Hc).
    unfold decode_sleb128. rewrite E. run.
    destruct (Z.land b 0x40 =? 0); run; [apply read_ok_drop; [done|lia]|].
    destruct (64 <=? s + 7); run; [done|].
    apply read_ok_drop; [apply lor_range; auto with gu; lia|lia]. }
  clearbody t.
  destruct (Z.eqb_spec t DW_EH_PE_udata2) as [->|_]; [fixed_case Hb Hid|].
  destruct (Z.eqb_spec t DW_EH_PE_sdata2) as [->|_]; [fixed_case Hb Hid|].
  destruct (Z.eqb_spec t DW_EH_PE_udata4) as [->|_]; [fixed_case Hb Hid|].
  destruct (Z.eqb_spec t DW_EH_PE_sdata4) as [->|_]; [fixed_case Hb Hid|].
  destruct (Z.eqb_spec t DW_EH_PE_udata8) as [->|_]; [fixed_case Hb Hid|].
  destruct (Z.eqb_spec t DW_EH_PE_sdata8) as [->|_]; [fixed_case Hb Hid|].
  by destruct (Z.eqb_spec t DW_EH_PE_absptr) as [->|_]; [fixed_case Hb Hid|].
Qed.

Lemma decode_uleb128_loop_long n l rest result shift count :
  leb_shape l = true -> (length l <= n)%nat ->
  32 <= shift + 7 * (Z.of_nat (length l) - 1) ->
  decode_uleb128_loop n (l ++ rest) result shift count = Undef BadShift.
Proof.
  revert n result shift count.
  induction l as [|b l IH]; intros n result shift count Hs Hn H32; [done|].
  destruct n as [|n]; [simpl in Hn; lia|].
  cbn [app decode_uleb128_loop head tail length] in *. run. rewrite Nat2Z.inj_succ in H32.
  unfold int_shl. destruct (Z.ltb_spec shift 32); run; [|done].
  destruct (leb_shape_cons _ _ Hs) as [[-> _]|(_ & -> & Hs')]; [simpl in H32; lia|].
  apply IH; [done|lia|lia].
Qed.

Lemma uleb_encode_spec v :
  0 <= v < 2 ^ 31 -> leb_shape (uleb_encode v) = true /\ uleb_value (uleb_encode v) = v /\
  (length (uleb_encode v) <= 5)%nat.
Proof. intros. apply uleb_encode_fuel_spec; lia. Qed.

(** ** Properties *)

(** Every LEB128 byte sequence, minimal or padded, decodes to the number it
    denotes and consumes exactly its bytes: unsigned ones of at most five bytes
    below 2^31, signed ones of at most nine bytes. *)
Theorem leb128_decode_correct l rest :
  leb_shape l = true ->
  ((length l <= 5)%nat -> uleb_value l < 2 ^ 31 ->
   decode_read_checked (l ++ rest) DW_EH_PE_uleb128 = Done (Some (uleb_value l, rest))) /\
  ((length l <= 9)%nat ->
   decode_read_checked (l ++ rest) DW_EH_PE_sleb128 = Done (Some (u64 (sleb_value l), rest))).
Proof.
  intros Hs. split; intros; [by apply decode_uleb128_spec|by apply decode_sleb128_spec].
Qed.

Lemma leb128_decode_correct_witness :
  decode_read_checked ([0xe5; 0x8e; 0x26] ++ [7]) DW_EH_PE_uleb128 =
    Done (Some (624485, [7])) /\
  decode_read_checked ([0x80; 0x7f] ++ [7]) DW_EH_PE_sleb128 = Done (Some (u64 (-128), [7])).
Proof.
  split.
  - refine (proj1 (leb128_decode_correct [0xe5; 0x8e; 0x26] [7] _) _ _);
      [done|simpl; lia|vm_compute; done].
  - refine (proj2 (leb128_decode_correct [0x80; 0x7f] [7] _) _); [done|simpl; lia].
Defined.

(** An unsigned value below 2^31 written in its shortest ULEB128 form is
    read back unchanged. *)
Theorem uleb128_roundtrip v rest :
  0 <= v < 2 ^ 31 ->
  decode_read_checked (uleb_encode v ++ rest) DW_EH_PE_uleb128 = Done (Some (v, rest)).
Proof.
  intros Hv. destruct (uleb_encode_spec v Hv) as (H1 & H2 & H3).
  rewrite decode_uleb128_spec; rewrite ?H2; done || lia.
Qed.

Lemma uleb128_roundtrip_witness :
  decode_read_checked (uleb_encode 123456789 ++ []) DW_EH_PE_uleb128 =
    Done (Some (123456789, [])).
Proof. apply uleb128_roundtrip. lia. Defined.

(** For any bytes and any encoding, a checked read never leaves the
    buffer: it fails, or consumes a non-empty prefix and yields a 64-bit value;
    the only fault it can hit is an over-long shift. *)
Theorem decode_read_checked_safe buf ty :
  bytes_ok buf ->
  match decode_read_checked buf ty with
  | Done (Some (v, rest)) => is_u64 v /\ exists p, buf = p ++ rest /\ (0 < length p)%nat
  | Done None => True
  | Undef u => u = BadShift
  end.
Proof.
  intros Hb. pose proof (decode_read_checked_ok buf ty Hb) as H.
  by destruct (decode_read_checked buf ty) as [[[v rest]|]|u].
Qed.

Lemma decode_read_checked_safe_witness :
  match decode_read_checked [0x81; 0x01; 0x55] DW_EH_PE_uleb128 with
  | Done (Some (v, rest)) =>
    is_u64 v /\ exists p, [0x81; 0x01; 0x55] = p ++ rest /\ (0 < length p)%nat
  | Done None => True
  | Undef u => u = BadShift
  end.
Proof.
  apply (decode_read_checked_safe [0x81; 0x01; 0x55] DW_EH_PE_uleb128).
  repeat constructor; simpl; lia.
Defined.

(** ULEB128 numbers of six to eight bytes pass the length check but decode
    with an undefined shift of an [int], and a five-byte number at 2^31 is
    sign-extended; the ten-byte SLEB128 encoding of the least 64-bit integer
    shifts by the full width. *)
Theorem leb128_large_values l rest :
  leb_shape l = true -> (5 < length l <= 8)%nat ->
  decode_read_checked (l ++ rest) DW_EH_PE_uleb128 = Undef BadShift /\
  decode_read_checked [0x80; 0x80; 0x80; 0x80; 0x08] DW_EH_PE_uleb128 =
    Done (Some (0xffffffff80000000, [])) /\
  decode_read_checked (replicate 9 0x80 ++ [0x7f]) DW_EH_PE_sleb128 = Undef BadShift.
Proof.
  intros Hs Hn. split_and!; [|reflexivity..].
  rewrite decode_checked_uleb, leb_terminates_shape by (done || lia).
  unfold decode_uleb128. by rewrite decode_uleb128_loop_long by (done || lia).
Qed.

Lemma leb128_large_values_witness :
  decode_read_checked ([0x80; 0x80; 0x80; 0x80; 0x80; 0x01] ++ []) DW_EH_PE_uleb128 =
    Undef BadShift.
Proof.
  apply (leb128_large_values [0x80; 0x80; 0x80; 0x80; 0x80; 0x01] []); [done|simpl; lia].
Defined.
