(* ===== verification/Arch.v ===== *)
(** * Architectures: [include/arch/*/arch.h], [enum reg_name], the register block

    The two supported targets as instances of one interface [Arch]: the DWARF
    numbers of the registers the unwinder follows and the table [regs] of
    offsets into [struct pt_regs].  The register block of a snapshot is read
    and written through that table ([get_regs], [write_regs] of
    [src/gu_unwinder.c]). *)

From S2P Require Import Prelude Types.

(** [reg_offset] is the table [regs[]]: [offsetof(struct pt_regs, reg)] for
    each DWARF register number below [reg_count]. *)
Class Arch : Type := {
  reg_count : Z;
  reg_offset : Z -> Z;
  reg_name_rip : Z;
  reg_name_rsp : Z;
  reg_name_rbp : Z;
  (** [reg_name_lr], on the target that compiles with [GUNWINDER_ARM64] *)
  reg_name_lr : option Z;
  (** [sizeof(struct pt_regs)] in words *)
  pt_regs_words : Z;
  reg_offset_slot r : 0 <= r < reg_count ->
    reg_offset r mod 8 = 0 /\ 0 <= reg_offset r / 8 < pt_regs_words;
  reg_offset_inj r r' : 0 <= r < reg_count -> 0 <= r' < reg_count ->
    reg_offset r / 8 = reg_offset r' / 8 -> r = r';
  reg_names_distinct :
    NoDup ([reg_name_rip; reg_name_rsp; reg_name_rbp] ++ option_list reg_name_lr);
  reg_names_range :
    Forall (fun r => 0 <= r < reg_count)
      ([reg_name_rip; reg_name_rsp; reg_name_rbp] ++ option_list reg_name_lr);
}.

(** ** aarch64: [struct pt_regs] and [REG_POS_LIST] of the arm64 header

    [x0] to [x28], [x29], [lr], [sp] and [pc] are consecutive 8-byte fields
    and carry DWARF numbers 0 to 32; [pstate] follows. *)
Definition aarch64 : Arch.
Proof.
  refine {| reg_count := 33; reg_offset := fun r => 8 * r; reg_name_rip := 32;
            reg_name_rsp := 31; reg_name_rbp := 29; reg_name_lr := Some 30;
            pt_regs_words := 34 |}.
  - intros r Hr. rewrite Z.mul_comm, Z.mod_mul, Z.div_mul by lia. lia.
  - intros r r' _ _. rewrite !(Z.mul_comm 8), !Z.div_mul by lia. done.
  - apply (bool_decide_unpack _). vm_compute. done.
  - repeat constructor; simpl; lia.
Defined.

(** ** x86_64: [REG_POS_LIST] of the x86 header

    [struct pt_regs] comes from the kernel's [asm/ptrace.h]; its layout is a
    parameter, of which only a struct's layout rules are used: aligned,
    pairwise distinct 8-byte fields. *)
Class PtRegsX86 : Type := {
  pt_regs_offsetof : Z -> Z;
  pt_regs_size_words : Z;
  pt_regs_aligned r : 0 <= r < 17 ->
    pt_regs_offsetof r mod 8 = 0 /\ 0 <= pt_regs_offsetof r / 8 < pt_regs_size_words;
  pt_regs_distinct r r' : 0 <= r < 17 -> 0 <= r' < 17 ->
    pt_regs_offsetof r / 8 = pt_regs_offsetof r' / 8 -> r = r';
}.

Definition x86_64 `{PtRegsX86} : Arch.
Proof.
  refine {| reg_count := 17; reg_offset := pt_regs_offsetof; reg_name_rip := 16;
            reg_name_rsp := 7; reg_name_rbp := 6; reg_name_lr := None;
            pt_regs_words := pt_regs_size_words |}.
  - apply pt_regs_aligned.
  - apply pt_regs_distinct.
  - apply (bool_decide_unpack _). vm_compute. done.
  - repeat constructor; simpl; lia.
Defined.

(** The register an unwound return address is written to ([pc_regno] of
    [gu_unwind] after its [#ifdef]). *)
Definition pc_regno `{Arch} : Z := default reg_name_rip reg_name_lr.

(** ** The register block *)

(** [get_regs]: [None] is a [false] return.  Indexing past the caller's
    register block is an out-of-bounds read. *)
Definition get_regs `{Arch} (info : gu_stack_info) (regno : Z) : outcome (option Z) :=
  match regs info with
  | None => mret None
  | Some words =>
    if regno <? 0 then mret None else
    if reg_count <=? regno then mret None else
    v ← of_opt (words !! Z.to_nat (reg_offset regno / 8));
    mret (Some v)
  end.

(** [write_regs]: the return value and the snapshot with its block updated. *)
Definition write_regs `{Arch} (info : gu_stack_info) (regno val : Z)
  : outcome (bool * gu_stack_info) :=
  match regs info with
  | None => mret (false, info)
  | Some words =>
    if regno <? 0 then mret (false, info) else
    if reg_count <=? regno then mret (false, info) else
    let i := Z.to_nat (reg_offset regno / 8) in
    _ ← of_opt (words !! i);
    mret (true, with_regs info (Some (<[i := val]> words)))
  end.

(** A snapshot whose register block is a whole [struct pt_regs]. *)
Definition regs_ok `{Arch} (info : gu_stack_info) : Prop :=
  exists words, regs info = Some words /\ Z.of_nat (length words) = pt_regs_words /\
    Forall is_u64 words.

Lemma get_regs_ok `{Arch} info regno :
  regs_ok info ->
  exists r, get_regs info regno = Done r /\
    (forall v, r = Some v -> is_u64 v /\ 0 <= regno < reg_count) /\
    (0 <= regno < reg_count -> is_Some r).
Proof.
  intros (words & Hw & Hlen & Hu). unfold get_regs. rewrite Hw.
  destruct (Z.ltb_spec regno 0); [exists None; split; [done|]; split; [done|intros; exfalso; lia]|].
  destruct (Z.leb_spec reg_count regno); [exists None; split; [done|]; split; [done|intros; exfalso; lia]|].
  destruct (reg_offset_slot regno) as [_ Hslot]; [lia|].
  destruct (lookup_lt_is_Some_2 words (Z.to_nat (reg_offset regno / 8))) as [v Hv]; [lia|].
  rewrite Hv. run. exists (Some v). split; [done|]. split; [|by eauto].
  intros ? [= <-]. split; [|lia]. by eapply Forall_lookup_1 in Hu.
Qed.

Lemma write_regs_ok `{Arch} info regno v :
  regs_ok info -> is_u64 v -> 0 <= regno < reg_count ->
  exists info', write_regs info regno v = Done (true, info') /\ regs_ok info' /\
    info' = with_regs info (regs info').
Proof.
  intros (words & Hw & Hlen & Hu) Hv Hr. unfold write_regs. rewrite Hw.
  destruct (Z.ltb_spec regno 0); [lia|]. destruct (Z.leb_spec reg_count regno); [lia|].
  destruct (reg_offset_slot regno Hr) as [_ Hslot].
  destruct (lookup_lt_is_Some_2 words (Z.to_nat (reg_offset regno / 8))) as [v0 Hv0]; [lia|].
  rewrite Hv0. run. eexists. split; [done|]. split; [|done].
  eexists. split; [done|]. rewrite length_insert. split; [done|].
  by apply Forall_insert.
Qed.

(** ** Properties *)

(** On a complete register block, writing a known register succeeds, reading
    it back gives the value, every other known register keeps its value, and
    nothing else of the snapshot changes. *)
Theorem write_regs_get_regs `{Arch} info r v :
  regs_ok info -> is_u64 v -> 0 <= r < reg_count ->
  exists info', write_regs info r v = Done (true, info') /\
    get_regs info' r = Done (Some v) /\
    (forall r', r' <> r -> get_regs info' r' = get_regs info r') /\
    info' = with_regs info (regs info').
Proof.
  intros Hok Hv Hr. destruct (write_regs_ok info r v Hok Hv Hr) as (info' & E & _ & Hw).
  exists info'. split; [done|]. destruct Hok as (words & Hwords & Hlen & _).
  unfold write_regs in E. rewrite Hwords in E.
  destruct (Z.ltb_spec r 0); [lia|]. destruct (Z.leb_spec reg_count r); [lia|].
  destruct (words !! Z.to_nat (reg_offset r / 8)) as [v0|] eqn:Hv0; [|done].
  run_inv. unfold get_regs. simpl. rewrite Hwords.
  destruct (Z.ltb_spec r 0); [lia|]. destruct (Z.leb_spec reg_count r); [lia|].
  rewrite list_lookup_insert_eq by by eapply lookup_lt_Some.
  split; [done|]. split; [|done]. intros r' Hne.
  destruct (Z.ltb_spec r' 0); [done|]. destruct (Z.leb_spec reg_count r'); [done|].
  rewrite list_lookup_insert_ne; [done|]. intros Heq. apply Hne.
  destruct (reg_offset_slot r) as [_ ?]; [lia|].
  destruct (reg_offset_slot r') as [_ ?]; [lia|]. apply reg_offset_inj; lia.
Qed.

(** ** Witnesses *)

(** The layout the Linux user-space header gives [struct pt_regs]. *)
Definition linux_pt_regs_offsets : list Z :=
  [80; 96; 88; 40; 104; 112; 32; 152; 72; 64; 56; 48; 24; 16; 8; 0; 128].

Definition linux_pt_regs : PtRegsX86.
Proof.
  refine {| pt_regs_offsetof := fun r => default 0 (linux_pt_regs_offsets !! Z.to_nat r);
            pt_regs_size_words := 21 |}.
  - intros r Hr. assert (Hn : (Z.to_nat r < 17)%nat) by lia. revert Hn.
    generalize (Z.to_nat r) as n. intros n Hn.
    do 17 (destruct n as [|n]; [vm_compute; by split_and!|]). lia.
  - intros r r' Hr Hr' E. apply Z2Nat.inj; [lia..|].
    revert E. assert (Hn : (Z.to_nat r < 17)%nat) by lia.
    assert (Hn' : (Z.to_nat r' < 17)%nat) by lia. revert Hn Hn'.
    generalize (Z.to_nat r) as n, (Z.to_nat r') as n'. intros n n' Hn Hn'.
    do 17 (destruct n as [|n];
      [do 17 (destruct n' as [|n']; [vm_compute; done|]); lia|]). lia.
Defined.

Definition linux_x86_64 : Arch := @x86_64 linux_pt_regs.

Definition zero_info (words : nat) : gu_stack_info :=
  mk_gu_stack_info 1 0 0 (Some (replicate words 0)) 0 0 (replicate 128 0) 0 (Some []).

Lemma zero_info_regs_ok `{Arch} words :
  Z.of_nat words = pt_regs_words -> regs_ok (zero_info words).
Proof.
  intros. exists (replicate words 0). rewrite length_replicate. split_and!; [done..|].
  apply Forall_replicate. word.
Qed.

Lemma write_regs_get_regs_witness :
  exists info', write_regs (H := linux_x86_64) (zero_info 21) 7 0x7ffe0 = Done (true, info') /\
    get_regs (H := linux_x86_64) info' 7 = Done (Some 0x7ffe0) /\
    (forall r', r' <> 7 ->
       get_regs (H := linux_x86_64) info' r' = get_regs (H := linux_x86_64) (zero_info 21) r') /\
    info' = with_regs (zero_info 21) (regs info').
Proof.
  apply (write_regs_get_regs (H := linux_x86_64) (zero_info 21) 7 0x7ffe0).
  - by apply zero_info_regs_ok.
  - word.
  - simpl. lia.
Defined.
