(* ===== verification/CfiProgram.v ===== *)
(** * Call-frame programs: [init_calc_ctx_by_ins] of [src/gu_cfi_helper.c]

    The byte interpreter for CIE and FDE instructions.  It computes, for one
    program counter, the rule for the CFA and the rules for the three registers
    the unwinder follows.  [DW_CFA_remember_state] saves the whole context in
    a [malloc]ed cell linked through [prev]; the cells live in an explicit heap
    so that sharing, use after free and leaks are visible. *)

From S2P Require Import Prelude Types Arch CfiDecode.

(** ** DWARF operations ([Dwarf_Op] of libdw) *)
Record Dwarf_Op : Type := mk_op {
  atom : Z;
  number : Z;
  number2 : Z;
  op_offset : Z;
}.

#[export] Instance Dwarf_Op_eq_dec : EqDecision Dwarf_Op.
Proof. solve_decision. Defined.

Definition DW_OP_bregx : Z := 0x92.

(** ** Call-frame opcodes *)
Definition DW_CFA_advance_loc : Z := 0x40.
Definition DW_CFA_offset : Z := 0x80.
Definition DW_CFA_restore : Z := 0xc0.
Definition DW_CFA_nop : Z := 0x00.
Definition DW_CFA_set_loc : Z := 0x01.
Definition DW_CFA_advance_loc1 : Z := 0x02.
Definition DW_CFA_advance_loc2 : Z := 0x03.
Definition DW_CFA_advance_loc4 : Z := 0x04.
Definition DW_CFA_offset_extended : Z := 0x05.
Definition DW_CFA_restore_extended : Z := 0x06.
Definition DW_CFA_undefined : Z := 0x07.
Definition DW_CFA_same_value : Z := 0x08.
Definition DW_CFA_register : Z := 0x09.
Definition DW_CFA_remember_state : Z := 0x0a.
Definition DW_CFA_restore_state : Z := 0x0b.
Definition DW_CFA_def_cfa : Z := 0x0c.
Definition DW_CFA_def_cfa_register : Z := 0x0d.
Definition DW_CFA_def_cfa_offset : Z := 0x0e.
Definition DW_CFA_def_cfa_expression : Z := 0x0f.
Definition DW_CFA_expression : Z := 0x10.
Definition DW_CFA_offset_extended_sf : Z := 0x11.
Definition DW_CFA_def_cfa_sf : Z := 0x12.
Definition DW_CFA_def_cfa_offset_sf : Z := 0x13.
Definition DW_CFA_val_offset : Z := 0x14.
Definition DW_CFA_val_offset_sf : Z := 0x15.
Definition DW_CFA_val_expression : Z := 0x16.
Definition DW_CFA_MIPS_advance_loc8 : Z := 0x1d.
Definition DW_CFA_GNU_args_size : Z := 0x2e.
Definition DW_CFA_GNU_negative_offset_extended : Z := 0x2f.
Definition CFI_PRIMARY_MAX : Z := 0x3f.

(** ** Frame state *)

(** [enum cfi_reg_type]; [REG_TYPE_MAX] is [None] where it can occur. *)
Inductive cfi_reg_type : Type := REG_TYPE_RIP | REG_TYPE_RBP | REG_TYPE_RSP.

#[export] Instance cfi_reg_type_eq_dec : EqDecision cfi_reg_type.
Proof. solve_decision. Defined.

Inductive dwarf_frame_rule : Type :=
  | reg_unspecified | reg_undefined | reg_same_value | reg_offset_rule
  | reg_val_offset | reg_register | reg_expression | reg_val_expression.

Inductive dwarf_cfa_rule : Type := cfa_undefined | cfa_offset | cfa_expr | cfa_invalid.

#[export] Instance dwarf_frame_rule_eq_dec : EqDecision dwarf_frame_rule.
Proof. solve_decision. Defined.
#[export] Instance dwarf_cfa_rule_eq_dec : EqDecision dwarf_cfa_rule.
Proof. solve_decision. Defined.

(** [struct dwarf_frame_register]: [value] is a 61-bit signed bit-field. *)
Record dwarf_frame_register : Type := mk_freg {
  rule : dwarf_frame_rule;
  value : Z;
}.
Definition freg (r : dwarf_frame_rule) (v : Z) : dwarf_frame_register :=
  mk_freg r (swrap 61 v).

(** The second word of the union [cfa_data]: [offset.number] and [expr.data]
    share it.  A pointer is an offset into the section data. *)
Inductive cfa_word : Type := WNum (n : Z) | WPtr (pos : Z).

Record cfi_regs : Type := mk_cfi_regs {
  reg_rip : dwarf_frame_register;
  reg_rbp : dwarf_frame_register;
  reg_rsp : dwarf_frame_register;
}.

(** [struct gu_cfi_calc_ctx].  [offset.atom] and [expr.length] share the first
    word of the union, but each is only read under the rule that writes it, so
    they are kept apart. *)
Record gu_cfi_calc_ctx : Type := mk_calc_ctx {
  cfa_rule : dwarf_cfa_rule;
  cfa_atom : Z;
  cfa_length : Z;
  cfa_number : cfa_word;
  cfa_number2 : Z;
  cfa_op_offset : Z;
  calc_regs : cfi_regs;
  prev : option Z;
}.

Definition get_freg (r : cfi_regs) (t : cfi_reg_type) : dwarf_frame_register :=
  match t with REG_TYPE_RIP => reg_rip r | REG_TYPE_RBP => reg_rbp r | REG_TYPE_RSP => reg_rsp r end.
Definition set_freg (r : cfi_regs) (t : cfi_reg_type) (v : dwarf_frame_register) : cfi_regs :=
  match t with
  | REG_TYPE_RIP => mk_cfi_regs v (reg_rbp r) (reg_rsp r)
  | REG_TYPE_RBP => mk_cfi_regs (reg_rip r) v (reg_rsp r)
  | REG_TYPE_RSP => mk_cfi_regs (reg_rip r) (reg_rbp r) v
  end.

Definition ctx_set_reg (c : gu_cfi_calc_ctx) t v : gu_cfi_calc_ctx :=
  mk_calc_ctx (cfa_rule c) (cfa_atom c) (cfa_length c) (cfa_number c) (cfa_number2 c)
    (cfa_op_offset c) (set_freg (calc_regs c) t v) (prev c).
Definition ctx_set_number (c : gu_cfi_calc_ctx) n : gu_cfi_calc_ctx :=
  mk_calc_ctx (cfa_rule c) (cfa_atom c) (cfa_length c) (WNum n) (cfa_number2 c)
    (cfa_op_offset c) (calc_regs c) (prev c).
Definition ctx_set_number2 (c : gu_cfi_calc_ctx) n : gu_cfi_calc_ctx :=
  mk_calc_ctx (cfa_rule c) (cfa_atom c) (cfa_length c) (cfa_number c) n
    (cfa_op_offset c) (calc_regs c) (prev c).
Definition ctx_set_prev (c : gu_cfi_calc_ctx) p : gu_cfi_calc_ctx :=
  mk_calc_ctx (cfa_rule c) (cfa_atom c) (cfa_length c) (cfa_number c) (cfa_number2 c)
    (cfa_op_offset c) (calc_regs c) p.
(** [DW_CFA_def_cfa] writes the whole [Dwarf_Op] of the union. *)
Definition ctx_def_cfa (c : gu_cfi_calc_ctx) operand offset : gu_cfi_calc_ctx :=
  mk_calc_ctx cfa_offset DW_OP_bregx (cfa_length c) (WNum operand) offset 0
    (calc_regs c) (prev c).
Definition ctx_def_cfa_expr (c : gu_cfi_calc_ctx) pos len : gu_cfi_calc_ctx :=
  mk_calc_ctx cfa_expr (cfa_atom c) len (WPtr pos) (cfa_number2 c) (cfa_op_offset c)
    (calc_regs c) (prev c).

(** A zero-initialised context. *)
Definition zero_freg : dwarf_frame_register := mk_freg reg_unspecified 0.
Definition zero_calc_ctx : gu_cfi_calc_ctx :=
  mk_calc_ctx cfa_undefined 0 0 (WNum 0) 0 0 (mk_cfi_regs zero_freg zero_freg zero_freg) None.

(** The heap cells [malloc]ed for remembered states. *)
Record cfi_heap : Type := mk_heap {
  heap_next : Z;
  heap_cells : gmap Z gu_cfi_calc_ctx;
}.
Definition heap_alloc (h : cfi_heap) (c : gu_cfi_calc_ctx) : Z * cfi_heap :=
  (heap_next h, mk_heap (heap_next h + 1) (<[heap_next h := c]> (heap_cells h))).
Definition heap_free (h : cfi_heap) (p : Z) : cfi_heap :=
  mk_heap (heap_next h) (delete p (heap_cells h)).

(** ** CIE ([struct gu_cfi_cie]); instruction pointers are section offsets *)
Record gu_cfi_cie : Type := mk_cie {
  cie_offset : Z;
  code_alignment_factor : Z;
  data_alignment_factor : Z;
  return_address_register : Z;
  fde_augmentation_data_size : Z;
  initial_instructions : Z;
  initial_instructions_end : Z;
  fde_encoding : Z;
  lsda_encoding : Z;
  sized_augmentation_data : bool;
  signal_frame : bool;
  cie_calc_ctx : gu_cfi_calc_ctx;
}.

(** [trans_reg_type]: the argument is converted to [int]. *)
Definition trans_reg_type `{Arch} (regno : Z) : option cfi_reg_type :=
  let regno := s32 regno in
  if regno =? reg_name_rsp then Some REG_TYPE_RSP else
  if bool_decide (reg_name_lr = Some regno) then Some REG_TYPE_RIP else
  if regno =? reg_name_rip then Some REG_TYPE_RIP else
  if regno =? reg_name_rbp then Some REG_TYPE_RBP else
  None.

(** ** The interpreter *)

(** The variables of the loop: [ins] is the offset of the next byte in the
    section and the bytes up to [ins_end]. *)
Record cfa_state : Type := mk_cfa_state {
  cs_ctx : gu_cfi_calc_ctx;
  cs_heap : cfi_heap;
  cs_loc : Z;
  cs_pos : Z;
  cs_ins : list Z;
}.

Definition set_ctx (s : cfa_state) c := mk_cfa_state c (cs_heap s) (cs_loc s) (cs_pos s) (cs_ins s).
Definition set_loc (s : cfa_state) l := mk_cfa_state (cs_ctx s) (cs_heap s) l (cs_pos s) (cs_ins s).
Definition set_ins (s : cfa_state) p i := mk_cfa_state (cs_ctx s) (cs_heap s) (cs_loc s) p i.
(** [ins += n] *)
Definition skip_ins (s : cfa_state) (n : Z) : cfa_state :=
  set_ins s (cs_pos s + n) (drop (Z.to_nat n) (cs_ins s)).

(** How a case of the switch ends: [continue], [break] (on to the location
    test), or [return]. *)
Inductive flow : Type :=
  | FContinue (s : cfa_state)
  | FBreak (s : cfa_state)
  | FReturn (ret : Z) (s : cfa_state).

(** The macro [DECODE_CFI(TYPE, OUT)] followed by the rest of the case. *)
Definition DECODE_CFI (ty : Z) (s : cfa_state) (k : Z -> cfa_state -> outcome flow)
  : outcome flow :=
  r ← decode_read_checked (cs_ins s) ty;
  match r with
  | None => mret (FReturn (-1) s)
  | Some (out, rest) =>
    k out (set_ins s (cs_pos s + Z.of_nat (length (cs_ins s) - length rest)) rest)
  end.

Section interpreter.
Context `{Arch}.
(** Whether [malloc] succeeds in a given heap. *)
Variable malloc_ok : cfi_heap -> bool.
Variable cie : gu_cfi_cie.
Variable in_cie : bool.

(** Record a rule for a DWARF register, if the unwinder follows it. *)
Definition set_rule (s : cfa_state) (regno : Z) (r : dwarf_frame_rule) (v : Z) : cfa_state :=
  match trans_reg_type regno with
  | None => s
  | Some t => set_ctx s (ctx_set_reg (cs_ctx s) t (freg r v))
  end.

(** [DW_CFA_restore]: the rule the CIE gives the register. *)
Definition restore_rule (s : cfa_state) (regno : Z) : cfa_state :=
  if in_cie then s else
  match trans_reg_type regno with
  | None => s
  | Some t => set_ctx s (ctx_set_reg (cs_ctx s) t (get_freg (calc_regs (cie_calc_ctx cie)) t))
  end.

Definition advance (s : cfa_state) (operand : Z) : cfa_state :=
  set_loc s (cs_loc s +w (operand *w code_alignment_factor cie)).

(** Opcodes that move the location. *)
Definition exec_advance (op : Z) (s : cfa_state) : outcome flow :=
  if op =? DW_CFA_advance_loc1 then
    match cs_ins s with
    | [] => mret (FReturn (-1) s)
    | operand :: _ => mret (FBreak (advance (skip_ins s 1) operand))
    end
  else if op =? DW_CFA_advance_loc2 then
    DECODE_CFI DW_EH_PE_udata2 s (fun operand s => mret (FBreak (advance s operand)))
  else if op =? DW_CFA_advance_loc4 then
    DECODE_CFI DW_EH_PE_udata4 s (fun operand s => mret (FBreak (advance s operand)))
  else if op =? DW_CFA_MIPS_advance_loc8 then
    DECODE_CFI DW_EH_PE_udata8 s (fun operand s => mret (FBreak (advance s operand)))
  else (* DW_CFA_set_loc *)
    DECODE_CFI (fde_encoding cie) s (fun loc s => mret (FBreak (set_loc s loc))).

(** Opcodes that define the CFA. *)
Definition exec_def_cfa (op : Z) (s : cfa_state) : outcome flow :=
  if op =? DW_CFA_def_cfa then
    DECODE_CFI DW_EH_PE_uleb128 s (fun operand s =>
    DECODE_CFI DW_EH_PE_uleb128 s (fun offset s =>
    mret (FContinue (set_ctx s (ctx_def_cfa (cs_ctx s) operand offset)))))
  else if op =? DW_CFA_def_cfa_sf then
    DECODE_CFI DW_EH_PE_uleb128 s (fun operand s =>
    DECODE_CFI DW_EH_PE_sleb128 s (fun sf_offset s =>
    mret (FContinue (set_ctx s (ctx_def_cfa (cs_ctx s) operand
                                  (sf_offset *w data_alignment_factor cie))))))
  else if op =? DW_CFA_def_cfa_register then
    DECODE_CFI DW_EH_PE_uleb128 s (fun operand s =>
    mret (FContinue (set_ctx s (ctx_set_number (cs_ctx s) operand))))
  else if op =? DW_CFA_def_cfa_offset then
    DECODE_CFI DW_EH_PE_uleb128 s (fun offset s =>
    mret (FContinue (set_ctx s (ctx_set_number2 (cs_ctx s) offset))))
  else if op =? DW_CFA_def_cfa_offset_sf then
    DECODE_CFI DW_EH_PE_sleb128 s (fun sf_offset s =>
    mret (FContinue (set_ctx s (ctx_set_number2 (cs_ctx s)
                                  (sf_offset *w data_alignment_factor cie)))))
  else (* DW_CFA_def_cfa_expression *)
    DECODE_CFI DW_EH_PE_uleb128 s (fun operand s =>
    if negb (block_fits (cs_ins s) operand) then mret (FReturn (-1) s) else
    mret (FContinue (skip_ins (set_ctx s (ctx_def_cfa_expr (cs_ctx s) (cs_pos s) operand)) operand))).

(** [DW_CFA_remember_state] and [DW_CFA_restore_state]. *)
Definition exec_remember_state (s : cfa_state) : outcome flow :=
  if negb (malloc_ok (cs_heap s)) then mret (FReturn (-1) s) else
  let '(tmp_ctx, h) := heap_alloc (cs_heap s) (cs_ctx s) in
  mret (FContinue (mk_cfa_state (ctx_set_prev (cs_ctx s) (Some tmp_ctx)) h
                     (cs_loc s) (cs_pos s) (cs_ins s))).

Definition exec_restore_state (s : cfa_state) : outcome flow :=
  match prev (cs_ctx s) with
  | None => mret (FReturn (-1) s)
  | Some tmp_ctx =>
    saved ← deref (heap_cells (cs_heap s) !! tmp_ctx);
    mret (FContinue (mk_cfa_state saved (heap_free (cs_heap s) tmp_ctx)
                       (cs_loc s) (cs_pos s) (cs_ins s)))
  end.

(** Opcodes that give a register an offset-style rule: register number, then
    an unsigned or signed factored offset. *)
Definition exec_offset (r : dwarf_frame_rule) (enc : Z) (neg : bool) (s : cfa_state) : outcome flow :=
  DECODE_CFI DW_EH_PE_uleb128 s (fun operand s =>
  DECODE_CFI enc s (fun offset s =>
  let offset := if neg then u64 (- offset) else offset in
  mret (FContinue (set_rule s operand r (offset *w data_alignment_factor cie))))).

(** Opcodes whose operand is an expression block: the rule records the section
    offset of the block's length field. *)
Definition exec_expression (r : dwarf_frame_rule) (s : cfa_state) : outcome flow :=
  DECODE_CFI DW_EH_PE_uleb128 s (fun regno s =>
  let offset := cs_pos s in
  DECODE_CFI DW_EH_PE_uleb128 s (fun operand s =>
  if negb (block_fits (cs_ins s) operand) then mret (FReturn (-1) s) else
  mret (FContinue (set_rule (skip_ins s operand) regno r offset)))).

(** The other register-rule opcodes of the extended range. *)
Definition exec_register_rule (op : Z) (s : cfa_state) : outcome flow :=
  if op =? DW_CFA_undefined then
    DECODE_CFI DW_EH_PE_uleb128 s (fun regno s => mret (FContinue (set_rule s regno reg_undefined 0)))
  else if op =? DW_CFA_same_value then
    DECODE_CFI DW_EH_PE_uleb128 s (fun regno s => mret (FContinue (set_rule s regno reg_same_value 0)))
  else if op =? DW_CFA_offset_extended then
    exec_offset reg_offset_rule DW_EH_PE_uleb128 false s
  else if op =? DW_CFA_offset_extended_sf then
    exec_offset reg_offset_rule DW_EH_PE_sleb128 false s
  else if op =? DW_CFA_GNU_negative_offset_extended then
    exec_offset reg_offset_rule DW_EH_PE_uleb128 true s
  else if op =? DW_CFA_val_offset then
    exec_offset reg_val_offset DW_EH_PE_uleb128 false s
  else if op =? DW_CFA_val_offset_sf then
    exec_offset reg_val_offset DW_EH_PE_sleb128 false s
  else if op =? DW_CFA_register then
    DECODE_CFI DW_EH_PE_uleb128 s (fun regno s =>
    DECODE_CFI DW_EH_PE_uleb128 s (fun operand s =>
    mret (FContinue (set_rule s regno reg_register operand))))
  else if op =? DW_CFA_expression then exec_expression reg_expression s
  else if op =? DW_CFA_val_expression then exec_expression reg_val_expression s
  else (* DW_CFA_restore_extended *)
    DECODE_CFI DW_EH_PE_uleb128 s (fun operand s => mret (FContinue (restore_rule s operand))).

(** The switch, for the opcode [op] already taken from the stream. *)
Definition cfa_step (op : Z) (s : cfa_state) : outcome flow :=
  let operand := Z.land op CFI_PRIMARY_MAX in
  if (DW_CFA_advance_loc <=? op) && (op <=? DW_CFA_advance_loc + CFI_PRIMARY_MAX) then
    mret (FBreak (advance s operand))
  else if (DW_CFA_offset <=? op) && (op <=? DW_CFA_offset + CFI_PRIMARY_MAX) then
    DECODE_CFI DW_EH_PE_uleb128 s (fun offset s =>
    mret (FContinue (set_rule s operand reg_offset_rule (offset *w data_alignment_factor cie))))
  else if (DW_CFA_restore <=? op) && (op <=? DW_CFA_restore + CFI_PRIMARY_MAX) then
    mret (FContinue (restore_rule s operand))
  else if bool_decide (op ∈ [DW_CFA_advance_loc1; DW_CFA_advance_loc2; DW_CFA_advance_loc4;
                             DW_CFA_MIPS_advance_loc8; DW_CFA_set_loc]) then exec_advance op s
  else if bool_decide (op ∈ [DW_CFA_def_cfa; DW_CFA_def_cfa_sf; DW_CFA_def_cfa_register;
                             DW_CFA_def_cfa_offset; DW_CFA_def_cfa_offset_sf;
                             DW_CFA_def_cfa_expression]) then exec_def_cfa op s
  else if op =? DW_CFA_remember_state then exec_remember_state s
  else if op =? DW_CFA_restore_state then exec_restore_state s
  else if bool_decide (op ∈ [DW_CFA_undefined; DW_CFA_same_value; DW_CFA_offset_extended;
                             DW_CFA_offset_extended_sf; DW_CFA_GNU_negative_offset_extended;
                             DW_CFA_val_offset; DW_CFA_val_offset_sf; DW_CFA_register;
                             DW_CFA_expression; DW_CFA_val_expression;
                             DW_CFA_restore_extended]) then exec_register_rule op s
  else if op =? DW_CFA_GNU_args_size then
    DECODE_CFI DW_EH_PE_uleb128 s (fun _ s => mret (FContinue s))
  else (* DW_CFA_nop and unknown opcodes *)
    mret (FContinue s).

(** The [while (ins < ins_end)] loop; every iteration consumes a byte. *)
Fixpoint cfa_loop (fuel : nat) (find_pc : Z) (s : cfa_state) : outcome (Z * cfa_state) :=
  match fuel with
  | O => Undef OutOfFuel
  | S fuel =>
    match cs_ins s with
    | [] => mret (0, s)
    | op :: rest =>
      f ← cfa_step op (set_ins s (cs_pos s + 1) rest);
      match f with
      | FContinue s => cfa_loop fuel find_pc s
      | FBreak s => if find_pc <? cs_loc s then mret (0, s) else cfa_loop fuel find_pc s
      | FReturn ret s => mret (ret, s)
      end
    end
  end.
End interpreter.

(** [init_calc_ctx_by_ins].  [ins_start] is the section offset of the first
    instruction, [None] for the static default program, whose address is no
    section offset. *)
Definition init_calc_ctx_by_ins `{Arch} (malloc_ok : cfi_heap -> bool) (cie : gu_cfi_cie)
    (ctx : gu_cfi_calc_ctx) (heap : cfi_heap) (ins_start : option Z) (ins : list Z)
    (loc find_pc : Z) : outcome (Z * gu_cfi_calc_ctx * cfi_heap) :=
  let in_cie := bool_decide (ins_start = Some (initial_instructions cie)) in
  '(ret, s) ← cfa_loop malloc_ok cie in_cie (S (length ins)) find_pc
                (mk_cfa_state ctx heap loc (default 0 ins_start) ins);
  mret (ret, cs_ctx s, cs_heap s).

(** ** The DWARF table

    What a call-frame program means, independently of its encoding: a table of
    rows, each giving the rules that hold from its location on.  A register
    column is one of those the unwinder follows; rule values are exact
    integers. *)
Inductive cfa_def : Type :=
  | CfaUndefined
  | CfaRegister (r off : Z)
  | CfaExpression (pos len : Z).

Record row : Type := mk_row {
  row_cfa : cfa_def;
  row_rule : cfi_reg_type -> dwarf_frame_rule * Z;
}.

(** Abstract instructions.  Offsets are the factored operands; an expression
    block is the section offset it starts at and its length. *)
Inductive cfa_instr : Type :=
  | Advance (delta : Z)
  | SetLoc (loc : Z)
  | DefCfa (r off : Z)
  | DefCfaSf (r off : Z)
  | DefCfaRegister (r : Z)
  | DefCfaOffset (off : Z)
  | DefCfaOffsetSf (off : Z)
  | DefCfaExpression (pos len : Z)
  | Rule (r : Z) (kind : dwarf_frame_rule) (v : Z)
  | FactoredRule (r : Z) (kind : dwarf_frame_rule) (off : Z)
  | RestoreRule (r : Z)
  | RememberState
  | RestoreState
  | Skip.

Section table.
Context `{Arch}.
Variables caf daf : Z.
(** The rules of the CIE's initial row; [None] while the CIE itself runs. *)
Variable initial : option (cfi_reg_type -> dwarf_frame_rule * Z).

Definition with_cfa (r : row) (c : cfa_def) : row := mk_row c (row_rule r).
Definition with_rule (r : row) (regno : Z) (v : dwarf_frame_rule * Z) : row :=
  match trans_reg_type regno with
  | None => r
  | Some t => mk_row (row_cfa r) (fun t' => if decide (t' = t) then v else row_rule r t')
  end.

(** An instruction that does not move the location; [None] when DWARF gives it
    no meaning in this state. *)
Definition exec (i : cfa_instr) (r : row) (stk : list row) : option (row * list row) :=
  match i with
  | DefCfa n o => Some (with_cfa r (CfaRegister n o), stk)
  | DefCfaSf n o => Some (with_cfa r (CfaRegister n (o * daf)), stk)
  | DefCfaRegister n =>
    match row_cfa r with CfaRegister _ o => Some (with_cfa r (CfaRegister n o), stk) | _ => None end
  | DefCfaOffset o =>
    match row_cfa r with CfaRegister n _ => Some (with_cfa r (CfaRegister n o), stk) | _ => None end
  | DefCfaOffsetSf o =>
    match row_cfa r with
    | CfaRegister n _ => Some (with_cfa r (CfaRegister n (o * daf)), stk) | _ => None end
  | DefCfaExpression p l => Some (with_cfa r (CfaExpression p l), stk)
  | Rule n k v => Some (with_rule r n (k, v), stk)
  | FactoredRule n k o => Some (with_rule r n (k, o * daf), stk)
  | RestoreRule n =>
    match initial, trans_reg_type n with
    | Some init, Some t => Some (with_rule r n (init t), stk)
    | _, _ => Some (r, stk)
    end
  | RememberState => Some (r, r :: stk)
  | RestoreState => match stk with r' :: stk => Some (r', stk) | [] => None end
  | Skip => Some (r, stk)
  | Advance _ | SetLoc _ => None
  end.

(** The rows of a program started at [loc] in row [r]. *)
Fixpoint table (prog : list cfa_instr) (loc : Z) (r : row) (stk : list row)
  : option (list (Z * row)) :=
  match prog with
  | [] => Some [(loc, r)]
  | Advance d :: prog => rows ← table prog (loc +w (d *w caf)) r stk; Some ((loc, r) :: rows)
  | SetLoc l :: prog => rows ← table prog l r stk; Some ((loc, r) :: rows)
  | i :: prog => '(r', stk') ← exec i r stk; table prog loc r' stk'
  end.
End table.

(** The row in force at [pc]: the last one before the location passes it. *)
Fixpoint row_at (pc : Z) (rows : list (Z * row)) : option row :=
  match rows with
  | [] => None
  | (l, r) :: rest => if pc <? l then None else Some (default r (row_at pc rest))
  end.

(** *** Encodings *)
Definition uleb (b : list Z) (v : Z) : Prop :=
  leb_shape b = true /\ (length b <= 5)%nat /\ uleb_value b = v /\ v < 2 ^ 31.
Definition sleb (b : list Z) (v : Z) : Prop :=
  leb_shape b = true /\ (length b <= 9)%nat /\ sleb_value b = v.
Definition fixed (n : nat) (b : list Z) (v : Z) : Prop :=
  length b = n /\ le_value b = v.

(** [encodes pos i b]: the bytes [b], at section offset [pos], are an encoding
    of [i]; LEB128 operands may be padded. *)
Inductive encodes (cie : gu_cfi_cie) (pos : Z) : cfa_instr -> list Z -> Prop :=
  | enc_advance d : 0 <= d < 64 -> encodes cie pos (Advance d) [DW_CFA_advance_loc + d]
  | enc_advance1 d : encodes cie pos (Advance d) [DW_CFA_advance_loc1; d]
  | enc_advance2 b d : fixed 2 b d -> encodes cie pos (Advance d) (DW_CFA_advance_loc2 :: b)
  | enc_advance4 b d : fixed 4 b d -> encodes cie pos (Advance d) (DW_CFA_advance_loc4 :: b)
  | enc_advance8 b d : fixed 8 b d -> encodes cie pos (Advance d) (DW_CFA_MIPS_advance_loc8 :: b)
  | enc_set_loc b l : fde_encoding cie = DW_EH_PE_absptr \/ fde_encoding cie = DW_EH_PE_udata8 ->
      fixed 8 b l ->
      encodes cie pos (SetLoc l) (DW_CFA_set_loc :: b)
  | enc_def_cfa b1 b2 r o : uleb b1 r -> uleb b2 o ->
      encodes cie pos (DefCfa r o) (DW_CFA_def_cfa :: b1 ++ b2)
  | enc_def_cfa_sf b1 b2 r o : uleb b1 r -> sleb b2 o ->
      encodes cie pos (DefCfaSf r o) (DW_CFA_def_cfa_sf :: b1 ++ b2)
  | enc_def_cfa_register b r : uleb b r ->
      encodes cie pos (DefCfaRegister r) (DW_CFA_def_cfa_register :: b)
  | enc_def_cfa_offset b o : uleb b o ->
      encodes cie pos (DefCfaOffset o) (DW_CFA_def_cfa_offset :: b)
  | enc_def_cfa_offset_sf b o : sleb b o ->
      encodes cie pos (DefCfaOffsetSf o) (DW_CFA_def_cfa_offset_sf :: b)
  | enc_def_cfa_expression b e : uleb b (Z.of_nat (length e)) ->
      encodes cie pos (DefCfaExpression (pos + 1 + Z.of_nat (length b)) (Z.of_nat (length e)))
        (DW_CFA_def_cfa_expression :: b ++ e)
  | enc_undefined b r : uleb b r ->
      encodes cie pos (Rule r reg_undefined 0) (DW_CFA_undefined :: b)
  | enc_same_value b r : uleb b r ->
      encodes cie pos (Rule r reg_same_value 0) (DW_CFA_same_value :: b)
  | enc_register b1 b2 r r' : uleb b1 r -> uleb b2 r' ->
      encodes cie pos (Rule r reg_register r') (DW_CFA_register :: b1 ++ b2)
  | enc_expression b1 b2 e r : uleb b1 r -> uleb b2 (Z.of_nat (length e)) ->
      encodes cie pos (Rule r reg_expression (pos + 1 + Z.of_nat (length b1)))
        (DW_CFA_expression :: b1 ++ b2 ++ e)
  | enc_val_expression b1 b2 e r : uleb b1 r -> uleb b2 (Z.of_nat (length e)) ->
      encodes cie pos (Rule r reg_val_expression (pos + 1 + Z.of_nat (length b1)))
        (DW_CFA_val_expression :: b1 ++ b2 ++ e)
  | enc_offset b r o : 0 <= r < 64 -> uleb b o ->
      encodes cie pos (FactoredRule r reg_offset_rule o) (DW_CFA_offset + r :: b)
  | enc_offset_extended b1 b2 r o : uleb b1 r -> uleb b2 o ->
      encodes cie pos (FactoredRule r reg_offset_rule o) (DW_CFA_offset_extended :: b1 ++ b2)
  | enc_offset_extended_sf b1 b2 r o : uleb b1 r -> sleb b2 o ->
      encodes cie pos (FactoredRule r reg_offset_rule o) (DW_CFA_offset_extended_sf :: b1 ++ b2)
  | enc_negative_offset b1 b2 r o : uleb b1 r -> uleb b2 o ->
      encodes cie pos (FactoredRule r reg_offset_rule (- o))
        (DW_CFA_GNU_negative_offset_extended :: b1 ++ b2)
  | enc_val_offset b1 b2 r o : uleb b1 r -> uleb b2 o ->
      encodes cie pos (FactoredRule r reg_val_offset o) (DW_CFA_val_offset :: b1 ++ b2)
  | enc_val_offset_sf b1 b2 r o : uleb b1 r -> sleb b2 o ->
      encodes cie pos (FactoredRule r reg_val_offset o) (DW_CFA_val_offset_sf :: b1 ++ b2)
  | enc_restore r : 0 <= r < 64 -> encodes cie pos (RestoreRule r) [DW_CFA_restore + r]
  | enc_restore_extended b r : uleb b r ->
      encodes cie pos (RestoreRule r) (DW_CFA_restore_extended :: b)
  | enc_remember : encodes cie pos RememberState [DW_CFA_remember_state]
  | enc_restore_state : encodes cie pos RestoreState [DW_CFA_restore_state]
  | enc_nop : encodes cie pos Skip [DW_CFA_nop]
  | enc_args_size b v : uleb b v -> encodes cie pos Skip (DW_CFA_GNU_args_size :: b).

Inductive encodes_all (cie : gu_cfi_cie) : Z -> list cfa_instr -> list Z -> Prop :=
  | enc_nil pos : encodes_all cie pos [] []
  | enc_cons pos i prog b bs :
      encodes cie pos i b -> encodes_all cie (pos + Z.of_nat (length b)) prog bs ->
      encodes_all cie pos (i :: prog) (b ++ bs).

(** *** How a context represents a row *)
Definition rep_cfa (c : gu_cfi_calc_ctx) (d : cfa_def) : Prop :=
  match d with
  | CfaUndefined => cfa_rule c = cfa_undefined
  | CfaRegister n o =>
    cfa_rule c = cfa_offset /\ cfa_atom c = DW_OP_bregx /\ cfa_number c = WNum n /\
    cfa_number2 c = u64 o /\ cfa_op_offset c = 0
  | CfaExpression p l => cfa_rule c = cfa_expr /\ cfa_number c = WPtr p /\ cfa_length c = l
  end.

Definition rep_rules (regs : cfi_regs) (f : cfi_reg_type -> dwarf_frame_rule * Z) : Prop :=
  forall t, get_freg regs t = freg (fst (f t)) (snd (f t)).

Definition rep_row (c : gu_cfi_calc_ctx) (r : row) : Prop :=
  rep_cfa c (row_cfa r) /\ rep_rules (calc_regs c) (row_rule r).

(** The remembered states hanging off [prev], with their addresses. *)
Fixpoint saved_chain (h : gmap Z gu_cfi_calc_ctx) (p : option Z)
    (l : list (Z * gu_cfi_calc_ctx)) : Prop :=
  match l with
  | [] => p = None
  | (a, c) :: l => p = Some a /\ h !! a = Some c /\ (a ∉ l.*1) /\ saved_chain h (prev c) l
  end.

(** A heap that owns, besides the cells [frame], exactly the chain of [c]. *)
Definition heap_owns (frame : gmap Z gu_cfi_calc_ctx) (h : cfi_heap) (c : gu_cfi_calc_ctx)
    (l : list (Z * gu_cfi_calc_ctx)) : Prop :=
  saved_chain (heap_cells h) (prev c) l /\
  (forall a, a ∈ (l.*1) -> frame !! a = None) /\
  (forall a, a ∉ (l.*1) -> heap_cells h !! a = frame !! a) /\
  (forall a, is_Some (heap_cells h !! a) -> a < heap_next h).

(** ** Operand reads *)
Definition reads_as (ty : Z) (b : list Z) (v : Z) : Prop :=
  forall rest, decode_read_checked (b ++ rest) ty = Done (Some (v, rest)).

Lemma uleb_reads b v : uleb b v -> reads_as DW_EH_PE_uleb128 b v.
Proof. intros (? & ? & <- & ?) rest. by apply decode_uleb128_spec. Qed.

Lemma sleb_reads b v : sleb b v -> reads_as DW_EH_PE_sleb128 b (u64 v).
Proof. intros (? & ? & <-) rest. by apply decode_sleb128_spec. Qed.

Lemma decode_fixed_app n conv b rest :
  length b = n -> decode_fixed n conv (b ++ rest) = Done (Some (conv (le_value b), rest)).
Proof. intros. unfold decode_fixed. by rewrite read_le_app. Qed.

Lemma fixed_reads n ty b v :
  fixed n b v -> (n, ty) ∈ [(2, DW_EH_PE_udata2); (4, DW_EH_PE_udata4); (8, DW_EH_PE_udata8);
                            (8, DW_EH_PE_absptr)]%nat -> reads_as ty b v.
Proof.
  intros [Hn <-] Hin rest. unfold decode_read_checked, decode_read_fits, decode_read.
  rewrite !elem_of_cons, elem_of_nil in Hin.
  destruct Hin as [[= -> ->]|[[= -> ->]|[[= -> ->]|[[= -> ->]|[]]]]];
    cbv zeta; eval_ifs; rewrite length_app, Hn;
    (match goal with |- context [?a <=? ?b] => destruct (Z.leb_spec a b); [|exfalso; lia] end);
    (rewrite decode_fixed_app by done; reflexivity).
Qed.

Lemma DECODE_reads ty s b v rest k :
  reads_as ty b v -> cs_ins s = b ++ rest ->
  DECODE_CFI ty s k = k v (set_ins s (cs_pos s + Z.of_nat (length b)) rest).
Proof.
  intros Hr Hs. unfold DECODE_CFI. rewrite Hs, Hr. run. do 3 f_equal.
  rewrite length_app. lia.
Qed.

Lemma swrap61_u64 x : swrap 61 (u64 x) = swrap 61 x.
Proof.
  unfold swrap, wrap.
  assert ((x mod 2 ^ 64) mod 2 ^ 61 = x mod 2 ^ 61) as ->; [|done].
  change (2 ^ 64) with (2 ^ 61 * 8). rewrite Z.rem_mul_r by lia.
  by rewrite Z.mul_comm, Z.mod_add, Z.mod_mod by lia.
Qed.

Lemma mul64_u64_l a b : u64 a *w b = u64 (a * b).
Proof. unfold mul64, wrap. by rewrite Z.mul_mod_idemp_l. Qed.

Lemma freg_mul64 k a b : freg k (a *w b) = freg k (a * b).
Proof. unfold freg, mul64. by rewrite swrap61_u64. Qed.

Lemma freg_u64 k a : freg k (u64 a) = freg k a.
Proof. unfold freg. by rewrite swrap61_u64. Qed.

Lemma freg_u64_mul k a b : freg k (u64 a * b) = freg k (a * b).
Proof. by rewrite <- freg_mul64, mul64_u64_l, freg_u64. Qed.

#[export] Hint Rewrite mul64_u64_l freg_mul64 freg_u64 freg_u64_mul : gu_rw.

(** ** Heap ownership *)
Lemma saved_chain_ext h h' p l :
  (forall a, a ∈ (l.*1) -> h !! a = h' !! a) -> saved_chain h p l -> saved_chain h' p l.
Proof.
  revert p. induction l as [|[a c] l IH]; intros p Heq; [done|].
  cbn [saved_chain]. intros (-> & Ha & Hn & Hc). split_and!; [done| |done|].
  - rewrite <- Heq; [done|]. simpl. set_solver.
  - apply IH; [|done]. intros. apply Heq. simpl. set_solver.
Qed.

Lemma heap_owns_ctx frame h c c' l :
  prev c = prev c' -> heap_owns frame h c l -> heap_owns frame h c' l.
Proof. unfold heap_owns. by intros ->. Qed.

Lemma heap_owns_alloc frame h c l p h' :
  heap_owns frame h c l -> heap_alloc h c = (p, h') ->
  heap_owns frame h' (ctx_set_prev c (Some p)) ((p, c) :: l).
Proof.
  intros (Hc & Hf & Hr & Hn) [= <- <-].
  assert (Hfresh : heap_cells h !! heap_next h = None).
  { destruct (heap_cells h !! heap_next h) eqn:E; [|done].
    assert (heap_next h < heap_next h) by (apply Hn; rewrite E; eauto). lia. }
  assert (Hnl : heap_next h ∉ l.*1).
  { intros Hin. clear Hf Hr Hn. revert Hc Hin. generalize (prev c).
    induction l as [|[a c'] l IH]; intros p; simpl; [set_solver|].
    intros (-> & Ha & _ & Hc) [Heq|Hin]%elem_of_cons; [congruence|by eapply IH]. }
  split_and!.
  - cbn [saved_chain heap_cells prev ctx_set_prev]. split_and!; [done|by rewrite lookup_insert_eq|done|].
    eapply saved_chain_ext; [|done]. intros a Ha. rewrite lookup_insert_ne; [done|]. congruence.
  - intros a [->|Ha]%elem_of_cons; [|by apply Hf]. cbn. rewrite <- Hr; done.
  - intros a [Hne Hn']%not_elem_of_cons. cbn in *. rewrite lookup_insert_ne by done. by apply Hr.
  - intros a. cbn. destruct (decide (a = heap_next h)) as [->|]; [lia|].
    rewrite lookup_insert_ne by done. intros ?%Hn. lia.
Qed.

Lemma heap_owns_free frame h c l p saved :
  heap_owns frame h c ((p, saved) :: l) -> heap_owns frame (heap_free h p) saved l.
Proof.
  intros ((Hp & Hs & Hnl & Hc) & Hf & Hr & Hn). unfold heap_free. split_and!; cbn.
  - eapply saved_chain_ext; [|done]. intros a Ha. rewrite lookup_delete_ne; [done|]. congruence.
  - intros. apply Hf. simpl. set_solver.
  - intros a Ha. destruct (decide (a = p)) as [->|Hne].
    + rewrite lookup_delete_eq, Hf; [done|]. simpl. set_solver.
    + rewrite lookup_delete_ne by done. apply Hr. simpl. set_solver.
  - intros a [x Hx]. rewrite lookup_delete_Some in Hx. apply Hn. destruct Hx; eauto.
Qed.

(** ** Safety of a step *)
Section safety.
Context `{Arch}.
Variable malloc_ok : cfi_heap -> bool.
Variable cie : gu_cfi_cie.
Variable in_cie : bool.
Variable frame : gmap Z gu_cfi_calc_ctx.

(** At most [n] bytes are left, and the heap is the frame plus the chain. *)
Definition state_ok (n : nat) (s : cfa_state) : Prop :=
  bytes_ok (cs_ins s) /\ (length (cs_ins s) <= n)%nat /\
  exists l, heap_owns frame (cs_heap s) (cs_ctx s) l.

Definition step_ok (n : nat) (m : outcome flow) : Prop :=
  match m with
  | Done (FContinue s) | Done (FBreak s) => state_ok n s
  | Done (FReturn ret s) => ret = -1 /\ state_ok n s
  | Undef u => u = BadShift
  end.

Lemma state_ok_set_ctx n s c :
  prev c = prev (cs_ctx s) -> state_ok n s -> state_ok n (set_ctx s c).
Proof.
  intros Hp (? & ? & l & Hl). split_and!; [done..|]. exists l.
  by eapply heap_owns_ctx; [|exact Hl].
Qed.

Lemma state_ok_set_loc n s l : state_ok n s -> state_ok n (set_loc s l).
Proof. done. Qed.

Lemma state_ok_skip n s k : state_ok n s -> state_ok n (skip_ins s k).
Proof.
  intros (Hb & Hn & Hl). split_and!; [by apply Forall_drop| |done].
  cbn. rewrite length_drop. lia.
Qed.

Lemma state_ok_set_rule n s r k v : state_ok n s -> state_ok n (set_rule s r k v).
Proof. intros. unfold set_rule. case_match; [|done]. by apply state_ok_set_ctx. Qed.

Lemma state_ok_restore_rule n s r : state_ok n s -> state_ok n (restore_rule cie in_cie s r).
Proof.
  intros. unfold restore_rule. case_match; [done|]. case_match; [|done].
  by apply state_ok_set_ctx.
Qed.

Lemma step_ok_continue n s : state_ok n s -> step_ok n (mret (FContinue s)).
Proof. done. Qed.
Lemma step_ok_break n s : state_ok n s -> step_ok n (mret (FBreak s)).
Proof. done. Qed.
Lemma step_ok_error n s : state_ok n s -> step_ok n (mret (FReturn (-1) s)).
Proof. done. Qed.

Lemma step_ok_DECODE n ty s k :
  state_ok n s -> (forall v s', state_ok n s' -> step_ok n (k v s')) ->
  step_ok n (DECODE_CFI ty s k).
Proof.
  intros Hs Hk. unfold DECODE_CFI. destruct Hs as (Hb & Hn & Hl).
  pose proof (decode_read_checked_ok (cs_ins s) ty Hb) as Hr.
  destruct (decode_read_checked _ _) as [[[v rest]|]|u]; run; [|done|done].
  destruct Hr as [_ (p & Hp & _)]. apply Hk. rewrite Hp in Hb, Hn.
  apply Forall_app in Hb. rewrite length_app in Hn. split_and!; [by apply Hb| |done]. cbn. lia.
Qed.

Lemma step_ok_remember n s : state_ok n s -> step_ok n (exec_remember_state malloc_ok s).
Proof.
  intros Hs. pose proof Hs as (Hb & Hn & l & Hl). unfold exec_remember_state.
  destruct (malloc_ok _); [|by apply step_ok_error].
  destruct (heap_alloc _ _) as [p h] eqn:E. cbn [negb]. apply step_ok_continue.
  split_and!; [done..|]. eexists. by apply (heap_owns_alloc _ _ _ _ _ _ Hl).
Qed.

Lemma step_ok_restore_state n s : state_ok n s -> step_ok n (exec_restore_state s).
Proof.
  intros Hs. pose proof Hs as (Hb & Hn & l & Hl). unfold exec_restore_state.
  destruct (prev (cs_ctx s)) as [p|] eqn:Hp; [|by apply step_ok_error].
  destruct Hl as [Hc Hl]. destruct l as [|[a c] l]; [by rewrite Hc in Hp|].
  assert (a = p) as -> by (destruct Hc; congruence). pose proof Hc as (_ & -> & _). run.
  split_and!; [done..|]. exists l. by apply (heap_owns_free frame _ (cs_ctx s)).
Qed.

#[local] Hint Resolve state_ok_set_ctx state_ok_set_loc state_ok_skip state_ok_set_rule
  state_ok_restore_rule step_ok_continue step_ok_break step_ok_error step_ok_DECODE
  step_ok_remember step_ok_restore_state : step.
#[local] Hint Extern 1 (step_ok _ (if ?b then _ else _)) => destruct b : step.
#[local] Hint Extern 1 (step_ok _ (match ?l with [] => _ | _ :: _ => _ end)) => destruct l : step.
#[local] Hint Extern 0 (step_ok _ (let _ := _ in _)) => cbv zeta : step.

Lemma cfa_step_ok n op s : state_ok n s -> step_ok n (cfa_step malloc_ok cie in_cie op s).
Proof.
  intros Hs. unfold cfa_step, exec_advance, exec_def_cfa, exec_register_rule, exec_offset,
    exec_expression, advance.
  repeat case_match; auto 12 with step.
Qed.

Lemma cfa_loop_ok fuel pc s :
  state_ok (pred fuel) s -> (0 < fuel)%nat ->
  match cfa_loop malloc_ok cie in_cie fuel pc s with
  | Done (ret, s') => (ret = 0 \/ ret = -1) /\ state_ok (pred fuel) s'
  | Undef u => u = BadShift
  end.
Proof.
  revert s. induction fuel as [|fuel IH]; intros s Hs Hf; [lia|]. clear Hf. cbn [cfa_loop pred] in *.
  destruct (cs_ins s) as [|op rest] eqn:E; [run; by auto|].
  assert (Hs' : state_ok (pred fuel) (set_ins s (cs_pos s + 1) rest) /\ (0 < fuel)%nat).
  { destruct Hs as (Hb & Hn & Hl). rewrite E in Hb, Hn. cbn in Hn. inversion Hb; subst.
    repeat split; [done|cbn; lia|done|lia]. }
  destruct Hs' as [Hs' Hf].
  assert (Hweak : forall s', state_ok (pred fuel) s' -> state_ok fuel s').
  { intros s' (? & ? & ?). split_and!; [done|lia|done]. }
  pose proof (cfa_step_ok _ op _ Hs') as Hstep. unfold step_ok in Hstep.
  destruct (cfa_step _ _ _ _ _) as [[s'|s'|ret s']|u]; run; [| | |done].
  - specialize (IH s' Hstep Hf). destruct (cfa_loop _ _ _ _ _ _) as [[ret s'']|u]; naive_solver.
  - destruct (pc <? cs_loc s'); [naive_solver|].
    specialize (IH s' Hstep Hf). destruct (cfa_loop _ _ _ _ _ _) as [[ret s'']|u]; naive_solver.
  - naive_solver.
Qed.
End safety.

(** ** Simulation *)
Section simulation.
Context `{Arch}.
Variable malloc_ok : cfi_heap -> bool.
Hypothesis malloc_succeeds : forall h, malloc_ok h = true.
Variable cie : gu_cfi_cie.
Variable in_cie : bool.
Variable initial : option (cfi_reg_type -> dwarf_frame_rule * Z).
Hypothesis initial_rules :
  match initial with
  | None => in_cie = true
  | Some f => in_cie = false /\ rep_rules (calc_regs (cie_calc_ctx cie)) f
  end.
Variable frame : gmap Z gu_cfi_calc_ctx.

(** The context represents the row, the remembered states the stack. *)
Definition rep_state (s : cfa_state) (r : row) (stk : list row) : Prop :=
  rep_row (cs_ctx s) r /\
  exists l, heap_owns frame (cs_heap s) (cs_ctx s) l /\ Forall2 (fun p => rep_row p.2) l stk.

(** [s'] is [s] advanced over [n] bytes, [rest] being left. *)
Definition consumed (s s' : cfa_state) (n : nat) (rest : list Z) : Prop :=
  cs_ins s' = rest /\ cs_pos s' = cs_pos s + Z.of_nat n /\ cs_loc s' = cs_loc s.

Abbreviation step := (cfa_step malloc_ok cie in_cie).

(** What one instruction does, for any continuation of the program. *)
Definition continues (s : cfa_state) (b rest : list Z) (r : row) (stk : list row) : Prop :=
  exists op b' s', b = op :: b' /\
    step op (set_ins s (cs_pos s + 1) (b' ++ rest)) = Done (FContinue s') /\
    consumed s s' (length b) rest /\ rep_state s' r stk.

Lemma rep_state_ctx s s' c r stk r' :
  rep_state s r stk -> cs_ctx s' = c -> cs_heap s' = cs_heap s -> prev c = prev (cs_ctx s) ->
  rep_row c r' -> rep_state s' r' stk.
Proof.
  intros (_ & l & Hl & Hf) Hc Hh Hp Hr. split; [by rewrite Hc|]. exists l. rewrite Hh, Hc.
  split; [|done]. by eapply heap_owns_ctx; [|exact Hl].
Qed.

Lemma rep_rules_set f regs t k v :
  rep_rules regs f ->
  rep_rules (set_freg regs t (freg k v)) (fun t' => if decide (t' = t) then (k, v) else f t').
Proof.
  intros Hr t'. specialize (Hr t'). unfold rep_rules in *.
  destruct t, t'; cbn [set_freg get_freg reg_rip reg_rbp reg_rsp]; case_decide; try done.
Qed.

Lemma set_rule_fields s r k v :
  cs_heap (set_rule s r k v) = cs_heap s /\ cs_loc (set_rule s r k v) = cs_loc s /\
  cs_pos (set_rule s r k v) = cs_pos s /\ cs_ins (set_rule s r k v) = cs_ins s /\
  prev (cs_ctx (set_rule s r k v)) = prev (cs_ctx s).
Proof. unfold set_rule. by destruct (trans_reg_type r). Qed.

Lemma rep_with_rule s row n k v v' :
  rep_row (cs_ctx s) row -> freg k v' = freg k v ->
  rep_row (cs_ctx (set_rule s n k v')) (with_rule row n (k, v)).
Proof.
  intros [Hc Hr] Hv. unfold set_rule, with_rule. destruct (trans_reg_type n); [|done].
  split; [exact Hc|]. cbn. rewrite Hv. by apply rep_rules_set.
Qed.

(** A register-rule instruction ends in [set_rule]. *)
Lemma continues_rule s b rest row stk n k v v' op b' s1 :
  rep_state s row stk -> b = op :: b' -> cs_ctx s1 = cs_ctx s -> cs_heap s1 = cs_heap s ->
  consumed s s1 (length b) rest ->
  freg k v' = freg k v ->
  step op (set_ins s (cs_pos s + 1) (b' ++ rest)) = Done (FContinue (set_rule s1 n k v')) ->
  continues s b rest (with_rule row n (k, v)) stk.
Proof.
  intros Hs -> Hc Hh (H1 & H2 & H3) Hv Hstep.
  destruct (set_rule_fields s1 n k v') as (E1 & E2 & E3 & E4 & E5).
  exists op, b', (set_rule s1 n k v'). split_and!; [done|done| |].
  - unfold consumed. by rewrite E2, E3, E4.
  - eapply rep_state_ctx; [exact Hs|done|congruence|congruence|].
    apply rep_with_rule; [|done]. rewrite Hc. by destruct Hs.
Qed.

Lemma restore_rule_eq s n :
  restore_rule cie in_cie s n =
  match initial, trans_reg_type n with
  | Some f, Some t => set_rule s n (fst (f t)) (snd (f t))
  | _, _ => s
  end.
Proof.
  unfold restore_rule, set_rule. destruct initial as [f|]; [|by rewrite initial_rules].
  destruct initial_rules as [-> Hr]. destruct (trans_reg_type n) as [t|]; [|done].
  by rewrite Hr.
Qed.

Lemma continues_restore s b rest row stk n op b' s1 :
  rep_state s row stk -> b = op :: b' -> cs_ctx s1 = cs_ctx s -> cs_heap s1 = cs_heap s ->
  consumed s s1 (length b) rest ->
  step op (set_ins s (cs_pos s + 1) (b' ++ rest)) = Done (FContinue (restore_rule cie in_cie s1 n)) ->
  forall row' stk', exec (data_alignment_factor cie) initial (RestoreRule n) row stk = Some (row', stk') ->
  continues s b rest row' stk'.
Proof.
  intros Hs Hb Hc Hh Hcons Hstep row' stk'. rewrite restore_rule_eq in Hstep.
  cbn [exec]. destruct initial as [f|]; [destruct (trans_reg_type n) as [t|] eqn:Et|];
    intros [= <- <-].
  - rewrite (surjective_pairing (f t)). by eapply continues_rule.
  - exists op, b', s1. split_and!; [done..|]. by eapply rep_state_ctx; [exact Hs| |..|destruct Hs].
  - exists op, b', s1. split_and!; [done..|]. by eapply rep_state_ctx; [exact Hs| |..|destruct Hs].
Qed.

Lemma uleb_u64 b v : uleb b v -> v = u64 v.
Proof.
  intros (_ & _ & <- & Hv). pose proof (uleb_value_range b). symmetry. apply wrap_small. word.
Qed.

(** Evaluate the switch at a known opcode, then its operand reads. *)
Ltac eval_step :=
  unfold cfa_step, exec_advance, exec_def_cfa, exec_register_rule, exec_offset, exec_expression;
  cbv zeta; eval_ifs; cbn [app]; rewrite <- ?app_assoc;
  repeat match goal with
  | Hu : uleb ?b ?v |- context [DECODE_CFI DW_EH_PE_uleb128 ?s _] =>
    rewrite (DECODE_reads _ s b v _ _ (uleb_reads _ _ Hu) eq_refl)
  | Hu : sleb ?b ?v |- context [DECODE_CFI DW_EH_PE_sleb128 ?s _] =>
    rewrite (DECODE_reads _ s b _ _ _ (sleb_reads _ _ Hu) eq_refl)
  end.

(** Bookkeeping of bytes consumed. *)
Ltac consume :=
  unfold consumed; cbn [cs_ins cs_pos cs_loc set_ins set_loc set_ctx skip_ins length];
  rewrite ?length_app; split_and!; first [done|lia|idtac].

Lemma block_fits_app e rest : block_fits (e ++ rest) (Z.of_nat (length e)) = true.
Proof. unfold block_fits. apply Z.leb_le. rewrite length_app. lia. Qed.

Lemma skip_ins_app s e rest :
  cs_ins s = e ++ rest ->
  skip_ins s (Z.of_nat (length e)) = set_ins s (cs_pos s + Z.of_nat (length e)) rest.
Proof. intros E. unfold skip_ins. by rewrite E, Nat2Z.id, drop_app_length. Qed.

Lemma primary_op base r :
  0 <= r < 64 -> (base =? DW_CFA_advance_loc) || (base =? DW_CFA_offset) || (base =? DW_CFA_restore) = true ->
  Z.land (base + r) CFI_PRIMARY_MAX = r.
Proof.
  intros Hr Hb. change CFI_PRIMARY_MAX with (Z.ones 6). rewrite Z.land_ones by done.
  assert (exists k, base = k * 2 ^ 6) as [k ->].
  { rewrite !orb_true_iff, !Z.eqb_eq in Hb. destruct Hb as [[->| ->]| ->];
      [by exists 1|by exists 2|by exists 3]. }
  rewrite Z.add_comm, Z.mod_add by done. by apply Z.mod_small.
Qed.

Lemma step_primary_offset r s :
  0 <= r < 64 -> step (DW_CFA_offset + r) s =
  DECODE_CFI DW_EH_PE_uleb128 s (fun offset s =>
    mret (FContinue (set_rule s r reg_offset_rule (offset *w data_alignment_factor cie)))).
Proof.
  intros Hr. unfold cfa_step. rewrite primary_op by done.
  unfold DW_CFA_advance_loc, DW_CFA_offset, CFI_PRIMARY_MAX.
  destruct (Z.leb_spec (0x80 + r) (0x40 + 0x3f)); [lia|]. rewrite andb_false_r.
  destruct (Z.leb_spec 0x80 (0x80 + r)); [|lia].
  by destruct (Z.leb_spec (0x80 + r) (0x80 + 0x3f)); [|lia].
Qed.

Lemma step_primary_restore r s :
  0 <= r < 64 -> step (DW_CFA_restore + r) s = mret (FContinue (restore_rule cie in_cie s r)).
Proof.
  intros Hr. unfold cfa_step. rewrite primary_op by done.
  unfold DW_CFA_advance_loc, DW_CFA_offset, DW_CFA_restore, CFI_PRIMARY_MAX.
  destruct (Z.leb_spec (0xc0 + r) (0x40 + 0x3f)); [lia|]. rewrite andb_false_r.
  destruct (Z.leb_spec (0xc0 + r) (0x80 + 0x3f)); [lia|]. rewrite andb_false_r.
  destruct (Z.leb_spec 0xc0 (0xc0 + r)); [|lia].
  by destruct (Z.leb_spec (0xc0 + r) (0xc0 + 0x3f)); [|lia].
Qed.

Lemma step_primary_advance d s :
  0 <= d < 64 -> step (DW_CFA_advance_loc + d) s = mret (FBreak (advance cie s d)).
Proof.
  intros Hr. unfold cfa_step. rewrite primary_op by done.
  unfold DW_CFA_advance_loc, CFI_PRIMARY_MAX.
  destruct (Z.leb_spec 0x40 (0x40 + d)); [|lia].
  by destruct (Z.leb_spec (0x40 + d) (0x40 + 0x3f)); [|lia].
Qed.

(** Instructions that move the location. *)
Definition new_location (caf loc : Z) (i : cfa_instr) : option Z :=
  match i with
  | Advance d => Some (loc +w (d *w caf))
  | SetLoc l => Some l
  | _ => None
  end.

Lemma sim_location i b s rest :
  encodes cie (cs_pos s) i b ->
  forall loc, new_location (code_alignment_factor cie) (cs_loc s) i = Some loc ->
  exists op b', b = op :: b' /\
    step op (set_ins s (cs_pos s + 1) (b' ++ rest)) =
      Done (FBreak (mk_cfa_state (cs_ctx s) (cs_heap s) loc (cs_pos s + Z.of_nat (length b)) rest)).
Proof.
  intros He loc Hl. destruct He; try discriminate Hl; injection Hl as <-; do 2 eexists;
    (split; [reflexivity|]).
  { by rewrite step_primary_advance. }
  all: eval_step; cbn [cs_ins set_ins app];
    try match goal with E : fde_encoding _ = _ \/ _ |- _ => destruct E as [E|E]; rewrite E end;
    try match goal with
    | Hf : fixed ?n ?b ?v |- context [DECODE_CFI ?ty ?s _] =>
      rewrite (DECODE_reads ty s b v _ _ (fixed_reads n ty _ _ Hf ltac:(set_solver)) eq_refl)
    end; unfold advance, skip_ins, set_ins, set_loc; run; do 2 f_equal; cbn; f_equal; first [lia|reflexivity].
Qed.

(** Instructions that change the row. *)
Lemma continues_ctx s b rest row stk row' op b' s1 c :
  rep_state s row stk -> b = op :: b' -> cs_heap s1 = cs_heap s ->
  consumed s s1 (length b) rest -> cs_ctx s1 = c -> prev c = prev (cs_ctx s) -> rep_row c row' ->
  step op (set_ins s (cs_pos s + 1) (b' ++ rest)) = Done (FContinue s1) ->
  continues s b rest row' stk.
Proof.
  intros Hs -> Hh Hc Hcx Hp Hr Hstep. exists op, b', s1. split_and!; [done..|].
  by eapply rep_state_ctx.
Qed.

Ltac rule_case := eapply continues_rule;
  [eassumption|reflexivity| | | |
   |eval_step; rewrite ?skip_ins_app with (rest := _) by reflexivity; reflexivity];
  [done..|consume|by autorewrite with gu_rw].

Lemma sim_rule n k v b s rest row stk :
  encodes cie (cs_pos s) (Rule n k v) b -> rep_state s row stk ->
  continues s b rest (with_rule row n (k, v)) stk.
Proof.
  intros He Hs. inversion He; subst.
  1-3: rule_case.
  all: eapply continues_rule with (s1 := set_ins s _ rest); [eassumption|reflexivity|done|done| |
    |eval_step; cbn [cs_ins set_ins]; rewrite block_fits_app; cbn [negb];
     rewrite (skip_ins_app _ e rest) by reflexivity; reflexivity]; [consume|reflexivity].
Qed.

Lemma sim_factored_rule n k o b s rest row stk :
  encodes cie (cs_pos s) (FactoredRule n k o) b -> rep_state s row stk ->
  continues s b rest (with_rule row n (k, o * data_alignment_factor cie)) stk.
Proof.
  intros He Hs. inversion He; subst; [|rule_case..].
  eapply continues_rule; [eassumption|reflexivity| | | |
    |rewrite step_primary_offset by done; eval_step; reflexivity];
    [done..|consume|by autorewrite with gu_rw].
Qed.

Lemma sim_cfa i b s rest row stk row' stk' :
  encodes cie (cs_pos s) i b -> rep_state s row stk ->
  match i with
  | DefCfa _ _ | DefCfaSf _ _ | DefCfaRegister _ | DefCfaOffset _ | DefCfaOffsetSf _
  | DefCfaExpression _ _ | Skip => True
  | _ => False end ->
  exec (data_alignment_factor cie) initial i row stk = Some (row', stk') ->
  continues s b rest row' stk'.
Proof.
  intros He Hs Hi. pose proof Hs as [[Hcfa Hrules] _].
  destruct He; try done; cbn [exec]; clear Hi; intros Hx;
    try (destruct (row_cfa row) eqn:Erow; simplify_eq/=); simplify_eq/=; cbn [rep_cfa] in Hcfa;
    destruct_and?.
  all: eapply continues_ctx; [eassumption|reflexivity| | | | |
    |eval_step; cbn [cs_ins set_ins]; rewrite ?block_fits_app; cbn [negb];
     try (erewrite skip_ins_app by reflexivity); reflexivity]; [done|consume|done|done|].
  all: split; [cbn; rewrite ?Erow; cbn; autorewrite with gu_rw; repeat split; first [done|by eapply uleb_u64]|done].
Qed.

Lemma sim_remember s rest row stk :
  rep_state s row stk -> continues s [DW_CFA_remember_state] rest row (row :: stk).
Proof.
  intros (Hr & l & Hl & Hf). do 3 eexists. split; [done|].
  split; [eval_step; unfold exec_remember_state; rewrite malloc_succeeds; reflexivity|].
  split; [consume|]. split; [done|]. eexists ((_, cs_ctx s) :: l).
  split; [by eapply heap_owns_alloc|]. by constructor.
Qed.

Lemma sim_restore_state s rest row stk row' :
  rep_state s row (row' :: stk) -> continues s [DW_CFA_restore_state] rest row' stk.
Proof.
  intros (Hr & l & Hl & Hf). inversion Hf as [|[p c] ? l' ? Hrow Hf']; subst.
  pose proof Hl as [(Hp & Hc & _) _].
  do 3 eexists. split; [done|].
  split; [eval_step; unfold exec_restore_state; cbn [cs_ctx set_ins cs_heap]; rewrite Hp, Hc;
          reflexivity|].
  split; [consume|]. split; [done|]. exists l'. split; [|done].
  by eapply heap_owns_free.
Qed.

Lemma sim_step i b s rest row stk row' stk' :
  encodes cie (cs_pos s) i b -> rep_state s row stk ->
  exec (data_alignment_factor cie) initial i row stk = Some (row', stk') ->
  continues s b rest row' stk'.
Proof.
  intros He Hs Hx. destruct i;
    try (by eapply sim_cfa); try done;
    try (injection Hx as <- <-; first [by apply sim_rule|by apply sim_factored_rule]).
  - inversion He; subst.
    + eapply continues_restore; [exact Hs|reflexivity| | | |by apply step_primary_restore|exact Hx];
        [done..|consume].
    + eapply continues_restore; [exact Hs|reflexivity| | | |eval_step; reflexivity|exact Hx];
        [done..|consume].
  - inversion He; subst. injection Hx as <- <-. by apply sim_remember.
  - inversion He; subst. destruct stk; [done|]. injection Hx as <- <-.
    by eapply sim_restore_state.
Qed.

Lemma table_nonempty caf daf prog loc r stk rows :
  table caf daf initial prog loc r stk = Some rows -> exists r' rows', rows = (loc, r') :: rows'.
Proof.
  revert loc r stk. induction prog as [|i prog IH]; intros loc r stk; cbn [table].
  { intros [= <-]. eauto. }
  destruct i; try (destruct (exec _ _ _ _ _) as [[r1 stk1]|]; [by apply IH|done]).
  all: destruct (table _ _ _ _ _ _ _); [intros [= <-]; eauto|done].
Qed.

(** One instruction of the table. *)
Lemma table_cons caf daf i prog loc r stk :
  table caf daf initial (i :: prog) loc r stk =
  match new_location caf loc i with
  | Some loc' => rows ← table caf daf initial prog loc' r stk; Some ((loc, r) :: rows)
  | None => '(r', stk') ← exec daf initial i r stk; table caf daf initial prog loc r' stk'
  end.
Proof. by destruct i. Qed.

Lemma sim_loop fuel pc prog b s row stk rows :
  encodes_all cie (cs_pos s) prog b -> cs_ins s = b -> (length b < fuel)%nat ->
  rep_state s row stk -> cs_loc s <= pc ->
  table (code_alignment_factor cie) (data_alignment_factor cie) initial prog (cs_loc s) row stk = Some rows ->
  exists s' row' stk', cfa_loop malloc_ok cie in_cie fuel pc s = Done (0, s') /\
    rep_state s' row' stk' /\ row_at pc rows = Some row'.
Proof.
  remember (cs_pos s) as pos eqn:Hpos. intros He. revert fuel s row stk rows Hpos.
  induction He as [pos|pos i prog b bs Hi _ IH]; intros fuel s row stk rows Hpos Hins Hfuel Hs Hloc;
    (destruct fuel as [|fuel]; [simpl in Hfuel; lia|]); cbn [cfa_loop]; rewrite Hins.
  { intros [= <-]. exists s, row, stk. split_and!; [done..|]. cbn.
    by destruct (Z.ltb_spec pc (cs_loc s)); [lia|]. }
  rewrite table_cons. subst pos. rewrite length_app in Hfuel.
  destruct (new_location _ _ i) as [loc'|] eqn:Hl.
  - destruct (sim_location i b s bs Hi loc' Hl) as (op & b' & -> & Hstep). cbn [app].
    rewrite Hstep. run. cbn [cs_loc]. intros Ht.
    destruct (table _ _ _ prog loc' row stk) as [rows'|] eqn:Htab; [|done].
    injection Ht as <-. cbn [row_at]. destruct (Z.ltb_spec pc (cs_loc s)); [lia|].
    destruct (Z.ltb_spec pc loc') as [Hlt|Hge].
    + destruct (table_nonempty _ _ _ _ _ _ _ Htab) as (r' & rows'' & ->). cbn [row_at].
      destruct (Z.ltb_spec pc loc'); [|lia]. do 3 eexists. split; [done|]. split; [exact Hs|done].
    + cbn [length] in Hfuel.
      set (s1 := mk_cfa_state (cs_ctx s) (cs_heap s) loc' (cs_pos s + Z.of_nat (length (op :: b'))) bs).
      destruct (IH fuel s1 row stk rows') as (s' & row' & stk' & -> & Hs' & Hrow); try done; [lia|].
      rewrite Hrow. by exists s', row', stk'.
  - destruct (exec _ _ i row stk) as [[row1 stk1]|] eqn:Hx; [|done]. intros Ht.
    destruct (sim_step i b s bs row stk row1 stk1 Hi Hs Hx) as
      (op & b' & s1 & -> & Hstep & (Hi1 & Hp1 & Hl1) & Hs1). cbn [app].
    rewrite Hstep. run. cbn [length] in Hfuel, Hp1. apply (IH fuel s1 row1 stk1); rewrite ?Hl1; first [done|lia].
Qed.
End simulation.

(** A run on an encoded program leaves the row of its table. *)
Lemma program_row `{Arch} malloc_ok cie initial ctx heap start prog ins loc
    find_pc row rows :
  (forall h, malloc_ok h = true) ->
  match initial with
  | None => start = initial_instructions cie
  | Some f => start <> initial_instructions cie /\ rep_rules (calc_regs (cie_calc_ctx cie)) f
  end ->
  encodes_all cie start prog ins ->
  rep_row ctx row -> heap_owns (heap_cells heap) heap ctx [] ->
  loc <= find_pc ->
  table (code_alignment_factor cie) (data_alignment_factor cie) initial prog loc row [] = Some rows ->
  exists ctx' heap' l row',
    init_calc_ctx_by_ins malloc_ok cie ctx heap (Some start) ins loc find_pc = Done (0, ctx', heap') /\
    row_at find_pc rows = Some row' /\ rep_row ctx' row' /\
    heap_owns (heap_cells heap) heap' ctx' l.
Proof.
  intros Hm Hi He Hr Hh Hloc Ht. unfold init_calc_ctx_by_ins.
  set (in_cie := bool_decide _).
  assert (Hin : match initial with
                | None => in_cie = true
                | Some f => in_cie = false /\ rep_rules (calc_regs (cie_calc_ctx cie)) f end).
  { destruct initial as [f|]; [destruct Hi as [Hne Hi]; split; [|done]|];
      subst in_cie; [apply bool_decide_eq_false|apply bool_decide_eq_true]; congruence. }
  destruct (sim_loop malloc_ok Hm cie in_cie initial Hin (heap_cells heap) (S (length ins)) find_pc
    prog ins (mk_cfa_state ctx heap loc start ins) row [] rows) as (s' & row' & stk' & E & Hs & Hrow);
    try done; [cbn; lia|by split; eauto|].
  destruct Hs as (Hrep & l & Hl & _).
  exists (cs_ctx s'), (cs_heap s'), l, row'. change (default 0 (Some start)) with start. by rewrite E.
Qed.

(** ** Properties *)

(** C3: the byte interpreter computes the DWARF unwind table: run on any
    encoding of a call-frame program whose table is defined, it succeeds and
    leaves in the context exactly the row in force at [find_pc], the remembered
    states it leaves behind being the only new heap cells. *)
Theorem program_computes_table_row `{Arch} malloc_ok cie initial ctx heap start prog ins loc
    find_pc row rows :
  (forall h, malloc_ok h = true) ->
  match initial with
  | None => start = initial_instructions cie
  | Some f => start <> initial_instructions cie /\ rep_rules (calc_regs (cie_calc_ctx cie)) f
  end ->
  encodes_all cie start prog ins ->
  rep_row ctx row -> heap_owns (heap_cells heap) heap ctx [] ->
  loc <= find_pc ->
  table (code_alignment_factor cie) (data_alignment_factor cie) initial prog loc row [] = Some rows ->
  exists ctx' heap' l row',
    init_calc_ctx_by_ins malloc_ok cie ctx heap (Some start) ins loc find_pc = Done (0, ctx', heap') /\
    row_at find_pc rows = Some row' /\ rep_row ctx' row' /\
    heap_owns (heap_cells heap) heap' ctx' l.
Proof. apply program_row. Qed.

Definition empty_heap : cfi_heap := mk_heap 0 ∅.

Lemma heap_owns_start h : (forall a, is_Some (heap_cells h !! a) -> a < heap_next h) ->
  forall c, prev c = None -> heap_owns (heap_cells h) h c [].
Proof. intros Hn c Hc. split_and!; [done| |done|done]. intros a Ha. set_solver. Qed.

Lemma empty_heap_owns c : prev c = None -> heap_owns ∅ empty_heap c [].
Proof. apply (heap_owns_start empty_heap). intros a [x Hx]. done. Qed.

(** The usual x86_64 CIE: code alignment 1, data alignment -8. *)
Definition sample_cie : gu_cfi_cie :=
  mk_cie 0 1 (-8) 16 0 0 0 DW_EH_PE_absptr 0 false false zero_calc_ctx.

Definition zero_row : row := mk_row CfaUndefined (fun _ => (reg_unspecified, 0)).

Lemma zero_rep_row : rep_row zero_calc_ctx zero_row.
Proof. split; [done|]. by intros []. Qed.

(** [push %rbp; mov %rsp, %rbp] with a remembered state. *)
Definition sample_program : list cfa_instr :=
  [DefCfa 7 8; FactoredRule 16 reg_offset_rule 1; Advance 1; DefCfaOffset 16;
   FactoredRule 6 reg_offset_rule 2; Advance 3; DefCfaRegister 6; RememberState; Advance 8;
   DefCfa 7 8; Advance 1; RestoreState].
Definition sample_bytes : list Z :=
  [0x0c; 7] ++ [8] ++ [0x90; 1; 0x41; 0x0e; 16; 0x86; 2; 0x43; 0x0d; 6; 0x0a; 0x48; 0x0c; 7; 8;
   0x41; 0x0b].

Lemma sample_encodes pos : encodes_all sample_cie pos sample_program sample_bytes.
Proof.
  assert (U : forall b, 0 <= b < 128 -> uleb [b] b).
  { intros b Hb. repeat split; cbn; [|lia| |lia].
    - apply Z.eqb_eq. apply Z.eqb_eq. change 128 with (2 ^ 7). rewrite land_pow2_zero by done.
      by rewrite (testbit_small b 7) by lia.
    - rewrite land_7F, Z.mod_small by lia. lia. }
  unfold sample_program, sample_bytes.
  apply (enc_cons _ _ _ _ [0x0c; 7; 8]); [apply (enc_def_cfa _ _ [7] [8]); apply U; lia|].
  apply (enc_cons _ _ _ _ [0x90; 1]); [apply (enc_offset _ _ [1] 16); [lia|apply U; lia]|].
  apply (enc_cons _ _ _ _ [0x41]); [apply (enc_advance _ _ 1); lia|].
  apply (enc_cons _ _ _ _ [0x0e; 16]); [apply (enc_def_cfa_offset _ _ [16]); apply U; lia|].
  apply (enc_cons _ _ _ _ [0x86; 2]); [apply (enc_offset _ _ [2] 6); [lia|apply U; lia]|].
  apply (enc_cons _ _ _ _ [0x43]); [apply (enc_advance _ _ 3); lia|].
  apply (enc_cons _ _ _ _ [0x0d; 6]); [apply (enc_def_cfa_register _ _ [6]); apply U; lia|].
  apply (enc_cons _ _ _ _ [0x0a]); [apply enc_remember|].
  apply (enc_cons _ _ _ _ [0x48]); [apply (enc_advance _ _ 8); lia|].
  apply (enc_cons _ _ _ _ [0x0c; 7; 8]); [apply (enc_def_cfa _ _ [7] [8]); apply U; lia|].
  apply (enc_cons _ _ _ _ [0x41]); [apply (enc_advance _ _ 1); lia|].
  apply (enc_cons _ _ _ _ [0x0b] []); [apply enc_restore_state|constructor].
Qed.

Lemma program_computes_table_row_witness :
  exists ctx' heap' l row',
    init_calc_ctx_by_ins (H := linux_x86_64) (fun _ => true) sample_cie zero_calc_ctx empty_heap
      (Some 100) sample_bytes 0x1000 0x1006 = Done (0, ctx', heap') /\
    row_at 0x1006 (default [] (table (H := linux_x86_64) 1 (-8)
       (Some (fun _ => (reg_unspecified, 0))) sample_program 0x1000 zero_row [])) = Some row' /\
    rep_row ctx' row' /\ heap_owns ∅ heap' ctx' l.
Proof.
  apply (program_computes_table_row (H := linux_x86_64) (fun _ => true) sample_cie
    (Some (fun _ => (reg_unspecified, 0))) zero_calc_ctx empty_heap 100 sample_program
    sample_bytes 0x1000 0x1006 zero_row).
  - done.
  - split; [done|]. by intros [].
  - apply (sample_encodes 100).
  - apply zero_rep_row.
  - by apply empty_heap_owns.
  - lia.
  - reflexivity.
Defined.

(** C37: whatever the bytes of a call-frame program, the interpreter stays inside
    them, dereferences no freed or invalid state, finishes within one iteration
    per byte, and frees or keeps reachable every cell it allocates: at return
    the heap is the untouched frame plus the chain hanging off the context.  The
    only fault possible is the undefined shift of an over-long LEB128. *)
Theorem program_memory_safe `{Arch} malloc_ok cie ctx heap start ins loc find_pc frame l :
  bytes_ok ins -> heap_owns frame heap ctx l ->
  match init_calc_ctx_by_ins malloc_ok cie ctx heap start ins loc find_pc with
  | Done (ret, ctx', heap') => (ret = 0 \/ ret = -1) /\ exists l', heap_owns frame heap' ctx' l'
  | Undef u => u = BadShift
  end.
Proof.
  intros Hb Hl. unfold init_calc_ctx_by_ins.
  pose proof (cfa_loop_ok malloc_ok cie (bool_decide (start = Some (initial_instructions cie)))
    frame (S (length ins)) find_pc (mk_cfa_state ctx heap loc (default 0 start) ins)) as Hs.
  destruct (cfa_loop _ _ _ _ _ _) as [[ret s]|u]; run;
    destruct Hs; try done; try lia; try (by split_and!; cbn; eauto).
  split; [done|]. by destruct H1 as (_ & _ & ?).
Qed.

Lemma program_memory_safe_witness :
  match init_calc_ctx_by_ins (H := linux_x86_64) (fun _ => true) sample_cie zero_calc_ctx
    empty_heap None [0x0a; 0x0a; 0x0b; 0x0e] 0 0 with
  | Done (ret, ctx', heap') => (ret = 0 \/ ret = -1) /\ exists l', heap_owns ∅ heap' ctx' l'
  | Undef u => u = BadShift
  end.
Proof.
  apply (program_memory_safe (H := linux_x86_64) (fun _ => true) sample_cie zero_calc_ctx
    empty_heap None [0x0a; 0x0a; 0x0b; 0x0e] 0 0 ∅ []).
  - repeat constructor; simpl; lia.
  - by apply empty_heap_owns.
Defined.
