(* ===== verification/CfiOps.v ===== *)
(** * DWARF operation lists: [src/gu_cfi_helper.c], lines 1131-1446

    The expressions and rules of a call-frame row are turned into lists of
    [Dwarf_Op] for the evaluator.  The C code builds them in the static array
    [static_ops] of [DWARF_OPS_MAX] entries; here the list under construction
    carries the bound, a store past it being an out-of-bounds access. *)

From S2P Require Import Prelude Types Arch CfiDecode CfiProgram.

Definition DWARF_OPS_MAX : Z := 256.

(** ** Operation codes *)
Definition DW_OP_addr : Z := 0x03.
Definition DW_OP_deref : Z := 0x06.
Definition DW_OP_const1u : Z := 0x08.
Definition DW_OP_const1s : Z := 0x09.
Definition DW_OP_const2u : Z := 0x0a.
Definition DW_OP_const2s : Z := 0x0b.
Definition DW_OP_const4u : Z := 0x0c.
Definition DW_OP_const4s : Z := 0x0d.
Definition DW_OP_const8u : Z := 0x0e.
Definition DW_OP_const8s : Z := 0x0f.
Definition DW_OP_constu : Z := 0x10.
Definition DW_OP_consts : Z := 0x11.
Definition DW_OP_dup : Z := 0x12.
Definition DW_OP_drop : Z := 0x13.
Definition DW_OP_over : Z := 0x14.
Definition DW_OP_pick : Z := 0x15.
Definition DW_OP_swap : Z := 0x16.
Definition DW_OP_rot : Z := 0x17.
Definition DW_OP_xderef : Z := 0x18.
Definition DW_OP_abs : Z := 0x19.
Definition DW_OP_and : Z := 0x1a.
Definition DW_OP_div : Z := 0x1b.
Definition DW_OP_minus : Z := 0x1c.
Definition DW_OP_mod : Z := 0x1d.
Definition DW_OP_mul : Z := 0x1e.
Definition DW_OP_neg : Z := 0x1f.
Definition DW_OP_not : Z := 0x20.
Definition DW_OP_or : Z := 0x21.
Definition DW_OP_plus : Z := 0x22.
Definition DW_OP_plus_uconst : Z := 0x23.
Definition DW_OP_shl : Z := 0x24.
Definition DW_OP_shr : Z := 0x25.
Definition DW_OP_shra : Z := 0x26.
Definition DW_OP_xor : Z := 0x27.
Definition DW_OP_bra : Z := 0x28.
Definition DW_OP_eq : Z := 0x29.
Definition DW_OP_ge : Z := 0x2a.
Definition DW_OP_gt : Z := 0x2b.
Definition DW_OP_le : Z := 0x2c.
Definition DW_OP_lt : Z := 0x2d.
Definition DW_OP_ne : Z := 0x2e.
Definition DW_OP_skip : Z := 0x2f.
Definition DW_OP_lit0 : Z := 0x30.
Definition DW_OP_reg0 : Z := 0x50.
Definition DW_OP_breg0 : Z := 0x70.
Definition DW_OP_regx : Z := 0x90.
Definition DW_OP_fbreg : Z := 0x91.
Definition DW_OP_piece : Z := 0x93.
Definition DW_OP_deref_size : Z := 0x94.
Definition DW_OP_xderef_size : Z := 0x95.
Definition DW_OP_nop : Z := 0x96.
Definition DW_OP_push_object_address : Z := 0x97.
Definition DW_OP_call2 : Z := 0x98.
Definition DW_OP_call4 : Z := 0x99.
Definition DW_OP_call_ref : Z := 0x9a.
Definition DW_OP_form_tls_address : Z := 0x9b.
Definition DW_OP_call_frame_cfa : Z := 0x9c.
Definition DW_OP_bit_piece : Z := 0x9d.
Definition DW_OP_stack_value : Z := 0x9f.
Definition DW_OP_implicit_pointer : Z := 0xa0.
Definition DW_OP_addrx : Z := 0xa1.
Definition DW_OP_constx : Z := 0xa2.
Definition DW_OP_regval_type : Z := 0xa5.
Definition DW_OP_deref_type : Z := 0xa6.
Definition DW_OP_xderef_type : Z := 0xa7.
Definition DW_OP_convert : Z := 0xa8.
Definition DW_OP_reinterpret : Z := 0xa9.
Definition DW_OP_GNU_push_tls_address : Z := 0xe0.
Definition DW_OP_GNU_uninit : Z := 0xf0.
Definition DW_OP_GNU_encoded_addr : Z := 0xf1.
Definition DW_OP_GNU_implicit_pointer : Z := 0xf2.
Definition DW_OP_GNU_regval_type : Z := 0xf5.
Definition DW_OP_GNU_deref_type : Z := 0xf6.
Definition DW_OP_GNU_convert : Z := 0xf7.
Definition DW_OP_GNU_reinterpret : Z := 0xf9.
Definition DW_OP_GNU_parameter_ref : Z := 0xfa.
Definition DW_OP_GNU_addr_index : Z := 0xfb.
Definition DW_OP_GNU_const_index : Z := 0xfc.
Definition DW_OP_GNU_variable_value : Z := 0xfd.

(** ** Operands

    What each case of the decoding switch reads after the opcode: a plain
    byte, a signed byte, or an encoded value.  [None] is the [default] case. *)
Inductive operand : Type := ArgU1 | ArgS1 | ArgEnc (ty : Z).

Definition one_of (atom : Z) (l : list Z) : bool := bool_decide (atom ∈ l).
Definition between (lo hi x : Z) : bool := (lo <=? x) && (x <=? hi).

Definition no_operand_ops : list Z :=
  [DW_OP_deref; DW_OP_dup; DW_OP_drop; DW_OP_over; DW_OP_swap; DW_OP_rot; DW_OP_xderef;
   DW_OP_abs; DW_OP_and; DW_OP_div; DW_OP_minus; DW_OP_mod; DW_OP_mul; DW_OP_neg; DW_OP_not;
   DW_OP_or; DW_OP_plus; DW_OP_shl; DW_OP_shr; DW_OP_shra; DW_OP_xor; DW_OP_eq; DW_OP_ge;
   DW_OP_gt; DW_OP_le; DW_OP_lt; DW_OP_ne; DW_OP_nop; DW_OP_push_object_address;
   DW_OP_call_frame_cfa; DW_OP_form_tls_address; DW_OP_GNU_push_tls_address;
   DW_OP_stack_value; DW_OP_GNU_uninit].

Definition uleb_ops : list Z :=
  [DW_OP_constu; DW_OP_plus_uconst; DW_OP_regx; DW_OP_piece; DW_OP_convert; DW_OP_GNU_convert;
   DW_OP_reinterpret; DW_OP_GNU_reinterpret; DW_OP_addrx; DW_OP_GNU_addr_index; DW_OP_constx;
   DW_OP_GNU_const_index].

Definition op_operands (atom : Z) : option (list operand) :=
  if one_of atom [DW_OP_addr; DW_OP_call_ref; DW_OP_GNU_variable_value] then
    Some [ArgEnc DW_EH_PE_udata8] else
  if one_of atom no_operand_ops || between DW_OP_lit0 (DW_OP_lit0 + 31) atom
     || between DW_OP_reg0 (DW_OP_reg0 + 31) atom then Some [] else
  if one_of atom [DW_OP_const1u; DW_OP_pick; DW_OP_deref_size; DW_OP_xderef_size] then
    Some [ArgU1] else
  if atom =? DW_OP_const1s then Some [ArgS1] else
  if atom =? DW_OP_const2u then Some [ArgEnc DW_EH_PE_udata2] else
  if one_of atom [DW_OP_const2s; DW_OP_skip; DW_OP_bra; DW_OP_call2] then
    Some [ArgEnc DW_EH_PE_sdata2] else
  if atom =? DW_OP_const4u then Some [ArgEnc DW_EH_PE_udata4] else
  if one_of atom [DW_OP_const4s; DW_OP_call4; DW_OP_GNU_parameter_ref] then
    Some [ArgEnc DW_EH_PE_sdata4] else
  if atom =? DW_OP_const8u then Some [ArgEnc DW_EH_PE_udata8] else
  if atom =? DW_OP_const8s then Some [ArgEnc DW_EH_PE_sdata8] else
  if one_of atom uleb_ops then Some [ArgEnc DW_EH_PE_uleb128] else
  if one_of atom [DW_OP_consts; DW_OP_fbreg] || between DW_OP_breg0 (DW_OP_breg0 + 31) atom then
    Some [ArgEnc DW_EH_PE_sleb128] else
  if atom =? DW_OP_bregx then Some [ArgEnc DW_EH_PE_uleb128; ArgEnc DW_EH_PE_sleb128] else
  if one_of atom [DW_OP_bit_piece; DW_OP_regval_type; DW_OP_GNU_regval_type] then
    Some [ArgEnc DW_EH_PE_uleb128; ArgEnc DW_EH_PE_uleb128] else
  if one_of atom [DW_OP_implicit_pointer; DW_OP_GNU_implicit_pointer] then
    Some [ArgEnc DW_EH_PE_udata8; ArgEnc DW_EH_PE_udata8] else
  if one_of atom [DW_OP_deref_type; DW_OP_GNU_deref_type; DW_OP_xderef_type] then
    Some [ArgU1; ArgEnc DW_EH_PE_udata8] else
  None.

(** Read one operand; [None] is the [return NULL] of a short buffer. *)
Definition read_operand (a : operand) (data : list Z) : outcome (option (Z * list Z)) :=
  match a with
  | ArgU1 => match data with [] => mret None | b :: rest => mret (Some (b, rest)) end
  | ArgS1 => match data with [] => mret None | b :: rest => mret (Some (u64 (s8 b), rest)) end
  | ArgEnc ty => decode_read_checked data ty
  end.

Fixpoint read_operands (args : list operand) (data : list Z)
  : outcome (option (list Z * list Z)) :=
  match args with
  | [] => mret (Some ([], data))
  | a :: args =>
    r ← read_operand a data;
    match r with
    | None => mret None
    | Some (v, data) =>
      r ← read_operands args data;
      mret (match r with Some (vs, data) => Some (v :: vs, data) | None => None end)
    end
  end.

(** [static_ops[size++] = op] *)
Definition store_op (ops : list Dwarf_Op) (op : Dwarf_Op) : outcome (list Dwarf_Op) :=
  if Z.of_nat (length ops) <? DWARF_OPS_MAX then mret (ops ++ [op]) else Undef OutOfBounds.

(** ** Decoding a block *)

(** The [while (data < end && size < DWARF_OPS_MAX)] loop: [total] is
    [block->length], so [total - length data] is the offset of the next byte.
    [None] is a [return NULL] from inside the loop. *)
Fixpoint ops_loop (fuel : nat) (total : nat) (data : list Z) (ops : list Dwarf_Op)
  : outcome (option (list Z * list Dwarf_Op)) :=
  match fuel with
  | O => Undef OutOfFuel
  | S fuel =>
    match data with
    | [] => mret (Some ([], ops))
    | a :: rest =>
      if negb (Z.of_nat (length ops) <? DWARF_OPS_MAX) then mret (Some (data, ops)) else
      match op_operands a with
      | None => mret None
      | Some args =>
        r ← read_operands args rest;
        match r with
        | None => mret None
        | Some (vs, rest) =>
          ops ← store_op ops (mk_op a (default 0 (vs !! 0%nat)) (default 0 (vs !! 1%nat))
                                (Z.of_nat (total - length data)));
          ops_loop fuel total rest ops
        end
      end
    end
  end.

Definition op_of_atom (a : Z) : Dwarf_Op := mk_op a 0 0 0.

(** [struct Dwarf_Block] and the bytes it designates in the section data. *)
Record Dwarf_Block : Type := mk_block { blk_length : Z; blk_data : cfa_word }.

Definition block_bytes (d_buf : list Z) (b : Dwarf_Block) : outcome (list Z) :=
  match blk_data b with
  | WNum _ => Undef BadPointer
  | WPtr p =>
    if (0 <=? p) && (p + blk_length b <=? Z.of_nat (length d_buf)) then
      mret (take (Z.to_nat (blk_length b)) (drop (Z.to_nat p) d_buf))
    else Undef OutOfBounds
  end.

(** [gu_cfi_init_ops_from_block]: [None] is [NULL]; otherwise the first
    [*ops_size] entries of [static_ops]. *)
Definition gu_cfi_init_ops_from_block (d_buf : list Z) (block : Dwarf_Block)
    (r : dwarf_frame_rule) (cfa : bool) : outcome (option (list Dwarf_Op)) :=
  if blk_length block =? 0 then mret None else
  data ← block_bytes d_buf block;
  ops ← (if cfa then mret [] else store_op [] (op_of_atom DW_OP_call_frame_cfa));
  res ← ops_loop (S (length data)) (length data) data ops;
  match res with
  | None => mret None
  | Some (data', ops) =>
    if (0 <? Z.of_nat (length data')) || (DWARF_OPS_MAX <=? Z.of_nat (length ops)) then mret None else
    if decide (r = reg_val_expression) then
      ops ← store_op ops (mk_op DW_OP_stack_value 0 0 (Z.of_nat (length data - length data')));
      mret (Some ops)
    else mret (Some ops)
  end.

(** ** Rules to operations *)

(** The [Dwarf_Op] the union holds under [cfa_offset]. *)
Definition cfa_offset_op (c : gu_cfi_calc_ctx) : outcome Dwarf_Op :=
  match cfa_number c with
  | WNum n => mret (mk_op (cfa_atom c) n (cfa_number2 c) (cfa_op_offset c))
  | WPtr _ => Undef BadPointer
  end.

Definition gu_cfi_get_cfa_ops (d_buf : list Z) (c : gu_cfi_calc_ctx)
  : outcome (option (list Dwarf_Op)) :=
  match cfa_rule c with
  | cfa_undefined | cfa_invalid => mret None
  | cfa_offset => op ← cfa_offset_op c; mret (Some [op])
  | cfa_expr =>
    gu_cfi_init_ops_from_block d_buf (mk_block (cfa_length c) (cfa_number c)) reg_expression true
  end.

(** [gu_cfi_get_regs_ops]; [reg->value] is a signed bit-field, converted to
    [Dwarf_Word] when stored in an operation. *)
Definition gu_cfi_get_regs_ops (d_buf : list Z) (type : cfi_reg_type) (c : gu_cfi_calc_ctx)
  : outcome (option (list Dwarf_Op)) :=
  let reg := get_freg (calc_regs c) type in
  let cfa_plus :=
    op_of_atom DW_OP_call_frame_cfa ::
    (if value reg =? 0 then [] else [mk_op DW_OP_plus_uconst (u64 (value reg)) 0 0]) in
  match rule reg with
  | reg_unspecified | reg_undefined | reg_same_value => mret None
  | reg_offset_rule => mret (Some cfa_plus)
  | reg_val_offset => mret (Some (cfa_plus ++ [op_of_atom DW_OP_stack_value]))
  | reg_register => mret (Some [mk_op DW_OP_regx (u64 (value reg)) 0 0])
  | reg_val_expression | reg_expression =>
    if Z.of_nat (length d_buf) <=? u64 (value reg) then mret None else
    let p := drop (Z.to_nat (value reg)) d_buf in
    r ← decode_read_checked p DW_EH_PE_uleb128;
    match r with
    | None => mret None
    | Some (len, rest) =>
      if negb (block_fits rest len) then mret None else
      gu_cfi_init_ops_from_block d_buf
        (mk_block len (WPtr (Z.of_nat (length d_buf - length rest)))) (rule reg) false
    end
  end.

(** ** The decoded row ([ops_arr], [cfa_ops_info])

    Global scratch state: the operations for each register and for the CFA,
    each list being the first [ops_size] entries of its array. *)
Record ops_scratch : Type := mk_scratch {
  rip_ops : list Dwarf_Op;
  rbp_ops : list Dwarf_Op;
  rsp_ops : list Dwarf_Op;
  cfa_ops : list Dwarf_Op;
}.

Definition ops_arr (s : ops_scratch) (t : cfi_reg_type) : list Dwarf_Op :=
  match t with
  | REG_TYPE_RIP => rip_ops s | REG_TYPE_RBP => rbp_ops s | REG_TYPE_RSP => rsp_ops s
  end.

(** [gu_cfi_get_ops]; the type [None] is [REG_TYPE_MAX], whose result is -1. *)
Definition gu_cfi_get_ops (s : ops_scratch) (type : option cfi_reg_type) (cfa : bool)
  : option (list Dwarf_Op) :=
  match type with
  | None => None
  | Some t =>
    if cfa || (bool_decide (t = REG_TYPE_RSP) && (Z.of_nat (length (ops_arr s t)) =? 0))
    then Some (cfa_ops s) else Some (ops_arr s t)
  end.

(** ** Expression encodings *)
Definition arg_encodes (a : operand) (b : list Z) (v : Z) : Prop :=
  match a with
  | ArgU1 => b = [v]
  | ArgS1 => exists x, b = [x] /\ v = u64 (s8 x)
  | ArgEnc ty => reads_as ty b v
  end.

Inductive args_encode : list operand -> list Z -> list Z -> Prop :=
  | args_nil : args_encode [] [] []
  | args_cons a args b bs v vs :
      arg_encodes a b v -> args_encode args bs vs -> args_encode (a :: args) (b ++ bs) (v :: vs).

(** The operations of an expression, each with its offset in the block. *)
Inductive expr_encodes : Z -> list Dwarf_Op -> list Z -> Prop :=
  | expr_nil off : expr_encodes off [] []
  | expr_cons off a args b vs ops bs :
      op_operands a = Some args -> args_encode args b vs ->
      expr_encodes (off + 1 + Z.of_nat (length b)) ops bs ->
      expr_encodes off (mk_op a (default 0 (vs !! 0%nat)) (default 0 (vs !! 1%nat)) off :: ops)
        (a :: b ++ bs).

Lemma read_operand_app a b v rest :
  arg_encodes a b v -> read_operand a (b ++ rest) = Done (Some (v, rest)).
Proof. destruct a; simpl; [by intros ->|by intros (x & -> & ->)|intros Hr; apply Hr]. Qed.

Lemma read_operands_app args b vs rest :
  args_encode args b vs -> read_operands args (b ++ rest) = Done (Some (vs, rest)).
Proof.
  induction 1 as [|a args b bs v vs Ha _ IH]; [done|]. cbn [read_operands].
  rewrite <- app_assoc, (read_operand_app _ _ v) by done. run. by rewrite IH.
Qed.

Lemma store_op_ok ops op :
  Z.of_nat (length ops) < DWARF_OPS_MAX -> store_op ops op = Done (ops ++ [op]).
Proof. intros. unfold store_op. by destruct (Z.ltb_spec (Z.of_nat (length ops)) DWARF_OPS_MAX); [|lia]. Qed.

Lemma ops_loop_decodes fuel total off ops data acc :
  expr_encodes off ops data -> (length data < fuel)%nat -> (length data <= total)%nat ->
  off = Z.of_nat (total - length data) ->
  Z.of_nat (length acc + length ops) < DWARF_OPS_MAX ->
  ops_loop fuel total data acc = Done (Some ([], acc ++ ops)).
Proof.
  intros He. revert fuel acc.
  induction He as [off|off a args b vs ops bs Ha Hb _ IH]; intros fuel acc Hf Ht Ho Hn;
    (destruct fuel as [|fuel]; [lia|]); cbn [ops_loop]; [by rewrite app_nil_r|].
  cbn [length] in *. rewrite length_app in *.
  destruct (Z.ltb_spec (Z.of_nat (length acc)) DWARF_OPS_MAX); [|lia]. cbn [negb].
  rewrite Ha, (read_operands_app _ _ vs) by done. run. rewrite <- Ho.
  rewrite store_op_ok by lia. run. rewrite IH, <- app_assoc; [done|lia|lia|lia|].
  rewrite length_app. simpl. lia.
Qed.

(** ** Safety *)
Definition is_op (op : Dwarf_Op) : Prop :=
  is_u64 (number op) /\ is_u64 (number2 op) /\ 0 <= op_offset op.

(** The operations decoded so far: bounded, with increasing offsets. *)
Definition ops_sorted (ops : list Dwarf_Op) : Prop :=
  StronglySorted (fun x y => op_offset x < op_offset y) ops.

Lemma read_operand_ok a data :
  bytes_ok data ->
  match read_operand a data with
  | Done (Some (v, rest)) => is_u64 v /\ exists p, data = p ++ rest
  | Done None => True
  | Undef u => u = BadShift
  end.
Proof.
  intros Hb. destruct a; cbn [read_operand].
  - destruct data as [|b rest]; run; [done|]. inversion Hb as [|? ? Hb1 _]; subst.
    unfold is_byte in Hb1. split; [word|]. by exists [b].
  - destruct data as [|b rest]; run; [done|]. split; [auto with gu|]. by exists [b].
  - pose proof (decode_read_checked_ok data ty Hb) as Hr.
    destruct (decode_read_checked data ty) as [[[v rest]|]|u]; [|done|done].
    destruct Hr as (Hv & p & Hp & _). split; [done|by exists p].
Qed.

Lemma read_operands_ok args data :
  bytes_ok data ->
  match read_operands args data with
  | Done (Some (vs, rest)) => Forall is_u64 vs /\ exists p, data = p ++ rest
  | Done None => True
  | Undef u => u = BadShift
  end.
Proof.
  revert data. induction args as [|a args IH]; intros data Hb; cbn [read_operands]; run.
  { split; [done|by exists []]. }
  pose proof (read_operand_ok a data Hb) as Ha.
  destruct (read_operand a data) as [[[v rest]|]|u]; run; [|done|done].
  destruct Ha as (Hv & p & ->). apply Forall_app in Hb as [_ Hb].
  specialize (IH rest Hb).
  destruct (read_operands args rest) as [[[vs rest']|]|u]; run; [|done|done].
  destruct IH as (Hvs & q & ->). split; [by constructor|]. exists (p ++ q). by rewrite <- app_assoc.
Qed.

Lemma default_lookup_u64 vs i : Forall is_u64 vs -> is_u64 (default 0 (vs !! i)).
Proof.
  intros Hvs. destruct (vs !! i) eqn:E; simpl; [|word]. by eapply Forall_lookup_1 in Hvs.
Qed.

(** Invariant of the decoding loop: every operation is in range, and those
    decoded from the block have increasing offsets below the read position. *)
Definition loop_inv (acc0 : list Dwarf_Op) (pos : Z) (acc : list Dwarf_Op) : Prop :=
  exists ops, acc = acc0 ++ ops /\ Forall is_op ops /\ ops_sorted ops /\
    Forall (fun o => op_offset o < pos) ops /\ Z.of_nat (length acc) <= DWARF_OPS_MAX.

Lemma StronglySorted_snoc {A} (R : relation A) l x :
  StronglySorted R l -> Forall (fun y => R y x) l -> StronglySorted R (l ++ [x]).
Proof.
  induction 1 as [|y l Hl IH Hy]; intros Hx; simpl; [by repeat constructor|].
  inversion Hx; subst. constructor; [by apply IH|]. apply Forall_app. by split; [|constructor].
Qed.

Lemma loop_inv_store acc0 pos pos' acc a n1 n2 :
  loop_inv acc0 pos acc -> is_u64 n1 -> is_u64 n2 -> 0 <= pos < pos' ->
  Z.of_nat (length acc) < DWARF_OPS_MAX -> loop_inv acc0 pos' (acc ++ [mk_op a n1 n2 pos]).
Proof.
  intros (ops & -> & Hop & Hs & Ho & _) Hn1 Hn2 Hp Hlen. exists (ops ++ [mk_op a n1 n2 pos]).
  split_and!.
  - by rewrite app_assoc.
  - apply Forall_app. split; [done|]. constructor; [|done]. split_and!; [done..|simpl; lia].
  - by apply StronglySorted_snoc.
  - apply Forall_app. split; [|constructor; [simpl; lia|done]].
    eapply Forall_impl; [exact Ho|]. simpl. lia.
  - rewrite !length_app in *. simpl. lia.
Qed.

Lemma ops_loop_ok fuel total data acc0 acc :
  bytes_ok data -> (length data < fuel)%nat -> (length data <= total)%nat ->
  loop_inv acc0 (Z.of_nat (total - length data)) acc ->
  match ops_loop fuel total data acc with
  | Done (Some (rest, ops)) => loop_inv acc0 (Z.of_nat (total - length rest)) ops
  | Done None => True
  | Undef u => u = BadShift
  end.
Proof.
  revert data acc. induction fuel as [|fuel IH]; intros data acc Hb Hf Ht Hi; [lia|].
  cbn [ops_loop]. destruct data as [|a rest]; run; [done|].
  destruct (Z.ltb_spec (Z.of_nat (length acc)) DWARF_OPS_MAX); cbn [negb]; run; [|done].
  destruct (op_operands a) as [args|]; run; [|done].
  inversion Hb as [|? ? _ Hb']; subst.
  pose proof (read_operands_ok args rest Hb') as Hr.
  destruct (read_operands args rest) as [[[vs rest']|]|u]; run; [|done|done].
  destruct Hr as (Hvs & p & ->). rewrite store_op_ok by done. run.
  cbn [length] in Hf, Ht |- *. rewrite length_app in Hf, Ht |- *. apply Forall_app in Hb' as [_ Hb'].
  apply IH; [done|lia|lia|]. cbn [length] in Hi. rewrite length_app in Hi.
  apply loop_inv_store; auto using default_lookup_u64. lia.
Qed.

(** A block that lies in the section. *)
Definition block_ok (d_buf : list Z) (b : Dwarf_Block) : Prop :=
  exists p, blk_data b = WPtr p /\ 0 <= p /\ 0 <= blk_length b /\
    p + blk_length b <= Z.of_nat (length d_buf).

Lemma block_bytes_ok d_buf b :
  bytes_ok d_buf -> block_ok d_buf b ->
  exists data, block_bytes d_buf b = Done data /\ bytes_ok data.
Proof.
  intros Hb (p & Hp & ? & ? & ?). unfold block_bytes. rewrite Hp.
  destruct (Z.leb_spec 0 p); [|lia].
  destruct (Z.leb_spec (p + blk_length b) (Z.of_nat (length d_buf))); [|lia].
  eexists. split; [done|]. by apply Forall_take, Forall_drop.
Qed.

(** What the decoder returns: at most [DWARF_OPS_MAX] operations. *)
Definition ops_result_ok (m : outcome (option (list Dwarf_Op))) : Prop :=
  match m with
  | Done (Some ops) => Z.of_nat (length ops) <= DWARF_OPS_MAX /\ Forall is_op ops
  | Done None => True
  | Undef u => u = BadShift
  end.

Lemma loop_inv_result acc0 pos acc :
  Forall is_op acc0 -> loop_inv acc0 pos acc -> Forall is_op acc.
Proof. intros H0 (ops & -> & Hop & _). by apply Forall_app. Qed.

Lemma init_ops_ok d_buf b r cfa :
  bytes_ok d_buf -> (blk_length b <> 0 -> block_ok d_buf b) ->
  ops_result_ok (gu_cfi_init_ops_from_block d_buf b r cfa).
Proof.
  intros Hb Hok. unfold gu_cfi_init_ops_from_block.
  destruct (Z.eqb_spec (blk_length b) 0); [done|].
  destruct (block_bytes_ok d_buf b) as (data & -> & Hd); [done|by apply Hok|]. run.
  assert (exists ops0, (if cfa then mret [] else store_op [] (op_of_atom DW_OP_call_frame_cfa))
    = Done ops0 /\ Forall is_op ops0 /\ Z.of_nat (length ops0) <= DWARF_OPS_MAX) as (ops0 & -> & H0 & Hn0).
  { destruct cfa; [by exists []|]. eexists. split; [done|]. split; [|done].
    by repeat constructor. }
  run. pose proof (ops_loop_ok (S (length data)) (length data) data ops0 ops0 Hd) as Hl.
  destruct (ops_loop _ _ _ _) as [[[rest ops]|]|u]; run; [|done|].
  2: { apply Hl; [lia..|]. exists []. rewrite app_nil_r. by repeat constructor. }
  assert (Hi : loop_inv ops0 (Z.of_nat (length data - length rest)) ops).
  { apply Hl; [lia..|]. exists []. rewrite app_nil_r. by repeat constructor. }
  apply (loop_inv_result _ _ _ H0) in Hi.
  destruct (Z.ltb_spec 0 (Z.of_nat (length rest))); [done|].
  destruct (Z.leb_spec DWARF_OPS_MAX (Z.of_nat (length ops))); [done|]. cbn [orb].
  case_decide; [|by split; [lia|]]. rewrite store_op_ok by done. run.
  split; [rewrite length_app; simpl; lia|]. apply Forall_app. split; [done|].
  constructor; [|done]. split_and!; simpl; [word..|lia].
Qed.

Lemma get_regs_ops_ok d_buf t c :
  bytes_ok d_buf -> ops_result_ok (gu_cfi_get_regs_ops d_buf t c).
Proof.
  intros Hb. unfold gu_cfi_get_regs_ops. set (reg := get_freg _ _).
  assert (Hplus : Forall is_op (op_of_atom DW_OP_call_frame_cfa ::
    (if value reg =? 0 then [] else [mk_op DW_OP_plus_uconst (u64 (value reg)) 0 0]))).
  { constructor; [done|]. destruct (value reg =? 0); [done|]. constructor; [|done].
    split_and!; simpl; [auto with gu|word|lia]. }
  assert (Hlen : Z.of_nat (length (if value reg =? 0 then [] else
    [mk_op DW_OP_plus_uconst (u64 (value reg)) 0 0])) <= 1) by (by destruct (value reg =? 0)).
  assert (Hexpr : forall k, ops_result_ok (
    if Z.of_nat (length d_buf) <=? u64 (value reg) then mret None else
    r ← decode_read_checked (drop (Z.to_nat (value reg)) d_buf) DW_EH_PE_uleb128;
    match r with
    | None => mret None
    | Some (len, rest) =>
      if negb (block_fits rest len) then mret None else
      gu_cfi_init_ops_from_block d_buf
        (mk_block len (WPtr (Z.of_nat (length d_buf - length rest)))) k false
    end)).
  { intros k. destruct (Z.leb_spec (Z.of_nat (length d_buf)) (u64 (value reg))); [done|].
    pose proof (decode_read_checked_ok (drop (Z.to_nat (value reg)) d_buf) DW_EH_PE_uleb128
      (Forall_drop _ _ _ Hb)) as Hr.
    destruct (decode_read_checked _ _) as [[[len rest]|]|u]; run; [|done|done].
    destruct Hr as (Hv & p & Hp & _).
    destruct (block_fits rest len) eqn:Hfits; cbn [negb]; [|done].
    apply init_ops_ok; [done|]. intros _. eexists. split; [done|].
    unfold block_fits in Hfits. apply Z.leb_le in Hfits. cbn [blk_length].
    assert (length (p ++ rest) <= length d_buf)%nat by (rewrite <- Hp, length_drop; lia).
    rewrite length_app in *. unfold in_width in Hv. lia. }
  destruct (rule reg); try done; try apply Hexpr.
  - split; [|done]. cbn [length]. unfold DWARF_OPS_MAX. lia.
  - split; [rewrite length_app; cbn [length]; unfold DWARF_OPS_MAX; lia|].
    apply Forall_app. split; [done|]. by repeat constructor.
  - split; [done|]. constructor; [|done]. split_and!; simpl; [auto with gu|word|lia].
Qed.

(** ** Properties *)

(** Any DWARF expression whose operations the decoder knows, fewer than 256
    of them, is decoded to exactly these operations, each with its operands and
    its byte offset; a register expression is preceded by [DW_OP_call_frame_cfa]
    and a value expression followed by [DW_OP_stack_value]. *)
Theorem expression_decodes d_buf p len data ops r (cfa : bool) :
  0 <= p -> len = Z.of_nat (length data) -> 0 < len ->
  take (length data) (drop (Z.to_nat p) d_buf) = data -> p + len <= Z.of_nat (length d_buf) ->
  expr_encodes 0 ops data ->
  Z.of_nat (length ops) + (if cfa then 0 else 1) < DWARF_OPS_MAX ->
  gu_cfi_init_ops_from_block d_buf (mk_block len (WPtr p)) r cfa =
    Done (Some ((if cfa then [] else [op_of_atom DW_OP_call_frame_cfa]) ++ ops ++
                (if decide (r = reg_val_expression) then [mk_op DW_OP_stack_value 0 0 len] else []))).
Proof.
  intros Hp Hlen Hpos Hd Hfit He Hn. unfold gu_cfi_init_ops_from_block. cbn [blk_length].
  destruct (Z.eqb_spec len 0); [lia|]. unfold block_bytes. cbn [blk_data blk_length].
  destruct (Z.leb_spec 0 p); [|lia].
  destruct (Z.leb_spec (p + len) (Z.of_nat (length d_buf))); [|lia]. cbn [andb]. run.
  rewrite Hlen, Nat2Z.id, Hd.
  set (pre := if cfa then [] else [op_of_atom DW_OP_call_frame_cfa]).
  assert ((if cfa then mret [] else store_op [] (op_of_atom DW_OP_call_frame_cfa)) = Done pre)
    as -> by (by destruct cfa).
  assert (Hpre : Z.of_nat (length pre + length ops) < DWARF_OPS_MAX)
    by (subst pre; destruct cfa; simpl; lia).
  run. rewrite (ops_loop_decodes _ _ 0 ops) by (done || lia). run.
  cbn [length]. change (0 <? Z.of_nat 0) with false. rewrite length_app.
  destruct (Z.leb_spec DWARF_OPS_MAX (Z.of_nat (length pre + length ops))); [lia|]. cbn [orb].
  case_decide; [|by rewrite app_nil_r]. rewrite store_op_ok by (rewrite length_app; lia).
  run. by rewrite <- app_assoc, Nat.sub_0_r.
Qed.

(** [DW_OP_breg7 +8; DW_OP_lit15; DW_OP_and] in a small section. *)
Lemma expression_decodes_witness :
  gu_cfi_init_ops_from_block [0; 0x77; 8; 0x3f; 0x1a; 0] (mk_block 4 (WPtr 1))
    reg_val_expression false =
  Done (Some [op_of_atom DW_OP_call_frame_cfa; mk_op 0x77 8 0 0; mk_op 0x3f 0 0 2;
              mk_op DW_OP_and 0 0 3; mk_op DW_OP_stack_value 0 0 4]).
Proof.
  apply (expression_decodes _ 1 4 [0x77; 8; 0x3f; 0x1a]
    [mk_op 0x77 8 0 0; mk_op 0x3f 0 0 2; mk_op DW_OP_and 0 0 3] reg_val_expression false);
    [lia|done|lia|done|simpl; lia| |simpl; unfold DWARF_OPS_MAX; lia].
  apply (expr_cons 0 0x77 [ArgEnc DW_EH_PE_sleb128] [8] [8] _ [0x3f; 0x1a]); [done| |].
  { apply (args_cons _ _ [8] []); [|constructor]. intros rest.
    by apply (decode_sleb128_spec [8] rest); [|simpl; lia]. }
  apply (expr_cons 2 0x3f [] [] [] _ [0x1a]); [done|constructor|].
  apply (expr_cons 3 DW_OP_and [] [] [] _ []); [done|constructor|constructor].
Defined.

(** Whatever the section bytes and the register rule, building the
    operations of a register never reads outside the section nor stores past
    the 256 entries of [static_ops]; the result has at most 256 operations with
    64-bit operands, and the only possible fault is an over-long shift. *)
Theorem get_regs_ops_safe d_buf t c :
  bytes_ok d_buf ->
  match gu_cfi_get_regs_ops d_buf t c with
  | Done (Some ops) => Z.of_nat (length ops) <= DWARF_OPS_MAX /\ Forall is_op ops
  | Done None => True
  | Undef u => u = BadShift
  end.
Proof. apply get_regs_ops_ok. Qed.

Lemma get_regs_ops_safe_witness :
  match gu_cfi_get_regs_ops [3; 0x50; 0x50; 0x23] REG_TYPE_RBP
    (ctx_set_reg zero_calc_ctx REG_TYPE_RBP (freg reg_expression 0)) with
  | Done (Some ops) => Z.of_nat (length ops) <= DWARF_OPS_MAX /\ Forall is_op ops
  | Done None => True
  | Undef u => u = BadShift
  end.
Proof. apply (get_regs_ops_safe [3; 0x50; 0x50; 0x23]). repeat constructor; simpl; lia. Defined.
