(* ===== verification/DwarfEval.v ===== *)
(** * DWARF expression evaluation: [src/gu_unwinder.c]

    The stack machine [gu_dwarf_ops_eval], its fast paths and [gen_reg], which
    computes a caller's register from the operations of the decoded row.  The
    machine reads the register block and the captured stack bytes of the
    snapshot; a read outside the capture is remembered in thread-local
    variables that select the stop reason. *)

From S2P Require Import Prelude Types Arch CfiDecode CfiProgram CfiOps.

Definition DW_EVAL_STACK_SIZE : Z := 0x100.
Definition DW_EVAL_STEPS_MAX : nat := Z.to_nat 0x1000.

(** The thread-local [stack_read_out_of_range] variables. *)
Record oor : Type := mk_oor {
  stack_read_out_of_range : bool;
  oor_addr : Z;
  oor_start : Z;
  oor_end : Z;
  oor_raw_sp : Z;
}.
Definition no_oor : oor := mk_oor false 0 0 0 0.

(** [gu_last_stack_read_out_of_range] *)
Definition gu_last_stack_read_out_of_range (o : oor) : option (Z * Z * Z * Z) :=
  if negb (stack_read_out_of_range o) then None
  else Some (oor_addr o, oor_start o, oor_end o, oor_raw_sp o).

(** ** Evaluation stack, top first *)
Definition dw_push (stack : list Z) (val : Z) : option (list Z) :=
  if DW_EVAL_STACK_SIZE <=? Z.of_nat (length stack) then None else Some (val :: stack).

Definition dw_pop (stack : list Z) : option (Z * list Z) :=
  match stack with [] => None | val :: stack => Some (val, stack) end.

(** ** Stack reads *)
Section snapshot.
Context `{Arch}.
(** [getpagesize()] *)
Variable page_size : Z.

(** [read_addr]; [None] is a [false] return. *)
Definition read_addr (stack : option (list Z)) (stack_start stack_end raw_sp addr : Z) (o : oor)
  : outcome (option Z * oor) :=
  if (addr <? stack_start) || (stack_end <=? addr) || (addr +w 8 <? addr)
     || (stack_end -w addr <? 8)
  then mret (None, mk_oor true addr stack_start stack_end raw_sp)
  else
    bytes ← deref stack;
    '(val, _) ← of_opt (read_le 8 (drop (Z.to_nat (addr -w stack_start)) bytes));
    mret (Some val, o).

(** The bounds every caller computes from [raw_sp]. *)
Definition page_start (raw_sp : Z) : Z := raw_sp -w (raw_sp mod page_size).

Definition read_addr_from_info (info : gu_stack_info) (raw_sp addr : Z) (o : oor)
  : outcome (option Z * oor) :=
  let stack_start := page_start raw_sp in
  let stack_end := stack_start +w stack_size info in
  read_addr (stack_data info) stack_start stack_end raw_sp addr o.

(** ** Fast paths *)
Definition fast_eval_reg_or_breg (op : Dwarf_Op) (info : gu_stack_info) : outcome (option Z) :=
  if between DW_OP_reg0 (DW_OP_reg0 + 31) (atom op) then get_regs info (atom op - DW_OP_reg0) else
  if atom op =? DW_OP_regx then get_regs info (s32 (number op)) else
  if between DW_OP_breg0 (DW_OP_breg0 + 31) (atom op) then
    base ← get_regs info (atom op - DW_OP_breg0);
    mret (option_map (fun b => b +w number op) base) else
  if atom op =? DW_OP_bregx then
    base ← get_regs info (s32 (number op));
    mret (option_map (fun b => b +w number2 op) base) else
  mret None.

(** ** The machine *)

(** [compare] of [bsearch]'s callback, and glibc's binary search. *)
Definition compare (offset : Z) (op : Dwarf_Op) : comparison := Z.compare offset (op_offset op).

Fixpoint bsearch_loop (fuel : nat) (key : Z) (base : list Dwarf_Op) (l u : nat)
  : outcome (option nat) :=
  match fuel with
  | O => Undef OutOfFuel
  | S fuel =>
    if (u <=? l)%nat then mret None else
    let idx := ((l + u) / 2)%nat in
    p ← of_opt (base !! idx);
    match compare key p with
    | Lt => bsearch_loop fuel key base l idx
    | Gt => bsearch_loop fuel key base (S idx) u
    | Eq => mret (Some idx)
    end
  end.
Definition bsearch (key : Z) (base : list Dwarf_Op) : outcome (option nat) :=
  bsearch_loop (S (length base)) key base 0 (length base).

(** The variables of the loop that outlive an iteration. *)
Record eval_state : Type := mk_eval {
  dw_stack : list Z;
  is_location : bool;
  ev_oor : oor;
}.

(** How an iteration ends: [goto failed], the next operation, or a jump. *)
Inductive eval_flow : Type :=
  | EFail (o : oor)
  | ENext (s : eval_state)
  | EJump (target : nat) (s : eval_state).

Definition with_stack (s : eval_state) (st : list Z) : eval_state :=
  mk_eval st (is_location s) (ev_oor s).

(** Push and go on, or fail. *)
Definition push_next (s : eval_state) (val : Z) : eval_flow :=
  match dw_push (dw_stack s) val with
  | Some st => ENext (with_stack s st)
  | None => EFail (ev_oor s)
  end.

Definition push_reg (s : eval_state) (r : outcome (option Z)) (f : Z -> Z) : outcome eval_flow :=
  v ← r;
  mret (match v with None => EFail (ev_oor s) | Some v => push_next s (f v) end).

(** Pop one operand and push the result of [f]; [f] may fail the evaluation. *)
Definition unop (s : eval_state) (f : Z -> outcome (option Z)) : outcome eval_flow :=
  match dw_pop (dw_stack s) with
  | None => mret (EFail (ev_oor s))
  | Some (val1, st) =>
    r ← f val1;
    mret (match r with None => EFail (ev_oor s) | Some v => push_next (with_stack s st) v end)
  end.

(** Pop [val2] then [val1] and push the result of [f]. *)
Definition binop (s : eval_state) (f : Z -> Z -> outcome (option Z)) : outcome eval_flow :=
  match dw_pop (dw_stack s) with
  | None => mret (EFail (ev_oor s))
  | Some (val2, st) => unop (with_stack s st) (fun val1 => f val1 val2)
  end.

Definition pure2 (f : Z -> Z -> Z) : Z -> Z -> outcome (option Z) := fun a b => mret (Some (f a b)).
Definition of_bool (b : bool) : Z := if b then 1 else 0.

(** The arithmetic, logical and comparison operations on two operands. *)
Definition binary_op (a : Z) : option (Z -> Z -> outcome (option Z)) :=
  if a =? DW_OP_and then Some (pure2 Z.land) else
  if a =? DW_OP_div then Some (fun val1 val2 =>
    if val2 =? 0 then mret None else
    if (s64 val1 =? INT64_MIN) && (s64 val2 =? -1) then mret None else
    mret (Some (u64 (Z.quot (s64 val1) (s64 val2))))) else
  if a =? DW_OP_mod then Some (fun val1 val2 =>
    if val2 =? 0 then mret None else mret (Some (val1 mod val2))) else
  if a =? DW_OP_minus then Some (pure2 sub64) else
  if a =? DW_OP_xor then Some (pure2 Z.lxor) else
  if a =? DW_OP_shr then Some (fun val1 val2 =>
    if 64 <=? val2 then mret None else mret (Some (Z.shiftr val1 val2))) else
  if a =? DW_OP_shl then Some (fun val1 val2 =>
    if 64 <=? val2 then mret None else mret (Some (shl64 val1 val2))) else
  if a =? DW_OP_plus then Some (pure2 add64) else
  if a =? DW_OP_or then Some (pure2 Z.lor) else
  if a =? DW_OP_mul then Some (pure2 mul64) else
  if a =? DW_OP_shra then Some (fun val1 val2 =>
    if 64 <=? val2 then mret None else mret (Some (u64 (Z.shiftr (s64 val1) (s64 val2))))) else
  if a =? DW_OP_le then Some (pure2 (fun a b => of_bool (s64 a <=? s64 b))) else
  if a =? DW_OP_ge then Some (pure2 (fun a b => of_bool (s64 b <=? s64 a))) else
  if a =? DW_OP_eq then Some (pure2 (fun a b => of_bool (s64 a =? s64 b))) else
  if a =? DW_OP_lt then Some (pure2 (fun a b => of_bool (s64 a <? s64 b))) else
  if a =? DW_OP_gt then Some (pure2 (fun a b => of_bool (s64 b <? s64 a))) else
  if a =? DW_OP_ne then Some (pure2 (fun a b => of_bool (negb (s64 a =? s64 b)))) else
  None.

(** The operations on one operand; negating [INT64_MIN] overflows. *)
Definition unary_op (op : Dwarf_Op) : option (Z -> outcome (option Z)) :=
  let a := atom op in
  if a =? DW_OP_abs then Some (fun val1 =>
    if s64 val1 =? INT64_MIN then Undef SignedOverflow else mret (Some (u64 (Z.abs (s64 val1))))) else
  if a =? DW_OP_neg then Some (fun val1 =>
    if s64 val1 =? INT64_MIN then Undef SignedOverflow else mret (Some (u64 (- s64 val1)))) else
  if a =? DW_OP_not then Some (fun val1 => mret (Some (not64 val1))) else
  if a =? DW_OP_plus_uconst then Some (fun val1 => mret (Some (val1 +w number op))) else
  None.

(** Stack shuffles: pop the operands, push the results one by one. *)
Fixpoint push_all (st : list Z) (vals : list Z) : option (list Z) :=
  match vals with
  | [] => Some st
  | v :: vals => match dw_push st v with Some st => push_all st vals | None => None end
  end.

Definition shuffle_op (op : Dwarf_Op) (st : list Z) : option (option (list Z)) :=
  let a := atom op in
  if a =? DW_OP_dup then
    Some (match st with val1 :: st => push_all st [val1; val1] | _ => None end) else
  if a =? DW_OP_drop then Some (match st with _ :: st => Some st | _ => None end) else
  if a =? DW_OP_pick then
    Some (if Z.of_nat (length st) <=? number op then None else
          match st !! Z.to_nat (number op) with Some v => dw_push st v | None => None end) else
  if a =? DW_OP_over then
    Some (match st with val1 :: val2 :: st => push_all st [val2; val1; val2] | _ => None end) else
  if a =? DW_OP_swap then
    Some (match st with val1 :: val2 :: st => push_all st [val1; val2] | _ => None end) else
  if a =? DW_OP_rot then
    Some (match st with
          | val1 :: val2 :: val3 :: st => push_all st [val1; val3; val2] | _ => None end) else
  None.

Definition const_ops : list Z :=
  [DW_OP_const1u; DW_OP_const1s; DW_OP_const2u; DW_OP_const2s; DW_OP_const4u; DW_OP_const4s;
   DW_OP_const8u; DW_OP_const8s; DW_OP_constu; DW_OP_consts].

Variable info : gu_stack_info.
Variables bias raw_sp : Z.

(** [DW_OP_deref] and [DW_OP_deref_size] *)
Definition exec_deref (op : Dwarf_Op) (s : eval_state) : outcome eval_flow :=
  let sized := atom op =? DW_OP_deref_size in
  if sized && (8 <? number op) then mret (EFail (ev_oor s)) else
  match dw_pop (dw_stack s) with
  | None => mret (EFail (ev_oor s))
  | Some (val1, st) =>
    '(r, o) ← read_addr_from_info info raw_sp val1 (ev_oor s);
    let s := mk_eval st (is_location s) o in
    mret (match r with
          | None => EFail o
          | Some v =>
            push_next s (if sized && (number op <? 8)
                         then Z.land v (sub64 (shl64 1 (number op * 8)) 1) else v)
          end)
  end.

(** The jump of [DW_OP_skip] and of a taken [DW_OP_bra]. *)
Definition exec_jump (ops : list Dwarf_Op) (op : Dwarf_Op) (s : eval_state) : outcome eval_flow :=
  let offset := op_offset op +w 1 +w 2 +w s16 (number op) in
  found ← bsearch offset ops;
  mret (match found with None => EFail (ev_oor s) | Some i => EJump i s end).

(** One iteration of the loop; [cfa_eval] evaluates the CFA operations. *)
Definition eval_step (cfa_eval : oor -> outcome (option Z * oor)) (ops : list Dwarf_Op)
    (op : Dwarf_Op) (s : eval_state) : outcome eval_flow :=
  let a := atom op in
  if between DW_OP_lit0 (DW_OP_lit0 + 31) a then mret (push_next s (a - DW_OP_lit0)) else
  if a =? DW_OP_addr then mret (push_next s (number op +w bias)) else
  if one_of a const_ops then mret (push_next s (number op)) else
  if between DW_OP_reg0 (DW_OP_reg0 + 31) a then
    push_reg s (get_regs info (a - DW_OP_reg0)) (fun v => v) else
  if a =? DW_OP_regx then push_reg s (get_regs info (s32 (number op))) (fun v => v) else
  if between DW_OP_breg0 (DW_OP_breg0 + 31) a then
    push_reg s (get_regs info (a - DW_OP_breg0)) (fun v => v +w number op) else
  if a =? DW_OP_bregx then
    push_reg s (get_regs info (s32 (number op))) (fun v => v +w number2 op) else
  match shuffle_op op (dw_stack s) with
  | Some None => mret (EFail (ev_oor s))
  | Some (Some st) => mret (ENext (with_stack s st))
  | None =>
  match unary_op op with
  | Some f => unop s f
  | None =>
  match binary_op a with
  | Some f => binop s f
  | None =>
  if (a =? DW_OP_deref) || (a =? DW_OP_deref_size) then exec_deref op s else
  if a =? DW_OP_bra then
    match dw_pop (dw_stack s) with
    | None => mret (EFail (ev_oor s))
    | Some (val1, st) =>
      if val1 =? 0 then mret (ENext (with_stack s st)) else exec_jump ops op (with_stack s st)
    end else
  if a =? DW_OP_skip then exec_jump ops op s else
  if a =? DW_OP_nop then mret (ENext s) else
  if a =? DW_OP_call_frame_cfa then
    '(r, o) ← cfa_eval (ev_oor s);
    let s := mk_eval (dw_stack s) (is_location s) o in
    mret (match r with
          | None => EFail o
          | Some cfa =>
            match dw_push (dw_stack s) cfa with
            | None => EFail o
            | Some st => ENext (mk_eval st true o)
            end
          end) else
  if a =? DW_OP_stack_value then mret (ENext (mk_eval (dw_stack s) false (ev_oor s))) else
  mret (EFail (ev_oor s))
  end end end.

(** The [for] loop from operation [i], [steps] iterations being allowed: the
    state at its end, or the out-of-range record of a failure. *)
Fixpoint eval_loop (cfa_eval : oor -> outcome (option Z * oor)) (ops : list Dwarf_Op)
    (steps : nat) (i : nat) (s : eval_state) : outcome (eval_state + oor) :=
  match ops !! i with
  | None => mret (inl s)
  | Some op =>
    match steps with
    | O => mret (inr (ev_oor s))
    | S steps =>
      f ← eval_step cfa_eval ops op s;
      match f with
      | EFail o => mret (inr o)
      | ENext s => eval_loop cfa_eval ops steps (S i) s
      | EJump j s => eval_loop cfa_eval ops steps j s
      end
    end
  end.

(** [gu_dwarf_ops_eval].  [DW_OP_call_frame_cfa] evaluates the CFA operations
    by a recursive call; [depth] bounds the recursion. *)
Fixpoint gu_dwarf_ops_eval (cfa : list Dwarf_Op) (depth : nat) (ops : list Dwarf_Op) (o : oor)
  : outcome (option Z * oor) :=
  match depth with
  | O => Undef OutOfFuel
  | S depth =>
    match ops with
    | [] => mret (None, o)
    | _ =>
      r ← eval_loop (gu_dwarf_ops_eval cfa depth cfa) ops DW_EVAL_STEPS_MAX 0 (mk_eval [] false o);
      match r with
      | inr o => mret (None, o)
      | inl s =>
        match dw_pop (dw_stack s) with
        | None => mret (None, ev_oor s)
        | Some (result, _) =>
          if is_location s then read_addr_from_info info raw_sp result (ev_oor s)
          else mret (Some result, ev_oor s)
        end
      end
    end
  end.

(** [fast_eval_cfa] and [fast_dwarf_ops_eval]; [depth] bounds the evaluations
    they start. *)
Definition fast_eval_cfa (cfa : list Dwarf_Op) (depth : nat) (o : oor) : outcome (option Z * oor) :=
  match cfa with
  | [] => mret (None, o)
  | [op] =>
    r ← fast_eval_reg_or_breg op info;
    match r with
    | Some v => mret (Some v, o)
    | None => gu_dwarf_ops_eval cfa depth cfa o
    end
  | _ => gu_dwarf_ops_eval cfa depth cfa o
  end.

Definition fast_dwarf_ops_eval (cfa : list Dwarf_Op) (depth : nat) (ops : list Dwarf_Op) (o : oor)
  : outcome (option Z * oor) :=
  match ops with
  | [] => mret (None, o)
  | [op] => r ← fast_eval_reg_or_breg op info; mret (r, o)
  | op0 :: op1 :: more =>
    if negb (atom op0 =? DW_OP_call_frame_cfa) then mret (None, o) else
    '(c, o) ← fast_eval_cfa cfa depth o;
    match c with
    | None => mret (None, o)
    | Some c =>
      match more with
      | [] =>
        if atom op1 =? DW_OP_stack_value then mret (Some c, o) else
        if atom op1 =? DW_OP_plus_uconst then
          read_addr_from_info info raw_sp (c +w number op1) o else
        mret (None, o)
      | [op2] =>
        if (atom op1 =? DW_OP_plus_uconst) && (atom op2 =? DW_OP_stack_value)
        then mret (Some (c +w number op1), o) else mret (None, o)
      | _ => mret (None, o)
      end
    end
  end.

(** [gen_reg]: the reason, the value stored in [*val] on success, and the
    out-of-range record left behind.  The evaluation may nest once (the CFA)
    below the outer call, so [depth] is a parameter of the model only. *)
Definition gen_reg (depth : nat) (scratch : ops_scratch) (regno : Z) (o : oor)
  : outcome (gu_unwind_reason * option Z * oor) :=
  match gu_cfi_get_ops scratch (trans_reg_type regno) false with
  | None => mret (GU_UNWIND_REASON_CFI_FRAME_CFA_FAILED, None, o)
  | Some reg_ops =>
    '(r, o) ← fast_dwarf_ops_eval (cfa_ops scratch) depth reg_ops no_oor;
    '(r, o) ← (match r with
               | Some v => mret (Some v, o)
               | None => gu_dwarf_ops_eval (cfa_ops scratch) (S depth) reg_ops o
               end);
    match r with
    | Some v => mret (GU_UNWIND_REASON_OK, Some v, o)
    | None =>
      mret (if stack_read_out_of_range o then GU_UNWIND_REASON_STACK_READ_OUT_OF_RANGE
            else GU_UNWIND_REASON_CFI_FRAME_CFA_CALC_FAILED, None, o)
    end
  end.
End snapshot.

(** ** The captured window

    What a stack read means: the 64-bit word at [addr], when its eight bytes
    lie in the capture that starts at the page of [raw_sp]. *)
Definition captured (page_size : Z) (info : gu_stack_info) (raw_sp addr : Z) : option Z :=
  let start := raw_sp - raw_sp mod page_size in
  if decide (start <= addr /\ addr + 8 <= start + stack_size info /\
             start + stack_size info < 2 ^ 64)
  then bytes ← stack_data info;
       fst <$> read_le 8 (drop (Z.to_nat (addr - start)) bytes)
  else None.

(** A snapshot with a complete register block and as many stack bytes as it
    announces. *)
Record snapshot_ok `{Arch} (info : gu_stack_info) : Prop := {
  snap_regs : regs_ok info;
  snap_size : is_u64 (stack_size info);
  snap_stack : exists bytes, stack_data info = Some bytes /\ bytes_ok bytes /\
    Z.of_nat (length bytes) = stack_size info;
}.

Lemma page_start_exact page_size raw_sp :
  0 < page_size -> is_u64 raw_sp -> page_start page_size raw_sp = raw_sp - raw_sp mod page_size.
Proof.
  intros Hp Hs. unfold page_start. pose proof (Z.mod_pos_bound raw_sp page_size Hp).
  pose proof (Z.mod_le raw_sp page_size). apply sub64_small; [done|]. unfold in_width in Hs. lia.
Qed.

Lemma read_addr_captured `{Arch} page_size info raw_sp addr o :
  snapshot_ok info -> 0 < page_size -> is_u64 raw_sp -> is_u64 addr ->
  read_addr_from_info page_size info raw_sp addr o =
  Done (match captured page_size info raw_sp addr with
        | Some v => (Some v, o)
        | None => (None, mk_oor true addr (page_start page_size raw_sp)
                           (page_start page_size raw_sp +w stack_size info) raw_sp)
        end).
Proof.
  intros [_ Hsz (bytes & Hb & _ & Hlen)] Hp Hsp Ha. unfold read_addr_from_info, read_addr, captured.
  rewrite page_start_exact by done. set (start := raw_sp - raw_sp mod page_size).
  assert (Hst : 0 <= start < 2 ^ 64).
  { pose proof (Z.mod_pos_bound raw_sp page_size Hp). pose proof (Z.mod_le raw_sp page_size).
    unfold in_width in Hsp. subst start. lia. }
  clearbody start. unfold in_width in *. rewrite Hb. cbn [deref mbind option_bind].
  case_decide as Hin.
  - destruct Hin as (H1 & H2 & H3). rewrite (add64_small start) by lia.
    rewrite (add64_small addr) by lia. rewrite !sub64_small by (unfold in_width; lia).
    destruct (Z.ltb_spec addr start); [lia|].
    destruct (Z.leb_spec (start + stack_size info) addr); [lia|].
    destruct (Z.ltb_spec (addr + 8) addr); [lia|].
    destruct (Z.ltb_spec (start + stack_size info - addr) 8); [lia|]. cbn [orb].
    run. unfold read_le. rewrite length_drop, decide_True by lia. reflexivity.
  - destruct (Z.ltb_spec addr start); [done|].
    destruct (Z.leb_spec (start +w stack_size info) addr); [done|].
    destruct (Z.ltb_spec (addr +w 8) addr) as [|Hno]; [done|].
    destruct (Z.ltb_spec ((start +w stack_size info) -w addr) 8); [done|].
    exfalso. apply Hin.
    assert (start + stack_size info < 2 ^ 64) as Hfit.
    { destruct (Z_lt_le_dec (start + stack_size info) (2 ^ 64)); [done|].
      assert (start +w stack_size info = start + stack_size info - 2 ^ 64) as E.
      { unfold add64, wrap. symmetry. apply Z.mod_unique with 1; lia. }
      lia. }
    rewrite (add64_small start) in * by lia. rewrite sub64_small in * by (unfold in_width; lia). lia.
Qed.

Lemma captured_u64 `{Arch} page_size info raw_sp addr v :
  snapshot_ok info -> captured page_size info raw_sp addr = Some v -> is_u64 v.
Proof.
  intros [_ _ (bytes & Hb & Hok & _)]. unfold captured. rewrite Hb. case_decide; [|done].
  cbn [mbind option_bind]. destruct (read_le _ _) as [[x r]|] eqn:E; [|done].
  intros [= <-]. apply read_le_Some in E as (p & Hp & Hl & ->).
  pose proof (le_value_range p) as Hr. rewrite Hl in Hr. unfold in_width.
  change (2 ^ 64) with (256 ^ Z.of_nat 8). apply Hr.
  assert (bytes_ok (p ++ r)) as Hall by (rewrite <- Hp; by apply Forall_drop).
  apply Forall_app in Hall as [Hall _]. exact Hall.
Qed.

(** ** Safety of the machine *)
Section safety.
Context `{Arch}.
Variables (page_size : Z) (info : gu_stack_info) (bias raw_sp : Z).
Hypothesis Hsnap : snapshot_ok info.
Hypothesis Hpage : 0 < page_size.
Hypothesis Hsp : is_u64 raw_sp.

Definition stack_ok (st : list Z) : Prop :=
  Forall is_u64 st /\ Z.of_nat (length st) <= DW_EVAL_STACK_SIZE.

Definition flow_ok (o : oor) (m : outcome eval_flow) : Prop :=
  match m with
  | Done (EFail _) => True
  | Done (ENext s) | Done (EJump _ s) => stack_ok (dw_stack s) /\ ev_oor s = o
  | Undef u => u = SignedOverflow
  end.

(** An evaluation yields a 64-bit value and then leaves the out-of-range record
    alone, or fails; negating the least integer is its only fault. *)
Definition result_ok (o : oor) (m : outcome (option Z * oor)) : Prop :=
  match m with
  | Done (Some v, o') => is_u64 v /\ o' = o
  | Done (None, _) => True
  | Undef u => u = SignedOverflow
  end.

Lemma push_ok st v st' : stack_ok st -> is_u64 v -> dw_push st v = Some st' -> stack_ok st'.
Proof.
  intros [Hf Hn] Hv. unfold dw_push.
  destruct (Z.leb_spec DW_EVAL_STACK_SIZE (Z.of_nat (length st))); [done|].
  intros [= <-]. split; [by constructor|]. cbn [length]. lia.
Qed.

Lemma push_all_ok vals st st' :
  stack_ok st -> Forall is_u64 vals -> push_all st vals = Some st' -> stack_ok st'.
Proof.
  revert st. induction vals as [|v vals IH]; intros st Hs Hv; cbn [push_all]; [congruence|].
  inversion Hv; subst. destruct (dw_push st v) eqn:E; [|done]. apply IH; [|done].
  by eapply push_ok.
Qed.

Lemma push_next_ok s v : stack_ok (dw_stack s) -> is_u64 v -> flow_ok (ev_oor s) (Done (push_next s v)).
Proof.
  intros Hs Hv. unfold push_next. destruct (dw_push _ _) eqn:E; [|done].
  split; [by eapply push_ok|done].
Qed.

Lemma stack_ok_tail v st : stack_ok (v :: st) -> is_u64 v /\ stack_ok st.
Proof. intros [Hf Hn]. inversion Hf; subst. split; [done|]. split; [done|]. cbn in Hn. lia. Qed.

(** What a computed operand must satisfy. *)
Definition value_ok (m : outcome (option Z)) : Prop :=
  match m with
  | Done (Some v) => is_u64 v
  | Done None => True
  | Undef u => u = SignedOverflow
  end.

Lemma push_reg_ok s regno f :
  stack_ok (dw_stack s) -> (forall v, is_u64 v -> is_u64 (f v)) ->
  flow_ok (ev_oor s) (push_reg s (get_regs info regno) f).
Proof.
  intros Hs Hf. unfold push_reg.
  destruct (get_regs_ok info regno (snap_regs _ Hsnap)) as (r & -> & Hr & _). run.
  destruct r as [v|]; [|done]. apply push_next_ok; [done|]. apply Hf. by apply Hr.
Qed.

Lemma unop_ok s f :
  stack_ok (dw_stack s) -> (forall v, is_u64 v -> value_ok (f v)) -> flow_ok (ev_oor s) (unop s f).
Proof.
  intros Hs Hf. unfold unop, dw_pop. destruct (dw_stack s) as [|v st] eqn:E; [done|].
  destruct (stack_ok_tail _ _ Hs) as [Hv Hst]. specialize (Hf v Hv).
  destruct (f v) as [[r|]|u]; run; [|done|done].
  by apply (push_next_ok (with_stack s st)).
Qed.

Lemma binop_ok s f :
  stack_ok (dw_stack s) -> (forall a b, is_u64 a -> is_u64 b -> value_ok (f a b)) ->
  flow_ok (ev_oor s) (binop s f).
Proof.
  intros Hs Hf. unfold binop, dw_pop. destruct (dw_stack s) as [|v st] eqn:E; [done|].
  destruct (stack_ok_tail _ _ Hs) as [Hv Hst].
  apply (unop_ok (with_stack s st)); [done|]. auto.
Qed.

Lemma land_u64 a b : is_u64 a -> is_u64 b -> is_u64 (Z.land a b).
Proof.
  unfold in_width. intros Ha Hb. assert (0 <= Z.land a b) by (apply Z.land_nonneg; lia).
  split; [done|]. destruct (decide (Z.land a b = 0)) as [->|]; [lia|].
  apply Z.log2_lt_pow2; [lia|]. pose proof (Z.log2_land a b).
  assert (Z.log2 a < 64); [|lia].
  destruct (decide (a = 0)) as [->|]; [simpl; lia|]. apply Z.log2_lt_pow2; lia.
Qed.

Lemma lxor_u64 a b : is_u64 a -> is_u64 b -> is_u64 (Z.lxor a b).
Proof.
  intros Ha Hb. assert (Z.lxor a b = u64 (Z.lxor a b)) as ->; [|auto with gu].
  apply Z.bits_inj'. intros i Hi. unfold wrap. destruct (Z_lt_le_dec i 64).
  - by rewrite Z.mod_pow2_bits_low by lia.
  - rewrite Z.mod_pow2_bits_high, Z.lxor_spec by lia.
    by rewrite (testbit_small a 64), (testbit_small b 64).
Qed.

Lemma shiftr_u64 a n : is_u64 a -> 0 <= n -> is_u64 (Z.shiftr a n).
Proof.
  unfold in_width. intros Ha Hn. rewrite Z.shiftr_div_pow2 by done.
  split; [apply Z.div_pos; lia|]. assert (a / 2 ^ n <= a); [|lia].
  apply Z.div_le_upper_bound; [lia|]. nia.
Qed.

Lemma mod_u64 a b : is_u64 a -> is_u64 b -> b <> 0 -> is_u64 (a mod b).
Proof. unfold in_width. intros. pose proof (Z.mod_pos_bound a b). lia. Qed.

Lemma of_bool_u64 b : is_u64 (of_bool b).
Proof. by destruct b. Qed.

#[local] Hint Resolve land_u64 lxor_u64 shiftr_u64 mod_u64 of_bool_u64 lor_range : gu.

Lemma value_ok_if (b : bool) (m1 m2 : outcome (option Z)) :
  (b = true -> value_ok m1) -> (b = false -> value_ok m2) -> value_ok (if b then m1 else m2).
Proof. destruct b; auto. Qed.

(** Discharge [value_ok] of an operation's result on every branch. *)
Ltac operation_ok :=
  repeat first [apply value_ok_if; intros ?|progress unfold pure2];
  cbn [value_ok mret outcome_ret]; auto with gu.

Lemma binary_op_ok a f x y :
  binary_op a = Some f -> is_u64 x -> is_u64 y -> value_ok (f x y).
Proof.
  intros Hf Hx Hy. unfold binary_op in Hf. assert (0 <= y) by (unfold in_width in Hy; lia).
  repeat (case_match; [injection Hf as <-; solve [operation_ok;
    first [apply mod_u64; [done..|]; by apply Z.eqb_neq|apply lor_range; [lia|done|done]]
    |operation_ok]|]).
  done.
Qed.

Lemma unary_op_ok op f x : unary_op op = Some f -> is_u64 x -> value_ok (f x).
Proof.
  intros Hf Hx. unfold unary_op in Hf.
  repeat (case_match; [injection Hf as <-; solve [operation_ok]|]). done.
Qed.

Lemma shuffle_op_ok op st r : shuffle_op op st = Some (Some r) -> stack_ok st -> stack_ok r.
Proof.
  unfold shuffle_op. intros Hr Hs.
  destruct (atom op =? DW_OP_dup).
  { destruct st as [|v1 st]; [done|]. apply stack_ok_tail in Hs as [? ?].
    apply (inj Some) in Hr. eapply push_all_ok; [eassumption| |exact Hr]; repeat (apply Forall_cons; split); eauto. }
  destruct (atom op =? DW_OP_drop).
  { destruct st as [|v1 st]; [done|]. injection Hr as <-. by apply stack_ok_tail in Hs as [? ?]. }
  destruct (atom op =? DW_OP_pick).
  { destruct (_ <=? _); [done|]. destruct (st !! _) as [v|] eqn:E; [|done]. apply (inj Some) in Hr.
    eapply push_ok; [exact Hs| |exact Hr]. destruct Hs as [Hf _]. by eapply Forall_lookup_1 in Hf. }
  destruct (atom op =? DW_OP_over); [|destruct (atom op =? DW_OP_swap)].
  1-2: destruct st as [|v1 [|v2 st]]; [done..|]; apply stack_ok_tail in Hs as [? Hs];
    apply stack_ok_tail in Hs as [? ?]; apply (inj Some) in Hr;
    (eapply push_all_ok; [eassumption| |exact Hr]; repeat (apply Forall_cons; split); eauto).
  destruct (atom op =? DW_OP_rot); [|done].
  destruct st as [|v1 [|v2 [|v3 st]]]; [done..|]. apply stack_ok_tail in Hs as [? Hs].
  apply stack_ok_tail in Hs as [? Hs]. apply stack_ok_tail in Hs as [? ?]. apply (inj Some) in Hr.
  eapply push_all_ok; [eassumption| |exact Hr]; repeat (apply Forall_cons; split); eauto.
Qed.

Lemma exec_deref_ok op s :
  stack_ok (dw_stack s) -> flow_ok (ev_oor s) (exec_deref page_size info raw_sp op s).
Proof.
  intros Hs. unfold exec_deref. set (sized := _ =? _).
  destruct (sized && (8 <? number op)); [done|]. unfold dw_pop.
  destruct (dw_stack s) as [|v st]; [done|]. destruct (stack_ok_tail _ _ Hs) as [Hv Hst].
  rewrite read_addr_captured by done. run.
  destruct (captured _ _ _ _) as [w|] eqn:Ew; [|done].
  apply (push_next_ok (mk_eval st (is_location s) (ev_oor s))); [done|].
  apply captured_u64 in Ew; [|done]. case_match; [|done]. auto with gu.
Qed.

(** ** Binary search *)
Lemma bsearch_loop_ok fuel key base l u :
  (u - l < fuel)%nat -> (u <= length base)%nat ->
  exists r, bsearch_loop fuel key base l u = Done r /\ (forall i, r = Some i -> (i < length base)%nat).
Proof.
  revert l u. induction fuel as [|fuel IH]; intros l u Hf Hu; [lia|]. cbn [bsearch_loop].
  destruct (Nat.leb_spec u l); [by exists None|].
  assert (l <= (l + u) / 2 < u)%nat as [Hl Hm].
  { split; [apply Nat.div_le_lower_bound; lia|apply Nat.div_lt_upper_bound; lia]. }
  set (idx := ((l + u) / 2)%nat) in *. clearbody idx.
  destruct (lookup_lt_is_Some_2 base idx) as [p ->]; [lia|]. run.
  destruct (compare key p); [|apply IH; lia..].
  exists (Some idx). split; [done|]. intros ? [= <-]. lia.
Qed.

Lemma bsearch_ok key base : exists r, bsearch key base = Done r.
Proof.
  destruct (bsearch_loop_ok (S (length base)) key base 0 (length base)) as (r & E & _); [lia..|].
  by exists r.
Qed.

Lemma exec_jump_ok ops op s :
  stack_ok (dw_stack s) -> flow_ok (ev_oor s) (exec_jump ops op s).
Proof.
  intros Hs. unfold exec_jump. destruct (bsearch_ok (op_offset op +w 1 +w 2 +w s16 (number op)) ops)
    as [r ->]. run. by destruct r.
Qed.

Lemma eval_step_ok cfa_eval ops op s :
  is_op op -> (forall o, result_ok o (cfa_eval o)) -> stack_ok (dw_stack s) ->
  flow_ok (ev_oor s) (eval_step page_size info bias raw_sp cfa_eval ops op s).
Proof.
  intros (Hn & Hn2 & _) Hc Hs. unfold eval_step.
  destruct (between DW_OP_lit0 _ _) eqn:Hlit.
  { apply push_next_ok; [done|]. unfold between, DW_OP_lit0 in *.
    apply andb_true_iff in Hlit as [?%Z.leb_le ?%Z.leb_le]. word. }
  destruct (atom op =? DW_OP_addr); [by apply push_next_ok; auto with gu|].
  destruct (one_of _ const_ops); [by apply push_next_ok|].
  destruct (between DW_OP_reg0 _ _); [by apply push_reg_ok|].
  destruct (atom op =? DW_OP_regx); [by apply push_reg_ok|].
  destruct (between DW_OP_breg0 _ _); [by apply push_reg_ok; auto with gu|].
  destruct (atom op =? DW_OP_bregx); [by apply push_reg_ok; auto with gu|].
  destruct (shuffle_op op (dw_stack s)) as [[st|]|] eqn:Esh; [|done|].
  { split; [by eapply shuffle_op_ok|done]. }
  destruct (unary_op op) as [f|] eqn:Eun; [apply unop_ok; eauto using unary_op_ok|].
  destruct (binary_op (atom op)) as [f|] eqn:Ebin; [apply binop_ok; eauto using binary_op_ok|].
  destruct (_ || _); [by apply exec_deref_ok|].
  destruct (atom op =? DW_OP_bra).
  { unfold dw_pop. destruct (dw_stack s) as [|v st]; [done|].
    destruct (stack_ok_tail _ _ Hs) as [_ Hst].
    destruct (v =? 0); [done|]. by apply (exec_jump_ok _ _ (with_stack s st)). }
  destruct (atom op =? DW_OP_skip); [by apply exec_jump_ok|].
  destruct (atom op =? DW_OP_nop); [done|].
  destruct (atom op =? DW_OP_call_frame_cfa).
  { specialize (Hc (ev_oor s)). destruct (cfa_eval (ev_oor s)) as [[[c|] o]|u]; run; [|done|done].
    destruct Hc as [Hc ->]. cbn [dw_stack].
    destruct (dw_push _ _) eqn:E; [|done]. split; [by eapply push_ok|done]. }
  by destruct (atom op =? DW_OP_stack_value).
Qed.

Lemma eval_loop_ok cfa_eval ops steps i s :
  Forall is_op ops -> (forall o, result_ok o (cfa_eval o)) -> stack_ok (dw_stack s) ->
  match eval_loop page_size info bias raw_sp cfa_eval ops steps i s with
  | Done (inl s') => stack_ok (dw_stack s') /\ ev_oor s' = ev_oor s
  | Done (inr _) => True
  | Undef u => u = SignedOverflow
  end.
Proof.
  intros Hops Hc. revert i s. induction steps as [|steps IH]; intros i s Hs; cbn [eval_loop].
  { by destruct (ops !! i). }
  destruct (ops !! i) as [op|] eqn:Eop; [|done].
  assert (Hop : is_op op) by (by eapply Forall_lookup_1 in Hops).
  pose proof (eval_step_ok cfa_eval ops op s Hop Hc Hs) as Hst.
  destruct (eval_step _ _ _ _ _ _ _ _) as [[o|s'|j s']|u]; run; [done| | |done];
    destruct Hst as [Hs' <-]; by apply IH.
Qed.

(** The operations of the CFA may not ask for the CFA. *)
Definition no_cfa_call (ops : list Dwarf_Op) : Prop :=
  Forall (fun op => atom op <> DW_OP_call_frame_cfa) ops.

Lemma ops_eval_S cfa depth ops o :
  Forall is_op ops -> (forall o, result_ok o (gu_dwarf_ops_eval page_size info bias raw_sp cfa depth cfa o)) ->
  result_ok o (gu_dwarf_ops_eval page_size info bias raw_sp cfa (S depth) ops o).
Proof.
  intros Hops Hc. cbn [gu_dwarf_ops_eval]. destruct ops as [|op ops']; [done|].
  pose proof (eval_loop_ok (gu_dwarf_ops_eval page_size info bias raw_sp cfa depth cfa)
    (op :: ops') DW_EVAL_STEPS_MAX 0 (mk_eval [] false o) Hops Hc) as Hl.
  destruct (eval_loop _ _ _ _ _ _ _ _ _) as [[s|o']|u]; run; [|done|by apply Hl].
  destruct Hl as [Hs Ho]; [done|]. cbn [ev_oor] in Ho. unfold dw_pop.
  destruct (dw_stack s) as [|v st] eqn:E; [done|].
  destruct (stack_ok_tail _ _ Hs) as [Hv _].
  destruct (is_location s); [|done].
  rewrite read_addr_captured by done. destruct (captured _ _ _ _) eqn:Ec; [|done].
  split; [by eapply captured_u64|done].
Qed.

(** Without a CFA call, the nested evaluation is never started. *)
Lemma eval_step_no_cfa ce ce' ops op s :
  atom op <> DW_OP_call_frame_cfa ->
  eval_step page_size info bias raw_sp ce ops op s = eval_step page_size info bias raw_sp ce' ops op s.
Proof.
  intros Hne. unfold eval_step. destruct (Z.eqb_spec (atom op) DW_OP_call_frame_cfa); [done|].
  done.
Qed.

Lemma eval_loop_no_cfa ce ce' ops steps i s :
  no_cfa_call ops ->
  eval_loop page_size info bias raw_sp ce ops steps i s =
  eval_loop page_size info bias raw_sp ce' ops steps i s.
Proof.
  intros Hn. revert i s. induction steps as [|steps IH]; intros i s; cbn [eval_loop]; [done|].
  destruct (ops !! i) as [op|] eqn:E; [|done].
  rewrite (eval_step_no_cfa ce ce') by (by eapply Forall_lookup_1 in Hn).
  destruct (eval_step _ _ _ _ _ _ _ _) as [[| |]|]; run; done.
Qed.

Lemma ops_eval_no_cfa cfa cfa' d d' ops o :
  no_cfa_call ops ->
  gu_dwarf_ops_eval page_size info bias raw_sp cfa (S d) ops o =
  gu_dwarf_ops_eval page_size info bias raw_sp cfa' (S d') ops o.
Proof.
  intros Hn. cbn [gu_dwarf_ops_eval]. destruct ops; [done|].
  by rewrite (eval_loop_no_cfa _ (gu_dwarf_ops_eval page_size info bias raw_sp cfa' d' cfa')).
Qed.

Lemma ops_eval_leaf_ok cfa d ops o :
  Forall is_op ops -> no_cfa_call ops ->
  result_ok o (gu_dwarf_ops_eval page_size info bias raw_sp cfa (S d) ops o).
Proof.
  intros Hops Hn. rewrite (ops_eval_no_cfa _ [] _ 1) by done. apply ops_eval_S; [done|]. done.
Qed.

Lemma ops_eval_ok cfa d ops o :
  Forall is_op cfa -> no_cfa_call cfa -> Forall is_op ops ->
  result_ok o (gu_dwarf_ops_eval page_size info bias raw_sp cfa (S (S d)) ops o).
Proof. intros Hcfa Hn Hops. apply ops_eval_S; [done|]. intros. by apply ops_eval_leaf_ok. Qed.
End safety.

(** ** The out-of-range record

    An evaluation uses the record it is started with only to leave it in place:
    what it returns, and the record a failed read leaves, do not depend on it. *)
Section record.
Context `{Arch}.
Variables (page_size : Z) (info : gu_stack_info) (bias raw_sp : Z).
Hypothesis Hsnap : snapshot_ok info.
Hypothesis Hpage : 0 < page_size.
Hypothesis Hsp : is_u64 raw_sp.

Definition relabel (o o' : oor) : oor := if stack_read_out_of_range o' then o' else o.
Definition relabel_res (o : oor) (m : outcome (option Z * oor)) : outcome (option Z * oor) :=
  '(r, o') ← m; mret (r, relabel o o').
Definition with_oor (s : eval_state) (o : oor) : eval_state :=
  mk_eval (dw_stack s) (is_location s) o.
Definition relabel_flow (o : oor) (m : outcome eval_flow) : outcome eval_flow :=
  f ← m;
  mret (match f with
        | EFail o' => EFail (relabel o o')
        | ENext s => ENext (with_oor s (relabel o (ev_oor s)))
        | EJump j s => EJump j (with_oor s (relabel o (ev_oor s)))
        end).

(** A state whose record is clear. *)
Abbreviation clear s := (ev_oor s = no_oor).

Lemma relabel_clear o o' : o' = no_oor -> relabel o o' = o.
Proof. by intros ->. Qed.

Lemma push_next_relabel s o v :
  clear s -> Done (push_next (with_oor s o) v) = relabel_flow o (Done (push_next s v)).
Proof.
  intros Hs. unfold push_next, relabel_flow. run. cbn [dw_stack with_oor].
  destruct (dw_push _ _); simpl; by rewrite relabel_clear.
Qed.

Lemma push_reg_relabel s o r f :
  clear s -> push_reg (with_oor s o) r f = relabel_flow o (push_reg s r f).
Proof.
  intros Hs. unfold push_reg. destruct r as [[v|]|u]; [|by simpl; rewrite relabel_clear|done].
  run. by apply push_next_relabel.
Qed.

Lemma unop_relabel s o f : clear s -> unop (with_oor s o) f = relabel_flow o (unop s f).
Proof.
  intros Hs. unfold unop. cbn [dw_stack with_oor]. destruct (dw_pop _) as [[v st]|].
  - destruct (f v) as [[r|]|u]; [|by simpl; rewrite relabel_clear|done]. run.
    by apply (push_next_relabel (with_stack s st)).
  - by simpl; rewrite relabel_clear.
Qed.

Lemma binop_relabel s o f : clear s -> binop (with_oor s o) f = relabel_flow o (binop s f).
Proof.
  intros Hs. unfold binop. cbn [dw_stack with_oor]. destruct (dw_pop _) as [[v st]|].
  - by apply (unop_relabel (with_stack s st)).
  - by simpl; rewrite relabel_clear.
Qed.

Lemma exec_jump_relabel ops op s o :
  clear s -> exec_jump ops op (with_oor s o) = relabel_flow o (exec_jump ops op s).
Proof.
  intros Hs. unfold exec_jump. destruct (bsearch _ _) as [[i|]|u]; [..|done];
    simpl; by rewrite relabel_clear.
Qed.

Lemma exec_deref_relabel op s o :
  clear s -> stack_ok (dw_stack s) ->
  exec_deref page_size info raw_sp op (with_oor s o) =
  relabel_flow o (exec_deref page_size info raw_sp op s).
Proof.
  intros Hs Hok. unfold exec_deref. cbn [dw_stack with_oor is_location ev_oor].
  destruct (_ && _); [by simpl; rewrite relabel_clear|]. unfold dw_pop.
  destruct (dw_stack s) as [|v st] eqn:E; [by simpl; rewrite relabel_clear|].
  destruct (stack_ok_tail _ _ Hok) as [Hv _].
  rewrite !read_addr_captured by done. run. destruct (captured _ _ _ _); [|done].
  by apply (push_next_relabel (mk_eval st (is_location s) (ev_oor s))).
Qed.

Lemma eval_step_relabel ce ops op s o :
  (forall o, ce o = relabel_res o (ce no_oor)) -> clear s -> stack_ok (dw_stack s) ->
  eval_step page_size info bias raw_sp ce ops op (with_oor s o) =
  relabel_flow o (eval_step page_size info bias raw_sp ce ops op s).
Proof.
  intros Hce Hs Hok. unfold eval_step. cbn zeta.
  destruct (between DW_OP_lit0 _ _); [by apply push_next_relabel|].
  destruct (_ =? DW_OP_addr); [by apply push_next_relabel|].
  destruct (one_of _ _); [by apply push_next_relabel|].
  destruct (between DW_OP_reg0 _ _); [by apply push_reg_relabel|].
  destruct (_ =? DW_OP_regx); [by apply push_reg_relabel|].
  destruct (between DW_OP_breg0 _ _); [by apply push_reg_relabel|].
  destruct (_ =? DW_OP_bregx); [by apply push_reg_relabel|].
  cbn [dw_stack with_oor].
  destruct (shuffle_op _ _) as [[st|]|]; [by simpl; rewrite relabel_clear..|].
  destruct (unary_op op); [by apply unop_relabel|].
  destruct (binary_op _); [by apply binop_relabel|].
  destruct (_ || _); [by apply exec_deref_relabel|].
  destruct (_ =? DW_OP_bra).
  { destruct (dw_pop _) as [[v st]|]; [|by simpl; rewrite relabel_clear].
    destruct (v =? 0); [by simpl; rewrite relabel_clear|].
    by apply (exec_jump_relabel ops op (with_stack s st)). }
  destruct (_ =? DW_OP_skip); [by apply exec_jump_relabel|].
  destruct (_ =? DW_OP_nop); [by simpl; rewrite relabel_clear|].
  destruct (_ =? DW_OP_call_frame_cfa).
  { cbn [ev_oor with_oor]. rewrite Hce, Hs.
    destruct (ce no_oor) as [[[c|] o']|u]; [|done..]. simpl. by destruct (dw_push _ _). }
  destruct (_ =? DW_OP_stack_value); by simpl; rewrite relabel_clear.
Qed.

Lemma eval_loop_relabel ce ops steps i s o :
  (forall o, ce o = relabel_res o (ce no_oor)) -> (forall o, result_ok o (ce o)) ->
  Forall is_op ops -> clear s -> stack_ok (dw_stack s) ->
  eval_loop page_size info bias raw_sp ce ops steps i (with_oor s o) =
  (r ← eval_loop page_size info bias raw_sp ce ops steps i s;
   mret (match r with
         | inl s => inl (with_oor s (relabel o (ev_oor s)))
         | inr o' => inr (relabel o o')
         end)).
Proof.
  intros Hce Hres Hops. revert i s. induction steps as [|steps IH]; intros i s Hs Hok; cbn [eval_loop].
  { destruct (ops !! i); simpl; by rewrite relabel_clear. }
  destruct (ops !! i) as [op|] eqn:Eop; [|by simpl; rewrite relabel_clear].
  rewrite eval_step_relabel by done.
  assert (Hop : is_op op) by (by eapply Forall_lookup_1 in Hops).
  pose proof (eval_step_ok page_size info bias raw_sp Hsnap Hpage Hsp ce ops op s Hop Hres Hok) as Hf.
  destruct (eval_step _ _ _ _ _ _ _ s) as [[o'|s'|j s']|u]; [done| | |done];
    destruct Hf as [Hok' Hc]; unfold relabel_flow; run;
    (rewrite relabel_clear by congruence); apply IH; congruence || done.
Qed.

Abbreviation eval := (gu_dwarf_ops_eval page_size info bias raw_sp).

Lemma ops_eval_relabel_S cfa d ops o :
  Forall is_op ops ->
  (forall o, eval cfa d cfa o = relabel_res o (eval cfa d cfa no_oor)) ->
  (forall o, result_ok o (eval cfa d cfa o)) ->
  eval cfa (S d) ops o = relabel_res o (eval cfa (S d) ops no_oor).
Proof.
  intros Hops Hce Hres. cbn [gu_dwarf_ops_eval]. destruct ops as [|op ops']; [done|].
  rewrite (eval_loop_relabel _ _ _ _ (mk_eval [] false no_oor) o Hce Hres) by done.
  pose proof (eval_loop_ok page_size info bias raw_sp Hsnap Hpage Hsp (eval cfa d cfa) (op :: ops')
    DW_EVAL_STEPS_MAX 0 (mk_eval [] false no_oor) Hops Hres) as Hl.
  destruct (eval_loop _ _ _ _ _ _ _ _ _) as [[s|o']|u]; [|done..].
  destruct Hl as [Hok Hc]; [done|]. run. cbn [dw_stack with_oor is_location ev_oor] in *.
  rewrite relabel_clear by done. unfold dw_pop.
  destruct (dw_stack s) as [|v st]; [by simpl; rewrite relabel_clear|].
  destruct (stack_ok_tail _ _ Hok) as [Hv _].
  destruct (is_location s); [|by simpl; rewrite relabel_clear].
  rewrite !read_addr_captured by done. destruct (captured _ _ _ _); [|done].
  simpl. by rewrite relabel_clear.
Qed.

Lemma ops_eval_relabel_leaf cfa d ops o :
  Forall is_op ops -> no_cfa_call ops ->
  eval cfa (S d) ops o = relabel_res o (eval cfa (S d) ops no_oor).
Proof.
  intros Hops Hn. rewrite !(ops_eval_no_cfa _ _ _ _ cfa [] d 1) by done.
  by apply ops_eval_relabel_S.
Qed.

Lemma ops_eval_relabel cfa d ops o :
  Forall is_op cfa -> no_cfa_call cfa -> Forall is_op ops ->
  eval cfa (S (S d)) ops o = relabel_res o (eval cfa (S (S d)) ops no_oor).
Proof.
  intros Hcfa Hn Hops. apply ops_eval_relabel_S; [done| |].
  - intros. by apply ops_eval_relabel_leaf.
  - intros. by apply ops_eval_leaf_ok.
Qed.

(** *** Single steps of the operations the fast paths handle *)
Abbreviation step := (eval_step page_size info bias raw_sp).
Abbreviation loop := (eval_loop page_size info bias raw_sp).

Lemma step_cfa ce ops op s :
  atom op = DW_OP_call_frame_cfa ->
  step ce ops op s =
    ('(r, o) ← ce (ev_oor s);
     mret (match r with
           | None => EFail o
           | Some cfa =>
             match dw_push (dw_stack s) cfa with
             | None => EFail o
             | Some st => ENext (mk_eval st true o)
             end
           end)).
Proof.
  intros Ha. unfold eval_step, shuffle_op, unary_op, binary_op. rewrite Ha. cbn zeta.
  eval_ifs. done.
Qed.

Lemma step_plus_uconst ce ops op s v st :
  atom op = DW_OP_plus_uconst -> dw_stack s = v :: st ->
  step ce ops op s = Done (push_next (with_stack s st) (v +w number op)).
Proof.
  intros Ha Hs. unfold eval_step, shuffle_op, unary_op, binary_op. rewrite Ha. cbn zeta.
  eval_ifs. unfold unop. by rewrite Hs.
Qed.

Lemma step_stack_value ce ops op s :
  atom op = DW_OP_stack_value -> step ce ops op s = Done (ENext (mk_eval (dw_stack s) false (ev_oor s))).
Proof.
  intros Ha. unfold eval_step, shuffle_op, unary_op, binary_op. rewrite Ha. cbn zeta.
  eval_ifs. done.
Qed.

(** A single register operation. *)
Lemma step_register ce ops op s v :
  fast_eval_reg_or_breg op info = Done (Some v) ->
  step ce ops op s = Done (push_next s v).
Proof.
  unfold fast_eval_reg_or_breg, eval_step. intros Hf. cbn zeta.
  assert (Hrange : forall lo, between lo (lo + 31) (atom op) = true -> lo <= atom op <= lo + 31).
  { intros lo Hb. unfold between in Hb. apply andb_true_iff in Hb as [?%Z.leb_le ?%Z.leb_le]. done. }
  assert (Hout : DW_OP_reg0 <= atom op <= DW_OP_bregx ->
    between DW_OP_lit0 (DW_OP_lit0 + 31) (atom op) = false /\ (atom op =? DW_OP_addr) = false /\
    one_of (atom op) const_ops = false).
  { unfold DW_OP_reg0, DW_OP_bregx. intros Hr. split_and!.
    - apply andb_false_iff. right. apply Z.leb_gt. unfold DW_OP_lit0. lia.
    - apply Z.eqb_neq. unfold DW_OP_addr. lia.
    - apply bool_decide_eq_false. unfold const_ops. rewrite !elem_of_cons, elem_of_nil.
      unfold DW_OP_const1u, DW_OP_const1s, DW_OP_const2u, DW_OP_const2s, DW_OP_const4u,
        DW_OP_const4s, DW_OP_const8u, DW_OP_const8s, DW_OP_constu, DW_OP_consts. lia. }
  destruct (between DW_OP_reg0 _ _) eqn:E1.
  { destruct Hout as (-> & -> & ->); [apply Hrange in E1; unfold DW_OP_reg0, DW_OP_bregx in *; lia|].
    unfold push_reg. by rewrite Hf. }
  destruct (Z.eqb_spec (atom op) DW_OP_regx) as [E2|E2].
  { destruct Hout as (-> & -> & ->); [rewrite E2; done|]. unfold push_reg. by rewrite Hf. }
  destruct (between DW_OP_breg0 _ _) eqn:E3.
  { destruct Hout as (-> & -> & ->);
      [apply Hrange in E3; unfold DW_OP_reg0, DW_OP_bregx, DW_OP_breg0 in *; lia|].
    unfold push_reg. destruct (get_regs _ _) as [[b|]|]; [|done..]. by injection Hf as <-. }
  destruct (Z.eqb_spec (atom op) DW_OP_bregx) as [E4|E4]; [|done].
  destruct Hout as (-> & -> & ->); [rewrite E4; done|].
  unfold push_reg. destruct (get_regs _ _) as [[b|]|]; [|done..]. by injection Hf as <-.
Qed.

Lemma steps_max : exists n, DW_EVAL_STEPS_MAX = S (S (S n)).
Proof. by exists (Z.to_nat 0xffd). Qed.

Lemma push_next_small s v :
  (length (dw_stack s) < 2)%nat -> push_next s v = ENext (with_stack s (v :: dw_stack s)).
Proof.
  intros Hl. unfold push_next, dw_push, DW_EVAL_STACK_SIZE.
  by destruct (Z.leb_spec 0x100 (Z.of_nat (length (dw_stack s)))); [lia|].
Qed.

Lemma eval_register cfa d op o v :
  fast_eval_reg_or_breg op info = Done (Some v) -> eval cfa (S d) [op] o = Done (Some v, o).
Proof.
  intros Hf. cbn [gu_dwarf_ops_eval]. destruct steps_max as [n ->].
  cbn [eval_loop lookup list_lookup]. erewrite step_register by done.
  rewrite push_next_small by (simpl; lia). run. by destruct n.
Qed.

(** The slow evaluation of [DW_OP_call_frame_cfa] followed by more operations. *)
Lemma eval_cfa_first cfa d op0 ops o :
  atom op0 = DW_OP_call_frame_cfa ->
  eval cfa (S d) (op0 :: ops) o =
  ('(c, o) ← eval cfa d cfa o;
   match c with
   | None => mret (None, o)
   | Some c =>
     r ← loop (eval cfa d cfa) (op0 :: ops) (pred DW_EVAL_STEPS_MAX) 1 (mk_eval [c] true o);
     match r with
     | inr o => mret (None, o)
     | inl s =>
       match dw_pop (dw_stack s) with
       | None => mret (None, ev_oor s)
       | Some (result, _) =>
         if is_location s then read_addr_from_info page_size info raw_sp result (ev_oor s)
         else mret (Some result, ev_oor s)
       end
     end
   end).
Proof.
  intros Ha. cbn [gu_dwarf_ops_eval]. destruct steps_max as [n ->]. cbn [pred].
  set (N := S (S n)). cbn [eval_loop lookup list_lookup]. rewrite step_cfa by done. cbn [ev_oor].
  destruct (eval cfa d cfa o) as [[[c|] o']|u]; run; done.
Qed.

Lemma fast_reg_ok op :
  exists r, fast_eval_reg_or_breg op info = Done r.
Proof.
  unfold fast_eval_reg_or_breg. pose proof (fun r => get_regs_ok info r (snap_regs _ Hsnap)) as Hg.
  destruct (between DW_OP_reg0 _ _); [destruct (Hg (atom op - DW_OP_reg0)) as (r & -> & _); eauto|].
  destruct (_ =? DW_OP_regx); [destruct (Hg (s32 (number op))) as (r & -> & _); eauto|].
  destruct (between DW_OP_breg0 _ _);
    [destruct (Hg (atom op - DW_OP_breg0)) as (r & -> & _); run; eauto|].
  destruct (_ =? DW_OP_bregx); [destruct (Hg (s32 (number op))) as (r & -> & _); run; eauto|].
  run. eauto.
Qed.

Lemma fast_eval_cfa_eq cfa d o :
  fast_eval_cfa page_size info bias raw_sp cfa (S d) o = eval cfa (S d) cfa o.
Proof.
  unfold fast_eval_cfa. destruct cfa as [|op [|op' cfa]]; [done| |done].
  destruct (fast_reg_ok op) as [[v|] E]; rewrite E; run; [|done]. by rewrite (eval_register _ _ _ _ v).
Qed.

(** The loop after the CFA is pushed, for the shapes the fast path knows. *)
Lemma loop_value ce op0 op1 n c o :
  atom op1 = DW_OP_stack_value ->
  loop ce [op0; op1] (S n) 1 (mk_eval [c] true o) = Done (inl (mk_eval [c] false o)).
Proof.
  intros H1. cbn [eval_loop lookup list_lookup]. rewrite step_stack_value by done. run. by destruct n.
Qed.

Lemma loop_offset ce op0 op1 n c o :
  atom op1 = DW_OP_plus_uconst ->
  loop ce [op0; op1] (S n) 1 (mk_eval [c] true o) = Done (inl (mk_eval [c +w number op1] true o)).
Proof.
  intros H1. cbn [eval_loop lookup list_lookup]. erewrite step_plus_uconst by done.
  rewrite push_next_small by (simpl; lia). run. by destruct n.
Qed.

Lemma loop_val_offset ce op0 op1 op2 n c o :
  atom op1 = DW_OP_plus_uconst -> atom op2 = DW_OP_stack_value ->
  loop ce [op0; op1; op2] (S (S n)) 1 (mk_eval [c] true o) =
    Done (inl (mk_eval [c +w number op1] false o)).
Proof.
  intros H1 H2. cbn [eval_loop lookup list_lookup]. erewrite step_plus_uconst by done.
  rewrite push_next_small by (simpl; lia). run. rewrite step_stack_value by done. run. by destruct n.
Qed.

(** What the fast path decides, the slow path decides likewise. *)
Lemma fast_agrees cfa d ops o :
  Forall is_op cfa -> no_cfa_call cfa -> Forall is_op ops ->
  match fast_dwarf_ops_eval page_size info bias raw_sp cfa (S d) ops o with
  | Done (Some v, o') => eval cfa (S (S d)) ops o = Done (Some v, o')
  | Done (None, o') => o' = o \/ eval cfa (S (S d)) ops o = Done (None, o')
  | Undef u => eval cfa (S (S d)) ops o = Undef u
  end.
Proof.
  intros Hcfa Hn Hops. unfold fast_dwarf_ops_eval.
  destruct ops as [|op0 [|op1 more]]; [by left| |].
  { destruct (fast_reg_ok op0) as [[v|] E]; rewrite E; run; [|by left]. by apply eval_register. }
  destruct (Z.eqb_spec (atom op0) DW_OP_call_frame_cfa) as [Ha|]; cbn [negb]; run; [|by left].
  rewrite fast_eval_cfa_eq, eval_cfa_first by done. destruct steps_max as [n ->]. cbn [pred].
  pose proof (ops_eval_leaf_ok page_size info bias raw_sp Hsnap Hpage Hsp cfa d cfa o Hcfa Hn) as Hr.
  remember (eval cfa (S d) cfa) as ce eqn:Ece. clear Ece.
  destruct (ce o) as [[[c|] o']|u] eqn:Ec; run; [|by right|done].
  destruct Hr as [Hc ->].
  destruct more as [|op2 [|]]; [..|by left].
  - destruct (Z.eqb_spec (atom op1) DW_OP_stack_value) as [H1|]; run; [by rewrite loop_value|].
    destruct (Z.eqb_spec (atom op1) DW_OP_plus_uconst) as [H1|]; run; [|by left].
    rewrite loop_offset by done. run. cbn [dw_pop dw_stack is_location ev_oor].
    rewrite read_addr_captured by (done || auto with gu).
    destruct (captured _ _ _ _); [done|by right].
  - destruct (Z.eqb_spec (atom op1) DW_OP_plus_uconst) as [H1|]; [|by left].
    destruct (Z.eqb_spec (atom op2) DW_OP_stack_value) as [H2|]; [|by left]. cbn [andb].
    run. by rewrite loop_val_offset.
Qed.
End record.

(** ** Register operations *)

(** [gen_reg] with the slow path alone. *)
Definition gen_reg_slow `{Arch} page_size info bias raw_sp (depth : nat) (scratch : ops_scratch)
    (regno : Z) (o : oor) : outcome (gu_unwind_reason * option Z * oor) :=
  match gu_cfi_get_ops scratch (trans_reg_type regno) false with
  | None => mret (GU_UNWIND_REASON_CFI_FRAME_CFA_FAILED, None, o)
  | Some reg_ops =>
    '(r, o) ← gu_dwarf_ops_eval page_size info bias raw_sp (cfa_ops scratch) (S depth) reg_ops no_oor;
    match r with
    | Some v => mret (GU_UNWIND_REASON_OK, Some v, o)
    | None =>
      mret (if stack_read_out_of_range o then GU_UNWIND_REASON_STACK_READ_OUT_OF_RANGE
            else GU_UNWIND_REASON_CFI_FRAME_CFA_CALC_FAILED, None, o)
    end
  end.

(** A decoded row: operands in range, and a CFA that does not refer to itself. *)
Record scratch_ok (s : ops_scratch) : Prop := {
  scratch_ops : forall t, Forall is_op (ops_arr s t);
  scratch_cfa : Forall is_op (cfa_ops s);
  scratch_no_cycle : no_cfa_call (cfa_ops s);
}.

Lemma get_ops_ok s t cfa ops : scratch_ok s -> gu_cfi_get_ops s t cfa = Some ops -> Forall is_op ops.
Proof.
  intros [H1 H2 _]. unfold gu_cfi_get_ops. destruct t as [t|]; [|done].
  destruct (_ || _); intros [= <-]; [done|apply H1].
Qed.

Lemma gen_reg_eq_slow `{Arch} page_size info bias raw_sp d scratch regno o :
  snapshot_ok info -> 0 < page_size -> is_u64 raw_sp -> scratch_ok scratch ->
  gen_reg page_size info bias raw_sp (S d) scratch regno o =
  gen_reg_slow page_size info bias raw_sp (S d) scratch regno o.
Proof.
  intros Hsnap Hp Hsp Hsc. unfold gen_reg, gen_reg_slow.
  destruct (gu_cfi_get_ops _ _ _) as [ops|] eqn:Eops; [|done].
  pose proof (get_ops_ok _ _ _ _ Hsc Eops) as Hops. destruct Hsc as [_ Hcfa Hn].
  pose proof (fast_agrees page_size info bias raw_sp Hsnap Hp Hsp (cfa_ops scratch) d ops no_oor
    Hcfa Hn Hops) as Hf.
  destruct (fast_dwarf_ops_eval _ _ _ _ _ _ _ _) as [[[v|] o1]|u]; run; [by rewrite Hf| |by rewrite Hf].
  destruct Hf as [->|Hf]; [done|].
  rewrite ops_eval_relabel by done. rewrite Hf.
  assert (relabel_res o1 (Done (None, o1)) = Done (None, o1)) as ->; [|done].
  unfold relabel_res, relabel. run. by destruct (stack_read_out_of_range o1).
Qed.

(** ** A reference semantics of expressions

    Expression trees over registers, constants, memory and the DWARF
    operators, with the operators defined on mathematical integers. *)
Inductive uop : Type := UAbs | UNeg | UNot.
Inductive bop : Type :=
  | BAnd | BDiv | BMod | BMinus | BXor | BShr | BShl | BPlus | BOr | BMul | BShra
  | BLe | BGe | BEq | BLt | BGt | BNe.

Inductive dexp : Type :=
  | DConst (n : Z)
  | DReg (r off : Z)
  | DUn (u : uop) (e : dexp)
  | DPlusConst (e : dexp) (n : Z)
  | DBin (b : bop) (e1 e2 : dexp)
  | DDeref (e : dexp).

Definition sem_un (u : uop) (a : Z) : option Z :=
  match u with
  | UAbs => if decide (s64 a = INT64_MIN) then None else Some (Z.abs (s64 a))
  | UNeg => if decide (s64 a = INT64_MIN) then None else Some ((- a) mod 2 ^ 64)
  | UNot => Some (2 ^ 64 - 1 - a)
  end.

Definition signed_cmp (R : Z -> Z -> bool) (a b : Z) : option Z :=
  Some (if R (s64 a) (s64 b) then 1 else 0).

Definition sem_bin (op : bop) (a b : Z) : option Z :=
  match op with
  | BAnd => Some (Z.land a b)
  | BOr => Some (Z.lor a b)
  | BXor => Some (Z.lxor a b)
  | BPlus => Some ((a + b) mod 2 ^ 64)
  | BMinus => Some ((a - b) mod 2 ^ 64)
  | BMul => Some ((a * b) mod 2 ^ 64)
  | BDiv => if decide (b = 0 \/ (s64 a = INT64_MIN /\ s64 b = -1)) then None
            else Some (Z.quot (s64 a) (s64 b) mod 2 ^ 64)
  | BMod => if decide (b = 0) then None else Some (a mod b)
  | BShl => if decide (b < 64) then Some ((a * 2 ^ b) mod 2 ^ 64) else None
  | BShr => if decide (b < 64) then Some (a / 2 ^ b) else None
  | BShra => if decide (b < 64) then Some ((s64 a / 2 ^ b) mod 2 ^ 64) else None
  | BLe => signed_cmp Z.leb a b
  | BGe => signed_cmp (fun x y => y <=? x) a b
  | BLt => signed_cmp Z.ltb a b
  | BGt => signed_cmp (fun x y => y <? x) a b
  | BEq => Some (if decide (a = b) then 1 else 0)
  | BNe => Some (if decide (a = b) then 0 else 1)
  end.

Definition uop_atom (u : uop) : Z :=
  match u with UAbs => DW_OP_abs | UNeg => DW_OP_neg | UNot => DW_OP_not end.
Definition bop_atom (b : bop) : Z :=
  match b with
  | BAnd => DW_OP_and | BDiv => DW_OP_div | BMod => DW_OP_mod | BMinus => DW_OP_minus
  | BXor => DW_OP_xor | BShr => DW_OP_shr | BShl => DW_OP_shl | BPlus => DW_OP_plus
  | BOr => DW_OP_or | BMul => DW_OP_mul | BShra => DW_OP_shra | BLe => DW_OP_le
  | BGe => DW_OP_ge | BEq => DW_OP_eq | BLt => DW_OP_lt | BGt => DW_OP_gt | BNe => DW_OP_ne
  end.

(** Postfix code of an expression; the offsets of the operations are free. *)
Inductive rpn : dexp -> list Dwarf_Op -> Prop :=
  | rpn_lit op : between DW_OP_lit0 (DW_OP_lit0 + 31) (atom op) = true ->
      rpn (DConst (atom op - DW_OP_lit0)) [op]
  | rpn_const op : one_of (atom op) const_ops = true -> rpn (DConst (number op)) [op]
  | rpn_breg op : between DW_OP_breg0 (DW_OP_breg0 + 31) (atom op) = true ->
      rpn (DReg (atom op - DW_OP_breg0) (number op)) [op]
  | rpn_bregx op : atom op = DW_OP_bregx -> rpn (DReg (s32 (number op)) (number2 op)) [op]
  | rpn_un u e ops op : rpn e ops -> atom op = uop_atom u -> rpn (DUn u e) (ops ++ [op])
  | rpn_plus e ops op : rpn e ops -> atom op = DW_OP_plus_uconst ->
      rpn (DPlusConst e (number op)) (ops ++ [op])
  | rpn_bin b e1 e2 ops1 ops2 op : rpn e1 ops1 -> rpn e2 ops2 -> atom op = bop_atom b ->
      rpn (DBin b e1 e2) (ops1 ++ ops2 ++ [op])
  | rpn_deref e ops op : rpn e ops -> atom op = DW_OP_deref -> rpn (DDeref e) (ops ++ [op]).

(** The evaluation stack an expression needs. *)
Fixpoint height (e : dexp) : Z :=
  match e with
  | DConst _ | DReg _ _ => 1
  | DUn _ e | DPlusConst e _ | DDeref e => height e
  | DBin _ e1 e2 => Z.max (height e1) (1 + height e2)
  end.

Section denotation.
Context `{Arch}.
Variables (page_size : Z) (info : gu_stack_info) (raw_sp : Z).

Definition reg_value (r : Z) : option Z :=
  match get_regs info r with Done v => v | Undef _ => None end.

Fixpoint denote (e : dexp) : option Z :=
  match e with
  | DConst n => Some n
  | DReg r off => v ← reg_value r; Some ((v + off) mod 2 ^ 64)
  | DUn u e => v ← denote e; sem_un u v
  | DPlusConst e n => v ← denote e; Some ((v + n) mod 2 ^ 64)
  | DBin b e1 e2 => v1 ← denote e1; v2 ← denote e2; sem_bin b v1 v2
  | DDeref e => v ← denote e; captured page_size info raw_sp v
  end.
End denotation.

Lemma unary_op_sem op u x v :
  atom op = uop_atom u -> is_u64 x -> sem_un u x = Some v ->
  exists f, unary_op op = Some f /\ f x = Done (Some v).
Proof.
  intros Ha Hx Hv. unfold unary_op. rewrite Ha. cbn zeta. destruct u; cbn [uop_atom sem_un] in *;
    eval_ifs; eexists; (split; [reflexivity|]).
  - destruct (decide _) as [|Hne]; [done|]. injection Hv as <-.
    destruct (Z.eqb_spec (s64 x) INT64_MIN); [done|]. run. do 2 f_equal. apply wrap_small.
    unfold swrap in *. pose proof (wrap_range 64 x ltac:(lia)) as Hw. rewrite wrap_small in * by done.
    unfold in_width, INT64_MIN in *. destruct (x <? 2 ^ (64 - 1)) eqn:E; lia.
  - destruct (decide _) as [|Hne]; [done|]. injection Hv as <-.
    destruct (Z.eqb_spec (s64 x) INT64_MIN); [done|]. run. do 2 f_equal.
    rewrite <- (Z.sub_0_l (s64 x)), <- wrap_sub_r, wrap_swrap, wrap_sub_r by lia. done.
  - injection Hv as <-. run. do 2 f_equal. unfold not64, Z.lnot, Z.pred, wrap, in_width in *.
    symmetry. apply Z.mod_unique with (-1); lia.
Qed.

Lemma s64_inj a b : is_u64 a -> is_u64 b -> s64 a = s64 b -> a = b.
Proof.
  intros Ha Hb Heq. apply (f_equal u64) in Heq. rewrite !wrap_swrap in Heq by lia.
  by apply (wrap_eq_inj 64).
Qed.

Lemma s64_eqb a b : is_u64 a -> is_u64 b -> (s64 a =? s64 b) = bool_decide (a = b).
Proof.
  intros Ha Hb. destruct (Z.eqb_spec (s64 a) (s64 b)) as [E|E].
  - symmetry. apply bool_decide_eq_true. by apply s64_inj.
  - symmetry. apply bool_decide_eq_false. congruence.
Qed.

Lemma s64_small b : 0 <= b < 64 -> s64 b = b.
Proof. intros. apply swrap_small; lia. Qed.

Lemma binary_op_sem b x y v :
  is_u64 x -> is_u64 y -> sem_bin b x y = Some v ->
  exists f, binary_op (bop_atom b) = Some f /\ f x y = Done (Some v).
Proof.
  intros Hx Hy Hv. assert (0 <= y) by (unfold in_width in Hy; lia). unfold binary_op.
  destruct b; cbn [bop_atom sem_bin] in *; eval_ifs; eexists; (split; [reflexivity|]);
    unfold pure2, signed_cmp, of_bool in *;
    try (injection Hv as <-; reflexivity);
    try (rewrite s64_eqb by done; injection Hv as <-; by repeat case_decide || case_bool_decide).
  - destruct (Z.eqb_spec y 0); [by rewrite decide_True in Hv by auto|].
    destruct (Z.eqb_spec (s64 x) INT64_MIN), (Z.eqb_spec (s64 y) (-1)); cbn [andb];
      try (rewrite decide_True in Hv by auto; done);
      (rewrite decide_False in Hv by (intros [|[]]; congruence); by injection Hv as <-).
  - destruct (Z.eqb_spec y 0); [by rewrite decide_True in Hv by auto|].
    rewrite decide_False in Hv by done. by injection Hv as <-.
  - destruct (decide _); [|done]. injection Hv as <-. destruct (Z.leb_spec 64 y); [lia|].
    by rewrite Z.shiftr_div_pow2.
  - destruct (decide _); [|done]. injection Hv as <-. destruct (Z.leb_spec 64 y); [lia|].
    unfold shl64. by rewrite Z.shiftl_mul_pow2.
  - destruct (decide _); [|done]. injection Hv as <-. destruct (Z.leb_spec 64 y); [lia|].
    by rewrite (s64_small y), Z.shiftr_div_pow2 by lia.
Qed.

Section compiled.
Context `{Arch}.
Variables (page_size : Z) (info : gu_stack_info) (bias raw_sp : Z).
Hypothesis Hsnap : snapshot_ok info.
Hypothesis Hpage : 0 < page_size.
Hypothesis Hsp : is_u64 raw_sp.

Abbreviation step := (eval_step page_size info bias raw_sp).
Abbreviation loop := (eval_loop page_size info bias raw_sp).
Abbreviation value_of := (denote page_size info raw_sp).

Lemma between_range lo hi x : between lo hi x = true -> lo <= x <= hi.
Proof. unfold between. intros [?%Z.leb_le ?%Z.leb_le]%andb_true_iff. done. Qed.

Lemma denote_u64 e code v :
  rpn e code -> Forall is_op code -> value_of e = Some v -> is_u64 v.
Proof.
  intros Hr. revert v. induction Hr as [op Ha|op Ha|op Ha|op Ha|u e ops op _ IH Ha|e ops op _ IH Ha|
    b e1 e2 ops1 ops2 op _ IH1 _ IH2 Ha|e ops op _ IH Ha]; intros v Hops; cbn [denote].
  - intros [= <-]. apply between_range in Ha. unfold DW_OP_lit0 in *. word.
  - intros [= <-]. inversion Hops as [|? ? [Hn _] _]; subst. done.
  - destruct (reg_value _ _); [|done]. intros [= <-]. apply (u64_range (_ + _)).
  - destruct (reg_value _ _); [|done]. intros [= <-]. apply (u64_range (_ + _)).
  - apply Forall_app in Hops as [Hops _]. destruct (value_of e) as [x|]; [|done]. intros Hv.
    specialize (IH x Hops eq_refl). destruct (unary_op_sem op u x v Ha IH Hv) as (f & Ef & Hf).
    pose proof (unary_op_ok op f x Ef IH) as Hok. by rewrite Hf in Hok.
  - destruct (value_of e); [|done]. intros [= <-]. apply (u64_range (_ + _)).
  - rewrite !Forall_app in Hops. destruct Hops as (H1 & H2 & _).
    destruct (value_of e1) as [x|]; [|done]. destruct (value_of e2) as [y|]; [|done]. intros Hv.
    specialize (IH1 x H1 eq_refl). specialize (IH2 y H2 eq_refl).
    destruct (binary_op_sem b x y v IH1 IH2 Hv) as (f & Ef & Hf).
    pose proof (binary_op_ok _ f x y Ef IH1 IH2) as Hok. by rewrite Hf in Hok.
  - destruct (value_of e) as [x|]; [|done]. by apply captured_u64.
Qed.

Lemma step_const ce ops op s :
  one_of (atom op) const_ops = true -> step ce ops op s = Done (push_next s (number op)).
Proof.
  intros Hc. unfold eval_step. cbn zeta. rewrite Hc.
  unfold one_of in Hc. apply bool_decide_eq_true in Hc. unfold const_ops in Hc.
  rewrite !elem_of_cons, elem_of_nil in Hc.
  destruct Hc as [->|[->|[->|[->|[->|[->|[->|[->|[->|[->|[]]]]]]]]]]]; by eval_ifs.
Qed.

Lemma step_unary ce ops op s f x st :
  (exists u, atom op = uop_atom u) \/ atom op = DW_OP_plus_uconst ->
  unary_op op = Some f -> dw_stack s = x :: st ->
  forall v, f x = Done (Some v) -> step ce ops op s = Done (push_next (with_stack s st) v).
Proof.
  intros Hu Hf Hs v Hv. unfold eval_step. cbn zeta.
  assert (E : shuffle_op op (dw_stack s) = None).
  { unfold shuffle_op. destruct Hu as [[[] ->]| ->]; by cbn zeta; cbn [uop_atom]; eval_ifs. }
  rewrite E, Hf. unfold unop. rewrite Hs. cbn [dw_pop]. rewrite Hv.
  destruct Hu as [[[] ->]| ->]; cbn [uop_atom]; by eval_ifs.
Qed.

Lemma step_binary ce ops op s b x y st v :
  atom op = bop_atom b -> is_u64 x -> is_u64 y -> dw_stack s = y :: x :: st ->
  sem_bin b x y = Some v ->
  step ce ops op s = Done (push_next (with_stack s st) v).
Proof.
  intros Ha Hx Hy Hs Hv. destruct (binary_op_sem b x y v Hx Hy Hv) as (f & Ef & Hf).
  unfold eval_step. cbn zeta.
  assert (shuffle_op op (dw_stack s) = None /\ unary_op op = None) as [-> ->].
  { unfold shuffle_op, unary_op. rewrite Ha. cbn zeta. destruct b; cbn [bop_atom]; by eval_ifs. }
  rewrite Ha, Ef. unfold binop. rewrite Hs. cbn [dw_pop]. unfold unop. cbn [dw_stack with_stack dw_pop].
  rewrite Hf. destruct b; cbn [bop_atom]; by eval_ifs.
Qed.

Lemma step_deref ce ops op s x st v :
  atom op = DW_OP_deref -> is_u64 x -> dw_stack s = x :: st ->
  captured page_size info raw_sp x = Some v ->
  step ce ops op s = Done (push_next (with_stack s st) v).
Proof.
  intros Ha Hx Hs Hv. unfold eval_step, shuffle_op, unary_op, binary_op. rewrite Ha. cbn zeta.
  eval_ifs. unfold exec_deref. rewrite Ha, Hs. cbn [dw_pop]. eval_ifs.
  rewrite read_addr_captured by done. by rewrite Hv.
Qed.

Lemma push_next_room s v :
  Z.of_nat (length (dw_stack s)) < DW_EVAL_STACK_SIZE ->
  push_next s v = ENext (with_stack s (v :: dw_stack s)).
Proof.
  intros Hl. unfold push_next, dw_push.
  by destruct (Z.leb_spec DW_EVAL_STACK_SIZE (Z.of_nat (length (dw_stack s)))); [lia|].
Qed.

(** Running the code of an expression pushes its value. *)
Definition runs (code : list Dwarf_Op) (h v : Z) : Prop :=
  forall ce pre post n st loc o,
    Z.of_nat (length st) + h <= DW_EVAL_STACK_SIZE ->
    loop ce (pre ++ code ++ post) (length code + n) (length pre) (mk_eval st loc o) =
    loop ce (pre ++ code ++ post) n (length pre + length code) (mk_eval (v :: st) loc o).

(** The last operation of a code sequence. *)
Lemma loop_last ce pre code op post n i s s' :
  i = (length pre + length code)%nat ->
  step ce (pre ++ (code ++ [op]) ++ post) op s = Done (ENext s') ->
  loop ce (pre ++ (code ++ [op]) ++ post) (S n) i s =
  loop ce (pre ++ (code ++ [op]) ++ post) n (S i) s'.
Proof.
  intros -> Hs. cbn [eval_loop].
  assert (E : (pre ++ (code ++ [op]) ++ post) !! (length pre + length code)%nat = Some op).
  { rewrite lookup_app_r, Nat.add_sub_swap, Nat.sub_diag by lia.
    rewrite Nat.add_0_l, <- app_assoc, lookup_app_r, Nat.sub_diag by lia. done. }
  rewrite E, Hs. done.
Qed.

Lemma runs_leaf op v :
  (forall ce ops s, step ce ops op s = Done (push_next s v)) -> runs [op] 1 v.
Proof.
  intros Hs ce pre post n st loc o Hl.
  rewrite (loop_last ce pre [] op post n _ _ (mk_eval (v :: st) loc o)); [|simpl; lia|].
  - f_equal. simpl. lia.
  - rewrite Hs, push_next_room; [done|]. cbn [dw_stack]. lia.
Qed.

(** An operation that replaces the value on top. *)
Lemma runs_unary code op h x v :
  1 <= h -> runs code h x ->
  (forall ce ops s st, dw_stack s = x :: st ->
     step ce ops op s = Done (push_next (with_stack s st) v)) ->
  runs (code ++ [op]) h v.
Proof.
  intros Hh Hc Hs ce pre post n st loc o Hl. rewrite length_app. cbn [length].
  rewrite <- app_assoc, <- Nat.add_assoc. rewrite Hc by lia. rewrite (app_assoc code [op] post).
  change (1 + n)%nat with (S n).
  rewrite (loop_last ce pre code op post n _ _ (mk_eval (v :: st) loc o)); [f_equal; lia|lia|].
  erewrite Hs by done. rewrite push_next_room; [done|]. cbn [dw_stack with_stack]. lia.
Qed.

Lemma runs_binary code1 code2 op h1 h2 x y v :
  1 <= h1 -> 1 <= h2 -> runs code1 h1 x -> runs code2 h2 y ->
  (forall ce ops s st, dw_stack s = y :: x :: st ->
     step ce ops op s = Done (push_next (with_stack s st) v)) ->
  runs (code1 ++ code2 ++ [op]) (Z.max h1 (1 + h2)) v.
Proof.
  intros Hh1 Hh2 Hc1 Hc2 Hs ce pre post n st loc o Hl. rewrite !length_app. cbn [length].
  rewrite <- !app_assoc, <- !Nat.add_assoc. rewrite Hc1 by lia.
  replace (pre ++ code1 ++ code2 ++ [op] ++ post) with ((pre ++ code1) ++ code2 ++ [op] ++ post)
    by (by rewrite <- !app_assoc).
  rewrite <- length_app, Hc2 by (cbn [length]; lia). rewrite (app_assoc code2 [op] post).
  change (1 + n)%nat with (S n).
  rewrite (loop_last ce (pre ++ code1) code2 op post n _ _ (mk_eval (v :: st) loc o)); [|lia|].
  - f_equal. rewrite length_app. lia.
  - erewrite Hs by done. rewrite push_next_room; [done|]. cbn [dw_stack with_stack]. lia.
Qed.

Lemma height_pos e : 1 <= height e.
Proof. induction e; simpl; lia. Qed.

Lemma rpn_runs e code v :
  rpn e code -> Forall is_op code -> value_of e = Some v -> runs code (height e) v.
Proof.
  intros Hr. revert v. induction Hr as [op Ha|op Ha|op Ha|op Ha|u e ops op Hr IH Ha|e ops op Hr IH Ha|
    b e1 e2 ops1 ops2 op Hr1 IH1 Hr2 IH2 Ha|e ops op Hr IH Ha]; intros v Hops Hv; cbn [denote height] in *.
  - injection Hv as <-. apply runs_leaf. intros. unfold eval_step. cbn zeta. by rewrite Ha.
  - injection Hv as <-. apply runs_leaf. intros. by apply step_const.
  - apply runs_leaf. intros. apply step_register. unfold fast_eval_reg_or_breg, reg_value in *.
    pose proof (between_range _ _ _ Ha) as Hrange.
    assert (between DW_OP_reg0 (DW_OP_reg0 + 31) (atom op) = false) as ->.
    { apply andb_false_iff. right. apply Z.leb_gt. unfold DW_OP_reg0, DW_OP_breg0 in *. lia. }
    destruct (Z.eqb_spec (atom op) DW_OP_regx); [unfold DW_OP_regx, DW_OP_breg0 in *; lia|].
    rewrite Ha. destruct (get_regs _ _) as [[x|]|]; [|done..]. by injection Hv as <-.
  - apply runs_leaf. intros. apply step_register. unfold fast_eval_reg_or_breg, reg_value in *.
    rewrite Ha. eval_ifs. destruct (get_regs _ _) as [[x|]|]; [|done..]. by injection Hv as <-.
  - apply Forall_app in Hops as [Hops _]. destruct (value_of e) as [x|] eqn:Ex; [|done].
    destruct (unary_op_sem op u x v Ha) as (f & Ef & Hf); [by eapply denote_u64|done|].
    eapply runs_unary; [apply height_pos|by apply IH|]. intros. by eapply step_unary; eauto.
  - apply Forall_app in Hops as [Hops _]. destruct (value_of e) as [x|] eqn:Ex; [|done].
    injection Hv as <-.
    eapply runs_unary; [apply height_pos|by apply IH|]. intros.
    eapply (step_unary _ _ op _ (fun val1 => mret (Some (val1 +w number op)))); [by right| |done|done].
    unfold unary_op. rewrite Ha. cbn zeta. by eval_ifs.
  - rewrite !Forall_app in Hops. destruct Hops as (Ho1 & Ho2 & _).
    destruct (value_of e1) as [x|] eqn:Ex; [|done]. destruct (value_of e2) as [y|] eqn:Ey; [|done].
    eapply runs_binary; [apply height_pos|apply height_pos|by apply IH1|by apply IH2|].
    intros. eapply step_binary; [done|by eapply (denote_u64 e1)|by eapply (denote_u64 e2)|done|done].
  - apply Forall_app in Hops as [Hops _]. destruct (value_of e) as [x|] eqn:Ex; [|done].
    eapply runs_unary; [apply height_pos|by apply IH|]. intros.
    eapply step_deref; [done|by eapply denote_u64|done|done].
Qed.

Lemma rpn_nonempty e code : rpn e code -> code <> [].
Proof. destruct 1; try done; intros [? ?]%app_eq_nil; try done. by destruct ops2. Qed.

Lemma rpn_eval cfa d e code v o :
  rpn e code -> Forall is_op code -> value_of e = Some v ->
  height e <= DW_EVAL_STACK_SIZE -> (length code <= DW_EVAL_STEPS_MAX)%nat ->
  gu_dwarf_ops_eval page_size info bias raw_sp cfa (S d) code o = Done (Some v, o).
Proof.
  intros Hr Hops Hv Hh Hn. cbn [gu_dwarf_ops_eval].
  pose proof (rpn_runs e code v Hr Hops Hv) as Hruns. 
  pose proof (rpn_nonempty e code Hr). 
  pose proof (Hruns (gu_dwarf_ops_eval page_size info bias raw_sp cfa d cfa) [] []
    (DW_EVAL_STEPS_MAX - length code)%nat [] false o) as Hl.
  cbn [app length Nat.add] in Hl. rewrite app_nil_r in Hl.
  replace (length code + (DW_EVAL_STEPS_MAX - length code))%nat with DW_EVAL_STEPS_MAX in Hl by lia.
  destruct code as [|op code]; [done|]. rewrite Hl by lia.
  assert (Hend : forall ce n s, loop ce (op :: code) n (length (op :: code)) s = Done (inl s)).
  { intros ce n s. destruct n; cbn [eval_loop]; by rewrite lookup_ge_None_2 by lia. }
  by rewrite Hend.
Qed.
End compiled.

(** ** What the rules of a row compute *)

(** The value DWARF gives a register by its rule, the CFA being [c]. *)
Definition rule_value `{Arch} page_size (info : gu_stack_info) (raw_sp c : Z)
    (r : dwarf_frame_rule * Z) : option Z :=
  match r.1 with
  | reg_offset_rule => captured page_size info raw_sp ((c + r.2) mod 2 ^ 64)
  | reg_val_offset => Some ((c + r.2) mod 2 ^ 64)
  | reg_register => reg_value info r.2
  | _ => None
  end.

Definition plain_rule (k : dwarf_frame_rule) : bool :=
  match k with reg_offset_rule | reg_val_offset | reg_register => true | _ => false end.

Section rules.
Context `{Arch}.
Variables (page_size : Z) (info : gu_stack_info) (bias raw_sp : Z).
Hypothesis Hsnap : snapshot_ok info.
Hypothesis Hpage : 0 < page_size.
Hypothesis Hsp : is_u64 raw_sp.

Abbreviation eval := (gu_dwarf_ops_eval page_size info bias raw_sp).

Lemma loop_end ce op n s : eval_loop page_size info bias raw_sp ce [op] n 1 s = Done (inl s).
Proof. by destruct n. Qed.

Lemma eval_cfa_rule cfa d c o k v :
  eval cfa (S d) cfa o = Done (Some c, o) -> is_u64 c -> -2 ^ 60 <= v < 2 ^ 60 ->
  k = reg_offset_rule \/ k = reg_val_offset ->
  forall d_buf t ctx, get_freg (calc_regs ctx) t = freg k v ->
  exists ops, gu_cfi_get_regs_ops d_buf t ctx = Done (Some ops) /\
    exists o', eval cfa (S (S d)) ops o = Done (rule_value page_size info raw_sp c (k, v), o').
Proof.
  intros Hc Hu Hv Hk d_buf t ctx Hreg. unfold gu_cfi_get_regs_ops. rewrite Hreg.
  cbn [freg rule value]. rewrite (swrap_small 61 v) by (change (61 - 1) with 60; lia).
  assert (Hread : forall a, is_u64 a -> exists o', read_addr_from_info page_size info raw_sp a o =
    Done (captured page_size info raw_sp a, o')).
  { intros a Ha. rewrite read_addr_captured by done. destruct (captured _ _ _ a); eauto. }
  assert (Hcv : c +w u64 v = (c + v) mod 2 ^ 64) by apply wrap_add_r.
  assert (Hmod : is_u64 ((c + v) mod 2 ^ 64)) by apply (u64_range (c + v)).
  set (op0 := op_of_atom DW_OP_call_frame_cfa).
  set (op1 := mk_op DW_OP_plus_uconst (u64 v) 0 0).
  set (op2 := op_of_atom DW_OP_stack_value).
  destruct (Z.eqb_spec v 0) as [->|Hv0];
    (destruct Hk as [-> | ->]; eexists; (split; [reflexivity|]); cbn [app];
     rewrite eval_cfa_first by done; rewrite Hc; run; destruct steps_max as [n ->]; cbn [pred]);
    unfold rule_value; cbn [fst snd].
  - rewrite loop_end. run. cbn [dw_pop dw_stack is_location ev_oor].
    rewrite Z.add_0_r, Z.mod_small by done. by apply Hread.
  - rewrite loop_value by done. exists o. run. cbn [dw_pop dw_stack is_location ev_oor].
    by rewrite Z.add_0_r, Z.mod_small.
  - rewrite loop_offset by done. run. cbn [dw_pop dw_stack is_location ev_oor op1 number].
    rewrite Hcv. by apply Hread.
  - rewrite loop_val_offset by done. exists o. run. cbn [dw_pop dw_stack is_location ev_oor op1 number].
    by rewrite Hcv.
Qed.

Lemma eval_regx cfa d v o :
  0 <= v < 2 ^ 31 -> eval cfa (S d) [mk_op DW_OP_regx v 0 0] o = Done (reg_value info v, o).
Proof.
  intros Hv. unfold reg_value.
  destruct (get_regs_ok info v (snap_regs _ Hsnap)) as (r & E & _). rewrite E.
  cbn [gu_dwarf_ops_eval]. destruct steps_max as [n ->]. cbn [eval_loop lookup list_lookup].
  assert (Hstep : forall ce ops s, eval_step page_size info bias raw_sp ce ops (mk_op DW_OP_regx v 0 0) s =
    push_reg s (get_regs info v) (fun v => v)).
  { intros. unfold eval_step. cbn [atom number]. cbn zeta. eval_ifs.
    by rewrite (swrap_small 32) by (change (32 - 1) with 31; lia). }
  rewrite Hstep. unfold push_reg. rewrite E. run. destruct r as [x|]; [|done].
  rewrite push_next_small by (simpl; lia). by destruct n.
Qed.

Lemma eval_register_rule cfa d v o :
  0 <= v < 2 ^ 31 ->
  forall d_buf t ctx, get_freg (calc_regs ctx) t = freg reg_register v ->
  gu_cfi_get_regs_ops d_buf t ctx = Done (Some [mk_op DW_OP_regx v 0 0]) /\
  eval cfa (S d) [mk_op DW_OP_regx v 0 0] o = Done (reg_value info v, o).
Proof.
  intros Hv d_buf t ctx Hreg. split; [|by apply eval_regx]. unfold gu_cfi_get_regs_ops.
  rewrite Hreg. cbn [freg rule value]. rewrite (swrap_small 61 v) by (change (61 - 1) with 60; lia).
  by rewrite wrap_small by word.
Qed.

(** The CFA of a register-plus-offset row. *)
Lemma eval_cfa_register d_buf ctx n off b d o :
  rep_cfa ctx (CfaRegister n off) -> 0 <= n < 2 ^ 31 -> reg_value info n = Some b ->
  exists op, gu_cfi_get_cfa_ops d_buf ctx = Done (Some [op]) /\
    eval [op] (S d) [op] o = Done (Some ((b + off) mod 2 ^ 64), o).
Proof.
  intros (Hr & Ha & Hn & Hn2 & Ho) Hrange Hb. unfold gu_cfi_get_cfa_ops, cfa_offset_op.
  rewrite Hr, Hn. eexists. split; [reflexivity|]. apply eval_register.
  unfold fast_eval_reg_or_breg. cbn [atom number number2]. rewrite Ha. eval_ifs.
  rewrite (swrap_small 32) by (change (32 - 1) with 31; lia).
  unfold reg_value in Hb. destruct (get_regs info n) as [r|]; [|done]. subst r. run.
  rewrite Hn2. cbn [option_map]. unfold add64. by rewrite wrap_add_r.
Qed.

Lemma row_values d_buf ctx row n off b t d o :
  rep_row ctx row -> row_cfa row = CfaRegister n off -> 0 <= n < 2 ^ 31 ->
  reg_value info n = Some b -> plain_rule (row_rule row t).1 = true ->
  - 2 ^ 60 <= (row_rule row t).2 < 2 ^ 60 ->
  ((row_rule row t).1 = reg_register -> 0 <= (row_rule row t).2 < 2 ^ 31) ->
  exists cfa, gu_cfi_get_cfa_ops d_buf ctx = Done (Some cfa) /\
    eval cfa (S d) cfa o = Done (Some ((b + off) mod 2 ^ 64), o) /\
    exists ops, gu_cfi_get_regs_ops d_buf t ctx = Done (Some ops) /\
    exists o', eval cfa (S (S d)) ops o =
      Done (rule_value page_size info raw_sp ((b + off) mod 2 ^ 64) (row_rule row t), o').
Proof.
  intros [Hcfa Hrules] Hrow Hn Hb Hplain Hv Hreg. rewrite Hrow in Hcfa.
  destruct (eval_cfa_register d_buf ctx n off b d o Hcfa Hn Hb) as (op & Hops & Heval).
  exists [op]. split; [done|]. split; [done|]. specialize (Hrules t).
  destruct (row_rule row t) as [k v]. cbn [fst snd] in *.
  destruct k; try done.
  - eapply eval_cfa_rule; eauto. apply (u64_range (b + off)).
  - eapply eval_cfa_rule; eauto. apply (u64_range (b + off)).
  - destruct (eval_register_rule [op] (S d) v o (Hreg eq_refl) d_buf t ctx Hrules) as [E1 E2].
    eexists. split; [exact E1|]. by exists o.
Qed.
End rules.

(** ** Properties *)

(** A stack read returns the little-endian word at the address exactly when
    its eight bytes lie in the captured window [page of raw_sp, + stack_size),
    and otherwise fails and records the address and the window; no read leaves
    the captured bytes, also when the window would wrap around. *)
Theorem stack_read_exact `{Arch} page_size info raw_sp addr o :
  snapshot_ok info -> 0 < page_size -> is_u64 raw_sp -> is_u64 addr ->
  exists o', read_addr_from_info page_size info raw_sp addr o =
    Done (captured page_size info raw_sp addr, o') /\
  match captured page_size info raw_sp addr with
  | Some _ => o' = o
  | None => gu_last_stack_read_out_of_range o' =
      Some (addr, page_start page_size raw_sp, page_start page_size raw_sp +w stack_size info, raw_sp)
  end.
Proof.
  intros. rewrite read_addr_captured by done. destruct (captured _ _ _ _); by eexists.
Qed.


(** C5: the stack machine implements the reference semantics: run on the postfix
    code of any expression over constants, registers, stack memory and the DWARF
    operators that needs at most 256 stack entries and 4096 operations, it
    returns the value of the expression in modular and signed arithmetic. *)
Theorem dwarf_expression_correct `{Arch} page_size info bias raw_sp cfa d e code v o :
  snapshot_ok info -> 0 < page_size -> is_u64 raw_sp ->
  rpn e code -> Forall is_op code -> denote page_size info raw_sp e = Some v ->
  height e <= DW_EVAL_STACK_SIZE -> (length code <= DW_EVAL_STEPS_MAX)%nat ->
  gu_dwarf_ops_eval page_size info bias raw_sp cfa (S d) code o = Done (Some v, o).
Proof. intros. by eapply rpn_eval. Qed.

(** C7: the fast paths of [gen_reg] are pure optimisations: it returns the same
    reason, the same register value and the same out-of-range record as the
    general evaluator alone. *)
Theorem gen_reg_fast_path_equivalent `{Arch} page_size info bias raw_sp d scratch regno o :
  snapshot_ok info -> 0 < page_size -> is_u64 raw_sp -> scratch_ok scratch ->
  gen_reg page_size info bias raw_sp (S d) scratch regno o =
  gen_reg_slow page_size info bias raw_sp (S d) scratch regno o.
Proof. intros. by apply gen_reg_eq_slow. Qed.

(** The operations built for a row mean what DWARF says: for a register-based
    CFA they evaluate to register plus offset, and for an offset, value-offset or
    register rule to the saved word at CFA+N, to CFA+N, or to the register. *)
Theorem row_rules_meaning `{Arch} page_size info bias raw_sp d_buf ctx row n off b t d o :
  snapshot_ok info -> 0 < page_size -> is_u64 raw_sp ->
  rep_row ctx row -> row_cfa row = CfaRegister n off -> 0 <= n < 2 ^ 31 ->
  reg_value info n = Some b -> plain_rule (row_rule row t).1 = true ->
  - 2 ^ 60 <= (row_rule row t).2 < 2 ^ 60 ->
  ((row_rule row t).1 = reg_register -> 0 <= (row_rule row t).2 < 2 ^ 31) ->
  exists cfa, gu_cfi_get_cfa_ops d_buf ctx = Done (Some cfa) /\
    gu_dwarf_ops_eval page_size info bias raw_sp cfa (S d) cfa o =
      Done (Some ((b + off) mod 2 ^ 64), o) /\
    exists ops, gu_cfi_get_regs_ops d_buf t ctx = Done (Some ops) /\
    exists o', gu_dwarf_ops_eval page_size info bias raw_sp cfa (S (S d)) ops o =
      Done (rule_value page_size info raw_sp ((b + off) mod 2 ^ 64) (row_rule row t), o').
Proof. intros. by eapply row_values. Qed.

(** A CFA expression that itself contains [DW_OP_call_frame_cfa] as its first
    operation never returns: no recursion depth suffices. *)
Theorem self_referential_cfa_diverges `{Arch} page_size info bias raw_sp depth op ops o :
  atom op = DW_OP_call_frame_cfa ->
  gu_dwarf_ops_eval page_size info bias raw_sp (op :: ops) depth (op :: ops) o = Undef OutOfFuel.
Proof.
  intros Ha. revert o. induction depth as [|depth IH]; intros o; [done|].
  rewrite eval_cfa_first by done. by rewrite IH.
Qed.

(** ** Witnesses *)

(** A frame at [rsp] = 0x7fff0008 with four captured words. *)
Definition sample_stack : list Z :=
  le_bytes 8 0x11 ++ le_bytes 8 0x401234 ++ le_bytes 8 0x7fff0040 ++ le_bytes 8 0x44.
Definition sample_regs : list Z := <[19%nat := 0x7fff0008]> (<[4%nat := 0x7fff0010]> (replicate 21 0)).
Definition sample_info : gu_stack_info :=
  mk_gu_stack_info 1 32 0 (Some sample_regs) 168 0 (replicate 128 0) 0 (Some sample_stack).

Lemma sample_info_ok : snapshot_ok (H := linux_x86_64) sample_info.
Proof.
  split.
  - exists sample_regs. split_and!; [done..|].
    apply (bool_decide_unpack _). vm_compute. done.
  - by split.
  - exists sample_stack. split_and!; [done| |done]. by repeat apply Forall_app_2; apply le_bytes_ok.
Qed.

Lemma stack_read_exact_witness :
  exists o', read_addr_from_info 4096 sample_info 0x7fff0008 0x7fff0008 no_oor =
    Done (captured 4096 sample_info 0x7fff0008 0x7fff0008, o') /\
  match captured 4096 sample_info 0x7fff0008 0x7fff0008 with
  | Some _ => o' = no_oor
  | None => gu_last_stack_read_out_of_range o' =
      Some (0x7fff0008, page_start 4096 0x7fff0008, page_start 4096 0x7fff0008 +w 32, 0x7fff0008)
  end.
Proof.
  apply (stack_read_exact (H := linux_x86_64) 4096 sample_info 0x7fff0008 0x7fff0008 no_oor);
    [apply sample_info_ok|lia|word|word].
Defined.

(** [(breg7 + 8) & ~15] as [DW_OP_breg7 8; DW_OP_const1s -16; DW_OP_and]. *)
Definition sample_code : list Dwarf_Op :=
  [mk_op 0x77 8 0 0; mk_op DW_OP_const1s (u64 (-16)) 0 2; mk_op DW_OP_and 0 0 4].

Lemma sample_code_ops : Forall is_op sample_code.
Proof. by repeat constructor. Qed.


Lemma dwarf_expression_correct_witness :
  gu_dwarf_ops_eval (H := linux_x86_64) 4096 sample_info 0 0x7fff0008 [] 1 sample_code no_oor =
    Done (Some 0x7fff0010, no_oor).
Proof.
  apply (dwarf_expression_correct (H := linux_x86_64) 4096 sample_info 0 0x7fff0008 [] 0
    (DBin BAnd (DReg 7 8) (DConst (u64 (-16)))) sample_code 0x7fff0010 no_oor).
  - apply sample_info_ok.
  - lia.
  - word.
  - apply (rpn_bin BAnd _ _ [mk_op 0x77 8 0 0] [mk_op DW_OP_const1s (u64 (-16)) 0 2]); [| |done].
    + apply (rpn_breg (mk_op 0x77 8 0 0)). done.
    + apply (rpn_const (mk_op DW_OP_const1s (u64 (-16)) 0 2)). done.
  - apply sample_code_ops.
  - reflexivity.
  - done.
  - apply (Nat.leb_le 3 DW_EVAL_STEPS_MAX). vm_compute. done.
Defined.

(** The row of [push %rbp; mov %rsp, %rbp]: CFA = rbp+16. *)
Definition sample_scratch : ops_scratch :=
  mk_scratch [op_of_atom DW_OP_call_frame_cfa; mk_op DW_OP_plus_uconst (u64 (-8)) 0 0]
    [op_of_atom DW_OP_call_frame_cfa; mk_op DW_OP_plus_uconst (u64 (-16)) 0 0] []
    [mk_op DW_OP_bregx 6 0 0].

Lemma sample_scratch_ok : scratch_ok sample_scratch.
Proof. split; [intros []| |]; by repeat constructor. Qed.

Lemma gen_reg_fast_path_equivalent_witness :
  gen_reg (H := linux_x86_64) 4096 sample_info 0 0x7fff0008 1 sample_scratch 16 no_oor =
  gen_reg_slow (H := linux_x86_64) 4096 sample_info 0 0x7fff0008 1 sample_scratch 16 no_oor.
Proof.
  apply (gen_reg_fast_path_equivalent (H := linux_x86_64) 4096 sample_info 0 0x7fff0008 0
    sample_scratch 16 no_oor); [apply sample_info_ok|lia|word|apply sample_scratch_ok].
Defined.

(** [CFA = rsp + 8; rip at CFA - 8] *)
Definition entry_ctx : gu_cfi_calc_ctx :=
  ctx_set_reg (ctx_def_cfa zero_calc_ctx 7 8) REG_TYPE_RIP (freg reg_offset_rule (-8)).
Definition entry_row : row :=
  mk_row (CfaRegister 7 8) (fun t => match t with
    | REG_TYPE_RIP => (reg_offset_rule, -8) | _ => (reg_unspecified, 0) end).

Lemma row_rules_meaning_witness :
  exists cfa, gu_cfi_get_cfa_ops [] entry_ctx = Done (Some cfa) /\
    gu_dwarf_ops_eval (H := linux_x86_64) 4096 sample_info 0 0x7fff0008 cfa 1 cfa no_oor =
      Done (Some 0x7fff0010, no_oor) /\
    exists ops, gu_cfi_get_regs_ops [] REG_TYPE_RIP entry_ctx = Done (Some ops) /\
    exists o', gu_dwarf_ops_eval (H := linux_x86_64) 4096 sample_info 0 0x7fff0008 cfa 2 ops no_oor =
      Done (Some 0x401234, o').
Proof.
  apply (row_rules_meaning (H := linux_x86_64) 4096 sample_info 0 0x7fff0008 [] entry_ctx entry_row
    7 8 0x7fff0008 REG_TYPE_RIP 0 no_oor).
  - apply sample_info_ok.
  - lia.
  - word.
  - split; [done|]. by intros [].
  - done.
  - lia.
  - reflexivity.
  - done.
  - simpl. lia.
  - done.
Defined.

Lemma self_referential_cfa_diverges_witness :
  gu_dwarf_ops_eval (H := linux_x86_64) 4096 sample_info 0 0x7fff0008
    [op_of_atom DW_OP_call_frame_cfa] 100 [op_of_atom DW_OP_call_frame_cfa] no_oor = Undef OutOfFuel.
Proof.
  apply (self_referential_cfa_diverges (H := linux_x86_64) 4096 sample_info 0 0x7fff0008 100
    (op_of_atom DW_OP_call_frame_cfa) [] no_oor). done.
Defined.
