(* ===== verification/Cfi.v ===== *)
(** * The CFI index: [src/gu_cfi_helper.c], lines 297-306 and 608-1040

    Building [struct gu_cfi] from an ELF file: CIEs and FDEs are read through
    libdw's [dwarf_next_cfi], either along the binary-search table of
    [.eh_frame_hdr] or by scanning the section, and the FDEs are indexed by an
    interval array.  [dwarf_next_cfi] and the libelf calls are parameters. *)

From S2P Require Import Prelude Types IntervalArray Arch CfiDecode CfiProgram CfiOps.

(** ** libdw's view of an entry

    Pointers into the section data are offsets.  [Dwarf_CFI_Entry] is a union
    told apart by [CIE_id], which for a CIE is all ones. *)
Record Dwarf_CIE : Type := mk_dwarf_cie {
  d_code_alignment_factor : Z;
  d_data_alignment_factor : Z;
  d_return_address_register : Z;
  d_augmentation : list Z;
  d_augmentation_data : Z;
  d_initial_instructions : Z;
  d_initial_instructions_end : Z;
}.

Record Dwarf_FDE : Type := mk_dwarf_fde {
  d_CIE_pointer : Z;
  d_start : Z;
  d_end : Z;
}.

Inductive Dwarf_CFI_Entry : Type := EntryCIE (c : Dwarf_CIE) | EntryFDE (f : Dwarf_FDE).

(** The result of [dwarf_next_cfi]: a non-zero return, or the entry at the
    offset and the offset of the next one. *)
Definition next_cfi : Type := Z -> Z + Z * Dwarf_CFI_Entry.

(** ** Data *)

(** [struct gu_cfi_fde]; [cie] is a key of the CIE table, [None] for [NULL]. *)
Record gu_cfi_fde : Type := mk_fde {
  fde_cie : option Z;
  fde_start : Z;
  fde_end : Z;
  instructions : Z;
  instructions_end : Z;
}.
Definition zero_fde : gu_cfi_fde := mk_fde None 0 0 0 0.

Definition sizeof_gu_cfi_cie : Z := 192.
Definition sizeof_gu_cfi_fde : Z := 40.
Definition sizeof_interval_array_item : Z := 24.

(** [struct gu_cfi] without its parse cache.  [fdes_base] is the address of
    the array [fdes]; [cie_list] is the uthash table, whose [INT] macros hash
    and compare the low 32 bits of the offset. *)
Record gu_cfi : Type := mk_cfi {
  hdr_interval_array : option interval_array;
  sh_off : Z;
  eh_frame : bool;
  cfi_mem_usage : Z;
  cfi_data_mem_usage : Z;
  cie_list : gmap Z gu_cfi_cie;
  fde_count : Z;
  fdes_base : Z;
  fdes : list gu_cfi_fde;
  d_buf : list Z;
}.

Definition with_cie_list (c : gu_cfi) l := mk_cfi (hdr_interval_array c) (sh_off c) (eh_frame c)
  (cfi_mem_usage c) (cfi_data_mem_usage c) l (fde_count c) (fdes_base c) (fdes c) (d_buf c).
Definition with_mem_usage (c : gu_cfi) m := mk_cfi (hdr_interval_array c) (sh_off c) (eh_frame c)
  m (cfi_data_mem_usage c) (cie_list c) (fde_count c) (fdes_base c) (fdes c) (d_buf c).
Definition with_eh_frame (c : gu_cfi) b := mk_cfi (hdr_interval_array c) (sh_off c) b
  (cfi_mem_usage c) (cfi_data_mem_usage c) (cie_list c) (fde_count c) (fdes_base c) (fdes c) (d_buf c).
Definition with_fdes (c : gu_cfi) n base l := mk_cfi (hdr_interval_array c) (sh_off c) (eh_frame c)
  (cfi_mem_usage c) (cfi_data_mem_usage c) (cie_list c) n base l (d_buf c).
Definition with_index (c : gu_cfi) a := mk_cfi a (sh_off c) (eh_frame c)
  (cfi_mem_usage c) (cfi_data_mem_usage c) (cie_list c) (fde_count c) (fdes_base c) (fdes c) (d_buf c).

(** The static [_default_calc_ctx] with [_default_init], and the heap. *)
Record cfi_globals : Type := mk_globals {
  default_init : bool;
  default_calc_ctx : gu_cfi_calc_ctx;
  g_heap : cfi_heap;
}.

(** The bytes of the section between two offsets. *)
Definition section (d : list Z) (from to : Z) : list Z :=
  take (Z.to_nat (to - from)) (drop (Z.to_nat from) d).

(** [_default_init_cfi] *)
Definition default_init_cfi `{Arch} : list Z :=
  (if reg_name_lr is None then [DW_CFA_def_cfa; 7; 8; DW_CFA_offset + 16; 1] else []) ++
  [DW_CFA_same_value; 6; DW_CFA_val_offset; 7; 0].

(** ** CIEs *)

(** The variables of the augmentation loop. *)
Record aug_state : Type := mk_aug {
  a_sized : bool;
  a_signal : bool;
  a_lsda : Z;
  a_fde_enc : Z;
  a_fde_size : Z;
  a_data : list Z;
}.

Definition CH_z : Z := 122.
Definition CH_S : Z := 83.
Definition CH_L : Z := 76.
Definition CH_R : Z := 82.
Definition CH_P : Z := 80.

(** [*data++] *)
Definition aug_next (s : aug_state) : outcome (Z * list Z) :=
  match a_data s with [] => Undef OutOfBounds | b :: rest => mret (b, rest) end.

Fixpoint augmentation_loop (aug : list Z) (s : aug_state) : outcome aug_state :=
  match aug with
  | [] => mret s
  | c :: aug =>
    if c =? CH_z then
      augmentation_loop aug (mk_aug true (a_signal s) (a_lsda s) (a_fde_enc s) (a_fde_size s) (a_data s))
    else if c =? CH_S then
      augmentation_loop aug (mk_aug (a_sized s) true (a_lsda s) (a_fde_enc s) (a_fde_size s) (a_data s))
    else if c =? CH_L then
      '(enc, data) ← aug_next s;
      size ← (if a_sized s then mret (a_fde_size s)
              else n ← get_encoding_size enc data; mret (a_fde_size s +w n));
      augmentation_loop aug (mk_aug (a_sized s) (a_signal s) enc (a_fde_enc s) size data)
    else if c =? CH_R then
      '(enc, data) ← aug_next s;
      augmentation_loop aug (mk_aug (a_sized s) (a_signal s) (a_lsda s) enc (a_fde_size s) data)
    else if c =? CH_P then
      '(enc, data) ← aug_next s;
      n ← get_encoding_size enc data;
      augmentation_loop aug (mk_aug (a_sized s) (a_signal s) (a_lsda s) (a_fde_enc s) (a_fde_size s)
                               (drop (Z.to_nat n) data))
    else if a_sized s then augmentation_loop aug s
    else mret s
  end.

Section build.
Context `{Arch} `{Qsort}.
(** [malloc] of the interpreter, the other allocations of the builder, libdw,
    and the address [calloc] gives the FDE array. *)
Variable malloc_ok : cfi_heap -> bool.
Variables alloc_cie alloc_items alloc_fdes alloc_array alloc_sorted : bool.
Variable dwarf_next_cfi : next_cfi.
Variable fdes_addr : Z.

(** The default rules, computed with the factors of the first CIE ever seen. *)
Definition init_default (cie : gu_cfi_cie) (g : cfi_globals) : outcome cfi_globals :=
  if default_init g then mret g else
  '(_, ctx, h) ← init_calc_ctx_by_ins malloc_ok cie (default_calc_ctx g) (g_heap g) None
                   default_init_cfi 0 UINT64_MAX;
  mret (mk_globals true ctx h).

(** [init_cie_from_buf]; a [None] CIE is the [NULL] result. *)
Definition init_cie_from_buf (cfi : gu_cfi) (g : cfi_globals) (cie_off : Z) (d : Dwarf_CIE)
  : outcome (option gu_cfi_cie * gu_cfi * cfi_globals) :=
  if negb alloc_cie then mret (None, cfi, g) else
  let cfi := with_mem_usage cfi (cfi_mem_usage cfi +w sizeof_gu_cfi_cie) in
  s ← augmentation_loop (d_augmentation d)
        (mk_aug false false DW_EH_PE_omit DW_EH_PE_absptr 0
           (drop (Z.to_nat (d_augmentation_data d)) (d_buf cfi)));
  let fde_enc := if Z.land (a_fde_enc s) 0xf =? DW_EH_PE_absptr
                 then Z.lor (a_fde_enc s) DW_EH_PE_udata8 else a_fde_enc s in
  let cie := mk_cie cie_off (d_code_alignment_factor d) (d_data_alignment_factor d)
    (d_return_address_register d) (a_fde_size s) (d_initial_instructions d)
    (d_initial_instructions_end d) fde_enc (a_lsda s) (a_sized s) (a_signal s) zero_calc_ctx in
  g ← init_default cie g;
  let ctx := ctx_set_prev (default_calc_ctx g) None in
  '(ret, ctx, h) ← init_calc_ctx_by_ins malloc_ok cie ctx (g_heap g) (Some (d_initial_instructions d))
     (section (d_buf cfi) (d_initial_instructions d) (d_initial_instructions_end d)) 0 UINT64_MAX;
  let g := mk_globals (default_init g) (default_calc_ctx g) h in
  if negb (ret =? 0) then mret (None, cfi, g) else
  mret (Some (mk_cie (cie_offset cie) (code_alignment_factor cie) (data_alignment_factor cie)
    (return_address_register cie) (fde_augmentation_data_size cie) (initial_instructions cie)
    (initial_instructions_end cie) (fde_encoding cie) (lsda_encoding cie)
    (sized_augmentation_data cie) (signal_frame cie) ctx), cfi, g).

(** Find the CIE of an FDE, loading it the first time.  [HASH_ADD_INT] of a
    [NULL] CIE dereferences it. *)
Definition find_cie (cfi : gu_cfi) (g : cfi_globals) (cie_pointer : Z)
  : outcome ((Z + gu_cfi_cie) * gu_cfi * cfi_globals) :=
  match cie_list cfi !! u32 cie_pointer with
  | Some cie => mret (inr cie, cfi, g)
  | None =>
    match dwarf_next_cfi cie_pointer with
    | inl ret => mret (inl ret, cfi, g)
    | inr (_, EntryFDE _) => mret (inl (-1), cfi, g)
    | inr (_, EntryCIE d) =>
      '(r, cfi, g) ← init_cie_from_buf cfi g cie_pointer d;
      cie ← deref r;
      mret (inr cie, with_cie_list cfi (<[u32 cie_pointer := cie]> (cie_list cfi)), g)
    end
  end.

(** The rest of [init_fde_from_entry] once the CIE is known. *)
Definition fill_fde (cfi : gu_cfi) (cie : gu_cfi_cie) (f : Dwarf_FDE) : outcome (option gu_cfi_fde) :=
  let buf := section (d_buf cfi) (d_start f) (d_end f) in
  r ← decode_read_checked buf (fde_encoding cie);
  match r with
  | None => mret None
  | Some (pc, buf) =>
    r ← decode_read_checked buf (fde_encoding cie);
    match r with
    | None => mret None
    | Some (size, buf) =>
      r ← (if sized_augmentation_data cie then
             r ← decode_read_checked buf DW_EH_PE_uleb128;
             mret (match r with
                   | None => None
                   | Some (len, buf) =>
                     if negb (block_fits buf len) then None else Some (drop (Z.to_nat len) buf)
                   end)
           else
             mret (if negb (block_fits buf (fde_augmentation_data_size cie)) then None
                   else Some (drop (Z.to_nat (fde_augmentation_data_size cie)) buf)));
      match r with
      | None => mret None
      | Some buf =>
        let pc := if Z.land (fde_encoding cie) 0x70 =? DW_EH_PE_pcrel
                  then sh_off cfi +w d_start f +w pc else pc in
        if pc +w size <? pc then mret None else
        mret (Some (mk_fde (Some (u32 (d_CIE_pointer f))) pc (pc +w size)
                      (d_end f - Z.of_nat (length buf)) (d_end f)))
      end
    end
  end.

(** [init_fde_from_entry]: the return value and the FDE stored on success.  A
    CIE where an FDE is expected is read through the wrong member of the
    union: its [CIE_id] is taken for the CIE pointer. *)
Definition init_fde_from_entry (cfi : gu_cfi) (g : cfi_globals) (e : Dwarf_CFI_Entry)
  : outcome (Z * option gu_cfi_fde * gu_cfi * cfi_globals) :=
  let ptr := match e with EntryFDE f => d_CIE_pointer f | EntryCIE _ => UINT64_MAX end in
  '(r, cfi, g) ← find_cie cfi g ptr;
  match r with
  | inl ret => mret (ret, None, cfi, g)
  | inr cie =>
    match e with
    | EntryCIE _ => Undef BadPointer
    | EntryFDE f =>
      r ← fill_fde cfi cie f;
      mret (match r with Some fde => (0, Some fde, cfi, g) | None => (-1, None, cfi, g) end)
    end
  end.

(** The address of entry [i] of the FDE array and the item that indexes it. *)
Definition fde_pointer (base : Z) (i : nat) : Z := base + sizeof_gu_cfi_fde * Z.of_nat i.
Definition fde_item (base : Z) (i : nat) (f : gu_cfi_fde) : interval_array_item :=
  mk_item (fde_start f) (fde_end f) (mark_interval_array_pointer_no_free (fde_pointer base i)).

(** The variables of the two building loops: the FDE array (of [fde_count]
    entries, [item_index] of them filled) and the items so far. *)
Record build_state : Type := mk_build {
  b_cfi : gu_cfi;
  b_globals : cfi_globals;
  b_items : list interval_array_item;
}.

(** [cfi->fdes[item_index]], [items[item_index]] and [item_index++]. *)
Definition add_fde (cfi : gu_cfi) (g : cfi_globals) (items : list interval_array_item)
    (fde : gu_cfi_fde) : outcome build_state :=
  let i := length items in
  _ ← of_opt (fdes cfi !! i);
  mret (mk_build (with_fdes cfi (fde_count cfi) (fdes_base cfi) (<[i := fde]> (fdes cfi))) g
          (items ++ [fde_item (fdes_base cfi) i fde])).

(** The [while] loop of [gu_cfi_hdr_init_by_hdr]. *)
Fixpoint hdr_loop (fuel : nat) (eh_frame_ptr count : Z) (buf : list Z) (b : build_state)
  : outcome build_state :=
  match fuel with
  | O => Undef OutOfFuel
  | S fuel =>
    if negb (Z.of_nat (length (b_items b)) <? count) then mret b else
    match buf with
    | [] => mret b
    | _ =>
      r ← decode_read_checked buf DW_EH_PE_sdata4;
      match r with
      | None => mret b
      | Some (_, buf) =>
        r ← decode_read_checked buf DW_EH_PE_sdata4;
        match r with
        | None => mret b
        | Some (addr, buf) =>
          match dwarf_next_cfi (addr -w (eh_frame_ptr +w 4)) with
          | inl _ => mret b
          | inr (_, entry) =>
            '(ret, fde, cfi, g) ← init_fde_from_entry (b_cfi b) (b_globals b) entry;
            match fde with
            | None => mret (mk_build cfi g (b_items b))
            | Some fde =>
              b ← add_fde cfi g (b_items b) fde;
              hdr_loop fuel eh_frame_ptr count buf b
            end
          end
        end
      end
    end
  end.

(** Building the interval array at the end of either loop. *)
Definition finish_index (b : build_state) (count_items : bool) : Z * gu_cfi * cfi_globals :=
  match (gu_interval_array_init alloc_array alloc_sorted (b_items b)).2 with
  | None => (-1, b_cfi b, b_globals b)
  | Some a =>
    let cfi := with_index (b_cfi b) (Some a) in
    (0, if count_items then with_mem_usage cfi (cfi_mem_usage cfi +w
          (Z.of_nat (length (b_items b)) *w sizeof_interval_array_item)) else cfi, b_globals b)
  end.

(** [gu_cfi_hdr_init_by_hdr] *)
Definition gu_cfi_hdr_init_by_hdr (cfi : gu_cfi) (g : cfi_globals) (buf : list Z)
  : outcome (Z * gu_cfi * cfi_globals) :=
  match buf with
  | version :: eh_frame_t :: fde_count_t :: fde_p_t :: rest =>
    if negb (version =? 1) then mret (-1, cfi, g) else
    if (eh_frame_t =? DW_EH_PE_omit) || (fde_count_t =? DW_EH_PE_omit) || (fde_p_t =? DW_EH_PE_omit)
    then mret (-1, cfi, g) else
    let cfi := with_eh_frame cfi true in
    r ← decode_read_checked rest eh_frame_t;
    match r with
    | None => mret (-1, cfi, g)
    | Some (eh_frame_ptr, rest) =>
      r ← decode_read_checked rest fde_count_t;
      match r with
      | None => mret (-1, cfi, g)
      | Some (count, rest) =>
        let cfi := with_fdes cfi count (fdes_base cfi) (fdes cfi) in
        if negb alloc_items then mret (-1, cfi, g) else
        if negb alloc_fdes then mret (-1, cfi, g) else
        let cfi := with_fdes cfi count fdes_addr (replicate (Z.to_nat count) zero_fde) in
        let cfi := with_mem_usage cfi (cfi_mem_usage cfi +w (count *w sizeof_gu_cfi_fde)) in
        b ← hdr_loop (S (length rest)) eh_frame_ptr count rest (mk_build cfi g []);
        mret (finish_index b true)
      end
    end
  | _ => mret (-1, cfi, g)
  end.

(** The counting loop of [gu_cfi_hdr_init_by_scan]. *)
Fixpoint count_fdes (fuel : nat) (off : Z) (n : nat) : outcome nat :=
  match fuel with
  | O => Undef OutOfFuel
  | S fuel =>
    match dwarf_next_cfi off with
    | inl _ => mret n
    | inr (next, EntryCIE _) => count_fdes fuel next n
    | inr (next, EntryFDE _) => count_fdes fuel next (S n)
    end
  end.

(** Its second loop. *)
Fixpoint scan_loop (fuel : nat) (off : Z) (b : build_state) : outcome build_state :=
  match fuel with
  | O => Undef OutOfFuel
  | S fuel =>
    match dwarf_next_cfi off with
    | inl _ => mret b
    | inr (next, EntryCIE _) => scan_loop fuel next b
    | inr (next, (EntryFDE _) as entry) =>
      '(ret, fde, cfi, g) ← init_fde_from_entry (b_cfi b) (b_globals b) entry;
      match fde with
      | None => mret (mk_build cfi g (b_items b))
      | Some fde => b ← add_fde cfi g (b_items b) fde; scan_loop fuel next b
      end
    end
  end.

(** [gu_cfi_hdr_init_by_scan]; [fuel] bounds the entries of the section. *)
Definition gu_cfi_hdr_init_by_scan (fuel : nat) (cfi : gu_cfi) (g : cfi_globals) (is_eh : bool)
  : outcome (Z * gu_cfi * cfi_globals) :=
  let cfi := with_eh_frame cfi is_eh in
  n ← count_fdes fuel 0 0;
  if negb alloc_items then mret (-1, cfi, g) else
  if negb alloc_fdes then mret (-1, cfi, g) else
  let cfi := with_fdes cfi (fde_count cfi) fdes_addr (replicate n zero_fde) in
  b ← scan_loop fuel 0 (mk_build cfi g []);
  mret (finish_index b false).

(** [gu_cfi_init_with_hdr]: [ident] is [elf_getident], [alloc] the allocation
    of the context; the copies of the section data are taken to succeed.  [None]
    is the [failed] label, which releases the context. *)
Definition gu_cfi_init_with_hdr (fuel : nat) (sizeof_Elf_Data : Z) (alloc alloc_ident : bool)
    (ident : option (list Z)) (hdr_scn_data : option (list Z)) (scn_data : list Z)
    (frame_shoff : Z) (is_eh : bool) (g : cfi_globals) : outcome (option gu_cfi * cfi_globals) :=
  if negb alloc then mret (None, g) else
  match ident with
  | None => mret (None, g)
  | Some _ =>
    if negb alloc_ident then mret (None, g) else
    let cfi := mk_cfi None frame_shoff false sizeof_Elf_Data (Z.of_nat (length scn_data)) ∅ 0 0 []
                 scn_data in
    '(ret, cfi, g) ← (match hdr_scn_data with
                      | Some hdr => gu_cfi_hdr_init_by_hdr cfi g hdr
                      | None => gu_cfi_hdr_init_by_scan fuel cfi g is_eh
                      end);
    mret (if negb (ret =? 0) then None else Some cfi, g)
  end.
End build.

(** ** Choosing the section: [gu_cfi_init] *)
Inductive frame_scn : Type :=
  | ELF_SCN_TYPE_DWARF_FRAME | ELF_SCN_TYPE_EH_FRAME | ELF_SCN_TYPE_ZDWARF_FRAME.

#[export] Instance frame_scn_eq_dec : EqDecision frame_scn.
Proof. solve_decision. Defined.

(** The sections of the ELF file: the sizes of [.debug_frame] and [.eh_frame]
    when present, and whether the others are. *)
Record cfi_sections : Type := mk_sections {
  scn_dwarf_frame : option Z;
  scn_eh_frame : option Z;
  scn_zdwarf_frame : bool;
  scn_go_build_id : bool;
}.

(** The section used, and whether its [.eh_frame_hdr] is consulted. *)
Definition gu_cfi_select (s : cfi_sections) : option (frame_scn * bool) :=
  if negb (bool_decide (is_Some (scn_dwarf_frame s))) && negb (bool_decide (is_Some (scn_eh_frame s)))
     && negb (scn_zdwarf_frame s) then None else
  let scn_type :=
    match scn_dwarf_frame s, scn_eh_frame s with
    | Some dwarf_size, Some eh_size =>
      if dwarf_size <? eh_size then ELF_SCN_TYPE_EH_FRAME else ELF_SCN_TYPE_DWARF_FRAME
    | Some _, None => ELF_SCN_TYPE_DWARF_FRAME
    | None, Some _ => ELF_SCN_TYPE_EH_FRAME
    | None, None => ELF_SCN_TYPE_ZDWARF_FRAME
    end in
  let use_hdr := bool_decide (scn_type = ELF_SCN_TYPE_EH_FRAME) &&
    (negb (scn_go_build_id s) ||
     (scn_go_build_id s && negb (scn_zdwarf_frame s) &&
      negb (bool_decide (is_Some (scn_dwarf_frame s))))) in
  Some (scn_type, use_hdr).

(** [gu_cfi_init]: [getshdr] is the address [gelf_getshdr] reports for a
    section, [getdata] its (decompressed) contents and [hdr_data] those of
    [.eh_frame_hdr]. *)
Definition gu_cfi_init `{Arch} `{Qsort} malloc_ok alloc_cie alloc_items alloc_fdes alloc_array
    alloc_sorted dwarf_next_cfi fdes_addr fuel sizeof_Elf_Data alloc alloc_ident ident
    (s : cfi_sections) (getshdr : frame_scn -> option Z) (getdata : frame_scn -> option (list Z))
    (hdr_data : option (list Z)) (g : cfi_globals) : outcome (option gu_cfi * cfi_globals) :=
  match gu_cfi_select s with
  | None => mret (None, g)
  | Some (scn_type, use_hdr) =>
    match getshdr scn_type with
    | None => mret (None, g)
    | Some sh_addr =>
      match getdata scn_type with
      | None => mret (None, g)
      | Some scn_data =>
        gu_cfi_init_with_hdr malloc_ok alloc_cie alloc_items alloc_fdes alloc_array alloc_sorted
          dwarf_next_cfi fdes_addr fuel sizeof_Elf_Data alloc alloc_ident ident
          (if use_hdr then hdr_data else None) scn_data sh_addr
          (bool_decide (scn_type = ELF_SCN_TYPE_EH_FRAME)) g
      end
    end
  end.

(** What [gu_cfi_destroy] frees besides the context and its copies of the
    section: the payloads of the index, the FDE array, and every CIE. *)
Record cfi_freed : Type := mk_freed {
  freed_payloads : list Z;
  freed_fdes : option Z;
  freed_cies : list Z;
}.
Definition gu_cfi_destroy (cfi : option gu_cfi) : option cfi_freed :=
  match cfi with
  | None => None
  | Some c =>
    Some (mk_freed (gu_interval_array_destroy (hdr_interval_array c))
            (if fdes_base c =? 0 then None else Some (fdes_base c))
            ((map_to_list (cie_list c)).*1))
  end.

(** The FDE a payload pointer designates. *)
Definition fde_at (cfi : gu_cfi) (p : Z) : option gu_cfi_fde :=
  if (fdes_base cfi <=? p) && ((p - fdes_base cfi) mod sizeof_gu_cfi_fde =? 0) then
    fdes cfi !! Z.to_nat ((p - fdes_base cfi) / sizeof_gu_cfi_fde)
  else None.

(** ** The building loops *)

(** The entries of a finished index: the FDEs stored, in order. *)
Definition fde_items (base : Z) (fs : list gu_cfi_fde) : list interval_array_item :=
  imap (fde_item base) fs.

Definition fde_has_cie (cies : gmap Z gu_cfi_cie) (f : gu_cfi_fde) : Prop :=
  exists k cie, fde_cie f = Some k /\ cies !! k = Some cie.

(** [cfi'] differs from [cfi] by added CIEs and accounting only. *)
Record extends (cfi cfi' : gu_cfi) : Prop := {
  ext_cies : cie_list cfi ⊆ cie_list cfi';
  ext_fdes : fdes cfi' = fdes cfi;
  ext_base : fdes_base cfi' = fdes_base cfi;
  ext_data : d_buf cfi' = d_buf cfi;
}.

#[export] Instance extends_preorder : PreOrder extends.
Proof.
  split.
  - intros c. split; done.
  - intros c1 c2 c3 [] []. split; [by etrans|congruence..].
Qed.

Record build_ok (b : build_state) : Prop := {
  bo_len : (length (b_items b) <= length (fdes (b_cfi b)))%nat;
  bo_items : b_items b = fde_items (fdes_base (b_cfi b)) (take (length (b_items b)) (fdes (b_cfi b)));
  bo_cies : Forall (fde_has_cie (cie_list (b_cfi b))) (take (length (b_items b)) (fdes (b_cfi b)));
}.

Section loops.
Context `{Arch} `{Qsort}.
Variable malloc_ok : cfi_heap -> bool.
Variable alloc_cie : bool.
Variable dwarf_next_cfi : next_cfi.

Lemma init_cie_extends cfi g off d r cfi' g' :
  init_cie_from_buf malloc_ok alloc_cie cfi g off d = Done (r, cfi', g') ->
  extends cfi cfi' /\ cie_list cfi' = cie_list cfi.
Proof.
  unfold init_cie_from_buf. destruct alloc_cie; cbn [negb]; [|by intros [= <- <- <-]].
  set (cfi1 := with_mem_usage _ _). assert (extends cfi cfi1 /\ cie_list cfi1 = cie_list cfi) by done.
  clearbody cfi1. destruct (augmentation_loop _ _) as [s|]; run; [|done].
  destruct (init_default _ _ _) as [g1|]; run; [|done].
  destruct (init_calc_ctx_by_ins _ _ _ _ _ _ _ _) as [[[ret ctx] h]|]; run; [|done].
  by destruct (negb _); intros [= <- <- <-].
Qed.

Lemma find_cie_extends cfi g ptr r cfi' g' :
  find_cie malloc_ok alloc_cie dwarf_next_cfi cfi g ptr = Done (r, cfi', g') ->
  extends cfi cfi' /\
  forall cie, r = inr cie -> cie_list cfi' !! u32 ptr = Some cie.
Proof.
  unfold find_cie. destruct (cie_list cfi !! u32 ptr) as [cie|] eqn:Ek.
  { intros [= <- <- <-]. split; [done|]. by intros ? [= <-]. }
  destruct (dwarf_next_cfi ptr) as [ret|[next [d|f]]]; [by intros [= <- <- <-]| |by intros [= <- <- <-]].
  destruct (init_cie_from_buf _ _ _ _ _ _) as [[[r1 cfi1] g1]|u] eqn:Ei; run; [|done].
  destruct (init_cie_extends _ _ _ _ _ _ _ Ei) as [Hext Hl].
  destruct r1 as [cie|]; run; [|done]. intros [= <- <- <-]. split.
  - destruct Hext as [H1 H2 H3 H4]. split; try done. cbn. rewrite Hl.
    by apply insert_subseteq.
  - intros ? [= <-]. cbn. by rewrite lookup_insert_eq.
Qed.

Lemma fill_fde_cie cfi cie f fde :
  fill_fde cfi cie f = Done (Some fde) -> fde_cie fde = Some (u32 (d_CIE_pointer f)).
Proof.
  unfold fill_fde.
  destruct (decode_read_checked _ _) as [[[pc b1]|]|]; run; [|done..].
  destruct (decode_read_checked b1 _) as [[[size b2]|]|]; run; [|done..].
  destruct (if sized_augmentation_data cie then _ else _) as [[b3|]|]; run; [|done..].
  destruct (_ <? _); [done|]. by intros [= <-].
Qed.

Lemma init_fde_extends cfi g e ret r cfi' g' :
  init_fde_from_entry malloc_ok alloc_cie dwarf_next_cfi cfi g e = Done (ret, r, cfi', g') ->
  extends cfi cfi' /\ forall fde, r = Some fde -> fde_has_cie (cie_list cfi') fde.
Proof.
  unfold init_fde_from_entry. set (ptr := match e with EntryFDE _ => _ | _ => _ end).
  destruct (find_cie _ _ _ _ _ _) as [[[r1 cfi1] g1]|u] eqn:Ef; run; [|done].
  destruct (find_cie_extends _ _ _ _ _ _ Ef) as [Hext Hcie].
  destruct r1 as [ret1|cie]; [by intros [= <- <- <- <-]|].
  destruct e as [c|f]; [done|]. destruct (fill_fde cfi1 cie f) as [[fde|]|] eqn:Efill; run;
    intros [= <- <- <- <-]; (split; [done|]); [|done].
  intros ? [= <-]. exists (u32 ptr), cie. split; [by eapply fill_fde_cie|]. by apply Hcie.
Qed.

Lemma fde_has_cie_mono cies cies' f : cies ⊆ cies' -> fde_has_cie cies f -> fde_has_cie cies' f.
Proof. intros Hs (k & cie & Hk & Hc). exists k, cie. split; [done|]. by eapply lookup_weaken. Qed.

Lemma build_ok_extends b cfi' g' :
  build_ok b -> extends (b_cfi b) cfi' -> build_ok (mk_build cfi' g' (b_items b)).
Proof.
  intros [Hl Hi Hc] [E1 E2 E3 _]. split; cbn; rewrite ?E2, ?E3; try done.
  eapply Forall_impl; [exact Hc|]. intros f. by apply fde_has_cie_mono.
Qed.

Lemma add_fde_ok cfi g items fde b :
  build_ok (mk_build cfi g items) -> fde_has_cie (cie_list cfi) fde ->
  add_fde cfi g items fde = Done b -> build_ok b.
Proof.
  intros [Hl Hi Hc] Hf. cbn [b_cfi b_items] in *. unfold add_fde.
  destruct (fdes cfi !! length items) as [f0|] eqn:E0; run; [|done]. intros [= <-].
  pose proof (lookup_lt_Some _ _ _ E0) as Hlt.
  assert (Ht : take (S (length items)) (<[length items := fde]> (fdes cfi)) =
    take (length items) (fdes cfi) ++ [fde]).
  { rewrite (take_S_r _ _ fde) by (by apply list_lookup_insert_eq). f_equal.
    by rewrite take_insert_ge. }
  assert (Hlen : length (take (length items) (fdes cfi)) = length items) by (rewrite length_take; lia).
  split; cbn [b_cfi b_items fdes with_fdes fdes_base cie_list]; rewrite ?length_app; cbn [length];
    rewrite ?Nat.add_1_r.
  - rewrite length_insert. lia.
  - rewrite Ht. unfold fde_items in *. rewrite imap_app. cbn. rewrite Hlen, Nat.add_0_r. by rewrite <- Hi.
  - rewrite Ht. apply Forall_app. by split; [|constructor].
Qed.

Lemma build_step_ok b e ret r cfi' g' :
  build_ok b ->
  init_fde_from_entry malloc_ok alloc_cie dwarf_next_cfi (b_cfi b) (b_globals b) e =
    Done (ret, r, cfi', g') ->
  build_ok (mk_build cfi' g' (b_items b)) /\
  forall fde b', r = Some fde -> add_fde cfi' g' (b_items b) fde = Done b' -> build_ok b'.
Proof.
  intros Hb Ei. destruct (init_fde_extends _ _ _ _ _ _ _ Ei) as [Hext Hf].
  assert (build_ok (mk_build cfi' g' (b_items b))) by by apply build_ok_extends.
  split; [done|]. intros fde b' -> Ha. eapply add_fde_ok; [done| |exact Ha]. by apply Hf.
Qed.

Lemma hdr_loop_ok fuel p count buf b b' :
  build_ok b -> hdr_loop malloc_ok alloc_cie dwarf_next_cfi fuel p count buf b = Done b' -> build_ok b'.
Proof.
  revert buf b. induction fuel as [|fuel IH]; intros buf b Hb; cbn [hdr_loop]; [done|].
  destruct (negb _); [by intros [= <-]|]. destruct buf as [|x buf]; [by intros [= <-]|].
  destruct (decode_read_checked (x :: buf) _) as [[[v b1]|]|]; run; [|by intros [= <-]|done].
  destruct (decode_read_checked b1 _) as [[[addr b2]|]|]; run; [|by intros [= <-]|done].
  destruct (dwarf_next_cfi _) as [|[next e]]; [by intros [= <-]|].
  destruct (init_fde_from_entry _ _ _ _ _ _) as [[[[ret r] cfi'] g']|] eqn:Ei; run; [|done].
  destruct (build_step_ok _ _ _ _ _ _ Hb Ei) as [H1 H2].
  destruct r as [fde|]; [|by intros [= <-]].
  destruct (add_fde _ _ _ _) as [b1'|] eqn:Ea; run; [|done]. apply IH. by eapply H2.
Qed.

Lemma scan_loop_ok fuel off b b' :
  build_ok b -> scan_loop malloc_ok alloc_cie dwarf_next_cfi fuel off b = Done b' -> build_ok b'.
Proof.
  revert off b. induction fuel as [|fuel IH]; intros off b Hb; cbn [scan_loop]; [done|].
  destruct (dwarf_next_cfi off) as [|[next [c|f]]]; [by intros [= <-]|by apply IH|].
  destruct (init_fde_from_entry _ _ _ _ _ _) as [[[[ret r] cfi'] g']|] eqn:Ei; run; [|done].
  destruct (build_step_ok _ _ _ _ _ _ Hb Ei) as [H1 H2].
  destruct r as [fde|]; [|by intros [= <-]].
  destruct (add_fde _ _ _ _) as [b1'|] eqn:Ea; run; [|done]. apply IH. by eapply H2.
Qed.

(** *** The scan *)

(** Entries lie inside a section of [size] bytes and are visited in order. *)
Definition progresses (size : Z) : Prop :=
  forall off next e, 0 <= off -> dwarf_next_cfi off = inr (next, e) -> off < next <= size.

Lemma count_fdes_ok size fuel off n :
  progresses size -> 0 <= off <= size -> size - off < Z.of_nat fuel ->
  exists m, count_fdes dwarf_next_cfi fuel off n = Done m.
Proof.
  intros Hp. revert off n. induction fuel as [|fuel IH]; intros off n Ho Hf; [lia|]. cbn [count_fdes].
  destruct (dwarf_next_cfi off) as [ret|[next [c|f]]] eqn:E; [by eexists| |];
    (apply Hp in E; [|lia]); apply IH; lia.
Qed.

Lemma count_fdes_mono fuel off n m :
  count_fdes dwarf_next_cfi fuel off n = Done m -> (n <= m)%nat.
Proof.
  revert off n. induction fuel as [|fuel IH]; intros off n; cbn [count_fdes]; [done|].
  destruct (dwarf_next_cfi off) as [ret|[next [c|f]]]; [by intros [= <-]|by apply IH|].
  intros Hm%IH. lia.
Qed.

Lemma scan_loop_fault fuel off n m b u :
  count_fdes dwarf_next_cfi fuel off n = Done m ->
  (length (b_items b) + (m - n) <= length (fdes (b_cfi b)))%nat ->
  scan_loop malloc_ok alloc_cie dwarf_next_cfi fuel off b = Undef u ->
  exists cfi g f, init_fde_from_entry malloc_ok alloc_cie dwarf_next_cfi cfi g (EntryFDE f) = Undef u.
Proof.
  revert off n b. induction fuel as [|fuel IH]; intros off n b; cbn [count_fdes scan_loop]; [done|].
  destruct (dwarf_next_cfi off) as [ret|[next [c|f]]]; [done|by apply IH|]. intros Hc Hlen.
  pose proof (count_fdes_mono _ _ _ _ Hc) as Hmn.
  destruct (init_fde_from_entry _ _ _ _ _ _) as [[[[ret r] cfi'] g']|u'] eqn:Ei; run;
    [|intros [= <-]; eauto].
  destruct (init_fde_extends _ _ _ _ _ _ _ Ei) as [[_ Hf _ _] _].
  destruct r as [fde|]; [|done]. unfold add_fde. rewrite Hf.
  destruct (lookup_lt_is_Some_2 (fdes (b_cfi b)) (length (b_items b))) as [f0 ->]; [lia|]. run.
  apply (IH _ _ _ Hc). cbn. rewrite length_app, length_insert, ?Hf. cbn. lia.
Qed.
End loops.

(** ** The finished index *)
Section index.
Context `{Arch} `{Qsort}.

(** An index over the stored FDEs [fs], each of which has its CIE. *)
Definition indexes (cfi : gu_cfi) (fs : list gu_cfi_fde) : Prop :=
  (exists n, fs = take n (fdes cfi)) /\ fs <> [] /\ Forall (fde_has_cie (cie_list cfi)) fs /\
  hdr_interval_array cfi = (gu_interval_array_init true true (fde_items (fdes_base cfi) fs)).2.

Lemma finish_index_ok alloc_array alloc_sorted b count cfi g :
  build_ok b -> finish_index alloc_array alloc_sorted b count = (0, cfi, g) ->
  exists fs, indexes cfi fs.
Proof.
  intros [Hl Hi Hc]. unfold finish_index.
  assert (Hinit : forall a, (gu_interval_array_init alloc_array alloc_sorted (b_items b)).2 = Some a ->
    (gu_interval_array_init true true (b_items b)).2 = Some a /\ b_items b <> []).
  { intros a. unfold gu_interval_array_init. destruct (decide (b_items b = [])); [done|].
    by destruct alloc_array, alloc_sorted. }
  destruct ((gu_interval_array_init _ _ (b_items b)).2) as [a|]; [|done].
  destruct (Hinit a eq_refl) as [E Hne]. intros [= <- <-].
  exists (take (length (b_items b)) (fdes (b_cfi b))).
  rewrite Hi in E. split_and!; destruct count; cbn; eauto.
  all: intros E0; rewrite E0 in Hi; done.
Qed.

Lemma fde_item_lookup base fs i f :
  fs !! i = Some f -> fde_items base fs !! i = Some (fde_item base i f).
Proof. intros Hi. unfold fde_items. by rewrite list_lookup_imap, Hi. Qed.

Lemma fde_at_pointer cfi i :
  fde_at cfi (fde_pointer (fdes_base cfi) i) = fdes cfi !! i.
Proof.
  unfold fde_at, fde_pointer. rewrite Z.add_simpl_l. unfold sizeof_gu_cfi_fde.
  destruct (Z.leb_spec (fdes_base cfi) (fdes_base cfi + 40 * Z.of_nat i)); [|lia].
  rewrite Z.mul_comm, Z.mod_mul, Z.div_mul, Nat2Z.id by lia. done.
Qed.

Lemma index_lookup cfi fs pc i f :
  indexes cfi fs -> disjoint_items (fde_items (fdes_base cfi) fs) ->
  0 <= fdes_base cfi -> fdes_base cfi + sizeof_gu_cfi_fde * Z.of_nat (length fs) <= 2 ^ 63 ->
  fs !! i = Some f -> fde_start f <= pc < fde_end f ->
  exists r item, gu_interval_array_search (hdr_interval_array cfi) pc =
      Done (r, item, hdr_interval_array cfi) /\ 0 <= r /\
    private item = fde_pointer (fdes_base cfi) i /\
    fde_at cfi (get_interval_array_pointer (private item)).1 = Some f.
Proof.
  intros ([n Hfs] & Hne & _ & Ha) Hd Hb0 Hb63 Hi Hpc.
  set (items := fde_items (fdes_base cfi) fs) in *.
  pose proof (fde_item_lookup (fdes_base cfi) fs i f Hi) as Hit. fold items in Hit.
  destruct (search_covering items) as (a & E & Hs); [by intros E0; rewrite E0 in Hit|done|].
  rewrite Ha, E. specialize (Hs pc).
  destruct (di_end _ Hd (fde_item (fdes_base cfi) i f)) as [Hu He]; [by eapply list_elem_of_lookup_2|].
  cbn [end_ start fde_item] in Hu, He.
  pose proof (di_start _ Hd (fde_item (fdes_base cfi) i f) (list_elem_of_lookup_2 _ _ _ Hit)) as Hst.
  cbn [start fde_item] in Hst.
  rewrite (covering_unique items (fde_item (fdes_base cfi) i f)) in Hs;
    [|done|by eapply list_elem_of_lookup_2|].
  - destruct Hs as [j Hs]. do 2 eexists. split; [exact Hs|]. split; [lia|]. cbn [private fde_item].
    pose proof (lookup_lt_Some _ _ _ Hi).
    assert (Hp : 0 <= fde_pointer (fdes_base cfi) i < 2 ^ 63)
      by (unfold fde_pointer, sizeof_gu_cfi_fde in *; lia).
    destruct (tag_roundtrip _ Hp) as [-> Hp2]. cbn [fst]. split; [done|]. rewrite Hp2. cbn [fst].
    rewrite fde_at_pointer. subst fs. by apply lookup_take_Some in Hi as [Hi _].
  - unfold item_contains, closed_item, effective_end. cbn [start end_ fde_item].
    destruct (Z.eqb_spec (fde_end f) 0); [lia|].
    destruct (Z.leb_spec (fde_start f) pc); [|lia]. by destruct (Z.ltb_spec pc (fde_end f)); [|lia].
Qed.
End index.

(** ** FDE contents *)
Lemma section_app pre b post : section (pre ++ b ++ post) (Z.of_nat (length pre))
  (Z.of_nat (length pre + length b)) = b.
Proof.
  unfold section. rewrite Nat2Z.id, drop_app_length.
  replace (Z.to_nat _) with (length b) by lia. by rewrite take_app_length.
Qed.

Lemma decode_sdata4 v rest :
  - 2 ^ 31 <= v < 2 ^ 31 ->
  decode_read_checked (le_bytes 4 (u32 v) ++ rest) (Z.lor DW_EH_PE_pcrel DW_EH_PE_sdata4) =
    Done (Some (u64 v, rest)).
Proof.
  intros Hv. unfold decode_read_checked, decode_read_fits, decode_read. cbn zeta. eval_ifs.
  rewrite length_app, length_le_bytes.
  destruct (Z.leb_spec 4 (Z.of_nat (4 + length rest))); [|lia].
  rewrite decode_fixed_app by apply length_le_bytes. do 3 f_equal.
  rewrite le_value_bytes by (apply (wrap_range 32 v); lia).
  rewrite swrap_wrap, swrap_small by (change (32 - 1) with 31; lia). done.
Qed.

(** ** Properties *)


(** Scanning a section whose entries advance terminates, and never stores
    past the FDE array sized by the counting pass: any fault of the scan is a
    fault of loading one entry. *)
Theorem scan_stays_in_array `{Arch} `{Qsort} malloc_ok alloc_cie alloc_items alloc_fdes alloc_array
    alloc_sorted dwarf_next_cfi fdes_addr size cfi g is_eh u :
  0 <= size -> progresses dwarf_next_cfi size ->
  gu_cfi_hdr_init_by_scan malloc_ok alloc_cie alloc_items alloc_fdes alloc_array alloc_sorted
    dwarf_next_cfi fdes_addr (S (Z.to_nat size)) cfi g is_eh = Undef u ->
  exists cfi0 g0 f,
    init_fde_from_entry malloc_ok alloc_cie dwarf_next_cfi cfi0 g0 (EntryFDE f) = Undef u.
Proof.
  intros Hsz Hp. unfold gu_cfi_hdr_init_by_scan.
  destruct (count_fdes_ok dwarf_next_cfi size (S (Z.to_nat size)) 0 0 Hp) as [m Hm]; [lia..|].
  rewrite Hm. run. destruct alloc_items; [|done]. destruct alloc_fdes; [|done]. cbn [negb].
  destruct (scan_loop _ _ _ _ _ _) as [b|u'] eqn:El; run; [done|]. intros [= <-].
  eapply scan_loop_fault; [exact Hm| |exact El]. cbn. rewrite length_replicate. lia.
Qed.

(** An FDE in the usual [pcrel|sdata4] encoding, with sized augmentation
    data, is read to its absolute pc range and its instruction bytes. *)
Theorem fde_pcrel_decoded cfi cie pre alen aug ins post delta size ptr :
  fde_encoding cie = Z.lor DW_EH_PE_pcrel DW_EH_PE_sdata4 -> sized_augmentation_data cie = true ->
  - 2 ^ 31 <= delta < 2 ^ 31 -> 0 <= size < 2 ^ 31 ->
  uleb alen (Z.of_nat (length aug)) ->
  d_buf cfi = pre ++ (le_bytes 4 (u32 delta) ++ le_bytes 4 (u32 size) ++ alen ++ aug ++ ins) ++ post ->
  0 <= sh_off cfi + Z.of_nat (length pre) + delta ->
  sh_off cfi + Z.of_nat (length pre) + delta + size < 2 ^ 64 ->
  let start := Z.of_nat (length pre) in
  let end_ := start + 8 + Z.of_nat (length alen + length aug + length ins) in
  fill_fde cfi cie (mk_dwarf_fde ptr start end_) =
    Done (Some (mk_fde (Some (u32 ptr)) (sh_off cfi + start + delta) (sh_off cfi + start + delta + size)
                  (end_ - Z.of_nat (length ins)) end_)).
Proof.
  intros Henc Hsized Hd Hs Ha Hbuf Hlo Hhi start end_. unfold fill_fde. cbn [d_start d_end d_CIE_pointer].
  assert (section (d_buf cfi) start end_ =
    le_bytes 4 (u32 delta) ++ le_bytes 4 (u32 size) ++ alen ++ aug ++ ins) as ->.
  { rewrite Hbuf. set (b := le_bytes 4 (u32 delta) ++ _). subst start.
    replace end_ with (Z.of_nat (length pre + length b)); [apply section_app|].
    subst end_ b. rewrite !length_app, !length_le_bytes. lia. }
  rewrite Henc, decode_sdata4 by done. run. rewrite decode_sdata4 by lia. run.
  rewrite Hsized. run. rewrite (uleb_reads alen (Z.of_nat (length aug)) Ha). run.
  rewrite block_fits_app. cbn [negb]. rewrite Nat2Z.id, drop_app_length.
  change (Z.land (Z.lor DW_EH_PE_pcrel DW_EH_PE_sdata4) 0x70 =? DW_EH_PE_pcrel) with true. cbv match.
  assert (sh_off cfi +w start +w u64 delta = sh_off cfi + start + delta) as ->.
  { unfold add64. rewrite wrap_add_r, wrap_add_l. apply wrap_small. unfold in_width. lia. }
  assert ((sh_off cfi + start + delta) +w u64 size = sh_off cfi + start + delta + size) as ->.
  { unfold add64. rewrite wrap_add_r. apply wrap_small. unfold in_width. lia. }
  by destruct (Z.ltb_spec (sh_off cfi + start + delta + size) (sh_off cfi + start + delta)); [lia|].
Qed.

(** ** Witnesses *)

(** A section with a CIE at offset 0 and two FDEs. *)
Definition two_fdes : list Z :=
  replicate 16 0 ++ (le_bytes 4 0x100 ++ le_bytes 4 0x20 ++ [0] ++ [DW_CFA_nop]) ++
  (le_bytes 4 0x200 ++ le_bytes 4 0x30 ++ [0] ++ [DW_CFA_nop]).
Definition sample_next : next_cfi := fun off =>
  if off =? 0 then inr (16, EntryCIE (mk_dwarf_cie 1 (-8) 16 [CH_z; CH_R] 8 0 0)) else
  if off =? 16 then inr (26, EntryFDE (mk_dwarf_fde 0 16 26)) else
  if off =? 26 then inr (36, EntryFDE (mk_dwarf_fde 0 26 36)) else inl 1.
Definition sample_section_cfi : gu_cfi :=
  mk_cfi None 0x400000 true 0 0 ∅ 0 0 [] (<[8%nat := 0x1b]> two_fdes).

Abbreviation sample_scan :=
  (gu_cfi_hdr_init_by_scan (H := linux_x86_64) (H0 := merge_qsort) (fun _ => true) true
    true true true true sample_next 0x5000 41 sample_section_cfi
    (mk_globals false zero_calc_ctx empty_heap) true).


(** libdw failing at offset 0 after one FDE without a CIE. *)
Definition orphan_next : next_cfi := fun off =>
  if off =? 0 then inr (10, EntryFDE (mk_dwarf_fde 20 0 10)) else
  if off =? 20 then inr (30, EntryCIE (mk_dwarf_cie 1 (-8) 16 [CH_R] 50 20 30)) else inl 1.

Lemma scan_stays_in_array_witness :
  exists cfi0 g0 f, init_fde_from_entry (H := linux_x86_64) (fun _ => true) true orphan_next cfi0 g0
    (EntryFDE f) = Undef OutOfBounds.
Proof.
  apply (scan_stays_in_array (H := linux_x86_64) (H0 := merge_qsort) (fun _ => true) true true true
    true true orphan_next 0x5000 40 sample_section_cfi (mk_globals false zero_calc_ctx empty_heap)
    true OutOfBounds).
  - lia.
  - intros off next e Hoff. unfold orphan_next.
    destruct (Z.eqb_spec off 0); [intros [= <- <-]; lia|].
    destruct (Z.eqb_spec off 20); [intros [= <- <-]; lia|done].
  - vm_compute. reflexivity.
Defined.

Definition sample_pre : list Z := <[8%nat := 0x1b]> (replicate 16 0).

Lemma fde_pcrel_decoded_witness :
  exists fde, fill_fde sample_section_cfi (mk_cie 0 1 (-8) 16 0 0 0 0x1b 0 true false zero_calc_ctx)
    (mk_dwarf_fde 0 (Z.of_nat (length sample_pre)) (Z.of_nat (length sample_pre) + 8 + 2)) =
    Done (Some fde) /\ fde_start fde = 0x400110 /\ fde_end fde = 0x400130 /\ instructions fde = 25.
Proof.
  eexists. split.
  - apply (fde_pcrel_decoded sample_section_cfi
      (mk_cie 0 1 (-8) 16 0 0 0 0x1b 0 true false zero_calc_ctx) sample_pre [0] [] [DW_CFA_nop]
      (le_bytes 4 0x200 ++ le_bytes 4 0x30 ++ [0] ++ [DW_CFA_nop]) 0x100 0x20 0); try done.
    repeat split; cbn; lia.
  - vm_compute. done.
Defined.

(** A CIE whose initial program does not decode makes [init_fde_from_entry]
    dereference the [NULL] that [init_cie_from_buf] returned, instead of
    rejecting the FDE. *)
Theorem malformed_cie_crashes :
  exists cfi' g', init_cie_from_buf (H := linux_x86_64) (fun _ => true) true
    (mk_cfi None 0 true 0 0 ∅ 0 0 [] [DW_CFA_def_cfa]) (mk_globals false zero_calc_ctx empty_heap) 0
    (mk_dwarf_cie 1 (-8) 16 [] 0 0 1) = Done (None, cfi', g') /\
  init_fde_from_entry (H := linux_x86_64) (fun _ => true) true
    (fun _ => inr (1, EntryCIE (mk_dwarf_cie 1 (-8) 16 [] 0 0 1)))
    (mk_cfi None 0 true 0 0 ∅ 0 0 [] [DW_CFA_def_cfa]) (mk_globals false zero_calc_ctx empty_heap)
    (EntryFDE (mk_dwarf_fde 0 0 1)) = Undef BadPointer.
Proof. do 2 eexists. split; [vm_compute; reflexivity|]. vm_compute. reflexivity. Qed.
