(* ===== verification/CfiParse.v ===== *)
(** * Decoding the row of a pc: [src/gu_cfi_helper.c], lines 1065-1129, 1464-1560

    [gu_cfi_parse_cfi_ex] finds the FDE of a program counter, runs its
    call-frame program and leaves the operations of the row in the global
    scratch arrays; a direct-mapped cache of 64 rows short-cuts the work. *)

From S2P Require Import Prelude Types IntervalArray Arch CfiDecode CfiProgram CfiOps Cfi.

Definition GU_CFI_PARSE_CACHE_SIZE : Z := 64.
Definition GU_CFI_PARSE_CACHE_OPS_MAX : Z := 8.

(** ** The parse cache *)

(** [struct gu_cfi_parse_cache_entry]; a [gu_cfi_cached_ops] is the list of its
    first [ops_size] operations. *)
Record parse_cache_entry : Type := mk_entry {
  ce_valid : bool;
  ce_pc : Z;
  ce_signal_frame : bool;
  ce_ops : ops_scratch;
}.
Definition no_ops : ops_scratch := mk_scratch [] [] [] [].
Definition empty_entry : parse_cache_entry := mk_entry false 0 false no_ops.

Definition gu_cfi_parse_cache_index (pc : Z) : Z :=
  Z.land (Z.lxor (Z.shiftr pc 4) (Z.shiftr pc 12)) (GU_CFI_PARSE_CACHE_SIZE - 1).

Definition gu_cfi_ops_cacheable (ops : list Dwarf_Op) : bool :=
  Z.of_nat (length ops) <=? GU_CFI_PARSE_CACHE_OPS_MAX.

(** [gu_cfi_cache_copy_to_scratch] and [gu_cfi_cache_copy_from_scratch]: the
    copies stay inside the [DWARF_OPS_MAX] and the
    [GU_CFI_PARSE_CACHE_OPS_MAX] entries of their destinations. *)
Definition copy_ops (room : Z) (ops : list Dwarf_Op) : outcome (list Dwarf_Op) :=
  if Z.of_nat (length ops) <=? room then mret ops else Undef OutOfBounds.
Definition copy_scratch (room : Z) (s : ops_scratch) : outcome ops_scratch :=
  rip ← copy_ops room (rip_ops s);
  rbp ← copy_ops room (rbp_ops s);
  rsp ← copy_ops room (rsp_ops s);
  cfa ← copy_ops room (cfa_ops s);
  mret (mk_scratch rip rbp rsp cfa).

(** [gu_cfi_parse_cache_load]: [None] is a miss. *)
Definition gu_cfi_parse_cache_load (cache : list parse_cache_entry) (pc : Z)
  : outcome (option (bool * ops_scratch)) :=
  entry ← of_opt (cache !! Z.to_nat (gu_cfi_parse_cache_index pc));
  if negb (ce_valid entry) || negb (ce_pc entry =? pc) then mret None else
  s ← copy_scratch DWARF_OPS_MAX (ce_ops entry);
  mret (Some (ce_signal_frame entry, s)).

(** [gu_cfi_parse_cache_store] *)
Definition gu_cfi_parse_cache_store (cache : list parse_cache_entry) (s : ops_scratch) (pc : Z)
    (signal : bool) : outcome (list parse_cache_entry) :=
  if negb (gu_cfi_ops_cacheable (cfa_ops s)) then mret cache else
  if negb (gu_cfi_ops_cacheable (rip_ops s) && gu_cfi_ops_cacheable (rbp_ops s) &&
           gu_cfi_ops_cacheable (rsp_ops s)) then mret cache else
  let i := Z.to_nat (gu_cfi_parse_cache_index pc) in
  _ ← of_opt (cache !! i);
  ops ← copy_scratch GU_CFI_PARSE_CACHE_OPS_MAX s;
  mret (<[i := mk_entry true pc signal ops]> cache).

(** ** Parsing *)

(** The state a parse reads and writes besides the context. *)
Record parse_state : Type := mk_parse {
  ps_cache : list parse_cache_entry;
  ps_scratch : ops_scratch;
  ps_heap : cfi_heap;
}.

(** [while (calc_ctx.prev)]: free the remembered states. *)
Fixpoint free_chain (fuel : nat) (h : cfi_heap) (p : option Z) : outcome cfi_heap :=
  match p with
  | None => mret h
  | Some a =>
    match fuel with
    | O => Undef OutOfFuel
    | S fuel => c ← deref (heap_cells h !! a); free_chain fuel (heap_free h a) (prev c)
    end
  end.

Section parse.
Context `{Arch}.
Variable malloc_ok : cfi_heap -> bool.

(** From the row to the scratch arrays: [None] is the failure of the CFA. *)
Definition row_ops (cfi : gu_cfi) (c : gu_cfi_calc_ctx) : outcome (option ops_scratch) :=
  cfa ← gu_cfi_get_cfa_ops (d_buf cfi) c;
  match cfa with
  | None => mret None
  | Some cfa =>
    rsp ← gu_cfi_get_regs_ops (d_buf cfi) REG_TYPE_RSP c;
    let rsp := default cfa rsp in
    rip ← gu_cfi_get_regs_ops (d_buf cfi) REG_TYPE_RIP c;
    rbp ← gu_cfi_get_regs_ops (d_buf cfi) REG_TYPE_RBP c;
    mret (Some (mk_scratch (default [] rip) (default [] rbp) rsp cfa))
  end.

(** The part of [gu_cfi_parse_cfi_ex] after a cache miss: the return value, the
    signal-frame flag, the row and the heap. *)
Definition parse_uncached (cfi : gu_cfi) (h : cfi_heap) (pc : Z)
  : outcome (Z * bool * ops_scratch * cfi_heap) :=
  match hdr_interval_array cfi with
  | None => mret (-1, false, no_ops, h)
  | Some a =>
    '(ret, item, _) ← gu_interval_array_search (Some a) pc;
    if ret <? 0 then mret (-1, false, no_ops, h) else
    let p := (get_interval_array_pointer (private item)).1 in
    if p =? 0 then mret (-1, false, no_ops, h) else
    fde ← deref (fde_at cfi p);
    match fde_cie fde with
    | None => mret (-1, false, no_ops, h)
    | Some k =>
      cie ← deref (cie_list cfi !! k);
      '(ret, ctx, h) ← init_calc_ctx_by_ins malloc_ok cie (cie_calc_ctx cie) h
         (Some (instructions fde)) (section (d_buf cfi) (instructions fde) (instructions_end fde))
         (fde_start fde) pc;
      if ret <? 0 then mret (ret, signal_frame cie, no_ops, h) else
      h ← free_chain (S (size (heap_cells h))) h (prev ctx);
      r ← row_ops cfi ctx;
      match r with
      | None => mret (-1, signal_frame cie, no_ops, h)
      | Some s => mret (0, signal_frame cie, s, h)
      end
    end
  end.

(** [gu_cfi_parse_cfi_ex]: the return value, [*signal_frame] and the state. *)
Definition gu_cfi_parse_cfi_ex (cfi : gu_cfi) (st : parse_state) (pc : Z)
  : outcome (Z * bool * parse_state) :=
  hit ← gu_cfi_parse_cache_load (ps_cache st) pc;
  match hit with
  | Some (signal, s) => mret (0, signal, mk_parse (ps_cache st) s (ps_heap st))
  | None =>
    '(ret, signal, s, h) ← parse_uncached cfi (ps_heap st) pc;
    if negb (ret =? 0) then mret (ret, signal, mk_parse (ps_cache st) s h) else
    cache ← gu_cfi_parse_cache_store (ps_cache st) s pc signal;
    mret (0, signal, mk_parse cache s h)
  end.

(** [gu_cfi_parse_cfi] *)
Definition gu_cfi_parse_cfi (cfi : gu_cfi) (st : parse_state) (pc : Z) : outcome (Z * parse_state) :=
  '(ret, _, st) ← gu_cfi_parse_cfi_ex cfi st pc; mret (ret, st).
End parse.

(** ** Independence from heap addresses

    Two runs of a call-frame program from contexts that agree except for the
    addresses of their remembered states agree in everything but addresses. *)
Definition same_ctx (c1 c2 : gu_cfi_calc_ctx) : Prop := ctx_set_prev c1 None = ctx_set_prev c2 None.

Definition same_chain (l1 l2 : list (Z * gu_cfi_calc_ctx)) : Prop :=
  Forall2 (fun p q => same_ctx p.2 q.2) l1 l2.

(** A context update that does not touch [prev]. *)
Definition keeps_prev (f : gu_cfi_calc_ctx -> gu_cfi_calc_ctx) : Prop :=
  forall c p, ctx_set_prev (f c) p = f (ctx_set_prev c p) /\ prev (f c) = prev c.

Lemma same_ctx_map f c1 c2 : keeps_prev f -> same_ctx c1 c2 -> same_ctx (f c1) (f c2).
Proof. unfold same_ctx. intros Hf Hc. rewrite !(proj1 (Hf _ None)). by rewrite Hc. Qed.

Section independence.
Context `{Arch}.
Variable cie : gu_cfi_cie.
Variable in_cie : bool.
Variables f1 f2 : gmap Z gu_cfi_calc_ctx.

Abbreviation malloc_succeeds := (fun _ : cfi_heap => true).

Inductive twin : cfa_state -> cfa_state -> Prop :=
  twin_intro c1 c2 h1 h2 l1 l2 loc pos ins :
    same_ctx c1 c2 -> heap_owns f1 h1 c1 l1 -> heap_owns f2 h2 c2 l2 -> same_chain l1 l2 ->
    twin (mk_cfa_state c1 h1 loc pos ins) (mk_cfa_state c2 h2 loc pos ins).

Definition twin_flow (m1 m2 : outcome flow) : Prop :=
  match m1, m2 with
  | Undef u1, Undef u2 => u1 = u2
  | Done (FContinue s1), Done (FContinue s2) => twin s1 s2
  | Done (FBreak s1), Done (FBreak s2) => twin s1 s2
  | Done (FReturn r1 s1), Done (FReturn r2 s2) => r1 = r2 /\ twin s1 s2
  | _, _ => False
  end.

Lemma twin_set_ctx f s1 s2 :
  keeps_prev f -> twin s1 s2 -> twin (set_ctx s1 (f (cs_ctx s1))) (set_ctx s2 (f (cs_ctx s2))).
Proof.
  intros Hf [c1 c2 h1 h2 l1 l2 loc pos ins Hc Ho1 Ho2 Hl]. cbn.
  apply (twin_intro _ _ _ _ l1 l2); [by apply same_ctx_map| | |done];
    (eapply heap_owns_ctx; [|eassumption]); symmetry; by apply (Hf _ None).
Qed.

Lemma twin_set_ins s1 s2 pos ins :
  twin s1 s2 -> twin (set_ins s1 pos ins) (set_ins s2 pos ins).
Proof. intros []. by eapply twin_intro. Qed.

Lemma twin_set_loc s1 s2 l : twin s1 s2 -> twin (set_loc s1 l) (set_loc s2 l).
Proof. intros []. by eapply twin_intro. Qed.

Lemma twin_fields s1 s2 :
  twin s1 s2 -> cs_ins s1 = cs_ins s2 /\ cs_pos s1 = cs_pos s2 /\ cs_loc s1 = cs_loc s2.
Proof. by intros []. Qed.

Lemma twin_skip s1 s2 n : twin s1 s2 -> twin (skip_ins s1 n) (skip_ins s2 n).
Proof.
  intros Ht. destruct (twin_fields _ _ Ht) as (E1 & E2 & _). unfold skip_ins.
  rewrite E1, E2. by apply twin_set_ins.
Qed.

Lemma twin_advance s1 s2 n : twin s1 s2 -> twin (advance cie s1 n) (advance cie s2 n).
Proof.
  intros Ht. destruct (twin_fields _ _ Ht) as (_ & _ & E). unfold advance. rewrite E.
  by apply twin_set_loc.
Qed.

Lemma keeps_set_reg t v : keeps_prev (fun c => ctx_set_reg c t v).
Proof. done. Qed.

Lemma twin_set_rule s1 s2 r k v : twin s1 s2 -> twin (set_rule s1 r k v) (set_rule s2 r k v).
Proof.
  intros. unfold set_rule. destruct (trans_reg_type r) as [t|]; [|done].
  by apply (twin_set_ctx (fun c => ctx_set_reg c t (freg k v))).
Qed.

Lemma twin_restore_rule s1 s2 r :
  twin s1 s2 -> twin (restore_rule cie in_cie s1 r) (restore_rule cie in_cie s2 r).
Proof.
  intros. unfold restore_rule. destruct in_cie; [done|]. destruct (trans_reg_type r) as [t|]; [|done].
  by apply (twin_set_ctx (fun c => ctx_set_reg c t (get_freg (calc_regs (cie_calc_ctx cie)) t))).
Qed.

Lemma twin_DECODE ty s1 s2 k1 k2 :
  twin s1 s2 -> (forall v s1 s2, twin s1 s2 -> twin_flow (k1 v s1) (k2 v s2)) ->
  twin_flow (DECODE_CFI ty s1 k1) (DECODE_CFI ty s2 k2).
Proof.
  intros Ht Hk. destruct (twin_fields _ _ Ht) as (E1 & E2 & _). unfold DECODE_CFI. rewrite E1, E2.
  destruct (decode_read_checked _ _) as [[[v rest]|]|u]; run; [|by split|done].
  by apply Hk, twin_set_ins.
Qed.

Lemma twin_remember s1 s2 :
  twin s1 s2 ->
  twin_flow (exec_remember_state malloc_succeeds s1) (exec_remember_state malloc_succeeds s2).
Proof.
  intros [c1 c2 h1 h2 l1 l2 loc pos ins Hc Ho1 Ho2 Hl]. cbn.
  eapply (twin_intro _ _ _ _ ((_, c1) :: l1) ((_, c2) :: l2)); [exact Hc| | |by constructor].
  - by eapply heap_owns_alloc.
  - by eapply heap_owns_alloc.
Qed.

Lemma twin_restore_state s1 s2 :
  twin s1 s2 -> twin_flow (exec_restore_state s1) (exec_restore_state s2).
Proof.
  intros [c1 c2 h1 h2 l1 l2 loc pos ins Hc Ho1 Ho2 Hl]. unfold exec_restore_state. cbn [cs_ctx cs_heap].
  pose proof Ho1 as [Hp1 _]. pose proof Ho2 as [Hp2 _].
  destruct Hl as [|[a1 d1] [a2 d2] l1 l2 Hd Hl]; cbn [saved_chain] in Hp1, Hp2.
  - rewrite Hp1, Hp2. run. split; [done|]. by eapply (twin_intro _ _ _ _ [] []); [..|constructor].
  - destruct Hp1 as (-> & -> & _), Hp2 as (-> & -> & _). run.
    eapply (twin_intro _ _ _ _ l1 l2); [done| | |done]; by eapply heap_owns_free.
Qed.

Lemma twin_continue s1 s2 : twin s1 s2 -> twin_flow (mret (FContinue s1)) (mret (FContinue s2)).
Proof. done. Qed.
Lemma twin_break s1 s2 : twin s1 s2 -> twin_flow (mret (FBreak s1)) (mret (FBreak s2)).
Proof. done. Qed.
Lemma twin_error s1 s2 : twin s1 s2 -> twin_flow (mret (FReturn (-1) s1)) (mret (FReturn (-1) s2)).
Proof. by split. Qed.

#[local] Hint Resolve twin_continue twin_break twin_error twin_set_loc twin_skip twin_advance
  twin_set_rule twin_restore_rule twin_DECODE twin_remember twin_restore_state : twin.
#[local] Hint Extern 1 (twin (set_ctx ?s1 (ctx_def_cfa _ ?a ?b)) _) =>
  apply (twin_set_ctx (fun c => ctx_def_cfa c a b)); [done|] : twin.
#[local] Hint Extern 1 (twin (set_ctx ?s1 (ctx_set_number _ ?a)) _) =>
  apply (twin_set_ctx (fun c => ctx_set_number c a)); [done|] : twin.
#[local] Hint Extern 1 (twin (set_ctx ?s1 (ctx_set_number2 _ ?a)) _) =>
  apply (twin_set_ctx (fun c => ctx_set_number2 c a)); [done|] : twin.

(** Equal conditions on the two sides. *)
Lemma twin_block_if s1 s2 n m1 m2 m1' m2' :
  twin s1 s2 -> twin_flow m1 m1' -> twin_flow m2 m2' ->
  twin_flow (if negb (block_fits (cs_ins s1) n) then m1 else m2)
            (if negb (block_fits (cs_ins s2) n) then m1' else m2').
Proof. intros Ht. destruct (twin_fields _ _ Ht) as (-> & _). by destruct (negb _). Qed.

Lemma twin_expr s1 s2 n :
  twin s1 s2 ->
  twin (skip_ins (set_ctx s1 (ctx_def_cfa_expr (cs_ctx s1) (cs_pos s1) n)) n)
       (skip_ins (set_ctx s2 (ctx_def_cfa_expr (cs_ctx s2) (cs_pos s2) n)) n).
Proof.
  intros Ht. apply twin_skip. destruct (twin_fields _ _ Ht) as (_ & -> & _).
  by apply (twin_set_ctx (fun c => ctx_def_cfa_expr c (cs_pos s2) n)).
Qed.

Lemma twin_exec_expression k s1 s2 :
  twin s1 s2 -> twin_flow (exec_expression k s1) (exec_expression k s2).
Proof.
  intros Ht. unfold exec_expression. apply twin_DECODE; [done|]. intros v t1 t2 Ht1. cbn zeta.
  destruct (twin_fields _ _ Ht1) as (_ & -> & _). apply twin_DECODE; [done|]. intros w u1 u2 Ht2.
  apply twin_block_if; auto with twin.
Qed.

Lemma twin_exec_advance op s1 s2 :
  twin s1 s2 -> twin_flow (exec_advance cie op s1) (exec_advance cie op s2).
Proof.
  intros Ht. unfold exec_advance. destruct (op =? DW_CFA_advance_loc1).
  - destruct (twin_fields _ _ Ht) as (-> & _). destruct (cs_ins s2); auto with twin.
  - repeat case_match; auto with twin.
Qed.

#[local] Hint Resolve twin_block_if twin_expr twin_exec_expression twin_exec_advance : twin.
#[local] Hint Extern 0 (twin_flow (let _ := _ in _) _) => cbv zeta : twin.

Lemma twin_step op s1 s2 :
  twin s1 s2 -> twin_flow (cfa_step malloc_succeeds cie in_cie op s1)
                          (cfa_step malloc_succeeds cie in_cie op s2).
Proof.
  intros Ht. unfold cfa_step, exec_def_cfa, exec_register_rule, exec_offset.
  repeat case_match; auto 8 with twin.
Qed.

Definition twin_result (m1 m2 : outcome (Z * cfa_state)) : Prop :=
  match m1, m2 with
  | Undef u1, Undef u2 => u1 = u2
  | Done (r1, s1), Done (r2, s2) => r1 = r2 /\ twin s1 s2
  | _, _ => False
  end.

Lemma twin_loop fuel pc s1 s2 :
  twin s1 s2 -> twin_result (cfa_loop malloc_succeeds cie in_cie fuel pc s1)
                            (cfa_loop malloc_succeeds cie in_cie fuel pc s2).
Proof.
  revert s1 s2. induction fuel as [|fuel IH]; intros s1 s2 Ht; cbn [cfa_loop]; [done|].
  destruct (twin_fields _ _ Ht) as (E1 & E2 & _). rewrite E1, E2.
  destruct (cs_ins s2) as [|op rest]; [by split|].
  pose proof (twin_step op _ _ (twin_set_ins _ _ (cs_pos s2 + 1) rest Ht)) as Hs.
  destruct (cfa_step _ _ _ _ (set_ins s1 _ _)) as [[t1|t1|r1 t1]|u1],
    (cfa_step _ _ _ _ (set_ins s2 _ _)) as [[t2|t2|r2 t2]|u2]; cbn [twin_flow] in Hs; try done; run.
  - by apply IH.
  - destruct (twin_fields _ _ Hs) as (_ & _ & ->). destruct (pc <? cs_loc t2); [by split|]. by apply IH.
Qed.
End independence.

(** ** The remembered states are released *)
Lemma free_chain_ok frame l h c fuel :
  heap_owns frame h c l -> (size (heap_cells h) < fuel)%nat ->
  exists h', free_chain fuel h (prev c) = Done h' /\ heap_cells h' = frame /\
    heap_next h' = heap_next h.
Proof.
  revert h c fuel. induction l as [|[a d] l IH]; intros h c fuel Ho Hf.
  - destruct Ho as (Hp & _ & Hr & _). cbn in Hp. rewrite Hp. exists h.
    split; [by destruct fuel|]. split; [|done]. apply map_eq. intros a. apply Hr. set_solver.
  - pose proof Ho as [(Hp & Ha & _) _]. rewrite Hp. destruct fuel as [|fuel]; [lia|].
    cbn [free_chain]. rewrite Ha. run.
    destruct (IH (heap_free h a) d fuel) as (h' & E & Hc & Hn).
    + by eapply heap_owns_free.
    + cbn. rewrite map_size_delete_Some by eauto.
      assert (size (heap_cells h) <> 0%nat); [|lia].
      intros H0. apply map_size_empty_inv in H0. by rewrite H0 in Ha.
    + by exists h'.
Qed.

(** Every cell of the heap lies below the next address. *)
Definition heap_fresh (h : cfi_heap) : Prop :=
  forall a, is_Some (heap_cells h !! a) -> a < heap_next h.

(** CIEs whose program restores every state it remembers. *)
Definition cies_balanced (cfi : gu_cfi) : Prop :=
  forall k cie, cie_list cfi !! k = Some cie -> prev (cie_calc_ctx cie) = None.

Lemma row_ops_same cfi c1 c2 : same_ctx c1 c2 -> row_ops cfi c1 = row_ops cfi c2.
Proof.
  intros Hc. change (row_ops cfi c1) with (row_ops cfi (ctx_set_prev c1 None)).
  by rewrite Hc.
Qed.

(** What two parses of a pc agree on. *)
Definition same_parse (m1 m2 : outcome (Z * bool * ops_scratch * cfi_heap)) : Prop :=
  match m1, m2 with
  | Done (r1, sg1, s1, _), Done (r2, sg2, s2, _) => r1 = r2 /\ sg1 = sg2 /\ s1 = s2
  | Undef u1, Undef u2 => u1 = u2
  | _, _ => False
  end.

Section cached.
Context `{Arch}.
Abbreviation malloc_succeeds := (fun _ : cfi_heap => true).
Variable cfi : gu_cfi.
Hypothesis Hcies : cies_balanced cfi.

(** The interpreter run of a parse, from two heaps. *)
Lemma init_calc_twin cie start ins loc pc h1 h2 :
  prev (cie_calc_ctx cie) = None -> heap_fresh h1 -> heap_fresh h2 ->
  match init_calc_ctx_by_ins malloc_succeeds cie (cie_calc_ctx cie) h1 start ins loc pc,
        init_calc_ctx_by_ins malloc_succeeds cie (cie_calc_ctx cie) h2 start ins loc pc with
  | Done (r1, c1, h1'), Done (r2, c2, h2') =>
    r1 = r2 /\ same_ctx c1 c2 /\
    (exists l1, heap_owns (heap_cells h1) h1' c1 l1) /\ (exists l2, heap_owns (heap_cells h2) h2' c2 l2)
  | Undef u1, Undef u2 => u1 = u2
  | _, _ => False
  end.
Proof.
  intros Hp H1 H2. unfold init_calc_ctx_by_ins.
  assert (Ht : twin (heap_cells h1) (heap_cells h2) 
    (mk_cfa_state (cie_calc_ctx cie) h1 loc (default 0 start) ins)
    (mk_cfa_state (cie_calc_ctx cie) h2 loc (default 0 start) ins)).
  { apply (twin_intro _ _ _ _ _ _ [] []); [done| | |constructor]; by apply heap_owns_start. }
  pose proof (twin_loop cie (bool_decide (start = Some (initial_instructions cie)))
    (heap_cells h1) (heap_cells h2) (S (length ins)) pc _ _ Ht) as Hl.
  destruct (cfa_loop _ _ _ _ _ (mk_cfa_state _ h1 _ _ _)) as [[r1 s1]|u1],
    (cfa_loop _ _ _ _ _ (mk_cfa_state _ h2 _ _ _)) as [[r2 s2]|u2]; cbn [twin_result] in Hl; run; try done.
  destruct Hl as [-> []]. by eauto 6.
Qed.

Lemma parse_uncached_twin h1 h2 pc :
  heap_fresh h1 -> heap_fresh h2 ->
  same_parse (parse_uncached malloc_succeeds cfi h1 pc) (parse_uncached malloc_succeeds cfi h2 pc).
Proof.
  intros H1 H2. unfold parse_uncached. destruct (hdr_interval_array cfi) as [a|]; [|done].
  destruct (gu_interval_array_search (Some a) pc) as [[[ret item] a']|u]; run; [|done].
  destruct (ret <? 0); [done|]. destruct (_ =? 0); [done|].
  destruct (fde_at cfi _) as [fde|]; run; [|done]. destruct (fde_cie fde) as [k|]; [|done].
  destruct (cie_list cfi !! k) as [cie|] eqn:Ek; run; [|done].
  pose proof (init_calc_twin cie (Some (instructions fde))
    (section (d_buf cfi) (instructions fde) (instructions_end fde)) (fde_start fde) pc h1 h2
    (Hcies _ _ Ek) H1 H2) as Hi.
  destruct (init_calc_ctx_by_ins _ _ _ h1 _ _ _ _) as [[[r1 c1] h1']|u1],
    (init_calc_ctx_by_ins _ _ _ h2 _ _ _ _) as [[[r2 c2] h2']|u2]; run; try done.
  destruct Hi as (-> & Hc & (l1 & Ho1) & (l2 & Ho2)). destruct (r2 <? 0); [done|].
  destruct (free_chain_ok _ _ _ _ (S (size (heap_cells h1'))) Ho1) as (g1 & -> & _); [lia|].
  destruct (free_chain_ok _ _ _ _ (S (size (heap_cells h2'))) Ho2) as (g2 & -> & _); [lia|]. run.
  rewrite (row_ops_same cfi c1 c2 Hc). by destruct (row_ops cfi c2) as [[s|]|u].
Qed.

(** A parse that gets past the interpreter leaves the heap as it was. *)
Lemma parse_uncached_heap h pc r sg s h' :
  heap_fresh h -> parse_uncached malloc_succeeds cfi h pc = Done (r, sg, s, h') -> 0 <= r ->
  heap_cells h' = heap_cells h.
Proof.
  intros Hh. unfold parse_uncached. destruct (hdr_interval_array cfi) as [a|]; [|intros [= <- <- <- <-]; lia].
  destruct (gu_interval_array_search (Some a) pc) as [[[ret item] a']|u]; run; [|done].
  destruct (ret <? 0); [intros [= <- <- <- <-]; lia|]. destruct (_ =? 0); [intros [= <- <- <- <-]; lia|].
  destruct (fde_at cfi _) as [fde|]; run; [|done].
  destruct (fde_cie fde) as [k|]; [|intros [= <- <- <- <-]; lia].
  destruct (cie_list cfi !! k) as [cie|] eqn:Ek; run; [|done].
  pose proof (init_calc_twin cie (Some (instructions fde))
    (section (d_buf cfi) (instructions fde) (instructions_end fde)) (fde_start fde) pc h h
    (Hcies _ _ Ek) Hh Hh) as Hi.
  destruct (init_calc_ctx_by_ins _ _ _ h _ _ _ _) as [[[r1 c1] h1']|u1]; run; [|done].
  destruct Hi as (_ & _ & (l1 & Ho1) & _).
  destruct (r1 <? 0) eqn:Er; [intros [= <- <- <- <-]; lia|].
  destruct (free_chain_ok _ _ _ _ (S (size (heap_cells h1'))) Ho1) as (g1 & -> & Hg & _); [lia|]. run.
  destruct (row_ops cfi c1) as [[s'|]|u]; run; [..|done]; by intros [= <- <- <- <-].
Qed.

(** *** The cache invariant: entries hold what decoding their pc yields. *)
Definition short_ops (s : ops_scratch) : Prop :=
  gu_cfi_ops_cacheable (rip_ops s) = true /\ gu_cfi_ops_cacheable (rbp_ops s) = true /\
  gu_cfi_ops_cacheable (rsp_ops s) = true /\ gu_cfi_ops_cacheable (cfa_ops s) = true.

Definition entry_ok (e : parse_cache_entry) : Prop :=
  ce_valid e = true ->
  short_ops (ce_ops e) /\
  forall h, heap_fresh h -> exists h',
    parse_uncached malloc_succeeds cfi h (ce_pc e) = Done (0, ce_signal_frame e, ce_ops e, h').

Definition cache_ok (cache : list parse_cache_entry) : Prop :=
  Z.of_nat (length cache) = GU_CFI_PARSE_CACHE_SIZE /\ Forall entry_ok cache.

Lemma cache_index_range pc : 0 <= gu_cfi_parse_cache_index pc < GU_CFI_PARSE_CACHE_SIZE.
Proof.
  unfold gu_cfi_parse_cache_index, GU_CFI_PARSE_CACHE_SIZE.
  change (64 - 1) with (Z.ones 6). rewrite Z.land_ones by done. by apply Z.mod_pos_bound.
Qed.

Lemma cache_lookup cache pc :
  cache_ok cache -> exists e, cache !! Z.to_nat (gu_cfi_parse_cache_index pc) = Some e /\ entry_ok e.
Proof.
  intros [Hlen Hall]. pose proof (cache_index_range pc) as Hi.
  destruct (lookup_lt_is_Some_2 cache (Z.to_nat (gu_cfi_parse_cache_index pc))) as [e He]; [lia|].
  exists e. split; [done|]. by eapply Forall_lookup_1 in Hall.
Qed.

Lemma copy_scratch_ok room s :
  short_ops s -> GU_CFI_PARSE_CACHE_OPS_MAX <= room -> copy_scratch room s = Done s.
Proof.
  unfold short_ops, gu_cfi_ops_cacheable. rewrite !Z.leb_le. intros (? & ? & ? & ?) Hr.
  unfold copy_scratch, copy_ops. destruct s as [a b c d]; cbn [rip_ops rbp_ops rsp_ops cfa_ops] in *.
  repeat (match goal with |- context [?x <=? ?y] => destruct (Z.leb_spec x y); [|lia] end; run). done.
Qed.

Lemma load_ok cache pc :
  cache_ok cache ->
  exists r, gu_cfi_parse_cache_load cache pc = Done r /\
  match r with
  | None => True
  | Some (signal, s) => forall h, heap_fresh h -> exists h',
      parse_uncached malloc_succeeds cfi h pc = Done (0, signal, s, h')
  end.
Proof.
  intros Hc. destruct (cache_lookup cache pc Hc) as (e & He & Hok).
  unfold gu_cfi_parse_cache_load. rewrite He. run.
  destruct (ce_valid e) eqn:Ev; cbn [negb orb]; [|by exists None].
  destruct (Z.eqb_spec (ce_pc e) pc) as [<-|]; cbn [negb]; [|by exists None].
  destruct (Hok Ev) as [Hs Hp]. rewrite copy_scratch_ok by done. run. by eexists.
Qed.

Lemma store_ok cache s pc signal :
  cache_ok cache ->
  (forall h, heap_fresh h -> exists h',
     parse_uncached malloc_succeeds cfi h pc = Done (0, signal, s, h')) ->
  exists cache', gu_cfi_parse_cache_store cache s pc signal = Done cache' /\ cache_ok cache'.
Proof.
  intros Hc Hp. unfold gu_cfi_parse_cache_store.
  destruct (gu_cfi_ops_cacheable (cfa_ops s)) eqn:E1; cbn [negb]; [|by eexists].
  destruct (_ && _) eqn:E2; cbn [negb]; [|by eexists].
  apply andb_true_iff in E2 as [E2 E3]. apply andb_true_iff in E2 as [E2 E4].
  destruct (cache_lookup cache pc Hc) as (e & He & _). rewrite He. run.
  rewrite copy_scratch_ok by done. run. eexists. split; [done|]. destruct Hc as [Hl Hall].
  split; [by rewrite length_insert|]. apply Forall_insert; [done|]. intros _. done.
Qed.
End cached.

(** ** Properties *)

(** C8: the parse cache is transparent: with every entry holding what decoding
    its pc yields (true of the empty cache and kept by every call), a parse
    returns the same result, signal-frame flag and operations as decoding the
    FDE afresh, whatever was parsed before, and faults only if decoding does. *)
Theorem parse_cache_transparent `{Arch} cfi st pc :
  cies_balanced cfi -> heap_fresh (ps_heap st) -> cache_ok cfi (ps_cache st) ->
  match gu_cfi_parse_cfi_ex (fun _ => true) cfi st pc,
        parse_uncached (fun _ => true) cfi (ps_heap st) pc with
  | Done (ret, signal, st'), Done (ret', signal', s, _) =>
    ret = ret' /\ signal = signal' /\ ps_scratch st' = s /\ cache_ok cfi (ps_cache st')
  | Undef u, Undef u' => u = u'
  | _, _ => False
  end.
Proof.
  intros Hc Hh Hcache. unfold gu_cfi_parse_cfi_ex.
  destruct (load_ok cfi _ pc Hcache) as (r & -> & Hr). run.
  destruct r as [[signal s]|].
  { destruct (Hr _ Hh) as [h' ->]. by run. }
  pose proof (fun h Hf => parse_uncached_twin cfi Hc (ps_heap st) h pc Hh Hf) as Ht.
  destruct (parse_uncached _ cfi (ps_heap st) pc) as [[[[ret signal] s] h]|u]; run; [|done].
  destruct (Z.eqb_spec ret 0) as [->|]; cbn [negb]; [|by run].
  destruct (store_ok cfi (ps_cache st) s pc signal Hcache) as (cache' & -> & Hok); [|by run].
  intros h2 Hf. specialize (Ht h2 Hf).
  destruct (parse_uncached _ cfi h2 pc) as [[[[ret' signal'] s'] h']|]; [|done].
  destruct Ht as (<- & <- & <-). by exists h'.
Qed.

(** A successful parse frees every state its program remembered: the heap
    holds exactly the cells it held before. *)
Theorem parse_releases_states `{Arch} cfi h pc signal s h' :
  cies_balanced cfi -> heap_fresh h ->
  parse_uncached (fun _ => true) cfi h pc = Done (0, signal, s, h') -> heap_cells h' = heap_cells h.
Proof. intros Hc Hh E. by eapply parse_uncached_heap. Qed.

(** ** Sample indexes *)
Definition index_with (d : list Z) (from to : Z) (cie : gu_cfi_cie) : gu_cfi :=
  let fde := mk_fde (Some 0) 0x1000 0x1010 from to in
  mk_cfi (gu_interval_array_init (H := merge_qsort) true true [fde_item 0x5000 0 fde]).2
    0 true 0 0 {[ 0 := cie ]} 1 0x5000 [fde] d.
Definition index_of (ins : list Z) (cie : gu_cfi_cie) : gu_cfi :=
  index_with (replicate 8 0 ++ ins) 8 (8 + Z.of_nat (length ins)) cie.
Definition sample_cfi : gu_cfi := index_of sample_bytes sample_cie.
Definition fresh_state : parse_state :=
  mk_parse (replicate 64 empty_entry) no_ops empty_heap.

Lemma sample_cfi_balanced : cies_balanced sample_cfi.
Proof. intros k cie. cbn. by intros [_ <-]%lookup_singleton_Some. Qed.

Lemma empty_cache_ok `{Arch} cfi : cache_ok cfi (replicate 64 empty_entry).
Proof. split; [done|]. apply Forall_replicate. done. Qed.

Lemma empty_heap_fresh : heap_fresh empty_heap.
Proof. intros a [x Hx]. done. Qed.

Lemma parse_cache_transparent_witness :
  match gu_cfi_parse_cfi_ex (H := linux_x86_64) (fun _ => true) sample_cfi fresh_state 0x1006,
        parse_uncached (H := linux_x86_64) (fun _ => true) sample_cfi empty_heap 0x1006 with
  | Done (ret, signal, st'), Done (ret', signal', s, _) =>
    ret = ret' /\ signal = signal' /\ ps_scratch st' = s /\
    cache_ok (H := linux_x86_64) sample_cfi (ps_cache st')
  | Undef u, Undef u' => u = u'
  | _, _ => False
  end.
Proof.
  apply (parse_cache_transparent (H := linux_x86_64) sample_cfi fresh_state 0x1006).
  - apply sample_cfi_balanced.
  - apply empty_heap_fresh.
  - apply empty_cache_ok.
Defined.

Lemma parse_releases_states_witness :
  exists s h', parse_uncached (H := linux_x86_64) (fun _ => true) sample_cfi empty_heap 0x1006 =
    Done (0, false, s, h') /\ heap_cells h' = ∅.
Proof.
  eexists _, _. split; [vm_compute; reflexivity|].
  refine (parse_releases_states (H := linux_x86_64) sample_cfi empty_heap 0x1006 false _ _ _ _ _).
  - apply sample_cfi_balanced.
  - apply empty_heap_fresh.
  - vm_compute. reflexivity.
Defined.

(** A program that fails after [DW_CFA_remember_state] leaks the remembered
    state: the parse returns -1 and the cell stays allocated with no owner. *)
Theorem failed_parse_leaks :
  exists h', parse_uncached (H := linux_x86_64) (fun _ => true)
    (index_of [DW_CFA_remember_state; DW_CFA_def_cfa] sample_cie) empty_heap 0x1000 =
    Done (-1, false, no_ops, h') /\ size (heap_cells h') = 1%nat.
Proof. eexists. split; [vm_compute; reflexivity|]. vm_compute. reflexivity. Qed.

(** A section whose CIE program, at offset 0, is
    [DW_CFA_def_cfa rsp 8; DW_CFA_remember_state]; FDE programs are empty. *)
Definition unbalanced_section : list Z := [DW_CFA_def_cfa; 7; 8; DW_CFA_remember_state].
Definition unbalanced_entry : Dwarf_CIE := mk_dwarf_cie 1 (-8) 16 [] 0 0 4.
Definition initial_globals : cfi_globals := mk_globals false zero_calc_ctx empty_heap.

