(* ===== verification/Frame.v ===== *)
(** * One frame, end to end

    From the bytes of an FDE to the caller's registers: the index finds the
    FDE of the pc, the interpreter computes the row of its table, the row
    becomes operations, and [gen_reg] evaluates them over the snapshot.  The
    theorems compose the components proved separately. *)

From S2P Require Import Prelude Types IntervalArray Arch CfiDecode CfiProgram CfiOps Cfi CfiParse.
From S2P Require Import DwarfEval.

(** Rules without an expression block. *)
Definition no_expression (k : dwarf_frame_rule) : bool :=
  match k with reg_expression | reg_val_expression => false | _ => true end.

Lemma get_regs_ops_simple d_buf t c :
  no_expression (rule (get_freg (calc_regs c) t)) = true ->
  exists r, gu_cfi_get_regs_ops d_buf t c = Done r.
Proof.
  intros Hs. unfold gu_cfi_get_regs_ops. destruct (rule _); try done; run; eauto.
Qed.

Lemma bregx_op n off :
  is_u64 n -> is_u64 off -> is_op (mk_op DW_OP_bregx n off 0).
Proof. intros. split_and!; [done..|simpl; lia]. Qed.

(** The CFA operations of a register-based row. *)
Lemma cfa_register_ops d_buf ctx n off :
  rep_cfa ctx (CfaRegister n off) ->
  gu_cfi_get_cfa_ops d_buf ctx = Done (Some [mk_op DW_OP_bregx n (u64 off) 0]).
Proof.
  intros (Hr & Ha & Hn & Hn2 & Ho). unfold gu_cfi_get_cfa_ops, cfa_offset_op.
  by rewrite Hr, Hn, Ha, Hn2, Ho.
Qed.

Lemma row_ops_ok `{Arch} cfi ctx row n off :
  bytes_ok (d_buf cfi) -> rep_row ctx row -> row_cfa row = CfaRegister n off -> is_u64 n ->
  (forall t, no_expression (row_rule row t).1 = true) ->
  exists s, row_ops cfi ctx = Done (Some s) /\ scratch_ok s /\
    cfa_ops s = [mk_op DW_OP_bregx n (u64 off) 0] /\
    forall t, exists r, gu_cfi_get_regs_ops (d_buf cfi) t ctx = Done r /\
      ops_arr s t = default (if decide (t = REG_TYPE_RSP) then cfa_ops s else []) r.
Proof.
  intros Hb [Hcfa Hrules] Hrow Hn Hsimple. rewrite Hrow in Hcfa. unfold row_ops.
  rewrite (cfa_register_ops _ _ n off) by done. run.
  assert (Hget : forall t, exists r, gu_cfi_get_regs_ops (d_buf cfi) t ctx = Done r /\
    Forall is_op (default [] r)).
  { intros t. destruct (get_regs_ops_simple (d_buf cfi) t ctx) as [r Er].
    - rewrite Hrules. apply Hsimple.
    - exists r. split; [done|]. pose proof (get_regs_ops_ok (d_buf cfi) t ctx Hb) as Hok.
      rewrite Er in Hok. destruct r as [ops|]; [|constructor]. by destruct Hok. }
  destruct (Hget REG_TYPE_RSP) as (rsp & Ersp & Hrsp). destruct (Hget REG_TYPE_RIP) as (rip & Erip & Hrip).
  destruct (Hget REG_TYPE_RBP) as (rbp & Erbp & Hrbp). rewrite Ersp, Erip, Erbp. run.
  assert (Hop : is_op (mk_op DW_OP_bregx n (u64 off) 0)) by (apply bregx_op; auto with gu).
  eexists. split; [done|]. split_and!; [|done|].
  - assert (Hcfa1 : Forall is_op [mk_op DW_OP_bregx n (u64 off) 0]) by (by apply Forall_singleton).
    split; [intros []; cbn; try done|done|by apply Forall_singleton]. by destruct rsp.
  - intros []; cbn; [exists rip|exists rbp|exists rsp]; split; try done; by case_decide.
Qed.

(** The value a row gives the register of column [t], the CFA being [c]: the
    value of its rule, and for a stack pointer without a rule the CFA. *)
Definition row_register `{Arch} page_size info raw_sp (row : row) (c : Z) (t : cfi_reg_type) : option Z :=
  if plain_rule (row_rule row t).1 then rule_value page_size info raw_sp c (row_rule row t)
  else if decide (t = REG_TYPE_RSP) then Some c else None.

(** The rule values the operations can carry. *)
Definition rule_in_range (r : dwarf_frame_rule * Z) : Prop :=
  - 2 ^ 60 <= r.2 < 2 ^ 60 /\ (r.1 = reg_register -> 0 <= r.2 < 2 ^ 31).

Section frame.
Context `{Arch}.
Variables (page_size : Z) (info : gu_stack_info) (bias raw_sp : Z).
Hypothesis Hsnap : snapshot_ok info.
Hypothesis Hpage : 0 < page_size.
Hypothesis Hsp : is_u64 raw_sp.

(** [gen_reg] on the operations of a row. *)
Lemma gen_reg_row cfi ctx row n off b s t regno o :
  bytes_ok (d_buf cfi) -> rep_row ctx row -> row_cfa row = CfaRegister n off -> 0 <= n < 2 ^ 31 ->
  (forall t, no_expression (row_rule row t).1 = true) ->
  rule_in_range (row_rule row t) ->
  row_ops cfi ctx = Done (Some s) -> reg_value info n = Some b ->
  trans_reg_type regno = Some t -> (plain_rule (row_rule row t).1 = true \/ t = REG_TYPE_RSP) ->
  exists reason o', gen_reg page_size info bias raw_sp 1 s regno o =
    Done (reason, row_register page_size info raw_sp row ((b + off) mod 2 ^ 64) t, o') /\
    (reason = GU_UNWIND_REASON_OK <->
     is_Some (row_register page_size info raw_sp row ((b + off) mod 2 ^ 64) t)).
Proof.
  intros Hb Hrep Hrow Hn Hsimple [Hv Hreg] Hops Hval Ht Hplain.
  destruct (row_ops_ok cfi ctx row n off Hb Hrep Hrow) as (s' & E & Hok & Hcfa & Hget);
    [word|done|]. rewrite Hops in E. injection E as <-.
  rewrite gen_reg_eq_slow by done. unfold gen_reg_slow. rewrite Ht. unfold gu_cfi_get_ops. cbn [orb].
  set (v := row_register _ _ _ _ _ _).
  assert (exists ops, (if bool_decide (t = REG_TYPE_RSP) && (Z.of_nat (length (ops_arr s t)) =? 0)
    then Some (cfa_ops s) else Some (ops_arr s t)) = Some ops /\
    exists o', gu_dwarf_ops_eval page_size info bias raw_sp (cfa_ops s) 2 ops no_oor = Done (v, o'))
    as (ops & -> & o' & ->).
  { destruct (Hget t) as (r & Er & Harr). subst v. unfold row_register.
    destruct (plain_rule (row_rule row t).1) eqn:Ep.
    - destruct (row_values page_size info bias raw_sp Hsnap Hpage Hsp (d_buf cfi) ctx row n off b t 0
        no_oor Hrep Hrow Hn Hval Ep Hv Hreg) as (cfa & Ec & _ & ops & Eo & o' & Heval).
      pose proof Hrep as [Hcfa' _]. rewrite Hrow in Hcfa'.
      rewrite (cfa_register_ops _ _ n off) in Ec by done. injection Ec as <-.
      rewrite Er in Eo. injection Eo as ->. cbn [from_option id] in Harr. rewrite Harr, Hcfa.
      assert (Hne : (Z.of_nat (length ops) =? 0) = false).
      { apply Z.eqb_neq. unfold gu_cfi_get_regs_ops in Er. destruct Hrep as [_ Hrules].
        rewrite Hrules in Er. destruct (row_rule row t) as [k x]. cbn [fst snd freg rule] in *.
        destruct k; try done; injection Er as <-; cbn; lia. }
      rewrite Hne, andb_false_r. eauto.
    - destruct Hplain as [|Hrsp]; [done|]. subst t. rewrite decide_True by done.
      assert (Hr : r = None).
      { unfold gu_cfi_get_regs_ops in Er. destruct Hrep as [_ Hrules]. rewrite Hrules in Er.
        specialize (Hsimple REG_TYPE_RSP). destruct (row_rule row REG_TYPE_RSP) as [k x].
        cbn [fst snd freg rule] in *. by destruct k; try done; injection Er as <-. }
      subst r. rewrite decide_True in Harr by done. cbn [from_option id] in Harr. rewrite Harr, Hcfa.
      eexists. split; [reflexivity|]. exists no_oor.
      destruct Hrep as [Hcfa' _]. rewrite Hrow in Hcfa'.
      destruct (eval_cfa_register page_size info bias raw_sp (d_buf cfi) ctx n off b 1
        no_oor Hcfa' Hn Hval) as (op & Eop & Heval).
      rewrite (cfa_register_ops _ _ n off) in Eop by done. injection Eop as <-. exact Heval. }
  run. destruct v as [x|]; [by do 2 eexists; split; [done|]; split; eauto|].
  do 2 eexists. split; [done|]. split; [by destruct (stack_read_out_of_range o')|].
  by intros [].
Qed.
End frame.

(** ** The decoded row of a pc *)

(** The FDE of [pc], its CIE, and the meaning of its program: [rows] is the
    table of the abstract program [prog] its instruction bytes encode. *)
Record frame_program `{Arch} (cfi : gu_cfi) (pc : Z) (f : gu_cfi_fde) (cie : gu_cfi_cie)
    (rows : list (Z * row)) : Prop := {
  fp_found : exists a r item, hdr_interval_array cfi = Some a /\
    gu_interval_array_search (Some a) pc = Done (r, item, Some a) /\ 0 <= r /\
    (get_interval_array_pointer (private item)).1 <> 0 /\
    fde_at cfi (get_interval_array_pointer (private item)).1 = Some f;
  fp_cie : exists k, fde_cie f = Some k /\ cie_list cfi !! k = Some cie;
  fp_range : fde_start f <= pc;
  fp_not_cie : instructions f <> initial_instructions cie;
  fp_balanced : prev (cie_calc_ctx cie) = None;
  fp_table : exists prog init row0,
    encodes_all cie (instructions f) prog
      (section (d_buf cfi) (instructions f) (instructions_end f)) /\
    rep_rules (calc_regs (cie_calc_ctx cie)) init /\ rep_row (cie_calc_ctx cie) row0 /\
    table (code_alignment_factor cie) (data_alignment_factor cie) (Some init) prog (fde_start f) row0 []
      = Some rows;
}.

Lemma parse_row `{Arch} cfi h pc f cie rows :
  frame_program cfi pc f cie rows -> heap_fresh h ->
  exists ctx row, row_at pc rows = Some row /\ rep_row ctx row /\
    forall s, row_ops cfi ctx = Done (Some s) -> exists h',
    parse_uncached (fun _ => true) cfi h pc = Done (0, signal_frame cie, s, h') /\
    heap_cells h' = heap_cells h.
Proof.
  intros [(a & r & item & Ha & Hs & Hr & Hp & Hf) (k & Hk & Hcie) Hpc Hne Hprev
    (prog & init & row0 & Henc & Hinit & Hrow0 & Htab)] Hh.
  destruct (program_row (fun _ => true) cie (Some init) (cie_calc_ctx cie) h (instructions f) prog
    (section (d_buf cfi) (instructions f) (instructions_end f)) (fde_start f) pc row0 rows)
    as (ctx & h' & l & row & Erun & Hrow & Hrep & Hown); try done; [by apply heap_owns_start|].
  exists ctx, row. split; [done|]. split; [done|]. intros s Hops.
  unfold parse_uncached. rewrite Ha, Hs. run. destruct (Z.ltb_spec r 0); [lia|].
  destruct (Z.eqb_spec (get_interval_array_pointer (private item)).1 0); [done|].
  rewrite Hf. run. rewrite Hk, Hcie. run. rewrite Erun. run. cbn [Z.ltb Z.compare].
  destruct (free_chain_ok _ _ _ _ (S (size (heap_cells h'))) Hown) as (g & -> & Hg & _); [lia|]. run.
  rewrite Hops. run. by exists g.
Qed.

(** ** Properties *)


(** The prologue of [CfiProgram.sample_program] at offset 4 of the function. *)
Definition sample_rows : list (Z * row) :=
  default [] (table (H := linux_x86_64) 1 (-8) (Some (fun _ => (reg_unspecified, 0)))
    sample_program 0x1000 zero_row []).

Lemma sample_frame_program :
  frame_program (H := linux_x86_64) sample_cfi 0x1006
    (mk_fde (Some 0) 0x1000 0x1010 8 (8 + Z.of_nat (length sample_bytes))) sample_cie sample_rows.
Proof.
  split.
  - eexists _, _, _. split; [vm_compute; reflexivity|]. split; [vm_compute; reflexivity|].
    split; [done|]. split; [done|]. vm_compute. reflexivity.
  - exists 0. split; [done|]. apply lookup_singleton_eq.
  - simpl. lia.
  - done.
  - done.
  - exists sample_program, (fun _ => (reg_unspecified, 0)), zero_row. split_and!.
    + apply (sample_encodes 8).
    + by intros [].
    + apply zero_rep_row.
    + vm_compute. reflexivity.
Qed.

