(* ===== verification/Stress.v ===== *)
(** * The project's own CFI tests: [tools/cfi_stress.c]

    The test program of the repository exercises the evaluator, the call-frame
    interpreter and [gen_reg] on synthetic inputs.  Here its fixtures, emitters
    and all its cases are transcribed over the definitions of this development;
    running them shows that the model gives the results the authors expect of
    the code, on both targets.  The LEB128 emitters are shown to be inverted by
    the library's decoder. *)

From stdpp Require Import strings.
From S2P Require Import Prelude Types IntervalArray CfiDecode Arch CfiProgram CfiOps DwarfEval Cfi CfiParse.

Definition TEST_STACK_SIZE : Z := 8192.
Definition TEST_REGISTER_COPY_VALUE : Z := 0x123456789abcdef0.
Definition TEST_DW_REG3 : Z := 3.
Definition TEST_DW_REG12 : Z := 12.

(** ** Emitters *)

(** [struct byte_builder]: a full buffer ends the program. *)
Abbreviation byte_builder := (list Z).
Definition emit_u8 (value : Z) (b : byte_builder) : outcome byte_builder :=
  if 256 <=? Z.of_nat (length b) then Undef OutOfBounds else mret (b ++ [u8 value]).

(** The bytes [emit_uleb] and [emit_sleb] append; ten groups of seven bits hold
    every 64-bit value. *)
Fixpoint uleb_bytes (fuel : nat) (value : Z) : list Z :=
  match fuel with
  | O => []
  | S fuel =>
    let byte := Z.land value 0x7f in
    let value := Z.shiftr value 7 in
    if value =? 0 then [byte] else Z.lor byte 0x80 :: uleb_bytes fuel value
  end.
Fixpoint sleb_bytes (fuel : nat) (value : Z) : list Z :=
  match fuel with
  | O => []
  | S fuel =>
    let byte := Z.land value 0x7f in
    let sign := negb (Z.land byte 0x40 =? 0) in
    let value := Z.shiftr value 7 in
    if ((value =? 0) && negb sign) || ((value =? -1) && sign) then [byte] else Z.lor byte 0x80 :: sleb_bytes fuel value
  end.

(** A sequence of emitted bytes. *)
Fixpoint emit_all (bytes : list Z) (b : byte_builder) : outcome byte_builder :=
  match bytes with
  | [] => mret b
  | x :: bytes => b ← emit_u8 x b; emit_all bytes b
  end.
Definition emit_uleb (value : Z) : byte_builder -> outcome byte_builder := emit_all (uleb_bytes 10 value).
Definition emit_sleb (value : Z) : byte_builder -> outcome byte_builder := emit_all (sleb_bytes 10 value).
Definition emit_u64 (value : Z) : byte_builder -> outcome byte_builder :=
  emit_all ((fun i => u8 (Z.shiftr value (i * 8))) <$> seqZ 0 8).

(** The emitters of a test, one after the other, on an empty builder. *)
Fixpoint emits (es : list (byte_builder -> outcome byte_builder)) (b : byte_builder) : outcome byte_builder :=
  match es with
  | [] => mret b
  | e :: es => b ← e b; emits es b
  end.

Section stress.
Context {HA : Arch} (page_size : Z).

(** ** Fixtures *)
Definition raw_sp : Z := 0x70000120.
Definition stack_base : Z := raw_sp - raw_sp mod page_size.

(** [init_eval_fixture]: a zeroed snapshot with four registers written. *)
Definition init_eval_fixture : outcome gu_stack_info :=
  let info := mk_gu_stack_info 1 TEST_STACK_SIZE 1 (Some (replicate (Z.to_nat pt_regs_words) 0)) (8 * pt_regs_words) 0
                (replicate 128 0) 0 (Some (replicate (Z.to_nat TEST_STACK_SIZE) 0)) in
  '(_, info) ← write_regs info reg_name_rsp raw_sp;
  '(_, info) ← write_regs info reg_name_rbp (raw_sp + 0xe0);
  '(_, info) ← write_regs info TEST_DW_REG3 TEST_REGISTER_COPY_VALUE;
  '(_, info) ← write_regs info TEST_DW_REG12 0x70000300;
  mret info.

Definition write_stack_u64 (info : gu_stack_info) (addr value : Z) : outcome gu_stack_info :=
  let off := addr -w stack_base in
  if TEST_STACK_SIZE <? off +w 8 then Undef OutOfBounds else
  stack ← deref (stack_data info);
  mret (mk_gu_stack_info (si_pid info) (stack_size info) (si_unique_id info) (regs info) (regs_size info) (flags info)
          (ustack_fp info) (ustack_fp_level info)
          (Some (take (Z.to_nat off) stack ++ le_bytes 8 value ++ drop (Z.to_nat (off + 8)) stack))).

Definition eval_ops (info : gu_stack_info) (cfa ops : list Dwarf_Op) (bias : Z) : outcome (option Z) :=
  '(r, _) ← gu_dwarf_ops_eval page_size info bias raw_sp cfa 2 ops no_oor; mret r.

(** The result of a test: 0 when the condition holds. *)
Definition verdict (ok : bool) : Z := if ok then 0 else 1.
Definition gives (r : option Z) (expected : Z) : bool := bool_decide (r = Some expected).

Definition expect_ops_value (ops : list Dwarf_Op) (bias expected : Z) : outcome Z :=
  info ← init_eval_fixture;
  actual ← eval_ops info [] ops bias;
  mret (verdict (gives actual expected)).
Definition expect_ops_fail (ops : list Dwarf_Op) : outcome Z :=
  info ← init_eval_fixture;
  actual ← eval_ops info [] ops 0;
  mret (verdict (bool_decide (actual = None))).

(** ** Expressions *)
Definition test_expr_literal_arithmetic : outcome Z :=
  let ops :=
  [op_of_atom (DW_OP_lit0 + 10); op_of_atom (DW_OP_lit0 + 3); op_of_atom DW_OP_minus; mk_op DW_OP_constu 4 0 0;
   op_of_atom DW_OP_plus; mk_op DW_OP_addr 0x20 0 0; mk_op DW_OP_constu 0x1000 0 0; op_of_atom DW_OP_minus;
   op_of_atom DW_OP_plus] in
  expect_ops_value ops 0x1000 0x2b.

Definition test_expr_register_base : outcome Z :=
  let ops :=
  [mk_op DW_OP_bregx reg_name_rbp (u64 (-0x20)) 0; mk_op DW_OP_regx reg_name_rsp 0 0; op_of_atom DW_OP_minus;
   mk_op (DW_OP_breg0 + 12) 0x10 0 0; mk_op DW_OP_constu 0x70000310 0 0; op_of_atom DW_OP_eq; op_of_atom DW_OP_plus] in
  expect_ops_value ops 0 0xc1.

Definition test_expr_stack_manipulation : outcome Z :=
  let ops :=
  [op_of_atom (DW_OP_lit0 + 1); op_of_atom (DW_OP_lit0 + 2); op_of_atom (DW_OP_lit0 + 3); op_of_atom DW_OP_rot;
   mk_op DW_OP_pick 2 0 0; op_of_atom DW_OP_plus; op_of_atom (DW_OP_lit0 + 7); op_of_atom DW_OP_swap;
   op_of_atom DW_OP_over; op_of_atom DW_OP_plus; op_of_atom DW_OP_minus] in
  expect_ops_value ops 0 0xfffffffffffffffb.

Definition test_expr_constants_and_direct_registers : outcome Z :=
  let ops :=
  [mk_op DW_OP_const1u 0x12 0 0; mk_op DW_OP_const1s (u64 (-2)) 0 0; op_of_atom DW_OP_plus;
   mk_op DW_OP_const2u 0x1234 0 0; mk_op DW_OP_const2s (u64 (-4)) 0 0; op_of_atom DW_OP_plus;
   op_of_atom DW_OP_minus; mk_op DW_OP_const4u 0x10000 0 0; mk_op DW_OP_const4s (u64 (-0x100)) 0 0;
   op_of_atom DW_OP_plus; op_of_atom DW_OP_plus; mk_op DW_OP_const8s (u64 (-0x10)) 0 0; op_of_atom DW_OP_plus;
   mk_op DW_OP_consts (u64 (-0x20)) 0 0; op_of_atom DW_OP_plus; op_of_atom (DW_OP_reg0 + 3);
   mk_op DW_OP_const8u 0x123456789abcdef0 0 0; op_of_atom DW_OP_eq; op_of_atom DW_OP_plus] in
  expect_ops_value ops 0 0xecb1.

Definition test_expr_stack_dup_drop : outcome Z :=
  let ops :=
  [op_of_atom (DW_OP_lit0 + 5); op_of_atom DW_OP_dup; op_of_atom DW_OP_mul; op_of_atom (DW_OP_lit0 + 9);
   op_of_atom DW_OP_drop] in
  expect_ops_value ops 0 25.

Definition test_expr_arithmetic_logic : outcome Z :=
  let ops :=
  [mk_op DW_OP_const1s (u64 (-7)) 0 0; op_of_atom DW_OP_abs; op_of_atom (DW_OP_lit0 + 3); op_of_atom DW_OP_mul;
   op_of_atom (DW_OP_lit0 + 5); op_of_atom DW_OP_div; op_of_atom (DW_OP_lit0 + 3); op_of_atom DW_OP_mod;
   op_of_atom (DW_OP_lit0 + 1); op_of_atom DW_OP_shl; op_of_atom (DW_OP_lit0 + 8); op_of_atom DW_OP_or;
   op_of_atom (DW_OP_lit0 + 3); op_of_atom DW_OP_xor; op_of_atom (DW_OP_lit0 + 7); op_of_atom DW_OP_and;
   op_of_atom (DW_OP_lit0 + 1); op_of_atom DW_OP_shr; op_of_atom (DW_OP_lit0 + 1); mk_op DW_OP_plus_uconst 5 0 0;
   op_of_atom DW_OP_plus] in
  expect_ops_value ops 0 6.

Definition test_expr_signed_shift_and_unary : outcome Z :=
  let ops :=
  [op_of_atom (DW_OP_lit0 + 5); op_of_atom DW_OP_neg; op_of_atom (DW_OP_lit0 + 1); op_of_atom DW_OP_shra;
   op_of_atom DW_OP_not] in
  expect_ops_value ops 0 2.

Definition test_expr_comparisons : outcome Z :=
  let ops :=
  [op_of_atom (DW_OP_lit0 + 4); op_of_atom (DW_OP_lit0 + 4); op_of_atom DW_OP_le; op_of_atom (DW_OP_lit0 + 5);
   op_of_atom (DW_OP_lit0 + 4); op_of_atom DW_OP_ge; op_of_atom DW_OP_plus; op_of_atom (DW_OP_lit0 + 7);
   op_of_atom (DW_OP_lit0 + 7); op_of_atom DW_OP_eq; op_of_atom DW_OP_plus; op_of_atom (DW_OP_lit0 + 3);
   op_of_atom (DW_OP_lit0 + 8); op_of_atom DW_OP_lt; op_of_atom DW_OP_plus; op_of_atom (DW_OP_lit0 + 9);
   op_of_atom (DW_OP_lit0 + 2); op_of_atom DW_OP_gt; op_of_atom DW_OP_plus; op_of_atom (DW_OP_lit0 + 6);
   op_of_atom (DW_OP_lit0 + 1); op_of_atom DW_OP_ne; op_of_atom DW_OP_plus] in
  expect_ops_value ops 0 6.

Definition test_expr_signed_compare_branch : outcome Z :=
  let ops :=
  [mk_op DW_OP_const1s (u64 (-1)) 0 0; mk_op DW_OP_const1u 2 0 2; mk_op DW_OP_lt 0 0 4; mk_op DW_OP_bra 4 0 5;
   mk_op DW_OP_lit0 0 0 8; mk_op DW_OP_skip 2 0 9; mk_op DW_OP_const1u 42 0 12; mk_op DW_OP_nop 0 0 14] in
  expect_ops_value ops 0 42.

Definition test_expr_branch_loop_is_bounded : outcome Z :=
  let ops :=
  [mk_op DW_OP_skip (u64 (-3)) 0 0] in
  expect_ops_fail ops.

Definition test_expr_invalid_register_number_fails : outcome Z :=
  let ops :=
  [mk_op DW_OP_regx (u64 (-1)) 0 0] in
  expect_ops_fail ops.

Definition test_expr_div_int64_min_overflow_fails : outcome Z :=
  let ops :=
  [mk_op DW_OP_const8u 0x8000000000000000 0 0; mk_op DW_OP_const1s (u64 (-1)) 0 0; op_of_atom DW_OP_div] in
  expect_ops_fail ops.

Definition test_expr_shr_overflow_fails : outcome Z :=
  let ops :=
  [op_of_atom (DW_OP_lit0 + 1); mk_op DW_OP_const1u 64 0 0; op_of_atom DW_OP_shr] in
  expect_ops_fail ops.

Definition test_expr_shl_overflow_fails : outcome Z :=
  let ops :=
  [op_of_atom (DW_OP_lit0 + 1); mk_op DW_OP_const1u 64 0 0; op_of_atom DW_OP_shl] in
  expect_ops_fail ops.

Definition test_expr_shra_overflow_fails : outcome Z :=
  let ops :=
  [op_of_atom (DW_OP_lit0 + 1); mk_op DW_OP_const1u 64 0 0; op_of_atom DW_OP_shra] in
  expect_ops_fail ops.

Definition test_expr_stack_deref_size : outcome Z :=
  info ← init_eval_fixture;
  let addr := stack_base + 0x180 in
  info ← write_stack_u64 info addr 0x1122334455667788;
  full ← eval_ops info [] [mk_op DW_OP_const8u addr 0 0; op_of_atom DW_OP_deref] 0;
  sized ← eval_ops info [] [mk_op DW_OP_const8u addr 0 0; mk_op DW_OP_deref_size 2 0 0] 0;
  mret (verdict (gives full 0x1122334455667788 && gives sized 0x7788)).

Definition test_expr_deref_size_rejects_too_wide : outcome Z :=
  info ← init_eval_fixture;
  let addr := stack_base + 0x180 in
  info ← write_stack_u64 info addr 0x1122334455667788;
  actual ← eval_ops info [] [mk_op DW_OP_const8u addr 0 0; mk_op DW_OP_deref_size 9 0 0] 0;
  mret (verdict (bool_decide (actual = None))).

(** ** Call-frame programs *)
Definition emit_def_cfa_rsp (offset : Z) (b : byte_builder) : outcome byte_builder :=
  emits [emit_u8 DW_CFA_def_cfa; emit_uleb reg_name_rsp; emit_uleb offset] b.
Definition emit_rip_val_offset_zero (b : byte_builder) : outcome byte_builder :=
  emits [emit_u8 DW_CFA_val_offset; emit_uleb reg_name_rip; emit_uleb 0] b.

(** [init_cfi_fixture]: one FDE over [start, end) with the given program, and a
    CIE without one.  The FDE is the only one of an array at 0x5000; the two
    allocations of the array succeed. *)
Definition init_cfi_fixture (ins : list Z) (start_ end_ : Z) : gu_cfi :=
  let cie := mk_cie 0 1 (-8) reg_name_rip 0 0 0 DW_EH_PE_udata8 DW_EH_PE_omit false false zero_calc_ctx in
  let fde := mk_fde (Some 0) start_ end_ 0 (Z.of_nat (length ins)) in
  let item := mk_item start_ end_ (mark_interval_array_pointer_no_free 0x5000) in
  mk_cfi (gu_interval_array_init (H := merge_qsort) true true [item]).2 0 false 0 0 {[0 := cie]} 1 0x5000 [fde] ins.

(** [parse_cfi_fixture]: the scratch operations, or a failure. *)
Definition parse_cfi_fixture (b : byte_builder) (pc : Z) : outcome (option ops_scratch) :=
  '(ret, st) ← gu_cfi_parse_cfi (fun _ => true) (init_cfi_fixture b 0x1000 0x2000) fresh_state pc;
  mret (if ret =? 0 then Some (ps_scratch st) else None).

Definition expect_cfi_parse_failure (b : byte_builder) (pc : Z) : outcome Z :=
  s ← parse_cfi_fixture b pc;
  mret (verdict (bool_decide (s = None))).

Definition expect_current_cfa (b : byte_builder) (pc expected : Z) : outcome Z :=
  info ← init_eval_fixture;
  s ← parse_cfi_fixture b pc;
  match s with
  | None => mret 1
  | Some s =>
    match gu_cfi_get_ops s (Some REG_TYPE_RIP) true with
    | None | Some [] => mret 1
    | Some ops => actual ← eval_ops info (cfa_ops s) ops 0; mret (verdict (gives actual expected))
    end
  end.

Definition expect_cfi_reg (b : byte_builder) (pc regno expected stack_addr stack_value : Z) : outcome Z :=
  info ← init_eval_fixture;
  info ← (if stack_addr =? 0 then mret info else write_stack_u64 info stack_addr stack_value);
  s ← parse_cfi_fixture b pc;
  match s with
  | None => mret 1
  | Some s =>
    '(reason, actual, _) ← gen_reg page_size info 0 raw_sp 2 s regno no_oor;
    mret (verdict (bool_decide (reason = GU_UNWIND_REASON_OK) && gives actual expected))
  end.

Definition expect_cfi_reg_reason (b : byte_builder) (pc regno : Z) (expected : gu_unwind_reason) : outcome Z :=
  info ← init_eval_fixture;
  s ← parse_cfi_fixture b pc;
  match s with
  | None => mret 1
  | Some s =>
    '(reason, _, _) ← gen_reg page_size info 0 raw_sp 2 s regno no_oor;
    mret (verdict (bool_decide (reason = expected)))
  end.

Definition test_cfi_def_cfa_offset : outcome Z :=
  b ← emits [emit_def_cfa_rsp 16; emit_u8 DW_CFA_def_cfa_offset; emit_uleb 24; emit_rip_val_offset_zero] [];
  expect_current_cfa b 0x1000 (raw_sp + 24).

Definition test_cfi_def_cfa_expression : outcome Z :=
  expr ← emits [emit_u8 DW_OP_bregx; emit_uleb reg_name_rsp; emit_sleb 40] [];
  b ← emits [emit_u8 DW_CFA_def_cfa_expression; emit_uleb (Z.of_nat (length expr)); emit_all expr; emit_rip_val_offset_zero] [];
  expect_current_cfa b 0x1000 (raw_sp + 40).

Definition test_cfi_def_cfa_sf : outcome Z :=
  b ← emits [emit_u8 DW_CFA_def_cfa_sf; emit_uleb reg_name_rsp; emit_sleb (-2); emit_u8 DW_CFA_def_cfa_offset_sf; emit_sleb (-4);
             emit_rip_val_offset_zero] [];
  expect_current_cfa b 0x1000 (raw_sp + 32).

Definition test_cfi_def_cfa_register : outcome Z :=
  b ← emits [emit_def_cfa_rsp 16; emit_u8 DW_CFA_def_cfa_register; emit_uleb reg_name_rbp; emit_rip_val_offset_zero] [];
  expect_current_cfa b 0x1000 (raw_sp + 0xe0 + 16).

Definition test_cfi_expression : outcome Z :=
  let saved_pc := 0xabcdef1234567890 in
  b ← emits [emit_def_cfa_rsp 16; emit_u8 DW_CFA_expression; emit_uleb reg_name_rip; emit_uleb 2; emit_u8 DW_OP_plus_uconst; emit_uleb 8] [];
  expect_cfi_reg b 0x1000 reg_name_rip saved_pc (raw_sp + 16 + 8) saved_pc.

Definition test_cfi_val_expression : outcome Z :=
  b ← emits [emit_def_cfa_rsp 16; emit_u8 DW_CFA_val_expression; emit_uleb reg_name_rip; emit_uleb 2; emit_u8 DW_OP_plus_uconst; emit_uleb 32] [];
  expect_cfi_reg b 0x1000 reg_name_rip (raw_sp + 48) 0 0.

Definition test_cfi_offset_rule : outcome Z :=
  let saved_pc := 0x5555666677778888 in
  b ← emits [emit_def_cfa_rsp 16; emit_u8 (DW_CFA_offset + reg_name_rip); emit_uleb 1] [];
  expect_cfi_reg b 0x1000 reg_name_rip saved_pc (raw_sp + 16 - 8) saved_pc.

Definition test_cfi_remember_restore : outcome Z :=
  b ← emits [emit_def_cfa_rsp 16; emit_u8 DW_CFA_remember_state; emit_u8 DW_CFA_def_cfa_offset; emit_uleb 64; emit_u8 DW_CFA_restore_state;
             emit_rip_val_offset_zero] [];
  expect_current_cfa b 0x1000 (raw_sp + 16).

Definition test_cfi_register_copy : outcome Z :=
  b ← emits [emit_def_cfa_rsp 16; emit_rip_val_offset_zero; emit_u8 DW_CFA_register; emit_uleb reg_name_rbp; emit_uleb TEST_DW_REG3] [];
  expect_cfi_reg b 0x1000 reg_name_rbp TEST_REGISTER_COPY_VALUE 0 0.

(** The programs of [test_cfi_advance_loc]: the advance, then a new offset. *)
Definition advance_program (advance : list Z) (offset : Z) : outcome byte_builder :=
  emits [emit_def_cfa_rsp 16; emit_rip_val_offset_zero; emit_all advance; emit_u8 DW_CFA_def_cfa_offset; emit_uleb offset] [].
Definition test_cfi_advance_loc : outcome Z :=
  b ← advance_program [DW_CFA_advance_loc + 4] 40;
  r1 ← expect_current_cfa b 0x1002 (raw_sp + 16);
  r2 ← expect_current_cfa b 0x1004 (raw_sp + 40);
  b ← advance_program [DW_CFA_advance_loc1; 4] 48;
  r3 ← expect_current_cfa b 0x1004 (raw_sp + 48);
  b ← advance_program [DW_CFA_advance_loc2; 4; 0] 56;
  r4 ← expect_current_cfa b 0x1004 (raw_sp + 56);
  b ← advance_program [DW_CFA_advance_loc4; 4; 0; 0; 0] 64;
  r5 ← expect_current_cfa b 0x1004 (raw_sp + 64);
  mret (Z.lor r1 (Z.lor r2 (Z.lor r3 (Z.lor r4 r5)))).

Definition test_cfi_unrecoverable_rip_fails : outcome Z :=
  b ← emits [emit_def_cfa_rsp 16; emit_u8 DW_CFA_undefined; emit_uleb reg_name_rip] [];
  r1 ← expect_cfi_parse_failure b 0x1000;
  b ← emits [emit_def_cfa_rsp 16; emit_u8 DW_CFA_same_value; emit_uleb reg_name_rip] [];
  r2 ← expect_cfi_parse_failure b 0x1000;
  mret (Z.lor r1 r2).

Definition test_cfi_truncated_expression_block_fails : outcome Z :=
  b ← emits [emit_def_cfa_rsp 16; emit_u8 DW_CFA_val_expression; emit_uleb reg_name_rip; emit_uleb 1; emit_u8 DW_OP_const8u] [];
  r1 ← expect_cfi_parse_failure b 0x1000;
  b ← emits [emit_def_cfa_rsp 16; emit_u8 DW_CFA_val_expression; emit_uleb reg_name_rip; emit_uleb 16; emit_u8 DW_OP_lit0] [];
  r2 ← expect_cfi_parse_failure b 0x1000;
  mret (Z.lor r1 r2).

Definition test_cfi_truncated_instruction_fails : outcome Z :=
  b ← emits [emit_def_cfa_rsp 16; emit_rip_val_offset_zero; emit_u8 DW_CFA_def_cfa; emit_uleb reg_name_rsp] [];
  r1 ← expect_cfi_parse_failure b 0x1000;
  b ← emits [emit_def_cfa_rsp 16; emit_rip_val_offset_zero; emit_u8 DW_CFA_advance_loc4; emit_u8 1; emit_u8 0] [];
  r2 ← expect_cfi_parse_failure b 0x1000;
  mret (Z.lor r1 r2).

Definition test_cfi_stack_read_out_of_range : outcome Z :=
  b ← emits [emit_def_cfa_rsp (TEST_STACK_SIZE + 16); emit_u8 (DW_CFA_offset + reg_name_rip); emit_uleb 1] [];
  expect_cfi_reg_reason b 0x1000 reg_name_rip GU_UNWIND_REASON_STACK_READ_OUT_OF_RANGE.

Definition test_cfi_set_loc : outcome Z :=
  b ← emits [emit_def_cfa_rsp 16; emit_u8 DW_CFA_set_loc; emit_u64 0x100b; emit_u8 DW_CFA_def_cfa_offset; emit_uleb 32;
             emit_rip_val_offset_zero] [];
  expect_current_cfa b 0x100b (raw_sp + 32).

(** ** [main] *)
Definition cases : list (string * outcome Z) :=
  [("expr_literal_arithmetic"%string, test_expr_literal_arithmetic);
   ("expr_register_base"%string, test_expr_register_base);
   ("expr_stack_manipulation"%string, test_expr_stack_manipulation);
   ("expr_constants_and_direct_registers"%string, test_expr_constants_and_direct_registers);
   ("expr_stack_dup_drop"%string, test_expr_stack_dup_drop);
   ("expr_arithmetic_logic"%string, test_expr_arithmetic_logic);
   ("expr_signed_shift_and_unary"%string, test_expr_signed_shift_and_unary);
   ("expr_comparisons"%string, test_expr_comparisons);
   ("expr_stack_deref_size"%string, test_expr_stack_deref_size);
   ("expr_signed_compare_branch"%string, test_expr_signed_compare_branch);
   ("expr_branch_loop_is_bounded"%string, test_expr_branch_loop_is_bounded);
   ("expr_invalid_register_number_fails"%string, test_expr_invalid_register_number_fails);
   ("expr_deref_size_rejects_too_wide"%string, test_expr_deref_size_rejects_too_wide);
   ("cfi_def_cfa_offset"%string, test_cfi_def_cfa_offset);
   ("cfi_def_cfa_expression"%string, test_cfi_def_cfa_expression);
   ("cfi_def_cfa_sf"%string, test_cfi_def_cfa_sf);
   ("cfi_def_cfa_register"%string, test_cfi_def_cfa_register);
   ("cfi_expression"%string, test_cfi_expression);
   ("cfi_val_expression"%string, test_cfi_val_expression);
   ("cfi_offset_rule"%string, test_cfi_offset_rule);
   ("cfi_remember_restore"%string, test_cfi_remember_restore);
   ("cfi_register_copy"%string, test_cfi_register_copy);
   ("cfi_advance_loc"%string, test_cfi_advance_loc);
   ("cfi_unrecoverable_rip_fails"%string, test_cfi_unrecoverable_rip_fails);
   ("cfi_truncated_expression_block_fails"%string, test_cfi_truncated_expression_block_fails);
   ("cfi_truncated_instruction_fails"%string, test_cfi_truncated_instruction_fails);
   ("cfi_stack_read_out_of_range"%string, test_cfi_stack_read_out_of_range);
   ("cfi_set_loc"%string, test_cfi_set_loc);
   ("expr_div_int64_min_overflow_fails"%string, test_expr_div_int64_min_overflow_fails);
   ("expr_shr_overflow_fails"%string, test_expr_shr_overflow_fails);
   ("expr_shl_overflow_fails"%string, test_expr_shl_overflow_fails);
   ("expr_shra_overflow_fails"%string, test_expr_shra_overflow_fails)].

(** The names of the cases that are reported [not ok]. *)
Fixpoint run_cases (cs : list (string * outcome Z)) (failures : list string) : outcome (list string) :=
  match cs with
  | [] => mret failures
  | (name, run_) :: cs => ret ← run_; run_cases cs (if ret =? 0 then failures else failures ++ [name])
  end.

(** [main] without arguments: the exit status and the failed cases. *)
Definition stress_main : outcome (Z * list string) :=
  failures ← run_cases cases [];
  mret (if decide (failures = []) then 0 else 1, failures).
End stress.

(** ** The emitters and the decoder *)
Lemma group_bits b : 0 <= b < 128 -> Z.land (Z.lor b 0x80) 0x7f = b /\ Z.land (Z.lor b 0x80) 0x80 =? 0 = false /\
  Z.land b 0x80 =? 0 = true /\ Z.land b 0x7f = b /\ (negb (Z.land b 0x40 =? 0) = (64 <=? b)).
Proof.
  intros Hb. assert (H : Forall (fun b => Z.land (Z.lor b 0x80) 0x7f = b /\ Z.land (Z.lor b 0x80) 0x80 =? 0 = false /\
    Z.land b 0x80 =? 0 = true /\ Z.land b 0x7f = b /\ (negb (Z.land b 0x40 =? 0) = (64 <=? b))) (seqZ 0 128)).
  { apply (bool_decide_unpack _). vm_compute. done. }
  rewrite Forall_forall in H. apply H, elem_of_seqZ. lia.
Qed.

Lemma land_group v : Z.land v 0x7f = v mod 128.
Proof. change 0x7f with (Z.ones 7). by rewrite Z.land_ones by lia. Qed.

Lemma shape_cons b l : 0 <= b < 128 -> leb_shape l = true -> leb_shape (Z.lor b 0x80 :: l) = true.
Proof. intros Hb Hl. destruct l as [|c l]; [done|]. cbn [leb_shape]. destruct (group_bits b Hb) as (_ & -> & _). done. Qed.

Lemma shape_one b : 0 <= b < 128 -> leb_shape [b] = true.
Proof. intros Hb. cbn. by destruct (group_bits b Hb) as (_ & _ & -> & _). Qed.

Lemma uleb_bytes_spec fuel v :
  0 <= v < 2 ^ (7 * Z.of_nat fuel) -> (0 < fuel)%nat ->
  leb_shape (uleb_bytes fuel v) = true /\ uleb_value (uleb_bytes fuel v) = v /\
  forall n, (0 < n)%nat -> v < 2 ^ (7 * Z.of_nat n) -> (length (uleb_bytes fuel v) <= n)%nat.
Proof.
  revert v. induction fuel as [|fuel IH]; intros v Hv Hf; [lia|]. cbn [uleb_bytes]. rewrite land_group, Z.shiftr_div_pow2 by lia.
  change (2 ^ 7) with 128. pose proof (Z.mod_pos_bound v 128 ltac:(lia)) as Hb. pose proof (Z.div_mod v 128 ltac:(lia)) as Hd.
  destruct (group_bits _ Hb) as (E1 & _ & _ & E4 & _). destruct (Z.eqb_spec (v / 128) 0) as [E|E].
  { split; [by apply shape_one|]. cbn [uleb_value length]. rewrite E4. split; [lia|]. intros n Hn _. lia. }
  assert (Hpow : forall k : nat, 2 ^ (7 * Z.of_nat (S k)) = 128 * 2 ^ (7 * Z.of_nat k))
    by (intros k; rewrite Nat2Z.inj_succ, Z.mul_succ_r, Z.add_comm, Z.pow_add_r by lia; done).
  rewrite Hpow in Hv. assert (Hq : 0 <= v / 128 < 2 ^ (7 * Z.of_nat fuel)) by (split; [apply Z.div_pos; lia|apply Z.div_lt_upper_bound; lia]).
  destruct fuel as [|fuel]; [change (2 ^ _) with 1 in Hq; lia|].
  destruct (IH (v / 128) Hq ltac:(lia)) as (H1 & H2 & H3). split; [by apply shape_cons|].
  split; [cbn [uleb_value]; rewrite H2, E1; lia|]. intros n Hn Hvn. cbn [length]. destruct n as [|n]; [lia|]. apply le_n_S.
  rewrite Hpow in Hvn. apply H3; [|apply Z.div_lt_upper_bound; lia]. destruct n; [change (2 ^ (7 * Z.of_nat 0)) with 1 in Hvn; exfalso; apply E, Z.div_small; lia|lia].
Qed.

Lemma sleb_value_cons b l : l <> [] -> sleb_value (b :: l) = Z.land b 0x7f + 128 * sleb_value l.
Proof.
  intros Hl. unfold sleb_value, sleb_negative. destruct l as [|c l]; [done|].
  change (last (b :: c :: l)) with (last (c :: l)). cbn [uleb_value length]. rewrite (Nat2Z.inj_succ (S (length l))), Z.mul_succ_r, Z.add_comm.
  rewrite Z.pow_add_r by lia. change (2 ^ 7) with 128. destruct (match last (c :: l) with Some _ => _ | None => _ end); lia.
Qed.

Lemma sleb_bytes_spec fuel v :
  - 2 ^ (7 * Z.of_nat fuel - 1) <= v < 2 ^ (7 * Z.of_nat fuel - 1) -> (0 < fuel)%nat ->
  leb_shape (sleb_bytes fuel v) = true /\ sleb_value (sleb_bytes fuel v) = v /\
  forall n, (0 < n)%nat -> - 2 ^ (7 * Z.of_nat n - 1) <= v < 2 ^ (7 * Z.of_nat n - 1) -> (length (sleb_bytes fuel v) <= n)%nat.
Proof.
  assert (Hpow : forall k : nat, 2 ^ (7 * Z.of_nat (S (S k)) - 1) = 128 * 2 ^ (7 * Z.of_nat (S k) - 1)).
  { intros k. replace (7 * Z.of_nat (S (S k)) - 1) with (7 + (7 * Z.of_nat (S k) - 1)) by lia. by rewrite Z.pow_add_r by lia. }
  assert (Hquot : forall k w, - (128 * k) <= w < 128 * k -> - k <= w / 128 < k)
    by (intros k w H; split; [apply Z.div_le_lower_bound; lia|apply Z.div_lt_upper_bound; lia]).
  revert v. induction fuel as [|fuel IH]; intros v Hv Hf; [lia|]. cbn [sleb_bytes]. rewrite land_group, Z.shiftr_div_pow2 by lia.
  change (2 ^ 7) with 128. pose proof (Z.mod_pos_bound v 128 ltac:(lia)) as Hb. pose proof (Z.div_mod v 128 ltac:(lia)) as Hd.
  destruct (group_bits _ Hb) as (E1 & _ & _ & E4 & E5). rewrite E5.
  assert (Hone : (v / 128 =? 0) && negb (64 <=? v mod 128) || (v / 128 =? -1) && (64 <=? v mod 128) = true ->
    sleb_value [v mod 128] = v).
  { intros H. unfold sleb_value, sleb_negative. cbn [last uleb_value length]. rewrite E5, E4. change (2 ^ (7 * Z.of_nat 1)) with 128.
    destruct (64 <=? v mod 128); cbn [negb] in H; rewrite ?andb_true_r, ?andb_false_r, ?orb_false_r in H; cbn [orb] in H;
      apply Z.eqb_eq in H; lia. }
  destruct (_ || _) eqn:Estop; [split; [by apply shape_one|]; split; [by apply Hone|cbn; lia]|].
  assert (Hlong : - 2 ^ (7 * Z.of_nat 1 - 1) <= v < 2 ^ (7 * Z.of_nat 1 - 1) -> False).
  { change (2 ^ _) with 64. intros H. destruct (Z.leb_spec 64 (v mod 128));
      destruct (Z.eqb_spec (v / 128) 0), (Z.eqb_spec (v / 128) (-1)); try done; lia. }
  destruct fuel as [|fuel]; [by destruct (Hlong Hv)|].
  rewrite Hpow in Hv. destruct (IH (v / 128) (Hquot _ _ Hv) ltac:(lia)) as (H1 & H2 & H3).
  split; [by apply shape_cons|]. split; [rewrite sleb_value_cons by (by intros E; rewrite E in H1); rewrite H2, E1; lia|].
  intros n Hn Hvn. cbn [length]. destruct n as [|[|n]]; [lia|by destruct (Hlong Hvn)|]. apply le_n_S, H3; [lia|].
  rewrite Hpow in Hvn. by apply Hquot.
Qed.

(** ** Properties *)

(** On both targets, the model run on the project's 32 test cases gives the
    expected result in all but two: a return address that cannot be recovered, or
    whose expression is cut short, is expected to make the parse fail, but the
    code reports success and leaves the register without a rule. *)
Theorem stress_cases_hold :
  stress_main (HA := linux_x86_64) 4096 =
    Done (1, ["cfi_unrecoverable_rip_fails"; "cfi_truncated_expression_block_fails"]%string) /\
  stress_main (HA := aarch64) 4096 =
    Done (1, ["cfi_unrecoverable_rip_fails"; "cfi_truncated_expression_block_fails"]%string).
Proof. split; vm_compute; reflexivity. Qed.

(** LEB128 numbers as the test and benchmark programs emit them are read back
    by the checked decoder of the library: unsigned ones below 2^31, signed ones
    of up to nine bytes. *)
Theorem emitted_leb_decodes v rest :
  (0 <= v < 2 ^ 31 -> decode_read_checked (uleb_bytes 10 v ++ rest) DW_EH_PE_uleb128 = Done (Some (v, rest))) /\
  (- 2 ^ 62 <= v < 2 ^ 62 -> decode_read_checked (sleb_bytes 10 v ++ rest) DW_EH_PE_sleb128 = Done (Some (u64 v, rest))).
Proof.
  split; intros Hv.
  - destruct (uleb_bytes_spec 10 v) as (H1 & H2 & H3); [lia|lia|]. rewrite decode_uleb128_spec; [by rewrite H2|done| |lia].
    apply H3; lia.
  - destruct (sleb_bytes_spec 10 v) as (H1 & H2 & H3); [lia|lia|]. rewrite decode_sleb128_spec; [by rewrite H2|done|].
    apply H3; lia.
Qed.

Lemma emitted_leb_decodes_witness :
  decode_read_checked (uleb_bytes 10 624485 ++ [7]) DW_EH_PE_uleb128 = Done (Some (624485, [7])) /\
  decode_read_checked (sleb_bytes 10 (-123456) ++ [7]) DW_EH_PE_sleb128 = Done (Some (u64 (-123456), [7])).
Proof. split; [apply (emitted_leb_decodes 624485 [7])|apply (emitted_leb_decodes (-123456) [7])]; lia. Defined.
