(* ===== verification/ElfRanges.v ===== *)
(** * Executable load ranges: [src/gu_elf.c]

    The executable [PT_LOAD] segments of an ELF image, page-aligned, and the
    search that turns the file offset of a mapping into the virtual address the
    mapping starts at.  The unwinder subtracts that address from the start of
    the mapping to get the load bias. *)

From S2P Require Import Prelude.

Definition ULONG_MAX : Z := UINT64_MAX.

(** ** Data *)

(** [struct gu_elf_exec_range]; a [struct gu_elf_exec_ranges] is the list of
    its [count] entries, the empty list being the zeroed structure. *)
Record gu_elf_exec_range : Type := mk_range {
  range_start : Z;
  range_end : Z;
  range_offset : Z;
}.

(** The fields of [GElf_Phdr] (libelf) the code reads. *)
Record GElf_Phdr : Type := mk_phdr {
  p_type : Z;
  p_flags : Z;
  p_offset : Z;
  p_vaddr : Z;
  p_memsz : Z;
  p_align : Z;
}.
Definition PT_LOAD : Z := 1.
Definition PF_X : Z := 1.

(** ** Alignment *)
Definition align_down (value align : Z) : Z :=
  if align =? 0 then value else value - value mod align.

Definition align_up (value align : Z) : Z :=
  if align =? 0 then value else
  let rem := value mod align in
  if rem =? 0 then value else value +w (align - rem).

(** ** Loading *)
Definition exec_load (ph : GElf_Phdr) : bool :=
  (p_type ph =? PT_LOAD) && negb (Z.land (p_flags ph) PF_X =? 0) && negb (p_memsz ph =? 0).

(** The range of one segment; [None] when the loop skips it. *)
Definition phdr_range (ph : GElf_Phdr) : option gu_elf_exec_range :=
  if negb (exec_load ph) then None else
  let start := align_down (p_vaddr ph) (p_align ph) in
  let end_ := align_up (p_vaddr ph +w p_memsz ph) (p_align ph) in
  if end_ <=? start then None else
  Some (mk_range start end_ (align_down (p_offset ph) (p_align ph))).

(** The loop over the program headers; [None] is a failing [gelf_getphdr]. *)
Fixpoint load_loop (phdrs : list (option GElf_Phdr)) (loaded : list gu_elf_exec_range)
  : option (list gu_elf_exec_range) :=
  match phdrs with
  | [] => Some loaded
  | None :: _ => None
  | Some ph :: phdrs =>
    match phdr_range ph with
    | None => load_loop phdrs loaded
    | Some r => load_loop phdrs (loaded ++ [r])
    end
  end.

(** [gu_elf_exec_ranges_load_from_elf]: the return value and [*ranges].  The
    ELF handle is what libelf answers on it: [None] for a failing
    [elf_getphdrnum], otherwise the answers of [gelf_getphdr].  [alloc] is the
    success of [calloc]. *)
Definition gu_elf_exec_ranges_load_from_elf (alloc : bool) (elf : option (list (option GElf_Phdr)))
  : Z * list gu_elf_exec_range :=
  match elf with
  | None => (-1, [])
  | Some phdrs =>
    if negb alloc then (-1, []) else
    match load_loop phdrs [] with
    | None => (-1, [])
    | Some loaded => (0, loaded)
    end
  end.

(** [gu_elf_exec_ranges_load]: [version_ok] is [elf_version], [file] what opening
    the path yields, inside it what [elf_begin] yields; the last component is the
    number of descriptors and ELF handles left open. *)
Definition gu_elf_exec_ranges_load (version_ok : bool) (file : option (option (option (list (option GElf_Phdr))))) (alloc : bool)
  : Z * list gu_elf_exec_range * Z :=
  if negb version_ok then (-1, [], 0) else
  match file with
  | None => (-1, [], 0)
  | Some handle =>
    let opened := 1 in
    let '(ret, ranges, opened) :=
      match handle with
      | None => (-1, [], opened)
      | Some elf => let '(ret, ranges) := gu_elf_exec_ranges_load_from_elf alloc elf in (ret, ranges, opened + 1)
      end in
    let opened := if handle then opened - 1 else opened in
    (ret, ranges, opened - 1)
  end.

(** [gu_elf_exec_ranges_destroy] leaves a zeroed structure. *)
Definition gu_elf_exec_ranges_destroy (ranges : list gu_elf_exec_range) : list gu_elf_exec_range := [].

Lemma ranges_load_closes version_ok file alloc : (gu_elf_exec_ranges_load version_ok file alloc).2 = 0.
Proof.
  unfold gu_elf_exec_ranges_load. destruct version_ok; [|done]. destruct file as [[elf|]|]; [|done..]. cbn [negb].
  by destruct (gu_elf_exec_ranges_load_from_elf alloc elf).
Qed.

(** ** Queries *)
Definition gu_elf_exec_ranges_first_start (ranges : list gu_elf_exec_range) : Z :=
  match ranges with
  | [] => 0
  | r :: _ => range_start r
  end.

Definition range_encloses (start end_ : Z) (r : gu_elf_exec_range) : bool :=
  (range_start r <=? start) && (end_ <=? range_end r).

(** [gu_elf_exec_ranges_find]: [None] is [false]. *)
Definition gu_elf_exec_ranges_find (ranges : list gu_elf_exec_range) (start end_ : Z) : option Z :=
  if end_ <=? start then None else
  if existsb (range_encloses start end_) ranges then Some start else None.

(** The loop of [gu_elf_exec_ranges_find_by_offset]. *)
Fixpoint find_offset_loop (ranges : list gu_elf_exec_range) (offset end_offset : Z) : option Z :=
  match ranges with
  | [] => None
  | r :: ranges =>
    if range_end r <=? range_start r then find_offset_loop ranges offset end_offset else
    let range_size := range_end r - range_start r in
    if ULONG_MAX - range_size <? range_offset r then find_offset_loop ranges offset end_offset else
    let range_end_offset := range_offset r + range_size in
    if (range_offset r <=? offset) && (end_offset <=? range_end_offset)
    then Some (range_start r +w (offset - range_offset r))
    else find_offset_loop ranges offset end_offset
  end.

Definition gu_elf_exec_ranges_find_by_offset (ranges : list gu_elf_exec_range) (offset size : Z)
  : option Z :=
  match ranges with
  | [] => None
  | _ =>
    if size =? 0 then None else
    if ULONG_MAX - size <? offset then None else
    find_offset_loop ranges offset (offset + size)
  end.

(** ** Lemmas *)
Lemma align_down_le v a : 0 <= v -> 0 <= a -> 0 <= align_down v a <= v.
Proof.
  intros. unfold align_down. destruct (Z.eqb_spec a 0); [lia|].
  pose proof (Z.mod_pos_bound v a). pose proof (Z.mod_le v a). lia.
Qed.

(** Addresses and offsets congruent modulo the alignment are rounded by the
    same amount. *)
Lemma align_down_congruent v o a :
  0 < a -> v mod a = o mod a -> align_down v a - align_down o a = v - o.
Proof. intros Ha Hc. unfold align_down. destruct (Z.eqb_spec a 0); lia. Qed.

Lemma align_up_u64 v a : is_u64 v -> is_u64 (align_up v a).
Proof.
  intros. unfold align_up. destruct (a =? 0); [done|]. destruct (_ =? 0); [done|].
  apply add64_range.
Qed.

Lemma load_loop_spec phdrs loaded l :
  load_loop phdrs loaded = Some l ->
  exists phs, phdrs = Some <$> phs /\ l = loaded ++ omap phdr_range phs.
Proof.
  revert loaded. induction phdrs as [|[ph|] phdrs IH]; intros loaded; simpl.
  - intros [= <-]. exists []. by rewrite app_nil_r.
  - intros H. destruct (phdr_range ph) as [r|] eqn:E.
    + destruct (IH _ H) as (phs & -> & ->). exists (ph :: phs). split; [done|].
      simpl. rewrite E. by rewrite <- app_assoc.
    + destruct (IH _ H) as (phs & -> & ->). exists (ph :: phs). split; [done|]. simpl. by rewrite E.
  - done.
Qed.

(** What the loaded ranges satisfy. *)
Record phdr_ok (ph : GElf_Phdr) : Prop := {
  ph_offset : is_u64 (p_offset ph);
  ph_vaddr : is_u64 (p_vaddr ph);
  ph_memsz : is_u64 (p_memsz ph);
  ph_align : is_u64 (p_align ph);
}.

Lemma phdr_range_ok ph r :
  phdr_ok ph -> phdr_range ph = Some r ->
  0 <= range_start r < range_end r /\ range_end r < 2 ^ 64 /\ is_u64 (range_offset r).
Proof.
  intros [Ho Hv Hm Ha]. unfold phdr_range. destruct (exec_load ph); [|done]. cbn [negb].
  destruct (Z.leb_spec (align_up (p_vaddr ph +w p_memsz ph) (p_align ph))
    (align_down (p_vaddr ph) (p_align ph))); [done|]. intros [= <-]. cbn.
  pose proof (align_up_u64 (p_vaddr ph +w p_memsz ph) (p_align ph) (add64_range _ _)).
  pose proof (align_down_le (p_vaddr ph) (p_align ph)).
  pose proof (align_down_le (p_offset ph) (p_align ph)). word.
Qed.

(** The window of file offsets a range covers. *)
Definition covers_offset (r : gu_elf_exec_range) (offset size : Z) : Prop :=
  range_start r < range_end r /\ range_offset r + (range_end r - range_start r) < 2 ^ 64 /\
  range_offset r <= offset /\ offset + size <= range_offset r + (range_end r - range_start r).

#[export] Instance covers_offset_dec r offset size : Decision (covers_offset r offset size).
Proof. unfold covers_offset. apply _. Defined.

Lemma find_offset_loop_spec ranges offset size :
  find_offset_loop ranges offset (offset + size) =
  (fun r => range_start r +w (offset - range_offset r)) <$>
    head (filter (fun r => covers_offset r offset size) ranges).
Proof.
  induction ranges as [|r ranges IH]; [done|]. cbn [find_offset_loop].
  rewrite filter_cons. unfold ULONG_MAX, UINT64_MAX.
  case_decide as Hc; unfold covers_offset in Hc;
    destruct (Z.leb_spec (range_end r) (range_start r)); try lia; try done;
    destruct (Z.ltb_spec (2 ^ 64 - 1 - (range_end r - range_start r)) (range_offset r)); try lia;
    try done; destruct (Z.leb_spec (range_offset r) offset); cbn [andb]; try lia; try done;
    destruct (Z.leb_spec (offset + size) (range_offset r + (range_end r - range_start r)));
    try lia; done.
Qed.

(** The search by offset is the first range that covers the window. *)
Lemma find_by_offset_spec ranges offset size :
  0 < size -> offset + size < 2 ^ 64 ->
  gu_elf_exec_ranges_find_by_offset ranges offset size =
  (fun r => range_start r +w (offset - range_offset r)) <$>
    head (filter (fun r => covers_offset r offset size) ranges).
Proof.
  intros Hs Ho. unfold gu_elf_exec_ranges_find_by_offset. rewrite <- find_offset_loop_spec.
  destruct ranges; [done|]. destruct (Z.eqb_spec size 0); [lia|].
  unfold ULONG_MAX, UINT64_MAX. destruct (Z.ltb_spec (2 ^ 64 - 1 - size) offset); [lia|done].
Qed.

(** A property of a list's first element that satisfies [P]. *)
Lemma head_filter_unique {A} (P : A -> Prop) `{forall x, Decision (P x)} (l : list A) x :
  x ∈ l -> P x -> (forall y, y ∈ l -> P y -> y = x) -> head (filter P l) = Some x.
Proof.
  intros Hx HP Hu. destruct (filter P l) as [|y l'] eqn:E.
  - assert (x ∈ filter P l) as Hin by by apply list_elem_of_filter. rewrite E in Hin.
    by apply not_elem_of_nil in Hin.
  - assert (y ∈ filter P l) as Hy by (rewrite E; apply list_elem_of_here).
    apply list_elem_of_filter in Hy as [HPy Hy]. simpl. by rewrite (Hu y).
Qed.
