(* ===== verification/Maps.v ===== *)
(** * Process mappings: [src/gu_comm.c], [src/gu_comm.h]

    Reading [/proc/<pid>/maps]: lines as [fgets] cuts them, the conversions of
    [sscanf] the code uses, the permission filter, and the merge of adjacent
    pieces of one file into one logical mapping.  Also [gu_path_join]. *)

From Stdlib Require Import Ascii.
From stdpp Require Import strings.
From S2P Require Import Prelude.

Abbreviation text := (list ascii).
Definition txt (s : string) : text := String.list_ascii_of_string s.
Definition of_txt (l : text) : string := String.string_of_list_ascii l.
Definition code (c : ascii) : Z := Z.of_N (N_of_ascii c).
(** The value of a [char] in an expression. *)
Definition char_value (c : ascii) : Z := s8 (code c).

(** ** C strings and input functions *)
Definition NUL : ascii := "000"%char.
Definition newline : ascii := "010"%char.

(** The string a buffer holds: up to the first NUL. *)
Fixpoint c_str (l : text) : text :=
  match l with
  | [] => []
  | c :: l => if decide (c = NUL) then [] else c :: c_str l
  end.

(** [fgets] with a buffer of [S n] bytes: at most [n] characters, up to and
    including a newline. *)
Fixpoint fgets (n : nat) (l : text) : text * text :=
  match n, l with
  | O, _ | _, [] => ([], l)
  | S n, c :: l => if decide (c = newline) then ([c], l) else let '(a, r) := fgets n l in (c :: a, r)
  end.

(** The strings [while (fgets(buf, S n, fp))] sees; every chunk takes a character. *)
Fixpoint fgets_loop (fuel n : nat) (l : text) : list text :=
  match fuel, l with
  | O, _ | _, [] => []
  | S fuel, _ => let '(a, r) := fgets n l in c_str a :: fgets_loop fuel n r
  end.

(** [isspace] in the C locale. *)
Definition isspace (c : ascii) : bool := (code c =? 32) || ((9 <=? code c) && (code c <=? 13)).

Fixpoint skip_space (l : text) : text :=
  match l with
  | c :: l' => if isspace c then skip_space l' else l
  | [] => []
  end.

Definition hex_digit (c : ascii) : option Z :=
  let x := code c in
  if (48 <=? x) && (x <=? 57) then Some (x - 48) else
  if (97 <=? x) && (x <=? 102) then Some (x - 87) else
  if (65 <=? x) && (x <=? 70) then Some (x - 55) else None.

(** The digits at the head of the input, as a number on top of [acc], how many
    there are, and the rest. *)
Fixpoint scan_digits (acc : Z) (l : text) : Z * nat * text :=
  match l with
  | c :: l' =>
    match hex_digit c with
    | Some d => let '(v, k, r) := scan_digits (16 * acc + d) l' in (v, S k, r)
    | None => (acc, O, l)
    end
  | [] => (acc, O, [])
  end.

(** [%lx]: white space, an optional sign and [0x], then at least one digit; a
    number too large reads as [ULONG_MAX], a minus sign negates. *)
Definition scan_lx (l : text) : option (Z * text) :=
  let l := skip_space l in
  let '(neg, l) := match l with
                   | c :: l' => if decide (c = "-"%char) then (true, l')
                                else if decide (c = "+"%char) then (false, l') else (false, l)
                   | [] => (false, l)
                   end in
  let l := match l with
           | z :: x :: l' => if decide (z = "0"%char /\ (x = "x"%char \/ x = "X"%char)) then l' else l
           | _ => l
           end in
  let '(v, k, r) := scan_digits 0 l in
  if decide (k = O) then None else
  Some (if UINT64_MAX <? v then UINT64_MAX else if (neg : bool) then u64 (- v) else v, r).

(** [%<n>s]: white space, then at least one and at most [n] other characters. *)
Fixpoint scan_word (n : nat) (l : text) : text * text :=
  match n, l with
  | S n, c :: l' => if isspace c then ([], l) else let '(w, r) := scan_word n l' in (c :: w, r)
  | _, _ => ([], l)
  end.
Definition scan_s (n : nat) (l : text) : option (text * text) :=
  let '(w, r) := scan_word n (skip_space l) in if decide (w = []) then None else Some (w, r).

Definition scan_char (c : ascii) (l : text) : option text :=
  match l with
  | c' :: l' => if decide (c' = c) then Some l' else None
  | [] => None
  end.

(** ** Decimal numbers *)
Definition dec_digit (c : ascii) : option Z := if (48 <=? code c) && (code c <=? 57) then Some (code c - 48) else None.

(** The digits [strtoull] reads: their value, how many, and the rest. *)
Fixpoint dec_digits (acc : Z) (l : text) : Z * nat * text :=
  match l with
  | [] => (acc, O, [])
  | c :: l' =>
    match dec_digit c with
    | Some d => let '(v, k, r) := dec_digits (10 * acc + d) l' in (v, S k, r)
    | None => (acc, O, l)
    end
  end.

(** [strtoull(value, &end, 10)]: the result, whether [errno] was set, and what
    [end] points to.  Without digits nothing is consumed; a minus sign negates
    modulo 2^64. *)
Definition strtoull (value : text) : Z * bool * text :=
  let l := skip_space value in
  let '(negative, l) := match l with
                        | c :: l' => if decide (c = "-"%char) then (true, l') else if decide (c = "+"%char) then (false, l') else (false, l)
                        | [] => (false, l)
                        end in
  let '(v, k, rest) := dec_digits 0 l in
  match k with
  | O => (0, false, value)
  | S _ => if 2 ^ 64 <=? v then (2 ^ 64 - 1, true, rest) else (if negative then u64 (- v) else v, false, rest)
  end.

(** ** [struct maps_info] *)
Record maps_info : Type := mk_maps {
  mi_path : string;
  mi_start : Z;
  mi_end : Z;
  mi_offset : Z;
  mi_permission : Z;
  mi_deleted : bool;
}.
Definition PERMISSION_R : Z := 1.
Definition PERMISSION_W : Z := 2.
Definition PERMISSION_X : Z := 4.
Definition MAX_MAPS_PATH : Z := 4096.

(** The [sscanf] of [gu_get_maps_info]: [None] when it assigns fewer than four
    fields; [maps_path] was cleared, so a missing path reads as empty. *)
Definition scan_maps_line (line : text) : option (Z * Z * text * Z * text) :=
  '(start, l) ← scan_lx line;
  l ← scan_char "-"%char l;
  '(end_, l) ← scan_lx l;
  '(perm, l) ← scan_s 4 l;
  '(offset, l) ← scan_lx l;
  let path :=
    '(_, l) ← scan_s (length l) l;
    '(_, l) ← scan_s (length l) l;
    '(path, _) ← scan_s 4095 l; Some path in
  Some (start, end_, perm, offset, default [] path).

(** [perm[k]]: the characters, then the terminator; what lies behind it is
    indeterminate. *)
Definition perm_at (perm : text) (k : nat) : outcome ascii :=
  match perm !! k with
  | Some c => mret c
  | None => if decide (k = length perm) then mret NUL else Undef Uninit
  end.

(** The filter: whether the [continue] is not taken. *)
Definition perm_wanted (p0 p1 p2 : ascii) (permission_flag : Z) : bool :=
  negb ((Z.land (if decide (p0 = "r"%char) then PERMISSION_R else 0) permission_flag =? 0) &&
        (Z.land (if decide (p1 = "w"%char) then PERMISSION_W else 0) permission_flag =? 0) &&
        (Z.land (if decide (p2 = "x"%char) then PERMISSION_X else 0) permission_flag =? 0)).

Definition perm_chars (p0 p1 p2 : ascii) : Z :=
  Z.lor (Z.lor (char_value p0) (char_value p1)) (char_value p2).

(** [strstr(line, sub) != NULL] *)
Fixpoint strstr (line sub : text) : bool :=
  bool_decide (sub `prefix_of` line) ||
  match line with
  | [] => false
  | _ :: line => strstr line sub
  end.

(** The condition under which a line extends the previous mapping. *)
Definition merges (prev : maps_info) (start offset permission : Z) (path : text) : bool :=
  let prev_size := mi_end prev -w mi_start prev in
  (mi_end prev =? start) && (mi_offset prev <=? UINT64_MAX - prev_size) &&
  (mi_offset prev +w prev_size =? offset) && (mi_permission prev =? permission) &&
  bool_decide (mi_path prev = of_txt path).

Definition with_end (m : maps_info) (e : Z) : maps_info :=
  mk_maps (mi_path m) (mi_start m) e (mi_offset m) (mi_permission m) (mi_deleted m).

(** The locals of the loop: the entries stored, the capacity of the array and
    the number of allocations made. *)
Record maps_state : Type := mk_maps_state {
  st_info : list maps_info;
  st_allocated : Z;
  st_allocs : nat;
}.

Section reading.
(** Whether the [k]-th allocation of the call succeeds. *)
Variable alloc : nat -> bool.

(** The array grown when it is full; [None] is [goto fail]. *)
Definition grow (s : maps_state) : outcome (option maps_state) :=
  if Z.of_nat (length (st_info s)) <? st_allocated s then mret (Some s) else
  let allocated := st_allocated s * 2 in
  if 2 ^ 31 <=? allocated then Undef SignedOverflow else
  if alloc (st_allocs s) then mret (Some (mk_maps_state (st_info s) allocated (S (st_allocs s))))
  else mret None.

(** The entry of a line written at [info[index]]. *)
Definition store (s : maps_state) (m : maps_info) : outcome (option maps_state) :=
  if st_allocated s <=? Z.of_nat (length (st_info s)) then Undef OutOfBounds else
  if alloc (st_allocs s) then
    mret (Some (mk_maps_state (st_info s ++ [m]) (st_allocated s) (S (st_allocs s))))
  else mret None.

(** The body of the loop; [None] is [goto fail]. *)
Definition maps_step (permission_flag : Z) (line : text) (s : maps_state)
  : outcome (option maps_state) :=
  match scan_maps_line line with
  | None => mret (Some s)
  | Some (start, end_, perm, offset, path) =>
    p0 ← perm_at perm 0; p1 ← perm_at perm 1; p2 ← perm_at perm 2;
    if negb (perm_wanted p0 p1 p2 permission_flag) then mret (Some s) else
    s ← grow s;
    match s with
    | None => mret None
    | Some s =>
      let fresh := mk_maps (of_txt path) start end_ offset (perm_chars p0 p1 p2)
                     (strstr line (txt " (deleted)")) in
      match last (st_info s) with
      | Some prev =>
        if merges prev start offset (perm_chars p0 p1 p2) path then
          mret (Some (mk_maps_state
            (<[(length (st_info s) - 1)%nat := with_end prev end_]> (st_info s))
            (st_allocated s) (st_allocs s)))
        else store s fresh
      | None => store s fresh
      end
    end
  end.

Fixpoint maps_loop (permission_flag : Z) (lines : list text) (s : maps_state)
  : outcome (option maps_state) :=
  match lines with
  | [] => mret (Some s)
  | line :: lines =>
    s ← maps_step permission_flag line s;
    match s with
    | None => mret None
    | Some s => maps_loop permission_flag lines s
    end
  end.

Definition file_lines (content : text) : list text :=
  fgets_loop (length content) (Z.to_nat (MAX_MAPS_PATH - 1)) content.

(** [gu_get_maps_info]: [file] is what opening the file yields; [None] is
    [NULL] with [*count] zero, after everything was freed. *)
Definition gu_get_maps_info (permission_flag : Z) (file : option text)
  : outcome (option (list maps_info)) :=
  match file with
  | None => mret None
  | Some content =>
    if negb (alloc 0) then mret None else
    s ← maps_loop permission_flag (file_lines content) (mk_maps_state [] 64 1);
    match s with
    | None => mret None
    | Some s =>
      if decide (st_info s = []) then mret None else
      if alloc (st_allocs s) then mret (Some (st_info s)) else mret None
    end
  end.
End reading.

(** ** Paths *)
(** [_trim_trailing_whitespace] *)
Fixpoint trim_end (l : text) : text :=
  match l with
  | [] => []
  | c :: l =>
    let r := trim_end l in
    if decide (r = [] /\ (c = newline \/ c = " "%char)) then [] else c :: r
  end.

(** [gu_path_join] on two strings; [alloc] is the success of [malloc]. *)
Definition gu_path_join (alloc : bool) (path1 path2 : text) : option text :=
  let need_separator :=
    match last path1 with
    | None => false
    | Some c => bool_decide (c <> "/"%char) && bool_decide (head path2 <> Some "/"%char)
    end in
  if negb alloc then None else
  Some (trim_end (path1 ++ (if need_separator then ["/"%char] else []) ++ path2)).

(** ** What reading the file computes *)

Lemma code_range c : 0 <= code c < 256.
Proof. unfold code. pose proof (N_ascii_bounded c). lia. Qed.

Lemma c_str_no_nul l : NUL ∉ c_str l.
Proof. induction l as [|c l IH]; cbn [c_str]; [set_solver|]. case_decide; set_solver. Qed.

Lemma hex_digit_range c d : hex_digit c = Some d -> 0 <= d < 16.
Proof. unfold hex_digit. pose proof (code_range c). repeat case_match; intros [= <-]; lia. Qed.

Lemma scan_digits_nonneg acc l v k r : 0 <= acc -> scan_digits acc l = (v, k, r) -> 0 <= v.
Proof.
  revert acc v k r. induction l as [|c l IH]; intros acc v k r Ha; cbn [scan_digits]; [by intros [= <- <- <-]|].
  destruct (hex_digit c) as [d|] eqn:Ed; [|by intros [= <- <- <-]]. apply hex_digit_range in Ed.
  destruct (scan_digits (16 * acc + d) l) as [[v1 k1] r1] eqn:E. apply IH in E; [|lia]. by intros [= <- <- <-].
Qed.

Lemma scan_lx_range l v r : scan_lx l = Some (v, r) -> is_u64 v.
Proof.
  unfold scan_lx. case_match. destruct (scan_digits 0 _) as [[v1 k1] r1] eqn:E.
  apply scan_digits_nonneg in E; [|lia]. case_decide; [done|]. intros [= <- _].
  destruct (Z.ltb_spec UINT64_MAX v1); [done|]. destruct b; [apply u64_range|]. word.
Qed.

(** The entry of a line that passes the filter. *)
Definition line_entry (permission_flag : Z) (line : text) : option maps_info :=
  match scan_maps_line line with
  | Some (start, end_, perm, offset, path) =>
    let p k := default NUL (perm !! k) in
    if perm_wanted (p 0%nat) (p 1%nat) (p 2%nat) permission_flag
    then Some (mk_maps (of_txt path) start end_ offset (perm_chars (p 0%nat) (p 1%nat) (p 2%nat))
                 (strstr line (txt " (deleted)")))
    else None
  | None => None
  end.

(** The format of [/proc/<pid>/maps]: the permissions are there, and a mapping
    ends after it starts. *)
Definition line_ok (line : text) : Prop :=
  match scan_maps_line line with
  | Some (start, end_, perm, _, _) => (2 <= length perm)%nat /\ start <= end_
  | None => True
  end.

(** [l] shows offset [o] of file [f] at [addr]. *)
Definition shows (l : list maps_info) (addr : Z) (f : string) (o : Z) : Prop :=
  exists m, m ∈ l /\ mi_start m <= addr < mi_end m /\ mi_path m = f /\ o = mi_offset m + (addr - mi_start m).

Definition info_ok (m : maps_info) : Prop :=
  is_u64 (mi_start m) /\ is_u64 (mi_end m) /\ is_u64 (mi_offset m) /\ mi_start m <= mi_end m.

Lemma shows_app l1 l2 addr f o : shows (l1 ++ l2) addr f o <-> shows l1 addr f o \/ shows l2 addr f o.
Proof. unfold shows. setoid_rewrite elem_of_app. naive_solver. Qed.
Lemma shows_nil addr f o : ~ shows [] addr f o.
Proof. intros (m & Hm & _). by apply not_elem_of_nil in Hm. Qed.
Lemma shows_one m addr f o :
  shows [m] addr f o <-> mi_start m <= addr < mi_end m /\ mi_path m = f /\ o = mi_offset m + (addr - mi_start m).
Proof. unfold shows. setoid_rewrite list_elem_of_singleton. naive_solver. Qed.

(** A merge shows what the two entries showed. *)
Lemma merges_shows prev start end_ offset permission path perm deleted addr f o :
  info_ok prev -> is_u64 offset -> start <= end_ -> merges prev start offset permission path = true ->
  shows [with_end prev end_] addr f o <->
  shows [prev] addr f o \/ shows [mk_maps (of_txt path) start end_ offset perm deleted] addr f o.
Proof.
  intros (Hs & He & Ho & Hle) Hoff Hse. unfold merges. rewrite (sub64_small (mi_end prev)) by word.
  rewrite !andb_true_iff, bool_decide_eq_true. intros [[[[H1 H2] H3] _] H5].
  rewrite add64_small in H3 by word. rewrite !shows_one. cbn. rewrite <- H5.
  split; [intros (Ha & <- & ->)|intros [(Ha & <- & ->)|(Ha & <- & ->)]]; [destruct (decide (addr < start)); [left|right]|..];
    split_and!; try done; lia.
Qed.

Lemma perm_at_ok perm k : (2 <= length perm)%nat -> (k <= 2)%nat -> perm_at perm k = Done (default NUL (perm !! k)).
Proof.
  intros Hl Hk. unfold perm_at. destruct (perm !! k) as [c|] eqn:E; [done|]. apply lookup_ge_None in E.
  by rewrite decide_True by lia.
Qed.

Lemma scan_line_range line s e p o path : scan_maps_line line = Some (s, e, p, o, path) -> is_u64 s /\ is_u64 e /\ is_u64 o.
Proof.
  unfold scan_maps_line. intros H. destruct (scan_lx line) as [[s1 l1]|] eqn:E1; [|done]. cbn in H.
  destruct (scan_char _ l1) as [l2|]; [|done]. cbn in H.
  destruct (scan_lx l2) as [[e1 l3]|] eqn:E2; [|done]. cbn in H.
  destruct (scan_s 4 l3) as [[p1 l4]|]; [|done]. cbn in H.
  destruct (scan_lx l4) as [[o1 l5]|] eqn:E3; [|done]. cbn in H.
  injection H as <- <- _ <- _. split_and!; by eapply scan_lx_range.
Qed.

Section loop.
Variable alloc : nat -> bool.

(** The state of the loop: the array is not full beyond its capacity. *)
Definition state_ok (s : maps_state) : Prop :=
  Forall info_ok (st_info s) /\ 64 <= st_allocated s /\ Z.of_nat (length (st_info s)) <= st_allocated s.

Lemma grow_ok s :
  state_ok s -> Z.of_nat (length (st_info s)) < 2 ^ 30 ->
  exists r, grow alloc s = Done r /\
    match r with
    | Some s' => st_info s' = st_info s /\ state_ok s' /\ Z.of_nat (length (st_info s')) < st_allocated s'
    | None => exists k, alloc k = false
    end.
Proof.
  intros (Hf & H64 & Hle) Hl. unfold grow. destruct (Z.ltb_spec (Z.of_nat (length (st_info s))) (st_allocated s)).
  { exists (Some s). split_and!; done. }
  destruct (Z.leb_spec (2 ^ 31) (st_allocated s * 2)); [lia|].
  destruct (alloc (st_allocs s)) eqn:E; eexists; (split; [done|]); [|by eexists].
  split; [done|]. unfold state_ok. cbn. split_and!; try done; lia.
Qed.

Lemma store_entry_ok s m :
  state_ok s -> info_ok m -> Z.of_nat (length (st_info s)) < st_allocated s ->
  exists r, store alloc s m = Done r /\
    match r with
    | Some s' => st_info s' = st_info s ++ [m] /\ state_ok s'
    | None => exists k, alloc k = false
    end.
Proof.
  intros (Hf & H64 & Hle) Hm Hl. unfold store. destruct (Z.leb_spec (st_allocated s) (Z.of_nat (length (st_info s)))); [lia|].
  destruct (alloc (st_allocs s)) eqn:E; eexists; (split; [done|]); [|by eexists].
  split; [done|]. unfold state_ok. cbn. rewrite length_app. cbn. split_and!; [|lia..]. apply Forall_app. by split; [|apply Forall_singleton].
Qed.

(** One line adds what its entry shows. *)
Lemma maps_step_ok flag line s :
  line_ok line -> state_ok s -> Z.of_nat (length (st_info s)) < 2 ^ 30 ->
  exists r, maps_step alloc flag line s = Done r /\
    match r with
    | Some s' => state_ok s' /\ (length (st_info s') <= S (length (st_info s)))%nat /\
        (length (st_info s) <= length (st_info s'))%nat /\
        (if line_entry flag line then st_info s' <> [] else st_info s' = st_info s) /\
        forall addr f o, shows (st_info s') addr f o <->
          shows (st_info s) addr f o \/ shows (option_list (line_entry flag line)) addr f o
    | None => exists k, alloc k = false
    end.
Proof.
  intros Hline Hs Hl. unfold maps_step, line_entry, line_ok in *.
  destruct (scan_maps_line line) as [[[[[st en] perm] off] path]|] eqn:Escan.
  2:{ eexists. split; [done|]. split_and!; try done; [lia|]. intros. split; [by left|]. by intros [|?%shows_nil]. }
  destruct Hline as [Hperm Hse]. apply scan_line_range in Escan as (Rs & Re & Ro).
  rewrite !perm_at_ok by (done || lia). run.
  set (p0 := default NUL (perm !! 0%nat)). set (p1 := default NUL (perm !! 1%nat)). set (p2 := default NUL (perm !! 2%nat)).
  destruct (perm_wanted p0 p1 p2 flag); cbn [negb].
  2:{ eexists. split; [done|]. split_and!; try done; [lia|]. intros. split; [by left|]. by intros [|?%shows_nil]. }
  destruct (grow_ok s Hs Hl) as ([s1|] & -> & Hg); run; [|by eexists]. destruct Hg as (E1 & Hs1 & Hcap).
  set (fresh := mk_maps (of_txt path) st en off _ _). rewrite <- E1 in *.
  assert (Hfresh : info_ok fresh) by (split_and!; done).
  assert (Hstore : exists r, store alloc s1 fresh = Done r /\
    match r with
    | Some s' => state_ok s' /\ (length (st_info s') <= S (length (st_info s1)))%nat /\
        (length (st_info s1) <= length (st_info s'))%nat /\ st_info s' <> [] /\
        forall addr f o, shows (st_info s') addr f o <->
          shows (st_info s1) addr f o \/ shows (option_list (Some fresh)) addr f o
    | None => exists k, alloc k = false
    end).
  { destruct (store_entry_ok s1 fresh Hs1 Hfresh Hcap) as ([s2|] & -> & H2); (eexists; split; [done|]); [|done].
    destruct H2 as [E2 Hs2]. rewrite E2, length_app. cbn. split_and!; try done; [lia..| |].
    - intros Hnil. by apply app_nil in Hnil as [_ ?].
    - intros. by rewrite shows_app. }
  destruct (last (st_info s1)) as [prev|] eqn:Elast; [|done].
  destruct (merges prev st off (perm_chars p0 p1 p2) path) eqn:Em; [|done].
  apply last_Some in Elast as (l & El). rewrite El in *. rewrite length_app. cbn [length].
  replace (length l + 1 - 1)%nat with (length l + 0)%nat by lia. rewrite insert_app_r. cbn [insert list_insert].
  destruct Hs1 as (Hf & H64 & Hle). rewrite El in Hf, Hle. rewrite length_app in Hle. cbn in Hle.
  rewrite Forall_app, Forall_singleton in Hf. destruct Hf as [Hf Hprev].
  eexists. split; [done|]. unfold state_ok. cbn [st_info st_allocated]. rewrite !length_app. cbn [length].
  split_and!; try lia.
  - apply Forall_app. split; [done|]. apply Forall_singleton. destruct Hprev as (? & ? & ? & ?).
    assert (mi_end prev <= en); [|split_and!; cbn; try done; lia].
    unfold merges in Em. rewrite !andb_true_iff in Em. destruct Em as [[[[Hes _] _] _] _]. lia.
  - intros Hnil. by apply app_nil in Hnil as [_ ?].
  - intros addr f o. cbn [option_list]. rewrite !shows_app.
    rewrite (merges_shows prev st en off (perm_chars p0 p1 p2) path (mi_permission fresh) (mi_deleted fresh)) by done.
    tauto.
Qed.

Lemma maps_loop_ok flag lines s :
  Forall line_ok lines -> state_ok s -> Z.of_nat (length (st_info s)) + Z.of_nat (length lines) <= 2 ^ 30 ->
  exists r, maps_loop alloc flag lines s = Done r /\
    match r with
    | Some s' => state_ok s' /\ (st_info s' = [] <-> st_info s = [] /\ omap (line_entry flag) lines = []) /\
        forall addr f o, shows (st_info s') addr f o <->
          shows (st_info s) addr f o \/ shows (omap (line_entry flag) lines) addr f o
    | None => exists k, alloc k = false
    end.
Proof.
  revert s. induction lines as [|line lines IH]; intros s Hf Hs Hl; cbn [maps_loop].
  { eexists. split; [done|]. split_and!; try done; [naive_solver|]. intros. split; [by left|]. by intros [|?%shows_nil]. }
  apply Forall_cons in Hf as [Hline Hf]. cbn [length] in Hl.
  destruct (maps_step_ok flag line s Hline Hs) as ([s1|] & -> & H1); [lia| |by exists None]. run.
  destruct H1 as (Hs1 & Hle & Hge & Hne & Hsh). destruct (IH s1 Hf Hs1) as ([s2|] & -> & H2); [lia| |by eexists].
  destruct H2 as (Hs2 & Hnil & Hsh2). eexists. split; [done|]. split; [done|].
  assert (Ho : omap (line_entry flag) (line :: lines) = option_list (line_entry flag line) ++ omap (line_entry flag) lines).
  { unfold omap. cbn [list_omap]. by destruct (line_entry flag line). }
  rewrite Ho. split.
  - rewrite Hnil, app_nil. destruct (line_entry flag line); [split; [by intros [? _]|by intros (_ & ? & _)]|].
    rewrite Hne. naive_solver.
  - intros addr f o. rewrite Hsh2, Hsh, shows_app. tauto.
Qed.
End loop.

Lemma fgets_loop_length fuel n l : (length (fgets_loop fuel n l) <= fuel)%nat.
Proof.
  revert l. induction fuel as [|fuel IH]; intros l; [done|]. cbn [fgets_loop].
  destruct l as [|c l]; [cbn; lia|]. destruct (fgets n (c :: l)) as [x y]. cbn [length]. specialize (IH y). lia.
Qed.

(** The format of the whole file; more than [2^30] characters of mappings are
    out of the question. *)
Definition maps_file_ok (content : text) : Prop :=
  Z.of_nat (length content) < 2 ^ 30 /\ Forall line_ok (file_lines content).

Lemma get_maps_ok alloc flag content :
  maps_file_ok content -> exists r, gu_get_maps_info alloc flag (Some content) = Done r /\
    match r with
    | Some l => l <> [] /\ forall addr f o,
        shows l addr f o <-> shows (omap (line_entry flag) (file_lines content)) addr f o
    | None => (exists k, alloc k = false) \/ omap (line_entry flag) (file_lines content) = []
    end.
Proof.
  intros [Hsize Hlines]. unfold gu_get_maps_info. destruct (alloc 0%nat) eqn:E0; cbn [negb].
  2:{ exists None. split; [done|]. left. by exists 0%nat. }
  pose proof (fgets_loop_length (length content) (Z.to_nat (MAX_MAPS_PATH - 1)) content) as Hlen.
  destruct (maps_loop_ok alloc flag (file_lines content) (mk_maps_state [] 64 1)) as ([s|] & -> & Hs); [done| | | |]; run.
  - split_and!; cbn; [constructor|lia..].
  - fold (file_lines content) in Hlen. cbn. lia.
  - destruct Hs as (Hok & Hnil & Hsh). case_decide as Hd.
    + exists None. split; [done|]. right. by apply Hnil in Hd as [_ ?].
    + destruct (alloc (st_allocs s)) eqn:Ea; eexists; (split; [done|]); [|by left; eexists].
      split; [done|]. intros addr f o. rewrite Hsh. split; [|by right]. by intros [?%shows_nil|].
  - exists None. split; [done|]. by left.
Qed.

(** ** Printing a line

    The line the kernel prints: addresses in hexadecimal with at least eight
    digits, permissions, offset, device, inode and, padded, the path. *)
Definition digit_char (d : Z) : ascii :=
  ascii_of_N (Z.to_N (if d <? 10 then 48 + d else 87 + d)).
Fixpoint print_hex (n : nat) (v : Z) : text :=
  match n with
  | O => []
  | S n => print_hex n (v / 16) ++ [digit_char (v mod 16)]
  end.

Definition maps_line (n1 n2 n3 : nat) (m : maps_info) (perm dev inode : text) (pad : nat) : text :=
  print_hex n1 (mi_start m) ++ "-"%char :: print_hex n2 (mi_end m) ++ " "%char :: perm ++
  " "%char :: print_hex n3 (mi_offset m) ++ " "%char :: dev ++ " "%char :: inode ++
  replicate (S pad) " "%char ++ txt (mi_path m) ++ (if mi_deleted m then txt " (deleted)" else []) ++ [newline].

Lemma digit_char_code d : 0 <= d < 16 -> code (digit_char d) = if d <? 10 then 48 + d else 87 + d.
Proof.
  intros Hd. unfold code, digit_char. rewrite N_ascii_embedding; [|destruct (d <? 10); lia].
  rewrite Z2N.id; [done|destruct (d <? 10); lia].
Qed.

Lemma hex_digit_char d : 0 <= d < 16 -> hex_digit (digit_char d) = Some d /\ isspace (digit_char d) = false.
Proof.
  intros Hd. unfold hex_digit, isspace. rewrite digit_char_code by done.
  destruct (Z.ltb_spec d 10).
  - rewrite (proj2 (andb_true_iff _ _)) by lia. split; [f_equal; lia|lia].
  - destruct ((48 <=? 87 + d) && (87 + d <=? 57)) eqn:E; [lia|].
    rewrite (proj2 (andb_true_iff (97 <=? 87 + d) _)) by lia. split; [f_equal; lia|lia].
Qed.

(** Where a number ends. *)
Definition ends_number (l : text) : Prop := match l with [] => True | c :: _ => hex_digit c = None end.

Lemma scan_digits_print n v acc rest :
  0 <= v < 16 ^ Z.of_nat n -> ends_number rest ->
  scan_digits acc (print_hex n v ++ rest) = (acc * 16 ^ Z.of_nat n + v, n, rest).
Proof.
  intros Hv Hrest. revert v acc rest Hv Hrest.
  assert (Hmain : forall n v acc rest, 0 <= v < 16 ^ Z.of_nat n ->
    scan_digits acc (print_hex n v ++ rest) =
    let '(w, k, r) := scan_digits (acc * 16 ^ Z.of_nat n + v) rest in (w, (n + k)%nat, r)).
  { clear. induction n as [|n IH]; intros v acc rest Hv.
    - change (16 ^ Z.of_nat 0) with 1 in *. cbn. replace (acc * 1 + v) with acc by lia.
      by destruct (scan_digits acc rest) as [[? ?] ?].
    - cbn [print_hex]. rewrite <- app_assoc. cbn [app]. rewrite Nat2Z.inj_succ, Z.pow_succ_r in * by lia.
      pose proof (Z.mod_pos_bound v 16). pose proof (Z.div_mod v 16).
      rewrite IH by (split; [apply Z.div_pos; lia|apply Z.div_lt_upper_bound; lia]). cbn [scan_digits].
      destruct (hex_digit_char (v mod 16)) as [-> _]; [lia|].
      replace (16 * (acc * 16 ^ Z.of_nat n + v / 16) + v mod 16) with (acc * (16 * 16 ^ Z.of_nat n) + v) by lia.
      destruct (scan_digits _ rest) as [[? ?] ?]. f_equal. f_equal. lia. }
  intros v acc rest Hv Hrest. rewrite Hmain by done. destruct rest as [|c rest]; cbn [scan_digits].
  - f_equal. f_equal. lia.
  - cbn in Hrest. rewrite Hrest. f_equal. f_equal. lia.
Qed.

Lemma print_hex_head n v :
  0 <= v -> exists d l, print_hex (S n) v = digit_char d :: l /\ 0 <= d < 16 /\
    forall c, c ∈ l -> is_Some (hex_digit c).
Proof.
  revert v. induction n as [|n IH]; intros v Hv; pose proof (Z.mod_pos_bound v 16).
  - exists (v mod 16), []. cbn. split; [done|]. split; [lia|]. set_solver.
  - change (print_hex (S (S n)) v) with (print_hex (S n) (v / 16) ++ [digit_char (v mod 16)]).
    destruct (IH (v / 16)) as (d & l & -> & Hd & Hl); [apply Z.div_pos; lia|].
    exists d, (l ++ [digit_char (v mod 16)]). split; [done|]. split; [done|].
    intros c [Hc|Hc]%elem_of_app; [by apply Hl|]. apply list_elem_of_singleton in Hc as ->.
    destruct (hex_digit_char (v mod 16)) as [-> _]; [lia|done].
Qed.

(** The separators of a line. *)
Definition separator (c : ascii) : Prop := c = " "%char \/ c = "-"%char.

Lemma scan_lx_print n v c rest :
  0 <= v < 16 ^ Z.of_nat (S n) -> v <= UINT64_MAX -> separator c ->
  scan_lx (print_hex (S n) v ++ c :: rest) = Some (v, c :: rest).
Proof.
  intros Hv Hmax Hsep. destruct (print_hex_head n v) as (d & l & Ep & Hd & Hl); [lia|].
  pose proof (scan_digits_print (S n) v 0 (c :: rest) Hv) as Hs. rewrite Ep in *.
  destruct (hex_digit_char d Hd) as [Hdig Hspc]. unfold scan_lx. cbn [app skip_space] in *. rewrite Hspc.
  assert (Hne : forall x, hex_digit x = None -> digit_char d <> x) by (intros x Hx <-; congruence).
  rewrite !decide_False by (by apply Hne).
  assert (Hx : forall x l', l ++ c :: rest = x :: l' -> x <> "x"%char /\ x <> "X"%char).
  { intros x l' E. destruct l as [|y l]; cbn in E; injection E as <- _; [by destruct Hsep as [-> | ->]|].
    destruct (Hl y) as [z Hz]; [apply list_elem_of_here|]. split; intros ->; done. }
  destruct (l ++ c :: rest) as [|x l'] eqn:El.
  { by destruct l. }
  destruct (Hx x l' eq_refl) as [Hx1 Hx2]. rewrite decide_False by naive_solver.
  rewrite Hs by (by destruct Hsep as [-> | ->]). cbn [decide]. rewrite decide_False by done.
  destruct (Z.ltb_spec UINT64_MAX (0 * 16 ^ Z.of_nat (S n) + v)); [lia|]. by f_equal.
Qed.

(** A field without white space. *)
Definition word_ok (w : text) : Prop := w <> [] /\ Forall (fun c => isspace c = false) w.
Definition ends_word (l : text) : Prop := match l with [] => True | c :: _ => isspace c = true end.

Lemma scan_word_ok n w rest :
  (length w <= n)%nat -> Forall (fun c => isspace c = false) w -> ends_word rest -> scan_word n (w ++ rest) = (w, rest).
Proof.
  revert n. induction w as [|c w IH]; intros n Hn Hw Hr; cbn [app].
  - destruct n, rest as [|c rest]; cbn in *; try done. by rewrite Hr.
  - destruct n as [|n]; cbn in Hn; [lia|]. apply Forall_cons in Hw as [Hc Hw]. cbn. rewrite Hc, IH; [done|lia|done|done].
Qed.

Lemma skip_spaces k l : skip_space (replicate k " "%char ++ l) = skip_space l.
Proof. induction k; [done|]. cbn. done. Qed.

Lemma scan_s_ok n k w rest :
  word_ok w -> (length w <= n)%nat -> ends_word rest ->
  scan_s n (replicate k " "%char ++ w ++ rest) = Some (w, rest).
Proof.
  intros [Hne Hw] Hn Hr. unfold scan_s. rewrite skip_spaces.
  assert (skip_space (w ++ rest) = w ++ rest) as ->.
  { destruct w as [|c w]; [done|]. apply Forall_cons in Hw as [Hc _]. cbn. by rewrite Hc. }
  rewrite scan_word_ok by done. by rewrite decide_False.
Qed.

Lemma scan_lx_space l : scan_lx (" "%char :: l) = scan_lx l.
Proof. done. Qed.

(** The fields a printed line may have. *)
Record printable (n1 n2 n3 : nat) (m : maps_info) (perm dev inode : text) : Prop := {
  pr_start : 0 <= mi_start m < 16 ^ Z.of_nat (S n1) /\ mi_start m <= UINT64_MAX;
  pr_end : 0 <= mi_end m < 16 ^ Z.of_nat (S n2) /\ mi_end m <= UINT64_MAX;
  pr_offset : 0 <= mi_offset m < 16 ^ Z.of_nat (S n3) /\ mi_offset m <= UINT64_MAX;
  pr_perm : word_ok perm /\ (length perm <= 4)%nat;
  pr_dev : word_ok dev;
  pr_inode : word_ok inode;
  pr_path : Forall (fun c => isspace c = false) (txt (mi_path m)) /\ (length (txt (mi_path m)) <= 4095)%nat;
  pr_deleted : mi_deleted m = true -> mi_path m <> EmptyString;
}.

Lemma txt_nil s : txt s = [] -> s = EmptyString.
Proof. by destruct s. Qed.
Lemma of_txt_txt s : of_txt (txt s) = s.
Proof. apply String.string_of_list_ascii_of_string. Qed.

Lemma scan_printed_line n1 n2 n3 m perm dev inode pad :
  printable n1 n2 n3 m perm dev inode ->
  scan_maps_line (maps_line (S n1) (S n2) (S n3) m perm dev inode pad) =
  Some (mi_start m, mi_end m, perm, mi_offset m, txt (mi_path m)).
Proof.
  intros [[H1 B1] [H2 B2] [H3 B3] [Hp Hp4] Hdev Hino [Hpath Hlen] Hdel].
  unfold scan_maps_line, maps_line. set (tail := if mi_deleted m then txt " (deleted)" else []).
  rewrite scan_lx_print by (done || by right). cbn [mbind option_bind scan_char]. rewrite decide_True by done. cbn [mbind option_bind].
  rewrite scan_lx_print by (done || by left). cbn [mbind option_bind].
  pose proof (scan_s_ok 4 1 perm) as Hs. cbn [replicate app] in Hs. rewrite Hs by done. clear Hs. cbn [mbind option_bind].
  rewrite scan_lx_space, scan_lx_print by (done || by left). cbn [mbind option_bind].
  assert (Hword : forall w r, word_ok w -> ends_word r ->
    scan_s (length (" "%char :: w ++ r)) (" "%char :: w ++ r) = Some (w, r)).
  { intros w r Hw Hr. pose proof (scan_s_ok (length (" "%char :: w ++ r)) 1 w r) as Hs. cbn [replicate app] in Hs.
    apply Hs; [done| |done]. cbn. rewrite length_app. lia. }
  rewrite Hword by done. cbn [mbind option_bind]. rewrite Hword by done. cbn [mbind option_bind].
  change (" "%char :: replicate pad " "%char ++ ?x) with (replicate (S pad) " "%char ++ x).
  destruct (decide (txt (mi_path m) = [])) as [E|E].
  - apply txt_nil in E as E'. assert (mi_deleted m = false) as Hd by (destruct (mi_deleted m); [by destruct Hdel|done]).
    subst tail. rewrite Hd, E. cbn [app]. unfold scan_s. rewrite skip_spaces. done.
  - rewrite scan_s_ok; [done|done|done|]. subst tail. by destruct (mi_deleted m).
Qed.

Lemma strstr_found a sub b : strstr (a ++ sub ++ b) sub = true.
Proof.
  induction a as [|c a IH]; cbn [app].
  - destruct (sub ++ b) as [|c l] eqn:E; cbn [strstr]; rewrite bool_decide_eq_true_2; try done; rewrite <- E; by apply prefix_app_r.
  - cbn [strstr]. by rewrite IH, orb_true_r.
Qed.

Lemma strstr_absent c line sub : c ∈ sub -> c ∉ line -> strstr line sub = false.
Proof.
  intros Hin. induction line as [|x line IH]; intros Hni; cbn [strstr]; apply orb_false_iff; split.
  - apply bool_decide_eq_false_2. intros [k E]. symmetry in E. apply app_nil in E as [-> _]. set_solver.
  - done.
  - apply bool_decide_eq_false_2. intros [k E]. apply Hni. rewrite E. set_solver.
  - apply IH. set_solver.
Qed.

Lemma print_hex_no_paren n v : 0 <= v -> "("%char ∉ print_hex n v.
Proof.
  intros Hv. destruct n as [|n]; [set_solver|]. destruct (print_hex_head n v Hv) as (d & l & -> & Hd & Hl).
  intros [E|Hin]%elem_of_cons; [|by destruct (Hl _ Hin)]. destruct (hex_digit_char d Hd) as [H _]. by rewrite <- E in H.
Qed.

(** ** Properties *)

(** Reading a line of [/proc/<pid>/maps] inverts printing it.  A mapping
    printed in the kernel's format (any number of digits that holds the values,
    any padding) is read back with its addresses, offset, path and deletion
    mark, and kept exactly when its execute permission is set. *)
Theorem maps_line_roundtrip n1 n2 n3 m p0 p1 p2 p3 dev inode pad :
  printable n1 n2 n3 m [p0; p1; p2; p3] dev inode ->
  mi_permission m = perm_chars p0 p1 p2 ->
  "("%char ∉ [p0; p1; p2; p3] ++ dev ++ inode ++ txt (mi_path m) ->
  line_entry PERMISSION_X (maps_line (S n1) (S n2) (S n3) m [p0; p1; p2; p3] dev inode pad) =
  if decide (p2 = "x"%char) then Some m else None.
Proof.
  intros Hp Hperm Hparen. unfold line_entry. rewrite (scan_printed_line _ _ _ _ _ _ _ _ Hp). cbv zeta.
  change (default NUL ([p0; p1; p2; p3] !! 0%nat)) with p0. change (default NUL ([p0; p1; p2; p3] !! 1%nat)) with p1.
  change (default NUL ([p0; p1; p2; p3] !! 2%nat)) with p2.
  assert (perm_wanted p0 p1 p2 PERMISSION_X = bool_decide (p2 = "x"%char)) as ->.
  { unfold perm_wanted. repeat case_decide; by rewrite ?bool_decide_eq_true_2, ?bool_decide_eq_false_2 by done. }
  case_decide as Hx; [rewrite bool_decide_eq_true_2 by done|by rewrite bool_decide_eq_false_2 by done].
  rewrite of_txt_txt, <- Hperm.
  match goal with |- context [strstr ?l ?s] => assert (strstr l s = mi_deleted m) as ->; [|by destruct m] end.
  unfold maps_line. destruct Hp as [[[Hs _] _] [[He _] _] [[Ho _] _] _ _ _ _ _]. destruct (mi_deleted m).
  - rewrite !app_assoc. rewrite !app_comm_cons, !app_assoc.
    rewrite <- (app_assoc _ (txt " (deleted)")). apply strstr_found.
  - apply (strstr_absent "("%char); [apply (bool_decide_unpack _); by vm_compute|].
    pose proof (print_hex_no_paren (S n1) _ Hs). pose proof (print_hex_no_paren (S n2) _ He).
    pose proof (print_hex_no_paren (S n3) _ Ho).
    assert ("("%char ∉ replicate (S pad) " "%char) by (intros Hin%elem_of_replicate; naive_solver).
    repeat (rewrite not_elem_of_app in Hparen || rewrite not_elem_of_cons in Hparen).
    repeat (rewrite not_elem_of_app || rewrite not_elem_of_cons).
    destruct_and? Hparen. split_and!; try done; apply not_elem_of_nil.
Qed.

(** C28: reading a well-formed maps file is defined whatever allocations fail,
    and returns a list that shows, at every address, exactly the file and offset
    that the executable lines show one by one: merging adjacent pieces loses and
    invents nothing, across gaps, files and offsets.  [NULL] is returned only
    for a failed allocation or when no line is executable. *)
Theorem maps_merge_faithful alloc content :
  maps_file_ok content ->
  exists r, gu_get_maps_info alloc PERMISSION_X (Some content) = Done r /\
    match r with
    | Some l => l <> [] /\ forall addr file offset,
        shows l addr file offset <->
        shows (omap (line_entry PERMISSION_X) (file_lines content)) addr file offset
    | None => (exists k, alloc k = false) \/ omap (line_entry PERMISSION_X) (file_lines content) = []
    end.
Proof. apply get_maps_ok. Qed.

(** Three ways a maps line is not read as printed.  A path that contains a
    space is cut at it, so the image is looked for under another name; the
    permissions are stored as the bitwise or of their characters, under which
    [r-x] and [rwx] are equal, so pieces with different permissions are merged;
    and the mark of a deleted file is searched in the whole line, so a file
    whose name ends in it counts as deleted. *)
Theorem maps_line_misread :
  (exists p, line_entry PERMISSION_X (txt "00400000-00401000 r-xp 00000000 08:01 77 /opt/my app") = Some p /\
             mi_path p = "/opt/my"%string) /\
  (let r := gu_get_maps_info (fun _ => true) PERMISSION_X
      (Some (txt "00400000-00401000 r-xp 00000000 08:01 77 /a" ++ [newline] ++
             txt "00401000-00402000 rwxp 00001000 08:01 77 /a" ++ [newline])) in
   r = Done (Some [mk_maps "/a" 0x400000 0x402000 0 0x7f false])) /\
  (exists p, line_entry PERMISSION_X (txt "00400000-00401000 r-xp 00000000 08:01 77 /a (deleted).so") = Some p /\
             mi_deleted p = true).
Proof. split_and!; [eexists|vm_compute|eexists]; (try split); vm_compute; reflexivity. Qed.

Definition two_pieces : text :=
  txt "00400000-00401000 r-xp 00000000 08:01 77   /bin/app" ++ [newline] ++
  txt "00401000-00402000 r-xp 00001000 08:01 77   /bin/app" ++ [newline] ++
  txt "7ffd1000-7ffd2000 rw-p 00000000 00:00 0    [stack]" ++ [newline].

Lemma two_pieces_ok : maps_file_ok two_pieces.
Proof.
  split; [vm_compute; done|]. let v := eval vm_compute in (file_lines two_pieces) in
    change (file_lines two_pieces) with v. repeat constructor; vm_compute; (split; [lia|done]) || done.
Qed.

Lemma maps_merge_faithful_witness :
  exists l, gu_get_maps_info (fun _ => true) PERMISSION_X (Some two_pieces) = Done (Some l) /\
    shows l 0x401004 "/bin/app" 0x1004.
Proof.
  destruct (maps_merge_faithful (fun _ => true) two_pieces two_pieces_ok) as ([l|] & E & H).
  - exists l. split; [exact E|]. apply H. eexists. split; [apply list_elem_of_further, list_elem_of_here|].
    vm_compute. split_and!; done.
  - exfalso. destruct H as [[k Hk]|H]; [done|]. vm_compute in H. done.
Defined.

Definition app_line_info : maps_info := mk_maps "/bin/app" 0x555555556000 0x555555557000 0x1000 0x7f true.

Lemma app_line_printable : printable 11 11 7 app_line_info (txt "r-xp") (txt "08:01") (txt "77").
Proof.
  assert (Hw : forall l, bool_decide (l <> [] /\ Forall (fun c => isspace c = false) l) = true -> word_ok l)
    by (intros l; by rewrite bool_decide_eq_true).
  split; try (by apply Hw); try done.
  - split; [by apply Hw|cbn; lia].
  - split; [by repeat constructor|cbn; lia].
Qed.

Lemma maps_line_roundtrip_witness :
  line_entry PERMISSION_X
    (maps_line 12 12 8 app_line_info (txt "r-xp") (txt "08:01") (txt "77") 15) = Some app_line_info.
Proof.
  apply (maps_line_roundtrip 11 11 7 app_line_info "r" "-" "x" "p" (txt "08:01") (txt "77") 15).
  - exact app_line_printable.
  - reflexivity.
  - apply (bool_decide_unpack _). vm_compute. done.
Defined.
