(* ===== verification/Bench.v ===== *)
(** * The CFI benchmark: [tools/cfi_bench.c]

    The benchmark unwinds a set of synthetic frames over and over and checks
    every result: each frame has its own call-frame program, snapshot and parse
    cache, and the expected registers of its caller.  The file transcribes the
    argument parser, the construction of a frame, the checked unwinding of one
    frame and the measuring loops; the clock and the allocations are arguments.
    The numbers are reported before their conversion to [double]. *)

From Stdlib Require Import Ascii.
From stdpp Require Import strings sorting.
From S2P Require Import Prelude Types IntervalArray CfiDecode Arch CfiProgram CfiOps DwarfEval Cfi CfiParse Stress Maps.

Definition DEFAULT_SET_SIZE : Z := 100.
Definition DEFAULT_FRAMES : Z := 5000000.
Definition DEFAULT_WARMUP : Z := 10000.

(** ** Arguments *)

Record bench_config : Type := mk_bench_config { bc_frames : Z; bc_warmup : Z; bc_set_size : Z }.

(** [parse_u64_arg]: [None] is the failure. *)
Definition parse_u64_arg (value : text) : option Z :=
  let '(parsed, errno, rest) := strtoull value in
  if errno || negb (bool_decide (rest = [])) then None else Some parsed.

(** [parse_args]: what the loop over [argv] returns. *)
Inductive args_result : Type := ArgsOk (cfg : bench_config) | ArgsHelp | ArgsError.

Fixpoint parse_options (argv : list text) (cfg : bench_config) : args_result :=
  match argv with
  | [] => ArgsOk cfg
  | o :: rest =>
    let on_value (value : text) (set : Z -> bench_config) (continue : bench_config -> args_result) :=
      match parse_u64_arg value with Some v => continue (set v) | None => ArgsError end in
    let unknown := if decide (o = txt "--help") then ArgsHelp else ArgsError in
    match rest with
    | value :: rest =>
      if decide (o = txt "--frames") then
        on_value value (fun v => mk_bench_config v (bc_warmup cfg) (bc_set_size cfg)) (parse_options rest)
      else if decide (o = txt "--warmup") then
        on_value value (fun v => mk_bench_config (bc_frames cfg) v (bc_set_size cfg)) (parse_options rest)
      else if decide (o = txt "--set-size") then
        on_value value (fun v => mk_bench_config (bc_frames cfg) (bc_warmup cfg) v) (parse_options rest)
      else unknown
    | [] => unknown
    end
  end.

Definition parse_args (argv : list text) : args_result :=
  match parse_options argv (mk_bench_config DEFAULT_FRAMES DEFAULT_WARMUP DEFAULT_SET_SIZE) with
  | ArgsOk cfg =>
    if (bc_frames cfg =? 0) || (bc_set_size cfg =? 0) then ArgsError
    else if 10000 <? bc_set_size cfg then ArgsError else ArgsOk cfg
  | r => r
  end.

(** ** Frames *)

Definition emit_rip_offset `{Arch} (offset : Z) (b : list Z) : outcome (list Z) :=
  emits [emit_u8 (DW_CFA_offset + reg_name_rip); emit_uleb offset] b.
Definition emit_rbp_val_offset `{Arch} (offset : Z) (b : list Z) : outcome (list Z) :=
  emits [emit_u8 DW_CFA_val_offset; emit_uleb reg_name_rbp; emit_uleb offset] b.

(** [struct bench_frame]; the parse cache is a part of its [gu_cfi]. *)
Record bench_frame : Type := mk_bench_frame {
  bf_cfi : gu_cfi;
  bf_cache : list parse_cache_entry;
  bf_info : gu_stack_info;
  bf_pc : Z;
  bf_expected_ra : Z;
  bf_expected_sp : Z;
  bf_expected_bp : Z;
}.

Section bench.
Context {HA : Arch} (page_size : Z).

Definition init_bench_frame (idx : Z) : outcome bench_frame :=
  let start := 0x1000 + idx * 0x100 in
  let advance := 1 + idx mod 31 in
  let cfa_offset := 16 + (idx mod 7) * 8 in
  let pc := start + advance in
  let expected_sp := raw_sp + cfa_offset in
  ins ← emits [emit_def_cfa_rsp 8; emit_rip_offset 1; emit_rbp_val_offset 0; emit_u8 (DW_CFA_advance_loc + advance);
               emit_u8 DW_CFA_def_cfa_offset; emit_uleb cfa_offset] [];
  let info := mk_gu_stack_info 1 TEST_STACK_SIZE 1 (Some (replicate (Z.to_nat pt_regs_words) 0)) (8 * pt_regs_words) 0
                (replicate 128 0) 0 (Some (replicate (Z.to_nat TEST_STACK_SIZE) 0)) in
  '(_, info) ← write_regs info reg_name_rsp raw_sp;
  '(_, info) ← write_regs info reg_name_rbp (raw_sp + 0xe0);
  '(_, info) ← write_regs info reg_name_rip pc;
  let expected_ra := 0x5555000000000000 + idx in
  info ← write_stack_u64 page_size info (expected_sp - 8) expected_ra;
  mret (mk_bench_frame (init_cfi_fixture ins start (start + 0x100)) (replicate 64 empty_entry) info pc
          expected_ra expected_sp expected_sp).

(** [run_one_frame]: the frame with its cache, the heap of remembered states and
    the checksum; [None] is the return of -1. *)
Definition run_one_frame (frame : bench_frame) (h : cfi_heap) (checksum : Z) : outcome (option (bench_frame * cfi_heap * Z)) :=
  '(ret, st) ← gu_cfi_parse_cfi (fun _ => true) (bf_cfi frame) (mk_parse (bf_cache frame) no_ops h) (bf_pc frame);
  if negb (ret =? 0) then mret None else
  let reg regno := gen_reg page_size (bf_info frame) (bf_pc frame) raw_sp 2 (ps_scratch st) regno no_oor in
  '(r1, ra, _) ← reg reg_name_rip;
  if negb (bool_decide (r1 = GU_UNWIND_REASON_OK)) then mret None else
  '(r2, sp, _) ← reg reg_name_rsp;
  if negb (bool_decide (r2 = GU_UNWIND_REASON_OK)) then mret None else
  '(r3, bp, _) ← reg reg_name_rbp;
  if negb (bool_decide (r3 = GU_UNWIND_REASON_OK)) then mret None else
  match ra, sp, bp with
  | Some ra, Some sp, Some bp =>
    if negb (ra =? bf_expected_ra frame) || negb (sp =? bf_expected_sp frame) || negb (bp =? bf_expected_bp frame) then mret None
    else mret (Some (mk_bench_frame (bf_cfi frame) (ps_cache st) (bf_info frame) (bf_pc frame) (bf_expected_ra frame)
                       (bf_expected_sp frame) (bf_expected_bp frame), ps_heap st, checksum +w Z.lxor (Z.lxor ra sp) bp))
  | _, _, _ => mret None
  end.

(** ** Measuring *)

(** The frames, the heap and the checksum. *)
Definition bench_state : Type := list bench_frame * cfi_heap * Z.

(** [init_bench_frame] over the set. *)
Fixpoint init_frames (n : nat) (idx : Z) : outcome (list bench_frame) :=
  match n with
  | O => mret []
  | S n => f ← init_bench_frame idx; fs ← init_frames n (idx + 1); mret (f :: fs)
  end.

(** Frame [i] of the set, run and put back; [None] ends the program. *)
Definition run_at (i : nat) (s : bench_state) : outcome (option bench_state) :=
  let '(frames, h, checksum) := s in
  f ← of_opt (frames !! i);
  r ← run_one_frame f h checksum;
  mret (match r with Some (f, h, checksum) => Some (<[i := f]> frames, h, checksum) | None => None end).

(** [n] calls, the indexes counted from [i] modulo the size of the set. *)
Fixpoint run_frames (n i : nat) (s : bench_state) : outcome (option bench_state) :=
  match n with
  | O => mret (Some s)
  | S n =>
    r ← run_at (i mod length s.1.1) s;
    match r with Some s => run_frames n (S i) s | None => mret None end
  end.

(** The cycles, each over the whole set and timed; [tick] is the next reading of
    the clock. *)
Fixpoint run_cycles (clock : nat -> Z) (tick : nat) (cycles : nat) (s : bench_state) : outcome (option (list Z * bench_state)) :=
  match cycles with
  | O => mret (Some ([], s))
  | S cycles =>
    r ← run_frames (length s.1.1) 0 s;
    match r with
    | None => mret None
    | Some s =>
      r ← run_cycles clock (tick + 2) cycles s;
      mret (match r with Some (ns, s) => Some (clock (tick + 1)%nat -w clock tick :: ns, s) | None => None end)
    end
  end.

Definition cmp_u64 (va vb : Z) : Z := (if vb <? va then 1 else 0) - (if va <? vb then 1 else 0).
Definition le_u64 (va vb : Z) : Prop := cmp_u64 va vb <= 0.
#[local] Instance le_u64_decision va vb : Decision (le_u64 va vb) := Z_le_dec _ _.
Definition sort_ns (l : list Z) : list Z := merge_sort le_u64 l.

(** The line printed at the end, before the divisions in [double]. *)
Record bench_report : Type := mk_report {
  total_frames : Z;
  rp_set_size : Z;
  rp_cycles : Z;
  total_ns : Z;
  p50_cycle_ns : Z;
  p99_cycle_ns : Z;
  rp_checksum : Z;
}.

Definition cycle_count (cfg : bench_config) : Z := ((bc_frames cfg +w bc_set_size cfg) -w 1) / bc_set_size cfg.

(** [main]: the exit status and the report. *)
Definition bench_main (alloc_frames alloc_cycles : bool) (clock : nat -> Z) (argv : list text) : outcome (Z * option bench_report) :=
  match parse_args argv with
  | ArgsHelp => mret (0, None)
  | ArgsError => mret (2, None)
  | ArgsOk cfg =>
    if negb alloc_frames then mret (2, None) else
    frames ← init_frames (Z.to_nat (bc_set_size cfg)) 0;
    r ← run_frames (Z.to_nat (bc_warmup cfg)) 0 (frames, empty_heap, 0);
    match r with
    | None => mret (1, None)
    | Some s =>
      let cycles := cycle_count cfg in
      if negb alloc_cycles then mret (1, None) else
      r ← run_cycles clock 1 (Z.to_nat cycles) s;
      match r with
      | None => mret (1, None)
      | Some (ns, (_, _, checksum)) =>
        let total := clock (1 + 2 * Z.to_nat cycles)%nat -w clock 0%nat in
        let sorted := sort_ns ns in
        p50 ← of_opt (sorted !! Z.to_nat (cycles / 2));
        p99 ← of_opt (sorted !! Z.to_nat (u64 (cycles * 99) / 100));
        mret (0, Some (mk_report (u64 (cycles * bc_set_size cfg)) (bc_set_size cfg) cycles total p50 p99 checksum))
      end
    end
  end.
End bench.

(** ** One frame, cold and warm *)

Definition with_cache (f : bench_frame) (cache : list parse_cache_entry) : bench_frame :=
  mk_bench_frame (bf_cfi f) cache (bf_info f) (bf_pc f) (bf_expected_ra f) (bf_expected_sp f) (bf_expected_bp f).

(** What a run leaves of the cache and the heap does not depend on the checksum,
    and nothing else of the frame changes. *)
Definition run_caches `{Arch} (page_size : Z) (f : bench_frame) : option (list parse_cache_entry * cfi_heap) :=
  match run_one_frame page_size f empty_heap 0 with
  | Done (Some (f', h, _)) => Some (bf_cache f', h)
  | _ => None
  end.

Lemma run_caches_spec `{Arch} page_size f cache h checksum :
  run_caches page_size f = Some (cache, h) ->
  exists c, run_one_frame page_size f empty_heap checksum = Done (Some (with_cache f cache, h, c)).
Proof.
  unfold run_caches, run_one_frame, mbind, outcome_bind, mret, outcome_ret.
  repeat (case_match; simplify_eq; try done); cbn in *; intros; simplify_eq; eauto.
Qed.

(** The [idx]-th frame before its first run and after it. *)
Definition cold `{Arch} (page_size idx : Z) : option bench_frame :=
  match init_bench_frame page_size idx with Done f => Some f | Undef _ => None end.
Definition warm `{Arch} (page_size idx : Z) : option bench_frame :=
  f ← cold page_size idx; '(cache, _) ← run_caches page_size f; Some (with_cache f cache).

Definition first_caches `{Arch} (page_size idx : Z) : option (list parse_cache_entry * cfi_heap) :=
  f ← cold page_size idx; run_caches page_size f.
Definition second_caches `{Arch} (page_size idx : Z) : option (list parse_cache_entry * cfi_heap) :=
  f ← warm page_size idx; run_caches page_size f.

(** The frame is built, and each run leaves the warm frame and an empty heap. *)
Definition settles `{Arch} (page_size idx : Z) : Prop :=
  exists f cache, cold page_size idx = Some f /\
    run_caches page_size f = Some (cache, empty_heap) /\ run_caches page_size (with_cache f cache) = Some (cache, empty_heap).

Lemma settles_computed `{Arch} page_size (l : list Z) :
  (first_caches page_size <$> l) = (second_caches page_size <$> l) ->
  (fun i => snd <$> first_caches page_size i) <$> l = replicate (length l) (Some empty_heap) ->
  Forall (settles page_size) l.
Proof.
  induction l as [|i l IH]; [done|]. cbn [fmap list_fmap length replicate]. intros [= E1 El] [= E2 Er].
  constructor; [|by apply IH]. unfold first_caches, second_caches, warm in *.
  destruct (cold page_size i) as [f|] eqn:Ef; [|done]. cbn [mbind option_bind] in *.
  destruct (run_caches page_size f) as [[cache h]|] eqn:Ec; [|done]. cbn in *. simplify_eq. exists f, cache. by rewrite Ec.
Qed.

Lemma default_set_x86_64 : Forall (settles (H := linux_x86_64) 4096) (seqZ 0 100).
Proof. apply settles_computed; vm_compute; reflexivity. Qed.
Lemma default_set_aarch64 : Forall (settles (H := aarch64) 4096) (seqZ 0 100).
Proof. apply settles_computed; vm_compute; reflexivity. Qed.

(** ** The loops *)

Section loops.
Context {HA : Arch} (page_size : Z) (n : nat).
Hypothesis Hset : Forall (settles page_size) (seqZ 0 (Z.of_nat n)).

(** Each frame of the set is as built or as its first run left it. *)
Definition frame_settled (idx : nat) (f : bench_frame) : Prop :=
  Some f = cold page_size (Z.of_nat idx) \/ Some f = warm page_size (Z.of_nat idx).
Definition set_settled (s : bench_state) : Prop :=
  s.1.2 = empty_heap /\ length s.1.1 = n /\ forall i f, s.1.1 !! i = Some f -> frame_settled i f.

Lemma set_settles (i : nat) : (i < n)%nat -> settles page_size (Z.of_nat i).
Proof. intros Hi. eapply (proj1 (Forall_lookup _ _) Hset i). rewrite lookup_seqZ. split; lia. Qed.

Lemma init_frames_ok k i :
  (i + k <= n)%nat -> exists fs, init_frames page_size k (Z.of_nat i) = Done fs /\ length fs = k /\
    forall j f, fs !! j = Some f -> frame_settled (i + j) f.
Proof.
  revert i. induction k as [|k IH]; intros i Hi; [by exists []|].
  destruct (set_settles i) as (f & cache & Ef & _); [lia|]. destruct (IH (S i)) as (fs & E & Hl & Hfs); [lia|].
  cbn [init_frames]. unfold cold in Ef. destruct (init_bench_frame page_size (Z.of_nat i)) eqn:Ei; [|done]. injection Ef as ->. run.
  replace (Z.of_nat i + 1) with (Z.of_nat (S i)) by lia. rewrite E. run. exists (f :: fs). split; [done|]. split; [cbn; lia|].
  intros [|j] g Hg; [|replace (i + S j)%nat with (S i + j)%nat by lia; by apply Hfs].
  injection Hg as <-. rewrite Nat.add_0_r. left. unfold cold. by rewrite Ei.
Qed.

Lemma run_at_ok i s : set_settled s -> (i < n)%nat -> exists s', run_at page_size i s = Done (Some s') /\ set_settled s'.
Proof.
  destruct s as [[frames h] checksum]. intros (Hh & Hl & Hs) Hi. cbn [fst snd] in *. subst h. unfold run_at.
  destruct (lookup_lt_is_Some_2 frames i) as [f Hf]; [lia|]. rewrite Hf. run.
  destruct (set_settles i Hi) as (f0 & cache & E0 & E1 & E2).
  assert (Hwarm : warm page_size (Z.of_nat i) = Some (with_cache f0 cache)) by (unfold warm; rewrite E0; cbn; by rewrite E1).
  assert (Hrun : run_caches page_size f = Some (cache, empty_heap) /\ with_cache f cache = with_cache f0 cache).
  { destruct (Hs i f Hf) as [E|E]; [rewrite E0 in E|rewrite Hwarm in E]; injection E as ->; done. }
  destruct Hrun as [Hrun Ew]. destruct (run_caches_spec page_size f cache empty_heap checksum Hrun) as [c ->]. run.
  eexists. split; [done|]. split_and!; cbn [fst snd]; [done|by rewrite length_insert|].
  intros j g. destruct (decide (i = j)) as [<-|Hne].
  - rewrite list_lookup_insert_eq by lia. intros [= <-]. right. by rewrite Hwarm, Ew.
  - rewrite list_lookup_insert_ne by done. apply Hs.
Qed.

Lemma run_frames_ok k i s : set_settled s -> (0 < n)%nat -> exists s', run_frames page_size k i s = Done (Some s') /\ set_settled s'.
Proof.
  revert i s. induction k as [|k IH]; intros i s Hs Hn; [by exists s|]. cbn [run_frames].
  assert (Hl : length s.1.1 = n) by apply Hs. rewrite Hl.
  destruct (run_at_ok (i mod n) s Hs) as (s1 & -> & Hs1); [by apply Nat.mod_upper_bound; lia|]. run. by apply IH.
Qed.

Lemma run_cycles_ok clock tick k s :
  set_settled s -> (0 < n)%nat -> exists ns s', run_cycles page_size clock tick k s = Done (Some (ns, s')) /\ length ns = k.
Proof.
  revert tick s. induction k as [|k IH]; intros tick s Hs Hn; [by exists [], s|]. cbn [run_cycles].
  destruct (run_frames_ok (length s.1.1) 0 s Hs Hn) as (s1 & -> & Hs1). run.
  destruct (IH (tick + 2)%nat s1 Hs1 Hn) as (ns & s2 & -> & Hl). run. eexists _, _. split; [done|]. cbn. lia.
Qed.
End loops.

Lemma length_sort_ns l : length (sort_ns l) = length l.
Proof. apply Permutation_length, merge_sort_Permutation. Qed.

Lemma dec_digits_nonneg acc l : 0 <= acc -> 0 <= (dec_digits acc l).1.1.
Proof.
  revert acc. induction l as [|c l IH]; intros acc Ha; [done|]. cbn [dec_digits]. unfold dec_digit.
  destruct (_ && _) eqn:E; [|done]. specialize (IH (10 * acc + (code c - 48))).
  destruct (dec_digits _ l) as [[v k] r]. cbn in *. lia.
Qed.

Lemma strtoull_range value : is_u64 (strtoull value).1.1.
Proof.
  unfold strtoull. destruct (match skip_space value with [] => _ | _ => _ end) as [negative l].
  pose proof (dec_digits_nonneg 0 l ltac:(lia)) as Hv. destruct (dec_digits 0 l) as [[v [|k]] r]; cbn in *; [word|].
  destruct (Z.leb_spec (2 ^ 64) v); cbn; [word|]. destruct negative; cbn; [auto with gu|word].
Qed.

(** What the argument parser lets through. *)
Lemma parse_options_range argv cfg cfg' :
  is_u64 (bc_frames cfg) /\ is_u64 (bc_warmup cfg) /\ is_u64 (bc_set_size cfg) -> parse_options argv cfg = ArgsOk cfg' ->
  is_u64 (bc_frames cfg') /\ is_u64 (bc_warmup cfg') /\ is_u64 (bc_set_size cfg').
Proof.
  assert (Hv : forall value v, parse_u64_arg value = Some v -> is_u64 v).
  { intros value v. unfold parse_u64_arg. pose proof (strtoull_range value) as H. destruct (strtoull value) as [[x e] r].
    destruct (_ || _); [done|]. by intros [= <-]. }
  remember (length argv) as k eqn:Hk. revert argv cfg Hk. induction k as [k IH] using lt_wf_ind. intros argv cfg -> Hc.
  destruct argv as [|o [|value rest]]; cbn [parse_options]; [by intros [= <-]|by case_decide|].
  repeat case_decide; try done; (destruct (parse_u64_arg value) as [v|] eqn:E; [|done]); intros Hp; specialize (Hv _ _ E);
    (eapply IH; [|reflexivity| |exact Hp]; [cbn; lia|]); cbn; tauto.
Qed.

(** ** Properties *)

Lemma cycle_count_ok cfg :
  0 < bc_frames cfg -> 0 < bc_set_size cfg -> bc_frames cfg + bc_set_size cfg <= 2 ^ 64 ->
  let c := cycle_count cfg in
  1 <= c /\ bc_frames cfg <= c * bc_set_size cfg < bc_frames cfg + bc_set_size cfg /\ c / 2 < c /\ u64 (c * 99) / 100 < c.
Proof.
  intros Hf Hs Hsum c. subst c. unfold cycle_count, add64, sub64. rewrite wrap_sub_l, wrap_small by word.
  set (x := bc_frames cfg + bc_set_size cfg - 1). pose proof (Z.div_mod x (bc_set_size cfg) ltac:(lia)) as Hd.
  pose proof (Z.mod_pos_bound x (bc_set_size cfg) Hs) as Hm. set (c := x / bc_set_size cfg) in *.
  assert (Hc : 1 <= c) by (apply Z.div_le_lower_bound; lia).
  split; [done|]. split; [lia|]. split; [apply Z.div_lt_upper_bound; lia|]. apply Z.div_lt_upper_bound; [lia|].
  unfold wrap. pose proof (Z.mod_le (c * 99) (2 ^ 64)). lia.
Qed.

Lemma bench_runs {HA : Arch} page_size clock argv cfg :
  parse_args argv = ArgsOk cfg -> Forall (settles page_size) (seqZ 0 (bc_set_size cfg)) -> bc_frames cfg + bc_set_size cfg <= 2 ^ 64 ->
  exists r, bench_main page_size true true clock argv = Done (0, Some r) /\
    bc_frames cfg <= total_frames r < bc_frames cfg + bc_set_size cfg /\ total_frames r = rp_cycles r * bc_set_size cfg.
Proof.
  intros Ha Hset Hsum. unfold bench_main. rewrite Ha. cbn [negb]. unfold parse_args in Ha.
  destruct (parse_options argv _) as [cfg'| |] eqn:Ep; [|done..].
  apply parse_options_range in Ep; [|cbn; unfold DEFAULT_FRAMES, DEFAULT_WARMUP, DEFAULT_SET_SIZE; split_and!; word].
  destruct (_ || _) eqn:Ez; [done|]. destruct (Z.ltb_spec 10000 (bc_set_size cfg')) as [|Hmax]; [done|]. injection Ha as ->.
  apply orb_false_iff in Ez as [Ef%Z.eqb_neq Es%Z.eqb_neq]. destruct Ep as (Hf & _ & Hs).
  set (n := Z.to_nat (bc_set_size cfg)). assert (Hn : Z.of_nat n = bc_set_size cfg) by (subst n; word). rewrite <- Hn in Hset.
  destruct (init_frames_ok page_size n Hset n 0) as (fs & Einit & Hl & Hfs); [lia|]. change (Z.of_nat 0) with 0 in Einit. rewrite Einit. run.
  destruct (run_frames_ok page_size n Hset (Z.to_nat (bc_warmup cfg)) 0 (fs, empty_heap, 0)) as (s & -> & Hs1); [done|word|]. run.
  destruct (cycle_count_ok cfg) as (Hc & Htotal & H50 & H99); [word|word|done|]. set (c := cycle_count cfg) in *.
  destruct (run_cycles_ok page_size n Hset clock 1 (Z.to_nat c) s Hs1) as (ns & [[fs' h'] c'] & -> & Hns); [word|]. run.
  destruct (lookup_lt_is_Some_2 (sort_ns ns) (Z.to_nat (c / 2))) as [p50 ->]; [rewrite length_sort_ns, Hns; lia|]. run.
  destruct (lookup_lt_is_Some_2 (sort_ns ns) (Z.to_nat (u64 (c * 99) / 100))) as [p99 ->]; [rewrite length_sort_ns, Hns; lia|]. run.
  eexists. split; [done|]. cbn [total_frames rp_cycles]. rewrite wrap_small by word. lia.
Qed.


(** Near 2^64 the number of cycles wraps to zero and the percentile is read from
    an empty array. *)
Lemma bench_cycles_wrap clock :
  bench_main (HA := linux_x86_64) 4096 true true clock
    (txt <$> ["--frames"; "18446744073709551615"; "--set-size"; "2"; "--warmup"; "0"]%string) = Undef OutOfBounds.
Proof. vm_compute. reflexivity. Qed.

