(* ===== verification/PathWalk.v ===== *)
(** * Opening a path inside a process root: [src/gu_stacktrace.c]

    [gu_openat2_in_root_compat] emulates [RESOLVE_IN_ROOT] on kernels without
    [openat2]: it walks the path one component at a time on pinned directory
    descriptors, follows symbolic links itself, restarts absolute ones at the
    root and clamps [..] there. *)

From Stdlib Require Import Ascii.
From stdpp Require Import strings relations.
From S2P Require Import Prelude Maps.

Definition PATH_MAX : Z := 4096.
Definition GU_OPEN_IN_ROOT_MAX_SYMLINKS : Z := 40.
Definition GU_OPEN_IN_ROOT_MAX_COMPONENTS : Z := PATH_MAX / 2 + 1.
Definition slash : ascii := "/"%char.

Inductive node_kind : Type := KDir | KLink | KOther.

(** ** The file system

    Objects are opaque nodes; a descriptor pins one.  The natural number is the
    position of the call, so that the tree may change between any two calls.
    [child d n] says that [n] was an entry of [d] at some time: a plain name
    opened with [O_NOFOLLOW] relative to [d] gives such an [n] or fails. *)
Class Fs : Type := {
  node : Type;
  child : node -> node -> Prop;
  fs_dup : nat -> bool;                          (** [fcntl(F_DUPFD_CLOEXEC)] *)
  fs_open : nat -> node -> text -> option node;  (** [openat(O_PATH | O_NOFOLLOW)] *)
  fs_final : nat -> node -> text -> option node; (** [openat(flags | O_NOFOLLOW)] *)
  fs_self : nat -> node -> option node;          (** [openat(d, ".", flags)] *)
  fs_kind : nat -> node -> option node_kind;     (** [fstat] *)
  fs_readlink : nat -> node -> option text;      (** [readlinkat] *)
  fs_open_child t d c n : fs_open t d c = Some n -> child d n;
  fs_final_child t d c n : fs_final t d c = Some n -> child d n;
  fs_self_same t d n : fs_self t d = Some n -> n = d;
}.

(** ** Text of a path *)
Fixpoint skip_slashes (l : text) : text :=
  match l with
  | c :: l' => if decide (c = slash) then skip_slashes l' else l
  | [] => []
  end.

(** A component and the rest from its separator on. *)
Fixpoint span_component (l : text) : text * text :=
  match l with
  | c :: l' => if decide (c = slash) then ([], l)
               else let '(a, r) := span_component l' in (c :: a, r)
  | [] => ([], [])
  end.

(** ** The walk *)

(** The locals of the loop: the pinned directories from the current one to the
    root, the text at [cursor], the links followed, the descriptors open, and
    the position in the run. *)
Record walk_state {HF : Fs} : Type := mk_walk_state {
  wk_dirs : list node;
  wk_cursor : text;
  wk_links : Z;
  wk_fds : Z;
  wk_tick : nat;
}.
Arguments mk_walk_state {HF} _ _ _ _ _.

Section walk.
Context {HF : Fs}.

(** How an iteration ends: it continues, or breaks with [fd] ([None] is -1). *)
Inductive walk_flow : Type :=
  | Continue (s : walk_state)
  | Break (fd : option node) (s : walk_state).

Definition opened (r : option node) : Z := match r with Some _ => 1 | None => 0 end.

(** The text after a link: the target, and the rest of the path behind a slash;
    [None] when it does not fit [next_path]. *)
Definition link_path (target remainder : text) : option text :=
  let next_path := target ++ (if decide (remainder = []) then [] else slash :: remainder) in
  if PATH_MAX <=? Z.of_nat (length next_path) then None else Some next_path.

(** The link read from [component_fd], which is closed. *)
Definition follow_link (s : walk_state) (component_fd : node) (remainder : text) : walk_flow :=
  let target := fs_readlink (wk_tick s) component_fd in
  let s := mk_walk_state (wk_dirs s) (wk_cursor s) (wk_links s) (wk_fds s - 1) (S (wk_tick s)) in
  match target with
  | None => Break None s
  | Some target =>
    let target := c_str (take (Z.to_nat (PATH_MAX - 1)) target) in
    let links := wk_links s + 1 in
    let s := mk_walk_state (wk_dirs s) (wk_cursor s) links (wk_fds s) (wk_tick s) in
    if GU_OPEN_IN_ROOT_MAX_SYMLINKS <? links then Break None s else
    match link_path target remainder with
    | None => Break None s
    | Some next =>
      let dirs := if decide (head target = Some slash) then option_list (last (wk_dirs s)) else wk_dirs s in
      Continue (mk_walk_state dirs next links
                  (wk_fds s - (Z.of_nat (length (wk_dirs s)) - Z.of_nat (length dirs))) (wk_tick s))
    end
  end.

(** One iteration of the loop. *)
Definition walk_iteration (s : walk_state) : outcome walk_flow :=
  dir ← of_opt (head (wk_dirs s));
  match skip_slashes (wk_cursor s) with
  | [] =>
    let fd := fs_self (wk_tick s) dir in
    mret (Break fd (mk_walk_state (wk_dirs s) [] (wk_links s) (wk_fds s + opened fd) (S (wk_tick s))))
  | cursor =>
    let '(component, rest) := span_component cursor in
    let remainder := tail rest in
    let s := mk_walk_state (wk_dirs s) remainder (wk_links s) (wk_fds s) (wk_tick s) in
    if decide (component = txt ".") then mret (Continue s) else
    if decide (component = txt "..") then
      mret (Continue (if decide (1 < length (wk_dirs s))%nat
        then mk_walk_state (tail (wk_dirs s)) remainder (wk_links s) (wk_fds s - 1) (wk_tick s)
        else s)) else
    let component_fd := fs_open (wk_tick s) dir component in
    let s := mk_walk_state (wk_dirs s) remainder (wk_links s) (wk_fds s + opened component_fd) (S (wk_tick s)) in
    match component_fd with
    | None => mret (Break None s)
    | Some component_fd =>
      let st := fs_kind (wk_tick s) component_fd in
      let closed := mk_walk_state (wk_dirs s) remainder (wk_links s) (wk_fds s - 1) (S (wk_tick s)) in
      let s := mk_walk_state (wk_dirs s) remainder (wk_links s) (wk_fds s) (S (wk_tick s)) in
      match st with
      | None => mret (Break None closed)
      | Some KLink => mret (follow_link s component_fd remainder)
      | Some st =>
        if decide (remainder = []) then
          let fd := fs_final (wk_tick closed) dir component in
          mret (Break fd (mk_walk_state (wk_dirs s) remainder (wk_links s) (wk_fds closed + opened fd)
                            (S (wk_tick closed))))
        else match st with
             | KDir =>
               if GU_OPEN_IN_ROOT_MAX_COMPONENTS <=? Z.of_nat (length (wk_dirs s)) then mret (Break None closed)
               else mret (Continue (mk_walk_state (component_fd :: wk_dirs s) remainder (wk_links s) (wk_fds s) (wk_tick s)))
             | _ => mret (Break None closed)
             end
      end
    end
  end.

Fixpoint walk_path (fuel : nat) (s : walk_state) : outcome (option node * walk_state) :=
  match fuel with
  | O => Undef OutOfFuel
  | S fuel =>
    flow ← walk_iteration s;
    match flow with
    | Break fd s => mret (fd, s)
    | Continue s => walk_path fuel s
    end
  end.

(** Enough for 41 texts of less than [PATH_MAX] characters. *)
Definition walk_fuel : nat := Z.to_nat ((GU_OPEN_IN_ROOT_MAX_SYMLINKS + 2) * (PATH_MAX + 1)).

(** [gu_openat2_in_root_compat]: the object opened ([None] is -1) and the number
    of descriptors open afterwards; [root] is what [root_fd] refers to, [None]
    for a negative descriptor. *)
Definition gu_openat2_in_root_compat (root : option node) (path : text) (fds : Z) (t : nat)
  : outcome (option node * Z) :=
  match root with
  | None => mret (None, fds)
  | Some root =>
    if decide (path = []) then mret (None, fds) else
    if PATH_MAX <=? Z.of_nat (length path) then mret (None, fds) else
    if negb (fs_dup t) then mret (None, fds) else
    '(fd, s) ← walk_path walk_fuel (mk_walk_state [root] path 0 (fds + 1) (S t));
    mret (fd, wk_fds s - Z.of_nat (length (wk_dirs s)))
  end.
End walk.

(** ** [openat2] and the fall-back *)

(** What [syscall(SYS_openat2, ...)] answers: a descriptor, [ENOSYS], or another
    error. *)
Inductive open_answer {HF : Fs} : Type :=
  | Opened (n : node)
  | NoSys
  | Refused.

Section open.
Context {HF : Fs} (has_openat2 : bool) (openat2 : nat -> node -> text -> open_answer).

(** [gu_openat2_in_root] with [gu_openat2_in_root_availability] (-1, 0 or 1);
    [has_openat2] tells whether [SYS_openat2] was known when compiling. *)
Definition gu_openat2_in_root (root : option node) (path : text) (availability : Z) (t : nat) : open_answer * Z :=
  match root with
  | None => (Refused, availability)
  | Some root =>
    if decide (path = []) then (Refused, availability) else
    if negb has_openat2 then (NoSys, 0) else
    if availability =? 0 then (NoSys, availability) else
    match openat2 t root path with
    | Opened n => (Opened n, 1)
    | NoSys => (NoSys, 0)
    | Refused => (Refused, availability)
    end
  end.

(** [gu_open_pid_root_path]: [root] is what opening [/proc/<pid>/root] yields. *)
Definition gu_open_pid_root_path (root : option node) (path : text) (availability fds : Z) (t : nat)
  : outcome (option node * Z * Z) :=
  if decide (path = []) then mret (None, availability, fds) else
  match root with
  | None => mret (None, availability, fds)
  | Some root =>
    let fds := fds + 1 in
    let '(answer, availability) := gu_openat2_in_root (Some root) path availability t in
    '(fd, fds) ← match answer with
                 | Opened n => mret (Some n, fds + 1)
                 | NoSys => gu_openat2_in_root_compat (Some root) path fds (S t)
                 | Refused => mret (None, fds)
                 end;
    mret (fd, availability, fds - 1)
  end.
End open.

(** ** Invariant of the walk *)
Section facts.
Context {HF : Fs} (root : node).

(** Each pinned directory is an entry of the one below it, down to the root. *)
Fixpoint pinned (dirs : list node) : Prop :=
  match dirs with
  | [] => False
  | [d] => d = root
  | d :: ((e :: _) as dirs) => child e d /\ pinned dirs
  end.

Lemma pinned_tail d e dirs : pinned (d :: e :: dirs) -> pinned (e :: dirs).
Proof. by intros [_ H]. Qed.
Lemma pinned_last dirs : pinned dirs -> last dirs = Some root.
Proof.
  induction dirs as [|d [|e dirs] IH]; [done|by intros ->|]. intros [_ H]. rewrite last_cons_cons. by apply IH.
Qed.
Lemma pinned_inside d dirs : pinned (d :: dirs) -> rtc child root d.
Proof.
  revert d. induction dirs as [|e dirs IH]; intros d; [by intros ->|]. intros [Hc Hp].
  eapply rtc_r; [by apply IH|done].
Qed.

Lemma skip_slashes_length l : (length (skip_slashes l) <= length l)%nat.
Proof. induction l as [|c l IH]; [done|]. cbn. case_decide; cbn; lia. Qed.

Lemma skip_slashes_head l c l' : skip_slashes l = c :: l' -> c <> slash.
Proof. induction l as [|d l IH]; [done|]. cbn. case_decide; [done|]. intros [= <- _]. done. Qed.

Lemma span_component_length l a r : span_component l = (a, r) -> (length a + length r = length l)%nat.
Proof.
  revert a r. induction l as [|c l IH]; intros a r; cbn; [by intros [= <- <-]|].
  case_decide; [by intros [= <- <-]|]. destruct (span_component l) as [a1 r1]. intros [= <- <-].
  specialize (IH _ _ eq_refl). cbn. lia.
Qed.

(** What an iteration leaves to do: the links that may still be followed, then
    the characters of the path. *)
Record walk_ok (fds : Z) (s : walk_state) : Prop := {
  wo_pinned : pinned (wk_dirs s);
  wo_depth : Z.of_nat (length (wk_dirs s)) <= GU_OPEN_IN_ROOT_MAX_COMPONENTS;
  wo_cursor : Z.of_nat (length (wk_cursor s)) < PATH_MAX;
  wo_links : 0 <= wk_links s <= GU_OPEN_IN_ROOT_MAX_SYMLINKS;
  wo_fds : wk_fds s = fds + Z.of_nat (length (wk_dirs s));
}.

Definition measure (s : walk_state) : Z :=
  (GU_OPEN_IN_ROOT_MAX_SYMLINKS + 1 - wk_links s) * (PATH_MAX + 1) + Z.of_nat (length (wk_cursor s)).

(** After a break: the directories are still pinned and only the result was
    opened; the result is inside the root. *)
Definition break_ok (fds : Z) (fd : option node) (s : walk_state) : Prop :=
  pinned (wk_dirs s) /\ wk_fds s = fds + Z.of_nat (length (wk_dirs s)) + opened fd /\
  forall n, fd = Some n -> rtc child root n.

Lemma follow_link_ok fds s n remainder :
  walk_ok fds (mk_walk_state (wk_dirs s) (wk_cursor s) (wk_links s) (wk_fds s - 1) (wk_tick s)) ->
  match follow_link s n remainder with
  | Continue s' => walk_ok fds s' /\ measure s' < measure s
  | Break fd s' => break_ok fds fd s'
  end.
Proof.
  intros [Hp Hd Hc Hl Hf]. cbn in *. unfold follow_link.
  assert (Hbreak : forall l t k, break_ok fds None (mk_walk_state (wk_dirs s) l k (wk_fds s - 1) t)).
  { intros l t k. split_and!; cbn; [done|lia|done]. }
  destruct (fs_readlink _ _) as [target|]; [|apply Hbreak]. cbn [wk_dirs wk_links wk_cursor wk_fds wk_tick].
  set (tg := c_str _). destruct (Z.ltb_spec GU_OPEN_IN_ROOT_MAX_SYMLINKS (wk_links s + 1)); [apply Hbreak|].
  unfold link_path. set (next := tg ++ _).
  destruct (Z.leb_spec PATH_MAX (Z.of_nat (length next))); [apply Hbreak|].
  rewrite (pinned_last _ Hp). cbn [option_list].
  split; [|unfold measure, PATH_MAX, GU_OPEN_IN_ROOT_MAX_SYMLINKS in *; cbn; nia].
  case_decide; split; cbn; try done; unfold GU_OPEN_IN_ROOT_MAX_COMPONENTS, PATH_MAX in *; lia.
Qed.

Lemma iteration_ok fds s :
  walk_ok fds s -> exists flow, walk_iteration s = Done flow /\
    match flow with
    | Continue s' => walk_ok fds s' /\ measure s' < measure s
    | Break fd s' => break_ok fds fd s'
    end.
Proof.
  intros [Hp Hd Hc Hl Hf]. unfold walk_iteration.
  destruct (wk_dirs s) as [|dir dirs] eqn:Edirs; [done|]. rewrite ?Edirs in *. cbn [head of_opt hd_error]. run.
  pose proof (skip_slashes_length (wk_cursor s)) as Hskip.
  destruct (skip_slashes (wk_cursor s)) as [|c l] eqn:Es.
  { eexists. split; [done|]. split_and!; cbn [wk_dirs wk_fds]; [done|lia|]. intros n Hn. apply fs_self_same in Hn as ->.
    by eapply pinned_inside. }
  destruct (span_component (c :: l)) as [component rest] eqn:Espan.
  apply span_component_length in Espan as Hlen. apply skip_slashes_head in Es as Hns.
  assert (Hcomp : component <> []).
  { cbn in Espan. rewrite decide_False in Espan by done. destruct (span_component l). by injection Espan as <- _. }
  assert (Htail : (length (tail rest) <= length rest)%nat) by (destruct rest; cbn; lia).
  assert (Hshort : (length (tail rest) < length (wk_cursor s))%nat) by (destruct component; cbn in *; [done|lia]).
  cbn [wk_dirs wk_links wk_fds wk_tick wk_cursor].
  assert (Hcont : forall dirs' t, pinned dirs' -> Z.of_nat (length dirs') <= GU_OPEN_IN_ROOT_MAX_COMPONENTS ->
    walk_ok fds (mk_walk_state dirs' (tail rest) (wk_links s) (fds + Z.of_nat (length dirs')) t) /\
    measure (mk_walk_state dirs' (tail rest) (wk_links s) (fds + Z.of_nat (length dirs')) t) < measure s).
  { intros dirs' t Hp' Hd'. split; [split; cbn [wk_dirs wk_cursor wk_links wk_fds]; try done; lia|]. unfold measure. cbn [wk_cursor wk_links]. lia. }
  assert (Hkeep : forall t, walk_ok fds (mk_walk_state (dir :: dirs) (tail rest) (wk_links s) (wk_fds s) t) /\
    measure (mk_walk_state (dir :: dirs) (tail rest) (wk_links s) (wk_fds s) t) < measure s).
  { intros t. rewrite Hf. by apply Hcont. }
  case_decide; [eexists; split; [done|]; apply Hkeep|].
  case_decide.
  { eexists. split; [done|]. case_decide as Hlong; [|apply Hkeep]. destruct dirs as [|e dirs]; [cbn [length] in Hlong; lia|].
    replace (wk_fds s - 1) with (fds + Z.of_nat (length (e :: dirs))) by (cbn [length] in *; lia). cbn [tail].
    apply Hcont; [by eapply pinned_tail|cbn [length] in *; lia]. }
  assert (Hclosed : forall t, break_ok fds None (mk_walk_state (dir :: dirs) (tail rest) (wk_links s) (wk_fds s) t)).
  { intros t. split_and!; cbn [wk_dirs wk_fds opened]; [done|lia|done]. }
  destruct (fs_open _ dir component) as [n|] eqn:Eopen; cbn [opened wk_dirs wk_links wk_fds wk_tick wk_cursor].
  2:{ eexists. split; [done|]. rewrite Z.add_0_r. apply Hclosed. }
  apply fs_open_child in Eopen. replace (wk_fds s + 1 - 1) with (wk_fds s) by lia.
  destruct (fs_kind _ n) as [[| |]|]; [| | |eexists; split; [done|apply Hclosed]].
  - case_decide.
    + eexists. split; [done|]. split_and!; cbn [wk_dirs wk_fds]; [done|lia|]. intros m Hm. apply fs_final_child in Hm.
      eapply rtc_r; [by eapply pinned_inside|done].
    + destruct (Z.leb_spec GU_OPEN_IN_ROOT_MAX_COMPONENTS (Z.of_nat (length (dir :: dirs)))); (eexists; split; [done|]); [apply Hclosed|].
      replace (wk_fds s + 1) with (fds + Z.of_nat (length (n :: dir :: dirs))) by (cbn [length] in *; lia).
      apply Hcont; [done|cbn [length] in *; lia].
  - eexists. split; [done|].
    pose proof (follow_link_ok fds (mk_walk_state (dir :: dirs) (tail rest) (wk_links s) (wk_fds s + 1) (S (S (wk_tick s)))) n (tail rest)) as Hlink.
    cbn [wk_dirs wk_links wk_fds wk_tick wk_cursor] in Hlink. replace (wk_fds s + 1 - 1) with (wk_fds s) in Hlink by lia.
    specialize (Hlink (proj1 (Hkeep _))). destruct (follow_link _ _ _); [|done].
    destruct Hlink as [Hok Hm]. split; [done|]. unfold measure in *. cbn [wk_cursor wk_links] in *. lia.
  - case_decide.
    + eexists. split; [done|]. split_and!; cbn [wk_dirs wk_fds]; [done|lia|]. intros m Hm. apply fs_final_child in Hm.
      eapply rtc_r; [by eapply pinned_inside|done].
    + eexists. split; [done|apply Hclosed].
Qed.

Lemma walk_path_ok fuel fds s :
  walk_ok fds s -> measure s < Z.of_nat fuel ->
  exists fd s', walk_path fuel s = Done (fd, s') /\ break_ok fds fd s'.
Proof.
  revert s. induction fuel as [|fuel IH]; intros s Hok Hm.
  { exfalso. destruct Hok. unfold measure in Hm. unfold PATH_MAX, GU_OPEN_IN_ROOT_MAX_SYMLINKS in *. lia. }
  cbn [walk_path]. destruct (iteration_ok fds s Hok) as (flow & -> & Hf). run.
  destruct flow as [s1|fd s1]; [|by do 2 eexists]. destruct Hf as [Hok1 Hm1]. apply IH; [done|lia].
Qed.
End facts.

(** ** Specification: resolution inside a root *)

(** The segments between slashes, and the non-empty ones. *)
Fixpoint segments (l : text) : list text :=
  match l with
  | [] => [[]]
  | c :: l =>
    if decide (c = slash) then [] :: segments l else
    match segments l with
    | [] => [[c]]
    | s :: ss => (c :: s) :: ss
    end
  end.
Definition components (l : text) : list text := filter (fun s => s <> []) (segments l).

Lemma segments_span l a r :
  span_component l = (a, r) -> segments l = a :: match r with [] => [] | _ :: r' => segments r' end.
Proof.
  revert a r. induction l as [|c l IH]; intros a r; cbn; [by intros [= <- <-]|].
  case_decide; [by intros [= <- <-]|]. destruct (span_component l) as [a1 r1]. rewrite (IH a1 r1) by done.
  by intros [= <- <-].
Qed.

Lemma components_slash l : components (slash :: l) = components l.
Proof.
  unfold components. change (segments (slash :: l)) with ([] :: segments l). rewrite filter_cons_False; [done|].
  intros H. by apply H.
Qed.

Lemma components_skip l : components (skip_slashes l) = components l.
Proof.
  induction l as [|c l IH]; [done|]. cbn [skip_slashes]. case_decide as Hc; [|done].
  rewrite IH, Hc. symmetry. apply components_slash.
Qed.

Lemma components_span l a r : span_component l = (a, r) -> a <> [] -> components l = a :: components (tail r).
Proof.
  intros E Ha. unfold components. rewrite (segments_span _ _ _ E), filter_cons_True by done. f_equal. by destruct r.
Qed.

Lemma segments_app l m : segments (l ++ slash :: m) = segments l ++ segments m.
Proof.
  induction l as [|c l IH]; [done|]. cbn. case_decide; rewrite IH; [done|].
  destruct (segments l) as [|s ss] eqn:E; [|done]. destruct l as [|d l]; cbn in E; [done|]. by repeat case_match.
Qed.

Lemma components_link target remainder next :
  link_path target remainder = Some next -> components next = components target ++ components remainder.
Proof.
  unfold link_path. destruct (_ <=? _); [done|]. intros [= <-]. case_decide as Hr.
  - by rewrite Hr, !app_nil_r.
  - unfold components. by rewrite segments_app, filter_app.
Qed.

Lemma c_str_id l : NUL ∉ l -> c_str l = l.
Proof.
  induction l as [|c l IH]; [done|]. intros H. cbn. rewrite decide_False by set_solver. f_equal. apply IH. set_solver.
Qed.

(** A file system that does not change while the path is opened: entries, kinds
    and link targets as the answers of the calls. *)
Class StaticFs {HF : Fs} : Type := {
  entry : node -> text -> option node;
  kind_of : node -> node_kind;
  target_of : node -> text;
  static_open t d c : fs_open t d c = entry d c;
  static_final t d c n : fs_final t d c = Some n -> entry d c = Some n;
  static_kind t n k : fs_kind t n = Some k -> k = kind_of n;
  static_link t n l : fs_readlink t n = Some l -> l = target_of n;
  target_text n : NUL ∉ target_of n /\ Z.of_nat (length (target_of n)) < PATH_MAX;
}.

Section static.
Context {HF : Fs} {HS : StaticFs} (root : node).

(** Resolving the components [cs] from the directories [ds] (the current one
    first, the root last): [..] stops at the root, relative links continue where
    they are, absolute ones at the root. *)
Inductive resolves : list node -> list text -> node -> Prop :=
  | resolve_end d ds : resolves (d :: ds) [] d
  | resolve_dot ds cs n : resolves ds cs n -> resolves ds (txt "." :: cs) n
  | resolve_up d e ds cs n : resolves (e :: ds) cs n -> resolves (d :: e :: ds) (txt ".." :: cs) n
  | resolve_top d cs n : resolves [d] cs n -> resolves [d] (txt ".." :: cs) n
  | resolve_last d ds c n : entry d c = Some n -> kind_of n <> KLink -> resolves (d :: ds) [c] n
  | resolve_dir d ds c e cs n :
      entry d c = Some e -> kind_of e = KDir -> resolves (e :: d :: ds) cs n -> resolves (d :: ds) (c :: cs) n
  | resolve_link d ds c l cs n :
      entry d c = Some l -> kind_of l = KLink ->
      resolves (if decide (head (target_of l) = Some slash) then [root] else d :: ds)
        (components (target_of l) ++ cs) n ->
      resolves (d :: ds) (c :: cs) n.

Lemma iteration_sound s flow n :
  pinned root (wk_dirs s) -> walk_iteration s = Done flow ->
  match flow with
  | Break fd s' => fd = Some n -> resolves (wk_dirs s) (components (wk_cursor s)) n
  | Continue s' => pinned root (wk_dirs s') /\
      (resolves (wk_dirs s') (components (wk_cursor s')) n -> resolves (wk_dirs s) (components (wk_cursor s)) n)
  end.
Proof.
  intros Hp. unfold walk_iteration. destruct (wk_dirs s) as [|dir dirs] eqn:Edirs; [done|]. cbn [head of_opt hd_error]. run.
  rewrite <- (components_skip (wk_cursor s)). destruct (skip_slashes (wk_cursor s)) as [|c l] eqn:Es.
  { intros [= <-] Hfd. apply fs_self_same in Hfd as ->. apply resolve_end. }
  destruct (span_component (c :: l)) as [component rest] eqn:Espan. apply skip_slashes_head in Es as Hns.
  assert (Hcomp : component <> []).
  { cbn in Espan. rewrite decide_False in Espan by done. destruct (span_component l). by injection Espan as <- _. }
  rewrite (components_span _ _ _ Espan Hcomp). cbn [wk_dirs wk_links wk_fds wk_tick wk_cursor].
  case_decide as Hdot; [intros [= <-]; split; [done|]; rewrite Hdot; apply resolve_dot|].
  case_decide as Hup.
  { intros [= <-]. rewrite Hup. case_decide as Hlong; cbn [wk_dirs wk_cursor].
    - destruct dirs as [|e dirs]; [cbn in Hlong; lia|]. split; [by eapply pinned_tail|]. apply resolve_up.
    - destruct dirs as [|e dirs]; [|cbn in Hlong; lia]. split; [done|]. apply resolve_top. }
  destruct (fs_open (wk_tick s) dir component) as [m|] eqn:Eo; [|by intros [= <-]].
  apply fs_open_child in Eo as Hchild. rewrite static_open in Eo.
  destruct (fs_kind _ m) as [k|] eqn:Ek; [|by intros [= <-]]. apply static_kind in Ek as ->.
  assert (Hlast : forall t, kind_of m <> KLink -> tail rest = [] -> fs_final t dir component = Some n ->
    resolves (dir :: dirs) (component :: components (tail rest)) n).
  { intros t Hk Hr Hn. apply static_final in Hn as He. rewrite Eo in He. injection He as ->. rewrite Hr. by apply resolve_last. }
  destruct (kind_of m) eqn:Ekind.
  - case_decide; [intros [= <-] Hn; by eapply Hlast|].
    destruct (_ <=? _); intros [= <-]; [done|]. cbn. split; [done|]. by apply resolve_dir.
  - intros [= <-]. unfold follow_link. cbn [wk_dirs wk_links wk_fds wk_tick wk_cursor].
    destruct (fs_readlink _ m) as [tg|] eqn:Er; [|done]. apply static_link in Er as ->.
    destruct (target_text m) as [Hnul Hlen].
    rewrite take_ge by (unfold PATH_MAX in *; lia). rewrite c_str_id by done.
    destruct (_ <? _); [done|]. destruct (link_path _ _) as [next|] eqn:El; [|done]. cbn [wk_dirs wk_cursor].
    rewrite (components_link _ _ _ El), (pinned_last _ _ Hp). cbn [option_list].
    split; [by case_decide|]. by apply resolve_link.
  - case_decide; [intros [= <-] Hn; by eapply Hlast|by intros [= <-]].
Qed.

Lemma walk_sound fuel s n s' :
  pinned root (wk_dirs s) -> walk_path fuel s = Done (Some n, s') ->
  resolves (wk_dirs s) (components (wk_cursor s)) n.
Proof.
  revert s. induction fuel as [|fuel IH]; intros s Hp; cbn [walk_path]; [done|].
  destruct (walk_iteration s) as [flow|] eqn:Ei; run; [|done]. apply (iteration_sound _ _ n Hp) in Ei.
  destruct flow as [s1|fd s1]; [|intros [= -> <-]; by apply Ei]. destruct Ei as [Hp1 Hr]. intros E. by apply Hr, IH.
Qed.
End static.

(** ** Properties *)

(** The fall-back is confined: whatever happens to the tree, it ends within its
    bounds, opens only what is reached from the root, and leaves exactly the
    returned descriptor open. *)
Lemma compat_confined {HF : Fs} (root : node) path fds t :
  exists fd fds', gu_openat2_in_root_compat (Some root) path fds t = Done (fd, fds') /\
    fds' = fds + opened fd /\ forall n, fd = Some n -> rtc child root n.
Proof.
  assert (Hfail : exists fd fds', Done (None, fds) = Done (fd, fds') /\ fds' = fds + opened fd /\
    forall n, fd = Some n -> rtc child root n) by (exists None, fds; split_and!; [done|cbn; lia|done]).
  unfold gu_openat2_in_root_compat. case_decide; [exact Hfail|].
  destruct (Z.leb_spec PATH_MAX (Z.of_nat (length path))); [exact Hfail|]. destruct (fs_dup t); cbn [negb]; [|exact Hfail].
  destruct (walk_path_ok root walk_fuel fds (mk_walk_state [root] path 0 (fds + 1) (S t))) as (fd & s & -> & Hp & Hf & Hin).
  - split; cbn; try done; unfold GU_OPEN_IN_ROOT_MAX_COMPONENTS, GU_OPEN_IN_ROOT_MAX_SYMLINKS, PATH_MAX in *; lia.
  - unfold measure, walk_fuel. cbn [wk_links wk_cursor].
    unfold GU_OPEN_IN_ROOT_MAX_COMPONENTS, GU_OPEN_IN_ROOT_MAX_SYMLINKS, PATH_MAX in *. lia.
  - run. do 2 eexists. split; [done|]. split; [lia|done].
Qed.

(** Opening a path of a process on a kernel that has no [openat2], or once it was
    found missing: the call ends, stays inside the root and leaks nothing. *)
Lemma open_pid_root_confined {HF : Fs} has_openat2 openat2 root path availability fds t :
  (forall u r p, availability = 0 \/ has_openat2 = false \/ openat2 u r p = NoSys) ->
  exists fd fds', gu_open_pid_root_path has_openat2 openat2 (Some root) path availability fds t =
    Done (fd, if decide (path = []) then availability else 0, fds') /\
    fds' = fds + opened fd /\ forall n, fd = Some n -> rtc child root n.
Proof.
  intros Hno. unfold gu_open_pid_root_path. case_decide; [exists None, fds; split_and!; [done|cbn; lia|done]|].
  assert (Ea : gu_openat2_in_root has_openat2 openat2 (Some root) path availability t = (NoSys, 0)).
  { unfold gu_openat2_in_root. rewrite decide_False by done. destruct has_openat2; cbn [negb]; [|done].
    destruct (Z.eqb_spec availability 0) as [->|]; [done|]. by destruct (Hno t root path) as [?|[?| ->]]. }
  rewrite Ea. destruct (compat_confined root path (fds + 1) (S t)) as (fd & fds' & -> & Hf & Hin). run.
  do 2 eexists. split; [done|]. split; [lia|done].
Qed.



(** A root with [/lib -> ../../usr/lib], [/usr/lib/libc.so -> /real.so] and
    [/real.so]; nodes are numbers. *)
Definition tree_entry (d : Z) (c : text) : option Z :=
  match d with
  | 1 => if decide (c = txt "lib") then Some 2 else if decide (c = txt "usr") then Some 3 else
         if decide (c = txt "real.so") then Some 6 else None
  | 3 => if decide (c = txt "lib") then Some 4 else None
  | 4 => if decide (c = txt "libc.so") then Some 5 else None
  | _ => None
  end.
Definition tree_kind (n : Z) : node_kind := match n with 2 | 5 => KLink | 6 => KOther | _ => KDir end.
Definition tree_target (n : Z) : text :=
  match n with 2 => txt "../../usr/lib" | 5 => txt "/real.so" | _ => txt "x" end.
Definition tree_fs : Fs.
Proof.
  refine {| node := Z; child := fun d n => exists c, tree_entry d c = Some n; fs_dup := fun _ => true;
    fs_open := fun _ => tree_entry; fs_final := fun _ => tree_entry; fs_self := fun _ d => Some d;
    fs_kind := fun _ n => Some (tree_kind n); fs_readlink := fun _ n => Some (tree_target n) |}.
  - intros _ d c n H. by exists c.
  - intros _ d c n H. by exists c.
  - by intros _ d n [= ->].
Defined.
Definition tree_static : StaticFs (HF := tree_fs).
Proof.
  refine {| entry := tree_entry : node (Fs := tree_fs) -> _; kind_of := tree_kind : node (Fs := tree_fs) -> _;
    target_of := tree_target : node (Fs := tree_fs) -> _ |}; try done.
  - by intros _ n k [= <-].
  - by intros _ n l [= <-].
  - intros n. unfold tree_target. split; [|repeat case_match; done].
    repeat case_match; apply (bool_decide_unpack _); vm_compute; done.
Defined.

