(* ===== verification/DebugFile.v ===== *)
(** * Sections and debug files of an image: [src/gu_stacktrace.c], lines 393-614, 934-967, 1337-1370

    The sections [load_elf] tracks, the build-id an image is cached under, and
    the separate debug file its symbols come from: by build-id, by
    [.gnu_debuglink] with its CRC, or the image itself. *)

From Stdlib Require Import Ascii.
From stdpp Require Import strings.
From S2P Require Import Prelude Maps PathWalk.

(** ** CRC-32 *)

Definition crc_poly : Z := 0xedb88320.
Definition not32 (x : Z) : Z := u32 (Z.lnot x).

(** The body of the inner loop of [gu_crc32_table_init]. *)
Definition crc_shift (c : Z) : Z :=
  if negb (Z.land c 1 =? 0) then Z.lxor crc_poly (Z.shiftr c 1) else Z.shiftr c 1.

Definition gu_crc32_table_init : list Z :=
  (fun i => Nat.iter 8 crc_shift (Z.of_nat i)) <$> seq 0 256.

Fixpoint crc_loop (table : list Z) (crc : Z) (buf : list Z) : outcome Z :=
  match buf with
  | [] => mret crc
  | b :: buf =>
    t ← of_opt (table !! Z.to_nat (Z.land (Z.lxor crc b) 0xff));
    crc_loop table (Z.lxor t (Z.shiftr crc 8)) buf
  end.

Definition gu_crc32_update (crc : Z) (buf : list Z) : outcome Z :=
  crc ← crc_loop gu_crc32_table_init (not32 crc) buf;
  mret (not32 crc).

(** What [read] answers for a file: interrupted, failed, or some bytes of what
    is left (at least one, at most the buffer; none at the end). *)
Inductive read_answer : Type := Interrupted | Failed | Got (n : nat).

#[export] Instance read_answer_eq_dec : EqDecision read_answer.
Proof. solve_decision. Defined.

Definition read_buffer : nat := Z.to_nat 65536.
Definition read_size (n : nat) (left : list Z) : nat :=
  Nat.min (Nat.max 1 n) (Nat.min read_buffer (length left)).

(** The loop of [gu_debuglink_crc_matches]; [left] is what follows the offset. *)
Fixpoint crc_read_loop (answers : list read_answer) (left : list Z) (crc expected_crc : Z) : outcome bool :=
  match answers with
  | [] => Undef OutOfFuel
  | Interrupted :: answers => crc_read_loop answers left crc expected_crc
  | Failed :: _ => mret false
  | Got n :: answers =>
    let n := read_size n left in
    if (n =? 0)%nat then mret (crc =? expected_crc) else
    crc ← gu_crc32_update crc (take n left);
    crc_read_loop answers (drop n left) crc expected_crc
  end.

(** *** The function computed

    The generator register shifted by one bit of the message at a time. *)
Definition crc_bit_step (reg : Z) (b : bool) : Z :=
  let reg' := Z.shiftr reg 1 in
  if xorb (Z.testbit reg 0) b then Z.lxor reg' crc_poly else reg'.
Definition byte_bits (b : Z) : list bool := Z.testbit b <$> seqZ 0 8.
Definition crc32 (bytes : list Z) : Z :=
  Z.lxor (foldl crc_bit_step UINT32_MAX (bytes ≫= byte_bits)) UINT32_MAX.

Lemma not32_lxor x : is_u32 x -> not32 x = Z.lxor x UINT32_MAX.
Proof.
  intros Hx. unfold not32, wrap, UINT32_MAX. apply Z.bits_inj'. intros i Hi. rewrite Z.lxor_spec.
  change (2 ^ 32 - 1) with (Z.ones 32). destruct (Z_lt_le_dec i 32).
  - rewrite Z.mod_pow2_bits_low, Z.lnot_spec, Z.ones_spec_low by lia. by rewrite xorb_true_r.
  - rewrite Z.mod_pow2_bits_high, Z.ones_spec_high by lia. by rewrite (testbit_small x 32).
Qed.

Lemma lxor_range k a b : 0 <= k -> in_width k a -> in_width k b -> in_width k (Z.lxor a b).
Proof.
  intros Hk Ha Hb.  assert (0 <= Z.lxor a b) by (apply Z.lxor_nonneg; unfold in_width in *; lia). split; [done|].
  destruct (decide (Z.lxor a b = 0)) as [->|]; [lia|]. apply Z.log2_lt_pow2; [lia|].
  apply Z.lt_nge. intros Hlog. assert (Hbit : Z.testbit (Z.lxor a b) (Z.log2 (Z.lxor a b)) = true) by (apply Z.bit_log2; lia).
  by rewrite Z.lxor_spec, (testbit_small a k), (testbit_small b k) in Hbit.
Qed.

Lemma odd_bit c : negb (Z.land c 1 =? 0) = Z.testbit c 0.
Proof. change 1 with (2 ^ 0). by rewrite land_pow2_zero, negb_involutive by done. Qed.

Lemma crc_shift_range c : is_u32 c -> is_u32 (crc_shift c).
Proof.
  intros Hc. unfold crc_shift. assert (is_u32 (Z.shiftr c 1)).
  { rewrite Z.shiftr_div_pow2 by lia. change (2 ^ 1) with 2. unfold in_width in *.
    split; [apply Z.div_pos; lia|]. apply Z.div_lt_upper_bound; lia. }
  case_match; [|done]. by apply lxor_range.
Qed.

(** Shifting is linear, and undoes a left shift. *)
Lemma crc_shift_lxor a b : crc_shift (Z.lxor a b) = Z.lxor (crc_shift a) (crc_shift b).
Proof.
  unfold crc_shift. rewrite !odd_bit, Z.lxor_spec, Z.shiftr_lxor.
  destruct (Z.testbit a 0), (Z.testbit b 0); cbn [xorb]; try done; apply Z.bits_inj'; intros i _; rewrite !Z.lxor_spec;
    by destruct (Z.testbit crc_poly i), (Z.testbit (Z.shiftr a 1) i), (Z.testbit (Z.shiftr b 1) i).
Qed.
Lemma crc_shift_even x : crc_shift (Z.shiftl x 1) = x.
Proof.
  unfold crc_shift. rewrite odd_bit, Z.shiftl_spec_low by lia. by rewrite Z.shiftr_shiftl_l.
Qed.

Lemma crc_iter_lxor n a b :
  Nat.iter n crc_shift (Z.lxor a b) = Z.lxor (Nat.iter n crc_shift a) (Nat.iter n crc_shift b).
Proof. induction n as [|n IH]; [done|]. by rewrite !Nat.iter_succ, IH, crc_shift_lxor. Qed.
Lemma crc_iter_even n x : Nat.iter n crc_shift (Z.shiftl x (Z.of_nat n)) = x.
Proof.
  revert x. induction n as [|n IH]; intros x; [apply Z.shiftl_0_r|]. rewrite Nat.iter_succ_r.
  replace (Z.of_nat (S n)) with (Z.of_nat n + 1) by lia. by rewrite <- Z.shiftl_shiftl, crc_shift_even by lia.
Qed.
Lemma crc_iter_range n c : is_u32 c -> is_u32 (Nat.iter n crc_shift c).
Proof. intros Hc. induction n as [|n IH]; [done|]. rewrite Nat.iter_succ. by apply crc_shift_range. Qed.

(** The top bit of the register tells whether the polynomial was added. *)
Lemma crc_shift_inj a b : is_u32 a -> is_u32 b -> crc_shift a = crc_shift b -> a = b.
Proof.
  intros Ha Hb E.
  assert (Htop : forall c, is_u32 c -> Z.testbit (crc_shift c) 31 = Z.testbit c 0).
  { intros c Hc. unfold crc_shift. rewrite odd_bit. assert (Z.testbit (Z.shiftr c 1) 31 = false) as Hs.
    { rewrite Z.shiftr_spec by lia. by apply (testbit_small c 32). }
    destruct (Z.testbit c 0); [by rewrite Z.lxor_spec, Hs|done]. }
  assert (H0 : Z.testbit a 0 = Z.testbit b 0) by (rewrite <- !Htop by done; by rewrite E).
  assert (H1 : Z.shiftr a 1 = Z.shiftr b 1).
  { unfold crc_shift in E. rewrite !odd_bit, H0 in E. destruct (Z.testbit b 0); [|done].
    apply (f_equal (Z.lxor crc_poly)) in E. by rewrite <- !Z.lxor_assoc, Z.lxor_nilpotent, !Z.lxor_0_l in E. }
  apply Z.bits_inj'. intros i Hi. destruct (decide (i = 0)) as [->|]; [done|].
  apply (f_equal (fun x => Z.testbit x (i - 1))) in H1. rewrite !Z.shiftr_spec in H1 by lia.
  by replace (i - 1 + 1) with i in H1 by lia.
Qed.
Lemma crc_iter_inj n a b :
  is_u32 a -> is_u32 b -> Nat.iter n crc_shift a = Nat.iter n crc_shift b -> a = b.
Proof.
  intros Ha Hb. induction n as [|n IH]; [done|]. rewrite !Nat.iter_succ. intros E%crc_shift_inj; [by apply IH|by apply crc_iter_range..].
Qed.

(** One bit of the message is the register shifted with that bit added. *)
Lemma crc_bit_step_shift reg b : crc_bit_step reg b = crc_shift (Z.lxor reg (Z.b2z b)).
Proof.
  unfold crc_bit_step, crc_shift. rewrite odd_bit, Z.lxor_spec, Z.b2z_bit0, Z.shiftr_lxor.
  assert (Z.shiftr (Z.b2z b) 1 = 0) as -> by (by destruct b). rewrite Z.lxor_0_r. case_match; [apply Z.lxor_comm|done].
Qed.

(** Feeding the bits of [w] is shifting with [w] added at once. *)
Lemma crc_bits_iter n k reg w :
  0 <= k -> Z.shiftr w (k + Z.of_nat n) = 0 ->
  foldl crc_bit_step reg (Z.testbit w <$> seqZ k (Z.of_nat n)) = Nat.iter n crc_shift (Z.lxor reg (Z.shiftr w k)).
Proof.
  revert k reg. induction n as [|n IH]; intros k reg Hk Hw.
  { cbn. rewrite Z.add_0_r in Hw. by rewrite Hw, Z.lxor_0_r. }
  rewrite seqZ_cons by lia. cbn [fmap list_fmap foldl]. replace (Z.pred (Z.of_nat (S n))) with (Z.of_nat n) by lia.
  rewrite (IH (Z.succ k)) by (try lia; by replace (Z.succ k + Z.of_nat n) with (k + Z.of_nat (S n)) by lia).
  rewrite Nat.iter_succ_r. f_equal. rewrite crc_bit_step_shift.
  assert (Hsplit : Z.shiftr w k = Z.lxor (Z.b2z (Z.testbit w k)) (Z.shiftl (Z.shiftr w (Z.succ k)) 1)).
  { apply Z.bits_inj'. intros i Hi. rewrite Z.lxor_spec. destruct (decide (i = 0)) as [->|].
    - rewrite Z.shiftr_spec, Z.b2z_bit0, Z.shiftl_spec_low by lia. by rewrite xorb_false_r, Z.add_0_l.
    - rewrite (testbit_small (Z.b2z _) 1 i) by (try lia; destruct (Z.testbit w k); cbn; lia).
      rewrite Z.shiftl_spec, !Z.shiftr_spec by lia. cbn [xorb]. f_equal. lia. }
  by rewrite Hsplit, <- Z.lxor_assoc, (crc_shift_lxor (Z.lxor _ _)), crc_shift_even.
Qed.

(** *** Bytes *)
Definition crc_byte (reg b : Z) : Z := Nat.iter 8 crc_shift (Z.lxor reg b).

Lemma crc_byte_range reg b : is_u32 reg -> is_u8 b -> is_u32 (crc_byte reg b).
Proof. intros Hr Hb. apply crc_iter_range, lxor_range; [lia|done|]. unfold in_width in *. lia. Qed.

Lemma crc_fold_range bytes reg : is_u32 reg -> bytes_ok bytes -> is_u32 (foldl crc_byte reg bytes).
Proof. intros Hr Hb. revert reg Hr. induction Hb as [|b bytes Hb Hbs IH]; intros reg Hr; [done|]. by apply IH, crc_byte_range. Qed.

Lemma crc_byte_bits reg b : is_u8 b -> foldl crc_bit_step reg (byte_bits b) = crc_byte reg b.
Proof.
  intros Hb. unfold byte_bits, crc_byte. rewrite (crc_bits_iter 8); [by rewrite Z.shiftr_0_r|done|].
  rewrite Z.shiftr_div_pow2 by lia. by apply Z.div_small.
Qed.

Lemma crc32_bytes bytes : bytes_ok bytes -> crc32 bytes = Z.lxor (foldl crc_byte UINT32_MAX bytes) UINT32_MAX.
Proof.
  intros Hb. unfold crc32. f_equal. generalize UINT32_MAX.
  induction Hb as [|b bytes Hb Hbs IH]; intros reg; [done|].
  cbn [mbind list_bind]. by rewrite foldl_app, crc_byte_bits, IH by done.
Qed.

(** The lookup does the eight shifts of a byte. *)
Lemma crc_table_lookup reg b :
  is_u32 reg -> is_u8 b ->
  exists t, gu_crc32_table_init !! Z.to_nat (Z.land (Z.lxor reg b) 0xff) = Some t /\
    Z.lxor t (Z.shiftr reg 8) = crc_byte reg b.
Proof.
  intros Hr Hb. set (x := Z.lxor reg b). change 0xff with (Z.ones 8). rewrite Z.land_ones by done.
  pose proof (Z.mod_pos_bound x (2 ^ 8)) as Hlow. eexists. split.
  - unfold gu_crc32_table_init. rewrite list_lookup_fmap, lookup_seq_lt by lia. done.
  - cbn [Nat.add]. rewrite Z2Nat.id by lia. unfold crc_byte. fold x.
    assert (Hx : x = Z.lxor (x mod 2 ^ 8) (Z.shiftl (Z.shiftr x 8) (Z.of_nat 8))).
    { apply Z.bits_inj'. intros i Hi. rewrite Z.lxor_spec. destruct (Z_lt_le_dec i 8).
      - by rewrite Z.mod_pow2_bits_low, Z.shiftl_spec_low, xorb_false_r by lia.
      - rewrite Z.mod_pow2_bits_high, Z.shiftl_spec, Z.shiftr_spec by lia. cbn [xorb]. f_equal. lia. }
    assert (Hs : Z.shiftr x 8 = Z.shiftr reg 8).
    { unfold x. rewrite Z.shiftr_lxor, (Z.shiftr_div_pow2 b) by lia.
      rewrite (Z.div_small b) by done. apply Z.lxor_0_r. }
    rewrite Hx at 2. by rewrite crc_iter_lxor, crc_iter_even, Hs.
Qed.

Lemma crc_loop_spec bytes reg :
  is_u32 reg -> bytes_ok bytes -> crc_loop gu_crc32_table_init reg bytes = Done (foldl crc_byte reg bytes).
Proof.
  intros Hr Hb. revert reg Hr. induction Hb as [|b bytes Hb Hbs IH]; intros reg Hr; [done|]. cbn [crc_loop].
  destruct (crc_table_lookup reg b) as (t & -> & E); [done..|]. run. rewrite E. by apply IH, crc_byte_range.
Qed.

Lemma not32_range x : is_u32 (not32 x).
Proof. by apply wrap_range. Qed.
Lemma not32_involutive x : is_u32 x -> not32 (not32 x) = x.
Proof.
  intros Hx. rewrite not32_lxor by apply not32_range. rewrite not32_lxor by done.
  by rewrite Z.lxor_assoc, Z.lxor_nilpotent, Z.lxor_0_r.
Qed.

(** The state after a part of a file; updating it with the next part. *)
Lemma crc_update_spec done_ chunk :
  bytes_ok done_ -> bytes_ok chunk -> gu_crc32_update (crc32 done_) chunk = Done (crc32 (done_ ++ chunk)).
Proof.
  intros Hd Hc. assert (Hr : forall l, bytes_ok l -> is_u32 (foldl crc_byte UINT32_MAX l)) by (intros; by apply crc_fold_range).
  unfold gu_crc32_update. rewrite !crc32_bytes by (try apply Forall_app_2; done).
  rewrite <- !not32_lxor by (apply Hr; by try apply Forall_app_2).
  rewrite not32_involutive, crc_loop_spec by (try apply Hr; done). run. by rewrite foldl_app.
Qed.

Definition is_got (a : read_answer) : bool := match a with Got _ => true | _ => false end.

Lemma crc_read_spec answers done_ left expected :
  bytes_ok done_ -> bytes_ok left -> Failed ∉ answers ->
  (length left < length (filter (fun a => is_got a = true) answers))%nat ->
  crc_read_loop answers left (crc32 done_) expected = Done (crc32 (done_ ++ left) =? expected).
Proof.
  revert done_ left. induction answers as [|a answers IH]; intros done_ left Hd Hl Hf Hn; [cbn in Hn; lia|].
  destruct a as [| |n]; [|set_solver|].
  - cbn [crc_read_loop]. rewrite filter_cons_False in Hn by done. apply IH; [done..|set_solver|done].
  - rewrite filter_cons_True in Hn by done. cbn [crc_read_loop length] in *. destruct left as [|b left].
    { rewrite app_nil_r. unfold read_size. cbn [length]. by rewrite !Nat.min_0_r. }
    set (k := read_size n (b :: left)). assert (0 < k <= length (b :: left))%nat as Hk.
    { unfold k, read_size, read_buffer. cbn [length]. lia. }
    destruct (Nat.eqb_spec k 0); [lia|]. rewrite crc_update_spec by (try apply Forall_take; done). run.
    rewrite IH; [by rewrite <- app_assoc, take_drop|by apply Forall_app_2; [|apply Forall_take]|by apply Forall_drop|set_solver|].
    rewrite length_drop. cbn [length] in *. lia.
Qed.

(** Up to four bytes: their value is added to the register at once. *)
Lemma crc_fold_word l reg :
  bytes_ok l -> foldl crc_byte reg l = Nat.iter (8 * length l) crc_shift (Z.lxor reg (le_value l)).
Proof.
  intros Hl. revert reg. induction Hl as [|b l Hb Hl IH]; intros reg; [cbn; by rewrite Z.lxor_0_r|].
  cbn [foldl le_value length]. rewrite IH. replace (8 * S (length l))%nat with (8 * length l + 8)%nat by lia.
  rewrite Nat.iter_add. f_equal. unfold crc_byte.
  assert (E : b + 256 * le_value l = Z.lxor b (Z.shiftl (le_value l) (Z.of_nat 8))).
  { rewrite Z.add_nocarry_lxor; [by rewrite Z.shiftl_mul_pow2, Z.mul_comm by lia|].
    apply Z.bits_inj'. intros i Hi. rewrite Z.land_spec, Z.testbit_0_l. destruct (Z_lt_le_dec i 8).
    - change 256 with (2 ^ 8). by rewrite Z.mul_comm, Z.mul_pow2_bits_low, andb_false_r by lia.
    - by rewrite (testbit_small b 8). }
  by rewrite E, <- Z.lxor_assoc, (crc_iter_lxor 8 (Z.lxor reg b)), crc_iter_even.
Qed.

Lemma crc_fold_inj bytes r r' :
  is_u32 r -> is_u32 r' -> bytes_ok bytes -> foldl crc_byte r bytes = foldl crc_byte r' bytes -> r = r'.
Proof.
  intros Hr Hr' Hb. revert r r' Hr Hr'. induction Hb as [|b bytes Hb Hbs IH]; intros r r' Hr Hr'; [done|].
  cbn [foldl]. intros E%IH; [|by apply crc_byte_range..]. assert (is_u32 b) by (unfold is_byte, in_width in *; lia).
  apply crc_iter_inj in E; [|by apply lxor_range..]. apply (f_equal (fun x => Z.lxor x b)) in E.
  by rewrite !Z.lxor_assoc, Z.lxor_nilpotent, !Z.lxor_0_r in E.
Qed.

Lemma crc32_burst p x y s :
  bytes_ok p -> bytes_ok x -> bytes_ok y -> bytes_ok s -> length x = length y -> (length x <= 4)%nat ->
  crc32 (p ++ x ++ s) = crc32 (p ++ y ++ s) -> x = y.
Proof.
  intros Hp Hx Hy Hs Hlen Hx4. rewrite !crc32_bytes by (repeat apply Forall_app_2; done).
  intros E. apply (f_equal (fun z => Z.lxor z UINT32_MAX)) in E.
  rewrite !Z.lxor_assoc, Z.lxor_nilpotent, !Z.lxor_0_r, !foldl_app in E.
  assert (Hr : is_u32 (foldl crc_byte UINT32_MAX p)) by (by apply crc_fold_range).
  apply crc_fold_inj in E; [|by apply crc_fold_range..|done].
  assert (Hv : forall l, bytes_ok l -> (length l <= 4)%nat -> is_u32 (le_value l)).
  { intros l Hl Hl4. pose proof (le_value_range l Hl) as Hrange. unfold in_width. split; [lia|].
    assert (256 ^ Z.of_nat (length l) <= 256 ^ 4) by (apply Z.pow_le_mono_r; lia). change (2 ^ 32) with (256 ^ 4). eapply Z.lt_le_trans; [apply Hrange|done]. }
  rewrite (crc_fold_word x), (crc_fold_word y), <- Hlen in E by done.
  apply crc_iter_inj in E; [|apply lxor_range; [lia|done|apply Hv; [done|lia]]..].
  apply (f_equal (Z.lxor (foldl crc_byte UINT32_MAX p))) in E. rewrite <- !Z.lxor_assoc, Z.lxor_nilpotent, !Z.lxor_0_l in E.
  rewrite <- (le_bytes_value x), <- (le_bytes_value y), E, Hlen by done. done.
Qed.

(** ** Tracked sections *)
Inductive elf_scn_type : Type :=
  | ELF_SCN_TYPE_GO_BUILD_ID
  | ELF_SCN_TYPE_GNU_BUILD_ID
  | ELF_SCN_TYPE_SYMTAB
  | ELF_SCN_TYPE_DYNSYM
  | ELF_SCN_TYPE_DWARF_FRAME
  | ELF_SCN_TYPE_DWARF_FRAME_HDR
  | ELF_SCN_TYPE_ZDWARF_FRAME
  | ELF_SCN_TYPE_ZDWARF_FRAME_HDR
  | ELF_SCN_TYPE_EH_FRAME
  | ELF_SCN_TYPE_EH_FRAME_HDR
  | ELF_SCN_TYPE_GNU_DEBUGLINK.

#[export] Instance elf_scn_type_eq_dec : EqDecision elf_scn_type.
Proof. solve_decision. Defined.

Definition elf_scn_types : list elf_scn_type :=
  [ELF_SCN_TYPE_GO_BUILD_ID; ELF_SCN_TYPE_GNU_BUILD_ID; ELF_SCN_TYPE_SYMTAB; ELF_SCN_TYPE_DYNSYM;
   ELF_SCN_TYPE_DWARF_FRAME; ELF_SCN_TYPE_DWARF_FRAME_HDR; ELF_SCN_TYPE_ZDWARF_FRAME;
   ELF_SCN_TYPE_ZDWARF_FRAME_HDR; ELF_SCN_TYPE_EH_FRAME; ELF_SCN_TYPE_EH_FRAME_HDR; ELF_SCN_TYPE_GNU_DEBUGLINK].

Definition elf_scn_type_str (t : elf_scn_type) : text :=
  txt match t with
  | ELF_SCN_TYPE_GO_BUILD_ID => ".note.go.buildid"
  | ELF_SCN_TYPE_GNU_BUILD_ID => ".note.gnu.build-id"
  | ELF_SCN_TYPE_SYMTAB => ".symtab"
  | ELF_SCN_TYPE_DYNSYM => ".dynsym"
  | ELF_SCN_TYPE_DWARF_FRAME => ".debug_frame"
  | ELF_SCN_TYPE_DWARF_FRAME_HDR => ".debug_frame_hdr"
  | ELF_SCN_TYPE_ZDWARF_FRAME => ".zdebug_frame"
  | ELF_SCN_TYPE_ZDWARF_FRAME_HDR => ".zdebug_frame_hdr"
  | ELF_SCN_TYPE_EH_FRAME => ".eh_frame"
  | ELF_SCN_TYPE_EH_FRAME_HDR => ".eh_frame_hdr"
  | ELF_SCN_TYPE_GNU_DEBUGLINK => ".gnu_debuglink"
  end.

(** What libelf answers about a section: the address of its header (or no
    header), its name, and its bytes ([elf_getdata]; [None] is [NULL]). *)
Record elf_scn : Type := mk_scn {
  sn_addr : option Z;
  sn_name : option text;
  sn_data : option text;
}.

(** [scn] and [scn_elf] (which file a section belongs to) and
    [eh_frame_hdr_off] of a [struct per_elf_ctx]. *)
Record scn_table : Type := mk_scn_table {
  st_scn : elf_scn_type -> option (nat * elf_scn);
  eh_frame_hdr_off : Z;
}.
Definition no_scn : scn_table := mk_scn_table (fun _ => None) 0.

(** The inner loop of [scan_all_elf_scn] on one section. *)
Definition track_type (elf : nat) (s : elf_scn) (addr : Z) (name : text) (info : scn_table) (t : elf_scn_type)
  : scn_table :=
  match st_scn info t with
  | Some _ => info
  | None =>
    if decide (name = elf_scn_type_str t) then
      mk_scn_table (fun t' => if decide (t' = t) then Some (elf, s) else st_scn info t')
        (if decide (t = ELF_SCN_TYPE_EH_FRAME_HDR) then addr else eh_frame_hdr_off info)
    else info
  end.
Definition track_scn (elf : nat) (s : elf_scn) (addr : Z) (name : text) (info : scn_table) : scn_table :=
  foldl (track_type elf s addr name) info elf_scn_types.

Fixpoint scan_loop (elf : nat) (scns : list elf_scn) (info : scn_table) : Z * scn_table :=
  match scns with
  | [] => (0, info)
  | s :: scns =>
    match sn_addr s, sn_name s with
    | Some addr, Some name => scan_loop elf scns (track_scn elf s addr name info)
    | _, _ => (-1, info)
    end
  end.

(** [scns]: the sections of the file, or [None] when it has no section name
    table. *)
Definition scan_all_elf_scn (elf : nat) (scns : option (list elf_scn)) (info : scn_table) : Z * scn_table :=
  match scns with
  | None => (-1, info)
  | Some scns => scan_loop elf scns info
  end.

(** ** The build-id *)
Definition STANDARD_BUILD_ID_LEN : nat := 20.

(** [get_elf_build_id]: [None] is [NULL]; [alloc] tells for a size whether
    [malloc] succeeds. *)
Definition get_elf_build_id (alloc : Z -> bool) (info : scn_table) : outcome (option text) :=
  let note := match st_scn info ELF_SCN_TYPE_GO_BUILD_ID with
              | Some s => Some s
              | None => st_scn info ELF_SCN_TYPE_GNU_BUILD_ID
              end in
  match note with
  | None => mret None
  | Some (_, s) =>
    data ← deref (sn_data s);
    let build_id_size := Z.of_nat (length data) -w 16 in
    if negb (alloc build_id_size) then mret None else
    if Z.of_nat (length data) <? 16 then Undef OutOfBounds else
    mret (Some (drop 16 data))
  end.

(** [get_debug_info_path_by_id] on a build-id of [STANDARD_BUILD_ID_LEN] bytes. *)
Definition hex_byte (c : ascii) : text := print_hex 2 (code c).
Definition snprintf (size : Z) (s : text) : text := take (Z.to_nat (size - 1)) s.
Definition get_debug_info_path_by_id (alloc : bool) (build_id : text) : outcome (option text) :=
  match build_id with
  | [] => Undef OutOfBounds
  | b :: rest =>
    if decide (length build_id < STANDARD_BUILD_ID_LEN)%nat then Undef OutOfBounds else
    let build_id_str := take (STANDARD_BUILD_ID_LEN - 1) rest ≫= hex_byte in
    let path := snprintf 73 (txt "/usr/lib/debug/.build-id/" ++ hex_byte b ++ txt "/" ++ build_id_str ++ txt ".debug") in
    mret (if alloc then Some path else None)
  end.

(** ** The debug link *)
Definition GNU_DEBUGLINK_CRC_SIZE : nat := 4.

(** [get_elf_gnu_debuglink] with a [name_buf] of [name_buf_size] bytes: the name
    and the CRC. *)
Definition get_elf_gnu_debuglink (info : scn_table) (name_buf_size : nat) : option (text * Z) :=
  match st_scn info ELF_SCN_TYPE_GNU_DEBUGLINK with
  | None => None
  | Some (_, s) =>
    match sn_data s with
    | None => None
    | Some raw =>
      if decide (length raw <= GNU_DEBUGLINK_CRC_SIZE)%nat then None else
      let crc_offset := (length raw - GNU_DEBUGLINK_CRC_SIZE)%nat in
      let name := c_str (take crc_offset raw) in
      let name_len := length name in
      if decide (name_len = 0 \/ crc_offset <= name_len \/ name_buf_size <= name_len)%nat then None else
      if decide (slash ∈ name) then None else
      Some (name, le_value (code <$> drop crc_offset raw))
    end
  end.

(** What the kernel and the allocator answer for a candidate path. *)
Record candidate : Type := mk_candidate {
  cf_access : bool;             (** [access(path, R_OK) == 0] *)
  cf_regular : bool;            (** [stat] succeeds on a regular file *)
  cf_open : bool;
  cf_content : list Z;
  cf_reads : list read_answer;
  cf_strdup : bool;
}.

(** [strrchr(obj_dir, '/')]: the text before the last slash. *)
Fixpoint before_last_slash (l : text) : option text :=
  match l with
  | [] => None
  | c :: l =>
    match before_last_slash l with
    | Some p => Some (c :: p)
    | None => if decide (c = slash) then Some [] else None
    end
  end.

Section search.
Context (files : text -> candidate).

Definition gu_debuglink_crc_matches (path : text) (expected_crc : Z) : outcome bool :=
  let f := files path in
  if negb (cf_open f) then mret false else crc_read_loop (cf_reads f) (cf_content f) 0 expected_crc.

Definition gu_debuglink_try_candidate (path : text) (expected_crc : Z) : outcome (option text) :=
  let f := files path in
  if negb (cf_access f) then mret None else
  if negb (cf_regular f) then mret None else
  matched ← gu_debuglink_crc_matches path expected_crc;
  if negb matched then mret None else
  mret (if cf_strdup f then Some path else None).

(** The candidates from [result] on, while there is none. *)
Fixpoint try_candidates (paths : list text) (expected_crc : Z) (result : option text) : outcome (option text) :=
  match result, paths with
  | Some _, _ | None, [] => mret result
  | None, path :: paths =>
    result ← gu_debuglink_try_candidate path expected_crc;
    try_candidates paths expected_crc result
  end.

Definition find_debug_info_path_by_debuglink (info : scn_table) (file_name pid_root_path : text)
    (live_mode deleted_mapping : bool) : outcome (option text) :=
  match get_elf_gnu_debuglink info (Z.to_nat PATH_MAX) with
  | None => mret None
  | Some (link_name, expected_crc) =>
    let obj_dir := default [] (before_last_slash (snprintf PATH_MAX file_name)) in
    let candidate dir := snprintf PATH_MAX (dir ++ slash :: link_name) in
    result ← (if negb deleted_mapping && negb (bool_decide (obj_dir = []))
              then try_candidates [candidate (pid_root_path ++ obj_dir);
                                   candidate (pid_root_path ++ obj_dir ++ txt "/.debug")] expected_crc None
              else mret None);
    let global_roots := if live_mode then [pid_root_path; []] else [pid_root_path] in
    try_candidates ((fun r => candidate (r ++ txt "/usr/lib/debug" ++ obj_dir)) <$> global_roots) expected_crc result
  end.

(** The choice of [debug_file_path] in [load_elf]: [exists_ok] is
    [access(path, F_OK) == 0], [alloc] the allocations in order. *)
Definition choose_debug_file (exists_ok : text -> bool) (alloc : nat -> bool) (info : scn_table) (build_id : text)
    (elf_file_path file_name pid_root_path : text) (live_mode : bool) (open_path : option text) : outcome text :=
  by_id ← (if decide (length build_id = STANDARD_BUILD_ID_LEN) then
             tmp_path ← get_debug_info_path_by_id (alloc 0%nat) build_id;
             let present p := match p with Some p => exists_ok p | None => false end in
             if present tmp_path then mret tmp_path else
             let in_root := match tmp_path with Some p => gu_path_join (alloc 1%nat) pid_root_path p | None => None end in
             mret (if present in_root then in_root else None)
           else mret None);
  linked ← match by_id with
           | Some p => mret (Some p)
           | None => find_debug_info_path_by_debuglink info file_name pid_root_path live_mode (bool_decide (is_Some open_path))
           end;
  deref (match linked with
         | Some p => Some p
         | None => if alloc 2%nat then Some elf_file_path else None
         end).
End search.

(** ** Facts *)

(** The first section of a name in a list of sections. *)
Definition first_named (elf : nat) (scns : list elf_scn) (t : elf_scn_type) : option (nat * elf_scn) :=
  (elf,.) <$> head (filter (fun s => sn_name s = Some (elf_scn_type_str t)) scns).
Definition readable_scns (scns : list elf_scn) : Prop :=
  Forall (fun s => is_Some (sn_addr s) /\ is_Some (sn_name s)) scns.

Lemma elf_scn_type_str_inj t t' : elf_scn_type_str t = elf_scn_type_str t' -> t = t'.
Proof. by destruct t, t'. Qed.

Lemma track_types_spec elf s addr name ts info t :
  st_scn (foldl (track_type elf s addr name) info ts) t =
    match st_scn info t with
    | Some x => Some x
    | None => if decide (t ∈ ts /\ name = elf_scn_type_str t) then Some (elf, s) else None
    end.
Proof.
  revert info. induction ts as [|u ts IH]; intros info; cbn [foldl].
  { destruct (st_scn info t); [done|]. rewrite decide_False by set_solver. done. }
  assert (Hskip : name <> elf_scn_type_str u \/ t <> u ->
    (t ∈ u :: ts /\ name = elf_scn_type_str t) <-> (t ∈ ts /\ name = elf_scn_type_str t)) by set_solver.
  rewrite IH. unfold track_type. destruct (st_scn info u) as [x|] eqn:Eu.
  { destruct (st_scn info t) eqn:Et; [done|]. apply decide_ext. rewrite Hskip; [done|]. right. congruence. }
  destruct (decide (name = elf_scn_type_str u)) as [Hn|Hn].
  - cbn [st_scn]. destruct (decide (t = u)) as [->|Ht]; [rewrite Eu; cbn; rewrite decide_True by set_solver; done|].
    destruct (st_scn info t); [done|]. apply decide_ext. rewrite Hskip; [done|]. by right.
  - destruct (st_scn info t); [done|]. apply decide_ext. rewrite Hskip; [done|]. by left.
Qed.

Lemma elf_scn_types_all t : t ∈ elf_scn_types.
Proof. unfold elf_scn_types. destruct t; set_solver. Qed.

Lemma track_scn_spec elf s addr name info t :
  st_scn (track_scn elf s addr name info) t =
    match st_scn info t with
    | Some x => Some x
    | None => if decide (name = elf_scn_type_str t) then Some (elf, s) else None
    end.
Proof.
  unfold track_scn. rewrite track_types_spec. destruct (st_scn info t); [done|]. apply decide_ext.
  pose proof (elf_scn_types_all t). naive_solver.
Qed.

Lemma scan_loop_spec elf scns info :
  readable_scns scns -> exists info', scan_loop elf scns info = (0, info') /\
    forall t, st_scn info' t = match st_scn info t with Some x => Some x | None => first_named elf scns t end.
Proof.
  intros Hs. revert info. induction Hs as [|s scns [[addr Ha] [name Hn]] Hs IH]; intros info; cbn [scan_loop].
  { exists info. split; [done|]. intros t. by destruct (st_scn info t). }
  rewrite Ha, Hn. destruct (IH (track_scn elf s addr name info)) as (info' & -> & E). exists info'. split; [done|].
  intros t. rewrite E, track_scn_spec. destruct (st_scn info t); [done|]. unfold first_named. case_decide as Hd.
  - rewrite filter_cons_True by (by rewrite Hn, Hd). done.
  - rewrite filter_cons_False; [done|]. rewrite Hn. congruence.
Qed.

(** *** The debug link *)
Lemma c_str_app_nul l r : NUL ∉ l -> c_str (l ++ NUL :: r) = l.
Proof.
  induction l as [|c l IH]; [done|]. intros H. cbn [app c_str]. rewrite decide_False by set_solver. f_equal.
  apply IH. set_solver.
Qed.

Lemma code_ascii_bytes l : bytes_ok l -> code <$> (ascii_of_N ∘ Z.to_N <$> l) = l.
Proof.
  induction 1 as [|b l Hb Hl IH]; [done|]. cbn [fmap list_fmap]. rewrite IH. f_equal. unfold code. cbn [compose].
  unfold is_byte, in_width in Hb. rewrite N_ascii_embedding by lia. lia.
Qed.

(** Reads that deliver the whole file. *)
Definition reads_all (f : candidate) : Prop :=
  bytes_ok (cf_content f) /\ Failed ∉ cf_reads f /\
  (length (cf_content f) < length (filter (fun a => is_got a = true) (cf_reads f)))%nat.

(** A readable regular file whose contents have the CRC. *)
Definition accepted (files : text -> candidate) (crc : Z) (path : text) : bool :=
  let f := files path in
  cf_access f && cf_regular f && cf_open f && (crc32 (cf_content f) =? crc) && cf_strdup f.

Lemma try_candidate_spec files path crc :
  reads_all (files path) ->
  gu_debuglink_try_candidate files path crc = Done (if accepted files crc path then Some path else None).
Proof.
  intros (Hb & Hf & Hn). unfold gu_debuglink_try_candidate, gu_debuglink_crc_matches, accepted.
  destruct (cf_access _), (cf_regular _); cbn [negb andb]; try done. destruct (cf_open _); [|done].
  change 0 with (crc32 []). rewrite crc_read_spec by done. run. cbn [app]. by destruct (_ =? crc), (cf_strdup _).
Qed.

Lemma try_candidates_spec files paths crc result :
  (forall p, reads_all (files p)) ->
  try_candidates files paths crc result =
    Done (match result with Some p => Some p | None => head (filter (fun p => accepted files crc p = true) paths) end).
Proof.
  intros Hr. revert result. induction paths as [|p paths IH]; intros [q|]; cbn [try_candidates]; try done.
  rewrite try_candidate_spec by done. run. rewrite IH. destruct (accepted files crc p) eqn:Ea.
  - by rewrite filter_cons_True.
  - by rewrite filter_cons_False by congruence.
Qed.

(** The standard search order of a debug link. *)
Definition debuglink_candidates (file_name pid_root_path link_name : text) (live_mode deleted_mapping : bool) : list text :=
  let dir := default [] (before_last_slash (snprintf PATH_MAX file_name)) in
  (fun d => snprintf PATH_MAX (d ++ slash :: link_name)) <$>
  (if deleted_mapping || bool_decide (dir = []) then []
   else [pid_root_path ++ dir; pid_root_path ++ dir ++ txt "/.debug"]) ++
  (pid_root_path ++ txt "/usr/lib/debug" ++ dir) ::
  (if live_mode then [txt "/usr/lib/debug" ++ dir] else []).

Lemma debuglink_search_spec files info file_name root live deleted :
  (forall p, reads_all (files p)) ->
  find_debug_info_path_by_debuglink files info file_name root live deleted =
    Done ('(name, crc) ← get_elf_gnu_debuglink info (Z.to_nat PATH_MAX);
          head (filter (fun p => accepted files crc p = true) (debuglink_candidates file_name root name live deleted))).
Proof.
  intros Hr. unfold find_debug_info_path_by_debuglink. destruct (get_elf_gnu_debuglink _ _) as [[name crc]|]; [|done].
  cbn [mbind option_bind]. unfold debuglink_candidates. set (dir := default [] _).
  assert (Hsplit : forall l1 l2 : list text, head (filter (fun p => accepted files crc p = true) (l1 ++ l2)) =
    match head (filter (fun p => accepted files crc p = true) l1) with
    | Some p => Some p | None => head (filter (fun p => accepted files crc p = true) l2) end).
  { intros l1 l2. rewrite filter_app. by destruct (filter _ l1). }
  rewrite fmap_app, Hsplit. destruct deleted; cbn [negb andb orb]; [run; rewrite try_candidates_spec by done; by destruct live|].
  destruct (bool_decide (dir = [])); cbn [negb]; [run; rewrite try_candidates_spec by done; by destruct live|].
  rewrite try_candidates_spec by done. run. rewrite try_candidates_spec by done. by destruct live.
Qed.

Lemma length_hex_byte c : length (hex_byte c) = 2%nat.
Proof. done. Qed.

Lemma path_by_id_fits id :
  length id = STANDARD_BUILD_ID_LEN ->
  get_debug_info_path_by_id true id =
    Done (Some (txt "/usr/lib/debug/.build-id/" ++ (take 1 id ≫= hex_byte) ++ txt "/" ++
                (drop 1 id ≫= hex_byte) ++ txt ".debug")).
Proof.
  intros Hl. unfold get_debug_info_path_by_id. destruct id as [|b rest]; [done|].
  rewrite decide_False by lia. unfold STANDARD_BUILD_ID_LEN in *. cbn [length] in Hl.
  rewrite take_ge by lia. cbn [take drop]. unfold snprintf. rewrite take_ge; [cbn [mbind list_bind]; by rewrite app_nil_r|].
  assert (H38 : length (rest ≫= hex_byte) = 38%nat).
  { assert (Hgen : forall l, length (l ≫= hex_byte) = (2 * length l)%nat); [|rewrite Hgen; lia].
    intros l. induction l as [|c l IH]; [done|]. cbn [mbind list_bind]. rewrite length_app, IH. cbn [length]. by rewrite length_hex_byte; lia. }
  rewrite !length_app, H38. vm_compute. lia.
Qed.

(** The path of the debug file of a build-id: the first byte names a directory. *)
Definition build_id_path (id : text) : text :=
  txt "/usr/lib/debug/.build-id/" ++ (take 1 id ≫= hex_byte) ++ txt "/" ++ (drop 1 id ≫= hex_byte) ++ txt ".debug".

Lemma trim_end_id l c : c <> newline -> c <> " "%char -> trim_end (l ++ [c]) = l ++ [c].
Proof.
  intros Hn Hs. induction l as [|d l IH]; cbn [app trim_end].
  - rewrite decide_False by naive_solver. done.
  - rewrite IH, decide_False by (intros [H _]; by destruct l). done.
Qed.

Lemma path_join_absolute root p c :
  head p = Some slash -> last p = Some c -> c <> newline -> c <> " "%char -> gu_path_join true root p = Some (root ++ p).
Proof.
  intros Hh Hl Hn Hs. unfold gu_path_join. cbn [negb]. assert (Hsep : forall o : option ascii, match o with
    | None => false | Some d => bool_decide (d <> "/"%char) && bool_decide (head p <> Some "/"%char) end = false).
  { intros [d|]; [|done]. rewrite (bool_decide_eq_false_2 (head p <> _)) by (rewrite Hh; intros H; by apply H). apply andb_false_r. }
  rewrite Hsep. cbn [app]. f_equal. apply last_Some in Hl as [q ->]. rewrite app_assoc. by apply trim_end_id.
Qed.

Lemma build_id_path_join root id : gu_path_join true root (build_id_path id) = Some (root ++ build_id_path id).
Proof.
  apply (path_join_absolute _ _ "g"%char); try done. unfold build_id_path. rewrite !app_assoc.
  change (txt ".debug") with (txt ".debu" ++ ["g"%char]). by rewrite app_assoc, last_snoc.
Qed.

(** The choice is defined when the candidates can be read and the last copy is
    allocated. *)
Lemma choose_debug_file_done files exists_ok alloc info id elf_file_path file_name root live open_path :
  (forall p, reads_all (files p)) -> alloc 2%nat = true ->
  exists p, choose_debug_file files exists_ok alloc info id elf_file_path file_name root live open_path = Done p.
Proof.
  intros Hr Ha. unfold choose_debug_file. cbn zeta.
  match goal with |- context [(?m ≫= _) = _] => assert (Hid : exists o, m = Done o) end.
  { case_decide as Hl; [|by eexists]. unfold get_debug_info_path_by_id. destruct id as [|c id]; [done|].
    rewrite decide_False by lia. run. destruct (match _ with Some p => exists_ok p | None => _ end); by eexists. }
  destruct Hid as [o ->]. run. destruct o as [p|]; [by eexists|]. rewrite debuglink_search_spec by done. run. rewrite Ha.
  destruct (mbind _ _); by eexists.
Qed.

(** Scanning more sections keeps those tracked, and adds only sections of the
    list under their names. *)
Lemma scan_loop_tracks elf scns info info' t x :
  scan_loop elf scns info = (0, info') -> st_scn info' t = Some x ->
  st_scn info t = Some x \/ (x.1 = elf /\ x.2 ∈ scns /\ sn_name x.2 = Some (elf_scn_type_str t)).
Proof.
  revert info. induction scns as [|s scns IH]; intros info; cbn [scan_loop]; [intros [= <-]; by left|].
  destruct (sn_addr s) as [addr|], (sn_name s) as [name|] eqn:En; try done. intros E Hx.
  destruct (IH _ E Hx) as [H|(H1 & H2 & H3)]; [|right; split_and!; [done|by right|done]].
  rewrite track_scn_spec in H. destruct (st_scn info t); [by left|]. case_decide as Hd; [|done].
  injection H as <-. right. cbn. split_and!; [done|by left|by rewrite En, Hd].
Qed.

Lemma scan_loop_keeps elf scns info info' t x :
  scan_loop elf scns info = (0, info') -> st_scn info t = Some x -> st_scn info' t = Some x.
Proof.
  revert info. induction scns as [|s scns IH]; intros info; cbn [scan_loop]; [by intros [= <-]|].
  destruct (sn_addr s) as [addr|], (sn_name s) as [name|]; try done. intros E Hx. apply (IH _ E).
  by rewrite track_scn_spec, Hx.
Qed.

(** ** Properties *)

(** C32: a candidate debug file is accepted exactly when the CRC-32 of its
    contents is the one of the link: however [read] splits and interrupts the
    reading, the table-driven update computes the bit-serial CRC of the whole
    file. *)
Theorem debuglink_crc_exact answers content expected_crc :
  bytes_ok content -> Failed ∉ answers ->
  (length content < length (filter (fun a => is_got a = true) answers))%nat ->
  crc_read_loop answers content 0 expected_crc = Done (crc32 content =? expected_crc).
Proof. intros. change 0 with (crc32 []). by apply (crc_read_spec _ []). Qed.

(** A debug file that differs from the linked one only within four
    consecutive bytes is rejected: the update is injective on such bursts. *)
Theorem debuglink_rejects_burst answers p x y s :
  bytes_ok p -> bytes_ok x -> bytes_ok y -> bytes_ok s -> length x = length y -> (length x <= 4)%nat -> x <> y ->
  Failed ∉ answers ->
  (length (p ++ y ++ s) < length (filter (fun a => is_got a = true) answers))%nat ->
  crc_read_loop answers (p ++ y ++ s) 0 (crc32 (p ++ x ++ s)) = Done false.
Proof.
  intros Hp Hx Hy Hs Hlen H4 Hne Hf Hn. change 0 with (crc32 []).
  rewrite (crc_read_spec _ []) by (try apply Forall_nil; repeat apply Forall_app_2; done). f_equal.
  apply Z.eqb_neq. cbn [app]. intros E. by apply Hne, (crc32_burst p x y s).
Qed.

(** The section of a debug link reads back as the name and CRC it was built
    from, whatever the padding. *)
Theorem debuglink_roundtrip info elf addr sname name crc pad :
  st_scn info ELF_SCN_TYPE_GNU_DEBUGLINK =
    Some (elf, mk_scn addr sname (Some (name ++ replicate (S pad) NUL ++ (ascii_of_N ∘ Z.to_N <$> le_bytes 4 crc)))) ->
  name <> [] -> NUL ∉ name -> slash ∉ name -> Z.of_nat (length name) < PATH_MAX -> is_u32 crc ->
  get_elf_gnu_debuglink info (Z.to_nat PATH_MAX) = Some (name, crc).
Proof.
  intros Hs Hne Hnul Hslash Hlen Hcrc. unfold get_elf_gnu_debuglink. rewrite Hs. cbn [sn_data].
  set (tail := _ <$> le_bytes 4 crc). assert (Ht : length tail = 4%nat) by (unfold tail; by rewrite length_fmap, length_le_bytes).
  set (raw := name ++ _). assert (Hraw : length raw = (length name + S pad + 4)%nat).
  { unfold raw. rewrite !length_app, length_replicate, Ht. lia. }
  unfold GNU_DEBUGLINK_CRC_SIZE. rewrite decide_False by lia.
  replace (length raw - 4)%nat with (length (name ++ replicate (S pad) NUL)) by (rewrite length_app, length_replicate; lia).
  unfold raw. rewrite app_assoc, take_app_length, drop_app_length. cbn [replicate]. rewrite c_str_app_nul by done.
  assert (length name <> 0)%nat by (by destruct name). unfold PATH_MAX in *.
  rewrite decide_False by (rewrite length_app; cbn [length]; lia). rewrite decide_False by done. f_equal. f_equal.
  unfold tail. rewrite code_ascii_bytes by apply le_bytes_ok. by apply le_value_bytes.
Qed.

(** The debug file of an image is the first that exists in the documented
    order: the host's and then the target's file of a standard build-id, then
    the candidates of the debug link with the right CRC, then the image itself. *)
Theorem debug_file_choice files exists_ok info id elf_file_path file_name root live open_path :
  (forall p, reads_all (files p)) ->
  choose_debug_file files exists_ok (fun _ => true) info id elf_file_path file_name root live open_path =
    Done (default elf_file_path (head (
      filter (fun p => exists_ok p = true)
        (if decide (length id = STANDARD_BUILD_ID_LEN) then [build_id_path id; root ++ build_id_path id] else []) ++
      match get_elf_gnu_debuglink info (Z.to_nat PATH_MAX) with
      | Some (name, crc) => filter (fun p => accepted files crc p = true)
          (debuglink_candidates file_name root name live (bool_decide (is_Some open_path)))
      | None => []
      end))).
Proof.
  intros Hr. unfold choose_debug_file. set (by_id := filter _ (if decide _ then _ else [])).
  assert (Hid : (if decide (length id = STANDARD_BUILD_ID_LEN) then
      tmp_path ← get_debug_info_path_by_id true id;
      if match tmp_path with Some p => exists_ok p | None => false end then mret tmp_path else
      mret (if match match tmp_path with Some p => gu_path_join true root p | None => None end with
               | Some p => exists_ok p | None => false end
            then match tmp_path with Some p => gu_path_join true root p | None => None end else None)
    else mret None) = Done (head by_id)).
  { unfold by_id. case_decide as Hl; [|done]. rewrite path_by_id_fits by done. run. fold (build_id_path id).
    rewrite build_id_path_join. destruct (exists_ok (build_id_path id)) eqn:E1; [by rewrite filter_cons_True|].
    rewrite filter_cons_False by congruence. destruct (exists_ok (root ++ _)) eqn:E2; [by rewrite filter_cons_True|].
    by rewrite filter_cons_False by congruence. }
  cbn zeta. rewrite Hid. run. destruct by_id as [|p ps]; [|done]. cbn [head hd_error app].
  rewrite debuglink_search_spec by done. run. destruct (get_elf_gnu_debuglink _ _) as [[name crc]|]; [|done].
  cbn [mbind option_bind]. by destruct (filter _ _).
Qed.

(** Of each tracked name the first section of the mapped file is used, and a
    section of the debug file only where the mapped file has none. *)
Theorem sections_first_match scns debug_scns :
  readable_scns scns -> readable_scns debug_scns ->
  exists info info', scan_all_elf_scn 0 (Some scns) no_scn = (0, info) /\
    scan_all_elf_scn 1 (Some debug_scns) info = (0, info') /\
    forall t, st_scn info' t =
      match first_named 0 scns t with Some x => Some x | None => first_named 1 debug_scns t end.
Proof.
  intros H1 H2. destruct (scan_loop_spec 0 scns no_scn H1) as (info & E1 & Hi).
  destruct (scan_loop_spec 1 debug_scns info H2) as (info' & E2 & Hi'). exists info, info'. split_and!; [done..|].
  intros t. by rewrite Hi', Hi.
Qed.

(** ** Witnesses *)
Definition check_bytes : list Z := code <$> txt "123456789".
Definition check_reads : list read_answer := Got 4 :: Interrupted :: Got 0 :: replicate 9 (Got 2).

Lemma debuglink_crc_exact_witness : crc_read_loop check_reads check_bytes 0 0xcbf43926 = Done true.
Proof.
  rewrite (debuglink_crc_exact check_reads check_bytes 0xcbf43926).
  - vm_compute. reflexivity.
  - apply (bool_decide_unpack _). vm_compute. done.
  - apply (bool_decide_unpack _). vm_compute. done.
  - vm_compute. lia.
Defined.

Lemma debuglink_rejects_burst_witness :
  crc_read_loop check_reads ([49; 50] ++ [7; 8; 9; 255] ++ [51]) 0 (crc32 ([49; 50] ++ [7; 8; 9; 127] ++ [51])) = Done false.
Proof.
  apply (debuglink_rejects_burst check_reads [49; 50] [7; 8; 9; 127] [7; 8; 9; 255] [51]);
    try (apply (bool_decide_unpack _); vm_compute; done); vm_compute; lia.
Defined.

Definition link_scn : elf_scn :=
  mk_scn (Some 0) (Some (txt ".gnu_debuglink"))
    (Some (txt "app.debug" ++ replicate 3 NUL ++ (ascii_of_N ∘ Z.to_N <$> le_bytes 4 0xcbf43926))).
Definition link_info : scn_table :=
  mk_scn_table (fun t => if decide (t = ELF_SCN_TYPE_GNU_DEBUGLINK) then Some (0%nat, link_scn) else None) 0.

Lemma debuglink_roundtrip_witness : get_elf_gnu_debuglink link_info (Z.to_nat PATH_MAX) = Some (txt "app.debug", 0xcbf43926).
Proof.
  apply (debuglink_roundtrip link_info 0 (Some 0) (Some (txt ".gnu_debuglink")) _ _ 2); try done;
    apply (bool_decide_unpack _); vm_compute; done.
Defined.

Definition one_file (p : text) : candidate :=
  if decide (p = txt "/proc/7/root/opt/.debug/app.debug")
  then mk_candidate true true true check_bytes check_reads true
  else mk_candidate false false false [] [Got 1] true.

Lemma debug_file_choice_witness :
  choose_debug_file one_file (fun _ => false) (fun _ => true) link_info (txt "md5") (txt "/proc/7/root/opt/app")
    (txt "/opt/app") (txt "/proc/7/root") true None = Done (txt "/proc/7/root/opt/.debug/app.debug").
Proof.
  rewrite (debug_file_choice one_file); [vm_compute; reflexivity|].
  intros p. unfold one_file. case_decide; (split; [|split]); try (apply (bool_decide_unpack _); vm_compute; done); vm_compute; lia.
Defined.

Lemma sections_first_match_witness :
  exists info info', scan_all_elf_scn 0 (Some [link_scn]) no_scn = (0, info) /\
    scan_all_elf_scn 1 (Some [link_scn; mk_scn (Some 4096) (Some (txt ".symtab")) None]) info = (0, info') /\
    forall t, st_scn info' t =
      match first_named 0 [link_scn] t with Some x => Some x
      | None => first_named 1 [link_scn; mk_scn (Some 4096) (Some (txt ".symtab")) None] t end.
Proof. apply sections_first_match; repeat constructor; by eexists. Defined.
