(* ===== verification/VdsoPath.v ===== *)
(** * The path of the vdso dump: [get_vdso_dump_path] of [src/gu_stacktrace.c]

    Every context dumps the vdso to a file of its own, named after the process
    and the address of the context; the name is built once. *)

From Stdlib Require Import Ascii.
From stdpp Require Import strings.
From S2P Require Import Prelude Maps PathWalk DebugFile.

(** ** Numbers as [printf] writes them *)

(** The digits of [n] in base [b], the most significant first. *)
Fixpoint base_digits (fuel : nat) (b n : Z) (acc : list Z) : list Z :=
  match fuel with
  | O => acc
  | S fuel => if n <? b then n :: acc else base_digits fuel b (n / b) (n mod b :: acc)
  end.

Definition digit_char (d : Z) : ascii := default "0"%char (txt "0123456789abcdef" !! Z.to_nat d).

(** [%d] of a positive number, and [%p] of a pointer that is not [NULL]. *)
Definition print_d (n : Z) : text := digit_char <$> base_digits 64 10 n [].
Definition print_p (p : Z) : text := txt "0x" ++ (digit_char <$> base_digits 64 16 p []).

(** ** The path *)
Definition DUMP_VDSO_PATH : text := txt "/tmp/__vdso.so".

(** The context keeps the path; it is empty until the first call. *)
Definition get_vdso_dump_path (path : text) (pid ctx : Z) : text :=
  match path with
  | [] => snprintf PATH_MAX (DUMP_VDSO_PATH ++ "."%char :: print_d pid ++ "."%char :: print_p ctx)
  | _ => path
  end.

(** ** Facts *)

Definition base_value (b acc : Z) (l : list Z) : Z := foldl (fun a d => a * b + d) acc l.

Lemma base_digits_value fuel b n acc :
  1 < b -> 0 <= n < b ^ Z.of_nat fuel -> base_value b 0 (base_digits fuel b n acc) = base_value b n acc \/ fuel = O.
Proof.
  intros Hb. revert n acc. induction fuel as [|fuel IH]; intros n acc Hn; [by right|]. left. cbn [base_digits].
  destruct (Z.ltb_spec n b); [done|]. rewrite Nat2Z.inj_succ, Z.pow_succ_r in Hn by lia.
  assert (0 <= n / b < b ^ Z.of_nat fuel) as Hd.
  { split; [apply Z.div_pos; lia|apply Z.div_lt_upper_bound; lia]. }
  destruct (IH (n / b) (n mod b :: acc) Hd) as [-> | ->].
  - cbn [base_value foldl]. f_equal. pose proof (Z.div_mod n b). lia.
  - change (b ^ Z.of_nat 0) with 1 in Hd. pose proof (Z.div_le_lower_bound n b 1). lia.
Qed.

Lemma base_digits_range fuel b n acc :
  1 < b -> 0 <= n -> Forall (fun d => 0 <= d < b) acc -> Forall (fun d => 0 <= d < b) (base_digits fuel b n acc).
Proof.
  intros Hb. revert n acc. induction fuel as [|fuel IH]; intros n acc Hn Ha; cbn [base_digits]; [done|].
  destruct (Z.ltb_spec n b); [by constructor; [lia|]|].
  apply IH; [apply Z.div_pos; lia|]. constructor; [apply Z.mod_pos_bound; lia|done].
Qed.

Lemma base_digits_length fuel b n acc : (length (base_digits fuel b n acc) <= fuel + length acc)%nat.
Proof.
  revert n acc. induction fuel as [|fuel IH]; intros n acc; cbn [base_digits]; [done|].
  destruct (n <? b); [cbn; lia|]. etrans; [apply IH|]. cbn. lia.
Qed.

Lemma digit_char_hex d : 0 <= d < 16 -> hex_digit (digit_char d) = Some d.
Proof.
  intros Hd. assert (Z.to_nat d < 16)%nat as Hn by lia. rewrite <- (Z2Nat.id d) by lia. revert Hn.
  generalize (Z.to_nat d) as n. intros n Hn. do 16 (destruct n as [|n]; [by vm_compute|]). lia.
Qed.

Lemma digit_chars_inj l l' :
  Forall (fun d => 0 <= d < 16) l -> Forall (fun d => 0 <= d < 16) l' -> digit_char <$> l = digit_char <$> l' -> l = l'.
Proof.
  intros Hl. revert l'. induction Hl as [|d l Hd _ IH]; intros [|d' l'] Hl' E; try done.
  apply Forall_cons in Hl' as [Hd' Hl']. injection E as E El. f_equal; [|by apply IH].
  apply (f_equal hex_digit) in E. rewrite !digit_char_hex in E by done. by injection E.
Qed.

(** The digits of a printed number tell it. *)
Lemma printed_inj b n m :
  1 < b <= 16 -> 0 <= n < b ^ 64 -> 0 <= m < b ^ 64 ->
  digit_char <$> base_digits 64 b n [] = digit_char <$> base_digits 64 b m [] -> n = m.
Proof.
  intros Hb Hn Hm E.
  assert (forall x, 0 <= x -> Forall (fun d => 0 <= d < 16) (base_digits 64 b x [])) as Hr.
  { intros x Hx. eapply Forall_impl; [apply base_digits_range; [lia|done|constructor]|]. cbn. lia. }
  apply digit_chars_inj in E; [|apply Hr; lia|apply Hr; lia].
  destruct (base_digits_value 64 b n []) as [En|]; [lia|done| |done].
  destruct (base_digits_value 64 b m []) as [Em|]; [lia|done| |done].
  change (base_value b n []) with n in En. change (base_value b m []) with m in Em. congruence.
Qed.

Lemma no_dot b n : 1 < b <= 16 -> 0 <= n -> "."%char ∉ digit_char <$> base_digits 64 b n [].
Proof.
  intros Hb Hn (d & Hd & Hin)%list_elem_of_fmap.
  pose proof (proj1 (Forall_forall _ _) (base_digits_range 64 b n [] ltac:(lia) Hn (Forall_nil_2 _)) d Hin) as Hr. cbn in Hr.
  apply (f_equal hex_digit) in Hd. rewrite digit_char_hex in Hd by lia. by vm_compute in Hd.
Qed.

(** A text is split at the first dot. *)
Lemma split_dot (a a' r r' : text) (c : ascii) : c ∉ a -> c ∉ a' -> a ++ c :: r = a' ++ c :: r' -> a = a' /\ r = r'.
Proof.
  revert a'. induction a as [|x a IH]; intros [|y a'] Ha Ha' E; cbn in E; simplify_eq; try set_solver.
  destruct (IH a') as [-> ->]; [set_solver..|done].
Qed.

Lemma path_fits pid ctx :
  (length (DUMP_VDSO_PATH ++ "."%char :: print_d pid ++ "."%char :: print_p ctx) <= Z.to_nat (PATH_MAX - 1))%nat.
Proof.
  unfold print_d, print_p. rewrite !length_app. cbn [length]. rewrite length_app. cbn [length]. rewrite length_app, !length_fmap.
  pose proof (base_digits_length 64 10 pid []). pose proof (base_digits_length 64 16 ctx []).
  change (length DUMP_VDSO_PATH) with 14%nat. change (length (txt "0x")) with 2%nat. cbn [length] in *.
  unfold PATH_MAX. lia.
Qed.

(** Two contexts never share a dump: the paths of different contexts or
    processes differ, and a context keeps its path. *)
Theorem vdso_paths_distinct pid ctx pid' ctx' :
  0 < pid < 2 ^ 31 -> 0 < pid' < 2 ^ 31 -> is_u64 ctx -> is_u64 ctx' ->
  (get_vdso_dump_path [] pid ctx = get_vdso_dump_path [] pid' ctx' -> pid = pid' /\ ctx = ctx') /\
  (forall p c, get_vdso_dump_path (get_vdso_dump_path [] pid ctx) p c = get_vdso_dump_path [] pid ctx).
Proof.
  intros Hp Hp' Hc Hc'. split.
  - cbn [get_vdso_dump_path]. unfold snprintf. rewrite !take_ge by apply path_fits. intros E%(inj (app DUMP_VDSO_PATH)). injection E as E.
    apply split_dot in E as [Ep Ec]; [|apply no_dot; lia|apply no_dot; lia].
    apply printed_inj in Ep; [|lia|lia|lia]. apply (inj (app (txt "0x"))) in Ec.
    apply printed_inj in Ec; [done|lia|unfold in_width in *; lia|unfold in_width in *; lia].
  - intros p c. destruct (get_vdso_dump_path [] pid ctx) eqn:E; [|done]. exfalso. cbn [get_vdso_dump_path] in E.
    unfold snprintf in E. by rewrite take_ge in E by apply path_fits.
Qed.

Lemma vdso_paths_distinct_witness :
  get_vdso_dump_path [] 42 0x55aa00 = txt "/tmp/__vdso.so.42.0x55aa00" /\
  (get_vdso_dump_path [] 42 0x55aa00 = get_vdso_dump_path [] 42 0x55ab00 -> 42 = 42 /\ 0x55aa00 = 0x55ab00).
Proof.
  split; [by vm_compute|]. apply (vdso_paths_distinct 42 0x55aa00 42 0x55ab00); unfold in_width; lia.
Defined.
