(* ===== verification/Comm.v ===== *)
(** * Small services: [src/gu_comm.c], [src/gu_comm.h]

    Logging, the MD5 key of a file without build-id, the dump of the vDSO, the
    name of a process and the copy of a file.  What [read] and [write] answer is
    explicit: short counts, interruptions and failures are all possible. *)

From Stdlib Require Import Ascii.
From stdpp Require Import strings.
From S2P Require Import Prelude Maps PathWalk DebugFile.

(** ** Logging *)
Inductive GU_LOG_LEVEL : Type := GU_LOG_ERROR | GU_LOG_OUTPUT | GU_LOG_VERBOSE.

#[export] Instance GU_LOG_LEVEL_eq_dec : EqDecision GU_LOG_LEVEL.
Proof. solve_decision. Defined.

(** [g_print_fn] (whether one is set) and [gu_verbose_enabled]. *)
Record log_config : Type := mk_log_config {
  g_print_fn : bool;
  gu_verbose_enabled : bool;
}.
Definition gu_set_print_fn (fn : bool) (c : log_config) : log_config := mk_log_config fn (gu_verbose_enabled c).
Definition gu_set_verbose (verbose : bool) (c : log_config) : log_config := mk_log_config (g_print_fn c) verbose.

(** Where a message goes. *)
Inductive sink : Type := PrintFn | Stderr | Stdout.

(** [__gu_log] with the formatted text [buffer]; the flags are the results of
    [vasprintf] and [asprintf].  [output_string] has no initial value, so a
    failing [asprintf] leaves it indeterminate. *)
Definition gu_log (c : log_config) (level : GU_LOG_LEVEL) (buffer : text) (vasprintf_ok asprintf_ok : bool)
  : outcome (option (sink * text)) :=
  if bool_decide (level = GU_LOG_VERBOSE) && negb (gu_verbose_enabled c) then mret None else
  let '(prefix, newline_) := match level with
                             | GU_LOG_ERROR => (txt "[ERROR] ", true)
                             | GU_LOG_VERBOSE => (txt "[VERBOSE] ", true)
                             | GU_LOG_OUTPUT => ([], false)
                             end in
  if negb vasprintf_ok then mret None else
  if negb asprintf_ok then Undef Uninit else
  let output_string := prefix ++ buffer ++ (if newline_ : bool then [newline] else []) in
  mret (Some (if g_print_fn c then PrintFn else if decide (level = GU_LOG_ERROR) then Stderr else Stdout, output_string)).

(** [GU_VERBOSE]: the arguments are evaluated only when verbose logging is on. *)
Definition GU_VERBOSE (c : log_config) (buffer : text) (vasprintf_ok asprintf_ok : bool) : outcome (option (sink * text)) :=
  if gu_verbose_enabled c then gu_log c GU_LOG_VERBOSE buffer vasprintf_ok asprintf_ok else mret None.

(** ** The MD5 key *)

(** What [gu_calculate_md5] hashes of a file, by the answers of [read] (an empty
    one is the end or an error).  The block read after two megabytes is
    dropped. *)
Definition md5_limit : Z := 2 * 1024 * 1024.
Fixpoint md5_input (reads : list text) (total_read : Z) : text :=
  match reads with
  | [] => []
  | b :: reads =>
    if decide (b = []) then [] else
    if md5_limit <=? total_read then [] else b ++ md5_input reads (total_read + Z.of_nat (length b))
  end.
Definition gu_calculate_md5 (md5 : text -> text) (alloc : bool) (reads : list text) (name : text) : option text :=
  if alloc then Some (md5 (md5_input reads 0 ++ name)) else None.

(** ** The vDSO *)

(** [sscanf(line, "%lx-%lx", ...)] assigning both. *)
Definition scan_range (line : text) : option (Z * Z) :=
  '(start, l) ← scan_lx line;
  l ← scan_char "-"%char l;
  '(end_, _) ← scan_lx l;
  Some (start, end_).

(** The loop over the lines. *)
Fixpoint find_vdso (lines : list text) : option (Z * Z) :=
  match lines with
  | [] => None
  | line :: lines =>
    if strstr line (txt "[vdso]") then match scan_range line with Some r => Some r | None => find_vdso lines end
    else find_vdso lines
  end.

(** [gu_dump_vdso]: [maps] is what opening [/proc/self/maps] yields, [memory] the
    bytes at an address; the result is what the output file holds afterwards,
    [None] when it is not written.  [written] is how many bytes [fwrite]
    manages. *)
Definition gu_dump_vdso (maps : option text) (open_ok : bool) (alloc : Z -> bool) (memory : Z -> Z -> option (list Z))
    (written : option nat) : outcome (option (list Z)) :=
  match maps with
  | None => mret None
  | Some content =>
    match find_vdso (fgets_loop (length content) 255 content) with
    | None => mret None
    | Some (start, end_) =>
      if negb open_ok then mret None else
      let size := end_ -w start in
      if negb (alloc size) then mret (Some []) else
      buffer ← deref (memory start size);
      mret (Some (match written with Some k => take k buffer | None => buffer end))
    end
  end.

(** ** The name of a process *)

(** [gu_get_pid_comm] with a buffer of [comm_size] bytes: [file] is what opening
    [/proc/<pid>/comm] yields, [reads] how much [read] returns of it ([None] is
    an error).  The result and the string in [comm]. *)
Definition gu_get_pid_comm (file : option text) (reads : option nat) (comm_size : nat) : Z * text :=
  match comm_size with
  | O => (-1, [])
  | S room =>
    match file, reads with
    | None, _ | _, None => (-1, [])
    | Some content, Some n =>
      let got := take (n `min` room) content in
      match last got with
      | None => (-1, [])
      | Some c => (0, c_str (if decide (c = newline) then take (length got - 1) got else got))
      end
    end
  end.

(** ** Copying a file *)
Definition BUFFER_SIZE : nat := Z.to_nat 4096.
Definition copy_size (n : nat) (left : list Z) : nat := Nat.min (Nat.max 1 n) (Nat.min BUFFER_SIZE (length left)).

(** The loop of [gu_copy_file]: the answers of [read] and of [write] (how many
    bytes are taken; [None] is an error), the bytes not yet read, and the
    destination so far.  [OutOfFuel] when the answers run out. *)
Fixpoint copy_loop (reads : list read_answer) (writes : list (option nat)) (left out : list Z) : outcome (Z * list Z) :=
  match reads with
  | [] => Undef OutOfFuel
  | (Interrupted | Failed) :: _ => mret (-1, out)
  | Got n :: reads =>
    let k := copy_size n left in
    if decide (k = O) then mret (0, out) else
    match writes with
    | [] => Undef OutOfFuel
    | None :: _ => mret (-1, out)
    | Some w :: writes =>
      let w := (w `min` k)%nat in
      let out := out ++ take w left in
      if decide (w = k) then copy_loop reads writes (drop k left) out else mret (-1, out)
    end
  end.

(** [gu_copy_file]: the result, the destination if it was opened, and the number
    of descriptors left open. *)
Definition gu_copy_file (src : option (list Z)) (dest_ok : bool) (reads : list read_answer) (writes : list (option nat)) (fds : Z)
  : outcome (Z * option (list Z) * Z) :=
  match src with
  | None => mret (-1, None, fds)
  | Some content =>
    if negb dest_ok then mret (-1, None, fds + 1 - 1) else
    '(ret, out) ← copy_loop reads writes content [];
    mret (ret, Some out, fds + 2 - 2)
  end.

(** ** Facts *)

Lemma copy_loop_ok reads writes left out :
  (length left < length reads)%nat -> (length left <= length writes)%nat ->
  exists ret out', copy_loop reads writes left out = Done (ret, out') /\
    (ret = 0 \/ ret = -1) /\ (exists k, out' = out ++ take k left) /\
    (ret = 0 -> out' = out ++ left) /\
    (Forall (fun a => exists n, a = Got n) reads -> Forall (fun w => exists n, w = Some n /\ (BUFFER_SIZE <= n)%nat) writes -> ret = 0).
Proof.
  assert (Hb : (1 <= BUFFER_SIZE)%nat) by (unfold BUFFER_SIZE; lia).
  revert writes left out. induction reads as [|a reads IH]; intros writes left out Hr Hw; [cbn in Hr; lia|].
  assert (Hkeep : exists k, out = out ++ take k left) by (exists 0%nat; cbn; by rewrite app_nil_r).
  cbn [copy_loop]. destruct a as [| |n].
  1,2: do 2 eexists; split_and!; [done|by right|done|done|intros H _; by apply Forall_cons in H as [[? ?] _]].
  case_decide as Hk.
  { do 2 eexists. split_and!; [done|by left|done| |done]. intros _. destruct left; [by rewrite app_nil_r|].
    unfold copy_size in Hk. cbn [length] in Hk. lia. }
  assert (Hks : (1 <= copy_size n left <= length left)%nat) by (unfold copy_size in *; lia).
  assert (Hkb : (copy_size n left <= BUFFER_SIZE)%nat) by (unfold copy_size; lia).
  destruct writes as [|w writes]; [cbn in Hw; lia|]. destruct w as [w|].
  2:{ do 2 eexists. split_and!; [done|by right|done|done|]. intros _ H. by apply Forall_cons in H as [(? & ? & _) _]. }
  case_decide as Hwk.
  - destruct (IH writes (drop (copy_size n left) left) (out ++ take (w `min` copy_size n left) left)) as (ret & out' & E & Hret & [j Hj] & Hall & Hok).
    1,2: rewrite length_drop; cbn [length] in *; lia.
    exists ret, out'. split; [done|]. split; [done|]. rewrite Hwk in *. split.
    { exists (copy_size n left + j)%nat. rewrite Hj, <- app_assoc. f_equal. apply take_take_drop. }
    split; [intros H0; rewrite (Hall H0), <- app_assoc; f_equal; apply take_drop|].
    intros H1 H2. apply Forall_cons in H1 as [_ H1]. apply Forall_cons in H2 as [_ H2]. by apply Hok.
  - do 2 eexists. split_and!; [done|by right|by eexists|done|].
    intros _ H. apply Forall_cons in H as [(m & [= <-] & Hm) _]. lia.
Qed.

(** ** Properties *)

(** Copying a file always ends with every descriptor closed; what was written
    is a prefix of the source, the whole source when the copy reports success,
    and it does so whenever no call is interrupted, fails or is cut short. *)
Theorem copy_file_exact content reads writes fds :
  (length content < length reads)%nat -> (length content <= length writes)%nat ->
  exists ret out, gu_copy_file (Some content) true reads writes fds = Done (ret, Some out, fds) /\
    (ret = 0 \/ ret = -1) /\ out `prefix_of` content /\ (ret = 0 -> out = content) /\
    (Forall (fun a => exists n, a = Got n) reads -> Forall (fun w => exists n, w = Some n /\ (BUFFER_SIZE <= n)%nat) writes -> ret = 0).
Proof.
  intros Hr Hw. destruct (copy_loop_ok reads writes content [] Hr Hw) as (ret & out & E & Hret & [k Hk] & Hall & Hok).
  exists ret, out. unfold gu_copy_file. cbn [negb]. rewrite E. run. split; [do 2 f_equal; lia|]. split; [done|].
  split; [rewrite Hk; apply prefix_take|done].
Qed.

(** The key of a file of at most two megabytes covers all of it, however the
    reads are cut. *)
Lemma md5_input_whole reads total :
  Forall (fun b => b <> []) reads -> total + Z.of_nat (length (concat reads)) <= md5_limit -> md5_input reads total = concat reads.
Proof.
  intros Hr. revert total. induction Hr as [|b reads Hb Hr IH]; intros total Ht; [done|]. cbn [md5_input concat] in *.
  rewrite length_app in Ht. rewrite decide_False by done. destruct b as [|c b]; [done|]. cbn [length] in *.
  rewrite (proj2 (Z.leb_gt _ _)) by lia. by rewrite IH by lia.
Qed.

(** The name of a process loses its newline and what does not fit the buffer. *)
Lemma pid_comm_exact name n room :
  name <> [] -> NUL ∉ name -> newline ∉ name -> (length name < n)%nat -> (0 < room)%nat ->
  gu_get_pid_comm (Some (name ++ [newline])) (Some n) (S room) = (0, take room name).
Proof.
  intros Hne Hnul Hnl Hn Hroom. unfold gu_get_pid_comm.
  assert (Hsub : forall c k, c ∈ take k name -> c ∈ name) by (intros c k H; rewrite <- (take_drop k name); apply elem_of_app; by left).
  destruct (decide (length name < room)%nat) as [Hl|Hl].
  - rewrite (take_ge (name ++ _)) by (rewrite length_app; cbn; lia). rewrite last_snoc, decide_True by done.
    rewrite length_app. cbn [length]. replace (length name + 1 - 1)%nat with (length name) by lia.
    by rewrite take_app_length, c_str_id, take_ge by (done || lia).
  - rewrite Nat.min_r by lia. rewrite take_app_le by lia. destruct (last (take room name)) as [c|] eqn:E.
    + apply last_Some_elem_of, Hsub in E. rewrite decide_False by congruence. rewrite c_str_id; [done|]. by intros H%Hsub.
    + apply last_None in E. destruct name; [done|]. destruct room; [lia|done].
Qed.

(** ** Witnesses *)
Lemma copy_file_exact_witness :
  exists ret out, gu_copy_file (Some [1; 2; 3]) true [Got 2; Got 9; Got 1; Got 1] [Some 9; Some 0; Some 1]%nat 5 = Done (ret, Some out, 5) /\
    (ret = 0 \/ ret = -1) /\ out `prefix_of` [1; 2; 3].
Proof.
  destruct (copy_file_exact [1; 2; 3] [Got 2; Got 9; Got 1; Got 1] [Some 9; Some 0; Some 1]%nat 5) as (ret & out & E & Hret & Hp & _).
  - cbn. lia.
  - cbn. lia.
  - exists ret, out. split; [exact E|]. split; [exact Hret|exact Hp].
Defined.
