(* ===== verification/NameHeap.v ===== *)
(** * Symbol names: [src/gu_stacktrace.c], lines 110-115, 616-704

    Names of symbols are either separate [strdup] blocks, freed one by one, or
    live in the arena of their image, a list of chunks released as a whole.
    Memory is explicit: blocks have addresses, the bytes of a chunk that were
    never written are indeterminate, and a name is read through its pointer. *)

From Stdlib Require Import Ascii.
From stdpp Require Import strings.
From S2P Require Import Prelude Maps PathWalk.

(** ** Memory *)

(** [struct gu_symbol_name_arena_chunk]; [ck_data] is the address of [data]. *)
Record arena_chunk : Type := mk_chunk {
  ck_data : Z;
  ck_used : nat;
  ck_cap : nat;
  ck_bytes : list (option ascii);
}.

(** The blocks that hold names: the [strdup]ed ones, and the chunks of the
    image under construction, the current one first.  [nh_mallocs] counts the
    allocations made. *)
Record name_heap : Type := mk_heap {
  nh_names : gmap Z text;
  nh_arena : list arena_chunk;
  nh_mallocs : nat;
}.

Definition sizeof_chunk : Z := 24.
Definition chunk_min : nat := Z.to_nat 4096.

(** The blocks in use, as address and size. *)
Definition chunk_block (ck : arena_chunk) : Z * Z := (ck_data ck - sizeof_chunk, sizeof_chunk + Z.of_nat (ck_cap ck)).
Definition name_block (x : Z * text) : Z * Z := (x.1, Z.of_nat (length x.2) + 1).
Definition blocks (h : name_heap) : list (Z * Z) :=
  (name_block <$> map_to_list (nh_names h)) ++ (chunk_block <$> nh_arena h).

Definition apart (x y : Z * Z) : Prop := x.1 + x.2 <= y.1 \/ y.1 + y.2 <= x.1.

(** The allocator: a block of user memory that overlaps none in use, or no
    block.  [malloc n] is its [n]-th answer. *)
Class Malloc : Type := {
  malloc : nat -> list (Z * Z) -> Z -> option Z;
  malloc_apart n used size a : malloc n used size = Some a ->
    0 < a /\ a + size <= 2 ^ 63 /\ Forall (apart (a, size)) used;
}.

Definition counted (h : name_heap) : name_heap := mk_heap (nh_names h) (nh_arena h) (S (nh_mallocs h)).

Section ops.
Context {HM : Malloc}.

Definition strdup (h : name_heap) (name : text) : option Z * name_heap :=
  let p := malloc (nh_mallocs h) (blocks h) (Z.of_nat (length name) + 1) in
  let h := counted h in
  match p with
  | None => (None, h)
  | Some a => (Some a, mk_heap (<[a := name]> (nh_names h)) (nh_arena h) (nh_mallocs h))
  end.

(** [gu_symbol_name_arena_alloc] for a non-[NULL] context. *)
Definition gu_symbol_name_arena_alloc (h : name_heap) (len : nat) : option Z * name_heap :=
  if (len =? 0)%nat then (None, h) else
  let bump ck rest n :=
    (Some (ck_data ck + Z.of_nat (ck_used ck)),
     mk_heap (nh_names h) (mk_chunk (ck_data ck) (ck_used ck + len) (ck_cap ck) (ck_bytes ck) :: rest) n) in
  let grow rest :=
    let cap := if (chunk_min <? len)%nat then len else chunk_min in
    match malloc (nh_mallocs h) (blocks h) (sizeof_chunk + Z.of_nat cap) with
    | None => (None, counted h)
    | Some a => bump (mk_chunk (a + sizeof_chunk) 0 cap (replicate cap None)) rest (S (nh_mallocs h))
    end in
  match nh_arena h with
  | ck :: rest => if (ck_cap ck - ck_used ck <? len)%nat then grow (ck :: rest) else bump ck rest (nh_mallocs h)
  | [] => grow []
  end.

(** Filling the [len] bytes just allocated at [p] with [s] and its NUL; more
    than [len] bytes leave the allocation. *)
Definition put_name (h : name_heap) (p : Z) (len : nat) (s : text) : outcome name_heap :=
  match nh_arena h with
  | [] => Undef BadPointer
  | ck :: rest =>
    if decide (len <= length s)%nat then Undef OutOfBounds else
    let off := Z.to_nat (p - ck_data ck) in
    mret (mk_heap (nh_names h)
            (mk_chunk (ck_data ck) (ck_used ck) (ck_cap ck)
               (list_inserts off ((Some <$> s) ++ [Some NUL]) (ck_bytes ck)) :: rest) (nh_mallocs h))
  end.

Definition gu_symbol_name_arena_strdup (h : name_heap) (name : text) : outcome (option Z * name_heap) :=
  let len := S (length name) in
  let '(dst, h) := gu_symbol_name_arena_alloc h len in
  match dst with
  | None => mret (None, h)
  | Some p => h ← put_name h p len name; mret (Some p, h)
  end.

(** *** Go names *)

(** The text up to and including the last slash, and the text after it. *)
Fixpoint split_last_slash (l : text) : option (text * text) :=
  match l with
  | [] => None
  | c :: l =>
    match split_last_slash l with
    | Some (d, b) => Some (c :: d, b)
    | None => if decide (c = slash) then Some ([c], l) else None
    end
  end.

(** The copying loop over the directories: a slash is copied; of anything else
    the first character is, and the rest up to the next slash is skipped. *)
Fixpoint strip_dirs (skipping : bool) (src : text) : text :=
  match src with
  | [] => []
  | c :: src =>
    if decide (c = slash) then c :: strip_dirs false src
    else if skipping then strip_dirs true src else c :: strip_dirs true src
  end.

Definition count_slashes (l : text) : nat := length (filter (fun c => c = slash) l).

Definition golang_strip_name_to_arena (h : name_heap) (name : text) : outcome (option Z * name_heap) :=
  match split_last_slash name with
  | None => mret (None, h)
  | Some (dirs, base) =>
    if decide (base = []) then gu_symbol_name_arena_strdup h name else
    let last_part_len := S (length base) in
    let len := (count_slashes name * 2 + last_part_len + 1)%nat in
    let '(res, h) := gu_symbol_name_arena_alloc h len in
    match res with
    | None => mret (None, h)
    | Some p => h ← put_name h p len (strip_dirs false dirs ++ base); mret (Some p, h)
    end
  end.
End ops.

(** *** Reading a name *)
Fixpoint read_cstr (l : list (option ascii)) : outcome text :=
  match l with
  | [] => Undef OutOfBounds
  | None :: _ => Undef Uninit
  | Some c :: l => if decide (c = NUL) then mret [] else s ← read_cstr l; mret (c :: s)
  end.

Definition in_chunk (p : Z) (ck : arena_chunk) : bool :=
  (ck_data ck <=? p) && (p <? ck_data ck + Z.of_nat (ck_cap ck)).

(** The string at [p]: a separate block, or a place in a chunk. *)
Definition read_name (h : name_heap) (p : Z) : outcome text :=
  match nh_names h !! p with
  | Some s => mret s
  | None =>
    ck ← deref (head (filter (fun ck => in_chunk p ck = true) (nh_arena h)));
    read_cstr (drop (Z.to_nat (p - ck_data ck)) (ck_bytes ck))
  end.

(** ** Invariant *)

Record chunk_ok (ck : arena_chunk) : Prop := {
  co_used : (ck_used ck <= ck_cap ck)%nat;
  co_bytes : length (ck_bytes ck) = ck_cap ck;
  co_addr : sizeof_chunk < ck_data ck /\ ck_data ck + Z.of_nat (ck_cap ck) <= 2 ^ 63;
}.

Record heap_ok (h : name_heap) : Prop := {
  ho_chunks : Forall chunk_ok (nh_arena h);
  ho_names a s : nh_names h !! a = Some s -> 0 < a < 2 ^ 63 /\ NUL ∉ s;
  ho_name_chunk a s ck : nh_names h !! a = Some s -> ck ∈ nh_arena h -> apart (name_block (a, s)) (chunk_block ck);
  ho_chunk_apart i j ck ck' : nh_arena h !! i = Some ck -> nh_arena h !! j = Some ck' -> i <> j ->
    apart (chunk_block ck) (chunk_block ck');
}.

(** [p] points to the string [s]: a block of its own, or bytes of a chunk below
    [used]. *)
Definition arena_holds (ck : arena_chunk) (p : Z) (s : text) : Prop :=
  exists off, p = ck_data ck + Z.of_nat off /\ (off + S (length s) <= ck_used ck)%nat /\
    take (S (length s)) (drop off (ck_bytes ck)) = (Some <$> s) ++ [Some NUL].
Definition name_at (h : name_heap) (p : Z) (s : text) : Prop :=
  NUL ∉ s /\ (nh_names h !! p = Some s \/ exists ck, ck ∈ nh_arena h /\ arena_holds ck p s).

Lemma read_cstr_app s r : NUL ∉ s -> read_cstr ((Some <$> s) ++ Some NUL :: r) = Done s.
Proof.
  induction s as [|c s IH]; intros Hs; cbn [fmap list_fmap app read_cstr]; [by rewrite decide_True|].
  rewrite decide_False by set_solver. rewrite IH by set_solver. done.
Qed.

Lemma in_chunk_spec p ck : in_chunk p ck = true <-> ck_data ck <= p < ck_data ck + Z.of_nat (ck_cap ck).
Proof. unfold in_chunk. rewrite andb_true_iff, Z.leb_le, Z.ltb_lt. done. Qed.

Lemma name_at_read h p s : heap_ok h -> name_at h p s -> read_name h p = Done s.
Proof.
  intros Hok [Hs [Hn|(ck & Hck & off & -> & Hoff & Hb)]]; unfold read_name; [by rewrite Hn|].
  pose proof (proj1 (Forall_forall _ _) (ho_chunks _ Hok) _ Hck) as [Hu Hl Ha].
  destruct (nh_names h !! _) as [s'|] eqn:En.
  { exfalso. pose proof (ho_name_chunk _ Hok _ _ _ En Hck) as Hap. unfold apart, name_block, chunk_block, sizeof_chunk in Hap. cbn in Hap. lia. }
  assert (Hin : in_chunk (ck_data ck + Z.of_nat off) ck = true) by (apply in_chunk_spec; lia).
  destruct (head (filter (fun ck => in_chunk _ ck = true) (nh_arena h))) as [ck'|] eqn:Eh.
  2:{ apply head_None in Eh. exfalso. eapply not_elem_of_nil. rewrite <- Eh. by apply list_elem_of_filter. }
  assert (ck' = ck) as ->.
  { apply head_Some_elem_of, list_elem_of_filter in Eh as [Hin' [j Hj]%list_elem_of_lookup].
    apply list_elem_of_lookup in Hck as [i Hi]. destruct (decide (i = j)) as [->|Hij]; [congruence|]. exfalso.
    pose proof (ho_chunk_apart _ Hok _ _ _ _ Hi Hj Hij) as Hap. apply in_chunk_spec in Hin, Hin'.
    unfold apart, chunk_block, sizeof_chunk in Hap. cbn in Hap. lia. }
  run. replace (Z.to_nat _) with off by lia.
  rewrite <- (take_drop (S (length s)) (drop off _)), Hb, <- app_assoc. cbn [app]. by apply read_cstr_app.
Qed.

(** Later operations keep the names already there. *)
Definition extends (h h' : name_heap) : Prop := forall p s, name_at h p s -> name_at h' p s.

#[export] Instance extends_preorder : PreOrder extends.
Proof. split; [by intros h p s|]. intros h1 h2 h3 H12 H23 p s H. by apply H23, H12. Qed.

Lemma counted_ok h : heap_ok h -> heap_ok (counted h).
Proof. by intros []. Qed.
Lemma counted_extends h : extends h (counted h).
Proof. by intros p s. Qed.

(** Freeing blocks. *)
Lemma foldr_delete_lookup (m : gmap Z text) l a : a ∉ l -> foldr delete m l !! a = m !! a.
Proof. induction l as [|x l IH]; [done|]. intros H. cbn [foldr]. rewrite lookup_delete_ne by set_solver. apply IH. set_solver. Qed.
Lemma foldr_delete_Some (m : gmap Z text) l a t : foldr delete m l !! a = Some t -> m !! a = Some t.
Proof. induction l as [|x l IH]; cbn [foldr]; [done|]. intros [_ H]%lookup_delete_Some. by apply IH. Qed.
Lemma foldr_delete_perm (l l' : list Z) (m : gmap Z text) : l ≡ₚ l' -> foldr delete m l = foldr delete m l'.
Proof.
  induction 1 as [|x l l' _ IH|x y l|l1 l2 l3 _ IH1 _ IH2]; cbn [foldr]; [done|by rewrite IH|by rewrite delete_delete|by rewrite IH1].
Qed.

Definition drop_names (l : list Z) (h : name_heap) : name_heap :=
  mk_heap (foldr delete (nh_names h) l) (nh_arena h) (nh_mallocs h).
Lemma drop_names_ok l h : heap_ok h -> heap_ok (drop_names l h).
Proof.
  intros [H1 H2 H3 H4]. split; cbn [nh_names nh_arena drop_names]; try done.
  - intros a t Ha. apply (H2 a). by apply foldr_delete_Some in Ha.
  - intros a t ck Ha. apply (H3 a). by apply foldr_delete_Some in Ha.
Qed.

Section facts.
Context {HM : Malloc}.

Lemma strdup_ok h name r h' :
  heap_ok h -> NUL ∉ name -> strdup h name = (r, h') ->
  heap_ok h' /\ extends h h' /\
  match r with
  | None => nh_names h' = nh_names h
  | Some a => nh_names h !! a = None /\ nh_names h' = <[a := name]> (nh_names h) /\ 0 < a < 2 ^ 63 /\ name_at h' a name
  end.
Proof.
  intros Hok Hn. unfold strdup. destruct (malloc _ _ _) as [a|] eqn:Em; intros [= <- <-].
  2:{ split_and!; [by apply counted_ok|by apply counted_extends|done]. }
  apply malloc_apart in Em as (Ha & Hb & Hf). unfold blocks in Hf. apply Forall_app in Hf as [Hfn Hfc].
  rewrite Forall_fmap, Forall_forall in Hfn. rewrite Forall_fmap, Forall_forall in Hfc. cbn [counted nh_names nh_arena].
  assert (Hfresh : nh_names h !! a = None).
  { destruct (nh_names h !! a) as [s|] eqn:E; [|done]. exfalso. apply elem_of_map_to_list in E. specialize (Hfn _ E).
    unfold apart, name_block in Hfn. cbn in Hfn. lia. }
  split_and!; try done; try lia.
  - destruct Hok as [Hc Hnm Hnc Hca]. split; cbn [nh_names nh_arena]; try done.
    + intros b s [[<- <-]|[? E]]%lookup_insert_Some; [split; [lia|done]|by eapply Hnm].
    + intros b s ck [[<- <-]|[? E]]%lookup_insert_Some Hck; [by apply Hfc|by eapply Hnc].
  - intros p s [Hs [E|Hck]]; (split; [done|]); cbn [nh_names nh_arena]; [left|by right].
    rewrite lookup_insert_ne; [done|congruence].
  - split; [done|]. left. apply lookup_insert_eq.
Qed.

Lemma arena_holds_grow ck p s used bytes :
  (ck_used ck <= used)%nat -> take (ck_used ck) bytes = take (ck_used ck) (ck_bytes ck) ->
  arena_holds ck p s -> arena_holds (mk_chunk (ck_data ck) used (ck_cap ck) bytes) p s.
Proof.
  intros Hu Hb (off & -> & Hoff & E). exists off. cbn [ck_data ck_used ck_bytes]. split_and!; [done|lia|].
  rewrite <- E, !take_drop_commute. f_equal.
  apply (f_equal (take (off + S (length s)))) in Hb. rewrite !take_take in Hb.
  by rewrite !Nat.min_l in Hb by lia.
Qed.

(** A chunk changed above its old [used] mark. *)
Lemma chunk_update_ok names ck rest n n' used bytes :
  heap_ok (mk_heap names (ck :: rest) n) -> (ck_used ck <= used <= ck_cap ck)%nat ->
  length bytes = ck_cap ck -> take (ck_used ck) bytes = take (ck_used ck) (ck_bytes ck) ->
  let h' := mk_heap names (mk_chunk (ck_data ck) used (ck_cap ck) bytes :: rest) n' in
  heap_ok h' /\ extends (mk_heap names (ck :: rest) n) h'.
Proof.
  intros [Hc Hn Hnc Hca] Hu Hl Ht h'. cbn [nh_names nh_arena] in *. apply Forall_cons in Hc as [[Hcu Hcb Hcd] Hc]. split.
  - split; cbn [nh_names nh_arena]; try done.
    + constructor; [|done]. split; cbn; [lia|done|done].
    + intros a s ck' Ha [->|Hck]%elem_of_cons; [by apply (Hnc a s ck); [|left]|apply (Hnc a s); [done|by right]].
    + intros [|i] [|j] c1 c2 H1 H2 Hij; cbn in H1, H2; simplify_eq.
      * by apply (Hca 0%nat (S j) ck).
      * by apply (Hca (S i) 0%nat c1 ck).
      * apply (Hca (S i) (S j)); try done.
  - intros p s [Hs [E|(ck' & [->|Hck]%elem_of_cons & Hh)]]; (split; [done|]); cbn [nh_names nh_arena]; [by left| |].
    + right. eexists. split; [by left|]. by apply arena_holds_grow; [lia|..].
    + right. exists ck'. split; [by right|done].
Qed.

Lemma put_name_ok names ck rest n len s :
  heap_ok (mk_heap names (ck :: rest) n) -> (ck_used ck + len <= ck_cap ck)%nat -> (length s < len)%nat -> NUL ∉ s ->
  exists h', put_name (mk_heap names (mk_chunk (ck_data ck) (ck_used ck + len) (ck_cap ck) (ck_bytes ck) :: rest) n)
      (ck_data ck + Z.of_nat (ck_used ck)) len s = Done h' /\
    heap_ok h' /\ extends (mk_heap names (ck :: rest) n) h' /\ nh_names h' = names /\
    0 < ck_data ck + Z.of_nat (ck_used ck) < 2 ^ 63 /\ name_at h' (ck_data ck + Z.of_nat (ck_used ck)) s.
Proof.
  intros Hok Hfit Hlen Hs. unfold put_name. cbn [nh_arena]. rewrite decide_False by lia. cbn [ck_data ck_used ck_cap ck_bytes].
  set (str := (Some <$> s) ++ [Some NUL]). assert (Hstr : length str = S (length s)).
  { unfold str. rewrite length_app, length_fmap. cbn. lia. }
  pose proof (proj1 (Forall_cons _ _ _) (ho_chunks _ Hok)) as [[Hcu Hcb Hcd] _].
  replace (Z.to_nat _) with (ck_used ck) by lia. set (bytes := list_inserts _ _ _).
  assert (Hbl : length bytes = ck_cap ck) by (unfold bytes; by rewrite length_inserts).
  assert (Hlow : forall i, (i < ck_used ck)%nat -> bytes !! i = ck_bytes ck !! i).
  { intros i Hi. unfold bytes. apply list_lookup_inserts_lt. lia. }
  destruct (chunk_update_ok names ck rest n n (ck_used ck + len) bytes) as [Hok' Hext]; [done|lia|done| |].
  { apply list_eq. intros i. destruct (decide (i < ck_used ck)%nat).
    - rewrite !lookup_take_lt by done. by apply Hlow.
    - rewrite !lookup_take_ge by lia. done. }
  eexists. split; [done|]. split_and!; try done; unfold sizeof_chunk in *; try lia.
  split; [done|]. right. eexists. split; [by left|]. exists (ck_used ck). cbn [ck_data ck_used ck_bytes].
  split_and!; [done|lia|]. fold str. apply list_eq. intros i. rewrite <- Hstr. destruct (decide (i < length str)%nat).
  - rewrite lookup_take_lt, lookup_drop by done. unfold bytes. rewrite list_lookup_inserts by lia.
    f_equal. lia.
  - rewrite lookup_take_ge by lia. symmetry. apply lookup_ge_None_2. lia.
Qed.

(** A new chunk in front. *)
Lemma push_chunk_ok h a cap n :
  heap_ok h -> 0 < a -> a + (sizeof_chunk + Z.of_nat cap) <= 2 ^ 63 ->
  Forall (apart (a, sizeof_chunk + Z.of_nat cap)) (blocks h) ->
  let h' := mk_heap (nh_names h) (mk_chunk (a + sizeof_chunk) 0 cap (replicate cap None) :: nh_arena h) n in
  heap_ok h' /\ extends h h'.
Proof.
  intros [Hc Hn Hnc Hca] Ha Hb Hf h'. unfold blocks in Hf. apply Forall_app in Hf as [Hfn Hfc].
  rewrite Forall_fmap, Forall_forall in Hfn. rewrite Forall_fmap, Forall_forall in Hfc. set (ck := mk_chunk (a + sizeof_chunk) 0 cap (replicate cap None)).
  assert (Hck : chunk_block ck = (a, sizeof_chunk + Z.of_nat cap)) by (unfold chunk_block; cbn; f_equal; lia).
  assert (Hsym : forall x y, apart x y -> apart y x) by (unfold apart; tauto).
  split.
  - split; cbn [nh_names nh_arena]; [|done|..].
    + constructor; [|done]. split; cbn; [lia|apply length_replicate|unfold sizeof_chunk in *; lia].
    + intros b s c Hb' [->|H]%elem_of_cons; [|by eapply Hnc]. fold ck. rewrite Hck. apply Hsym.
      apply (Hfn (b, s)). by apply elem_of_map_to_list.
    + intros [|i] [|j] c1 c2 H1 H2 Hij; cbn in H1, H2; simplify_eq.
      * fold ck. rewrite Hck. apply Hfc. by eapply list_elem_of_lookup_2.
      * fold ck. rewrite Hck. apply Hsym, Hfc. by eapply list_elem_of_lookup_2.
      * apply (Hca i j); [done..|congruence].
  - intros p s [Hs [E|(c & H & Hh)]]; (split; [done|]); cbn [nh_names nh_arena]; [by left|]. right. exists c. split; [by right|done].
Qed.

(** Allocating [len] bytes and filling them with a shorter string. *)
Lemma arena_store_ok h len s r h1 :
  heap_ok h -> (length s < len)%nat -> NUL ∉ s -> gu_symbol_name_arena_alloc h len = (r, h1) ->
  match r with
  | None => heap_ok h1 /\ extends h h1 /\ nh_names h1 = nh_names h
  | Some p => exists h2, put_name h1 p len s = Done h2 /\ heap_ok h2 /\ extends h h2 /\ nh_names h2 = nh_names h /\
      0 < p < 2 ^ 63 /\ name_at h2 p s
  end.
Proof.
  intros Hok Hlen Hs. unfold gu_symbol_name_arena_alloc. destruct (Nat.eqb_spec len 0); [lia|].
  set (cap := if (chunk_min <? len)%nat then len else chunk_min). assert (Hcap : (len <= cap)%nat).
  { unfold cap. destruct (Nat.ltb_spec chunk_min len); lia. }
  assert (Hgrow : forall r h1,
    match malloc (nh_mallocs h) (blocks h) (sizeof_chunk + Z.of_nat cap) with
    | None => (None, counted h)
    | Some a => (Some (a + sizeof_chunk + Z.of_nat 0),
        mk_heap (nh_names h) (mk_chunk (a + sizeof_chunk) (0 + len) cap (replicate cap None) :: nh_arena h) (S (nh_mallocs h)))
    end = (r, h1) ->
    match r with
    | None => heap_ok h1 /\ extends h h1 /\ nh_names h1 = nh_names h
    | Some p => exists h2, put_name h1 p len s = Done h2 /\ heap_ok h2 /\ extends h h2 /\ nh_names h2 = nh_names h /\
        0 < p < 2 ^ 63 /\ name_at h2 p s
    end).
  { clear r h1. intros r h1. destruct (malloc _ _ _) as [a|] eqn:Em; intros [= <- <-].
    2:{ split_and!; [by apply counted_ok|by apply counted_extends|done]. }
    apply malloc_apart in Em as (Ha & Hb & Hf).
    destruct (push_chunk_ok h a cap (S (nh_mallocs h)) Hok Ha Hb Hf) as [Hok' Hext].
    destruct (put_name_ok _ _ _ _ len s Hok') as (h2 & E & Hok2 & Hext2 & H); [cbn; lia|done..|].
    exists h2. split; [exact E|]. split_and!; [done|by etrans|apply H..]. }
  destruct h as [names [|ck rest] m]; cbn [nh_arena nh_names nh_mallocs] in *; [apply Hgrow|].
  destruct (Nat.ltb_spec (ck_cap ck - ck_used ck) len); [apply Hgrow|]. intros [= <- <-].
  pose proof (proj1 (Forall_cons _ _ _) (ho_chunks _ Hok)) as [[Hcu _ _] _].
  destruct (put_name_ok _ _ _ _ len s Hok) as (h2 & E & H2); [lia|done..|]. exists h2. split; [exact E|apply H2].
Qed.

Lemma arena_strdup_ok h name :
  heap_ok h -> NUL ∉ name ->
  exists r h', gu_symbol_name_arena_strdup h name = Done (r, h') /\ heap_ok h' /\ extends h h' /\
    nh_names h' = nh_names h /\ forall p, r = Some p -> 0 < p < 2 ^ 63 /\ name_at h' p name.
Proof.
  intros Hok Hn. unfold gu_symbol_name_arena_strdup.
  destruct (gu_symbol_name_arena_alloc h (S (length name))) as [r h1] eqn:Ea.
  apply (arena_store_ok h _ name r h1 Hok) in Ea; [|lia|done]. destruct r as [p|].
  - destruct Ea as (h2 & -> & Hok2 & Hext & Hnm & Hp & Hat). run. exists (Some p), h2. split_and!; try done.
    by intros q [= <-].
  - destruct Ea as (Hok1 & Hext & Hnm). exists None, h1. by split_and!.
Qed.
End facts.

(** ** Go names *)

(** A name with each directory cut to its first character; a name that ends in
    a slash is kept. *)
Definition shorten (dir : text) : text := take 1 dir ++ [slash].
Definition go_short_name (name : text) : text :=
  match split_last_slash name with
  | Some (dirs, (_ :: _) as base) => (removelast (segments name) ≫= shorten) ++ base
  | _ => name
  end.

Lemma split_last_slash_spec l :
  match split_last_slash l with
  | Some (d, b) => exists d', d = d' ++ [slash] /\ l = d ++ b /\ slash ∉ b
  | None => slash ∉ l
  end.
Proof.
  induction l as [|c l IH]; cbn [split_last_slash]; [set_solver|].
  destruct (split_last_slash l) as [[d b]|].
  - destruct IH as (d' & -> & -> & Hb). by exists (c :: d').
  - case_decide as Hc; [subst c; by exists []|set_solver].
Qed.

Lemma segments_no_slash l : slash ∉ l -> segments l = [l].
Proof.
  induction l as [|c l IH]; [done|]. intros H. cbn [segments]. rewrite decide_False by set_solver.
  by rewrite IH by set_solver.
Qed.

Lemma segments_count l : length (segments l) = S (count_slashes l).
Proof.
  unfold count_slashes. induction l as [|c l IH]; [done|]. cbn [segments]. case_decide as Hc.
  - rewrite filter_cons_True by done. cbn [length]. by rewrite IH.
  - rewrite filter_cons_False by done. destruct (segments l); [done|]. cbn [length] in *. lia.
Qed.

Lemma strip_dirs_segments skipping l :
  strip_dirs skipping (l ++ [slash]) =
    match segments l with
    | [] => []
    | s :: ss => (if skipping then [] else take 1 s) ++ slash :: (ss ≫= shorten)
    end.
Proof.
  revert skipping. induction l as [|c l IH]; intros skipping; cbn [app strip_dirs segments].
  { rewrite decide_True by done. by destruct skipping. }
  case_decide as Hc.
  - rewrite IH, Hc. destruct (segments l) as [|s ss] eqn:E; [pose proof (segments_count l) as H; by rewrite E in H|].
    destruct skipping; cbn [mbind list_bind take app]; unfold shorten at 2; by rewrite <- app_assoc.
  - rewrite !IH. destruct (segments l) as [|s ss] eqn:E; [pose proof (segments_count l) as H; by rewrite E in H|].
    by destruct skipping.
Qed.

Lemma strip_dirs_short l : strip_dirs false (l ++ [slash]) = segments l ≫= shorten.
Proof.
  rewrite strip_dirs_segments. destruct (segments l) as [|s ss] eqn:E; [done|].
  cbn [mbind list_bind]. unfold shorten at 2. by rewrite <- app_assoc.
Qed.

Lemma length_shorten ss : (length (ss ≫= shorten) <= 2 * length ss)%nat.
Proof.
  induction ss as [|s ss IH]; [done|]. cbn [mbind list_bind length]. rewrite length_app. unfold shorten at 1.
  rewrite length_app, length_take. cbn [length] in *. lia.
Qed.

Lemma count_slashes_app l r : count_slashes (l ++ r) = (count_slashes l + count_slashes r)%nat.
Proof. unfold count_slashes. by rewrite filter_app, length_app. Qed.
Lemma count_slashes_none l : slash ∉ l -> count_slashes l = 0%nat.
Proof.
  unfold count_slashes. induction l as [|c l IH]; [done|]. intros H. rewrite filter_cons_False by set_solver.
  apply IH. set_solver.
Qed.

Lemma segments_chars l s c : s ∈ segments l -> c ∈ s -> c ∈ l.
Proof.
  revert s. induction l as [|d l IH]; intros s; cbn [segments]; [by intros ->%list_elem_of_singleton|].
  intros Hs Hc. rewrite elem_of_cons. case_decide.
  { apply elem_of_cons in Hs as [->|Hs]; [by apply not_elem_of_nil in Hc|]. right. by eapply IH. }
  destruct (segments l) as [|s0 ss].
  { apply list_elem_of_singleton in Hs as ->. apply list_elem_of_singleton in Hc. by left. }
  apply elem_of_cons in Hs as [->|Hs]; [|right; apply (IH s); [by right|done]].
  apply elem_of_cons in Hc as [->|Hc]; [by left|]. right. apply (IH s0); [by left|done].
Qed.

Lemma strip_ok {HM : Malloc} h name :
  heap_ok h -> NUL ∉ name ->
  exists r h', golang_strip_name_to_arena h name = Done (r, h') /\ heap_ok h' /\ extends h h' /\
    nh_names h' = nh_names h /\ (slash ∉ name -> r = None) /\
    forall p, r = Some p -> 0 < p < 2 ^ 63 /\ name_at h' p (go_short_name name).
Proof.
  intros Hok Hn. unfold golang_strip_name_to_arena, go_short_name.
  pose proof (split_last_slash_spec name) as Hsplit. destruct (split_last_slash name) as [[d b]|].
  2:{ exists None, h. by split_and!. }
  destruct Hsplit as (d' & -> & -> & Hb). destruct b as [|c b].
  { rewrite decide_True by done. destruct (arena_strdup_ok h _ Hok Hn) as (r & h' & -> & Hok' & Hext & Hnm & Hp).
    exists r, h'. split_and!; try done. set_solver. }
  rewrite decide_False by done. rewrite <- app_assoc. cbn [app].
  rewrite segments_app, (segments_no_slash (c :: b)), removelast_last, strip_dirs_short by done.
  rewrite count_slashes_app. change (slash :: c :: b) with ([slash] ++ (c :: b)).
  rewrite count_slashes_app, (count_slashes_none (c :: b)) by done. change (count_slashes [slash]) with 1%nat.
  set (s := (segments d' ≫= shorten) ++ c :: b). set (len := (_ * 2 + _ + 1)%nat).
  assert (Hlen : (length s < len)%nat).
  { unfold s, len. rewrite length_app. pose proof (length_shorten (segments d')). rewrite segments_count in *. cbn [length]. lia. }
  assert (Hns : NUL ∉ s).
  { unfold s. rewrite elem_of_app, list_elem_of_bind. intros [(seg & Hin & Hseg)|]; [|set_solver].
    unfold shorten in Hin. rewrite elem_of_app in Hin. destruct Hin as [(i & Hi & _)%elem_of_take|]; [|set_solver].
    apply Hn. rewrite !elem_of_app. left. left. eapply segments_chars; [done|]. by eapply list_elem_of_lookup_2. }
  destruct (gu_symbol_name_arena_alloc h len) as [r h1] eqn:Ea. apply (arena_store_ok h _ s r h1 Hok) in Ea; [|done..].
  destruct r as [p|].
  - destruct Ea as (h2 & -> & Hok2 & Hext & Hnm & Hp & Hat). run. exists (Some p), h2. split_and!; try done; [set_solver|].
    by intros q [= <-].
  - destruct Ea as (Hok1 & Hext & Hnm). exists None, h1. by split_and!.
Qed.

(** ** Properties *)

(** Shortening a Go symbol name stays inside the bytes allocated for it,
    yields the name with every directory cut to its first character, and leaves
    every name stored before it readable. *)
Theorem go_name_shortened {HM : Malloc} h name :
  heap_ok h -> NUL ∉ name ->
  exists r h', golang_strip_name_to_arena h name = Done (r, h') /\ heap_ok h' /\ (slash ∉ name -> r = None) /\
    (forall p, r = Some p -> read_name h' p = Done (go_short_name name)) /\
    (forall p s, name_at h p s -> read_name h' p = Done s).
Proof.
  intros Hok Hn. destruct (strip_ok h name Hok Hn) as (r & h' & E & Hok' & Hext & _ & Hnone & Hp). exists r, h'.
  split_and!; [done..| |].
  - intros p Hr. by apply name_at_read; [|apply Hp].
  - intros p s Hat. by apply name_at_read; [|apply Hext].
Qed.

(** ** Witnesses *)

(** An allocator that places every block above those in use. *)
Definition top_of (used : list (Z * Z)) : Z := foldr (fun x m => Z.max (x.1 + x.2) m) 1 used.
Lemma top_of_above used x : x ∈ used -> x.1 + x.2 <= top_of used.
Proof.
  unfold top_of. induction used as [|y used IH]; [by intros ?%not_elem_of_nil|]. intros [->|H]%elem_of_cons; cbn [foldr]; [lia|].
  specialize (IH H). lia.
Qed.
Lemma top_of_pos used : 0 < top_of used.
Proof. unfold top_of. induction used as [|y used IH]; cbn [foldr]; lia. Qed.

Definition rising_malloc : Malloc.
Proof.
  refine {| malloc := fun _ used size => if top_of used + size <=? 2 ^ 63 then Some (top_of used) else None |}.
  intros _ used size a. destruct (Z.leb_spec (top_of used + size) (2 ^ 63)); [|done]. intros [= <-].
  split; [apply top_of_pos|]. split; [done|]. apply Forall_forall. intros x Hx. right. by apply top_of_above.
Defined.

Definition empty_names : name_heap := mk_heap ∅ [] 0.
Lemma empty_names_ok : heap_ok empty_names.
Proof. split; cbn; [constructor|done|done|]. intros i j ck ck' H. done. Qed.

Lemma go_name_shortened_witness :
  match golang_strip_name_to_arena (HM := rising_malloc) empty_names (txt "github.com/pkg/errors.New") with
  | Done (Some p, h') => read_name h' p = Done (txt "g/p/errors.New")
  | _ => False
  end.
Proof.
  destruct (go_name_shortened (HM := rising_malloc) empty_names (txt "github.com/pkg/errors.New") empty_names_ok)
    as (r & h' & E & _ & _ & Hr & _).
  { apply (bool_decide_unpack _). vm_compute. done. }
  assert (Hs : is_Some r).
  { apply (f_equal (fun o => match o with Done (q, _) => bool_decide (is_Some q) | Undef _ => false end)) in E.
    apply (bool_decide_eq_true_1 _). rewrite <- E. vm_compute. done. }
  rewrite E. destruct Hs as [p ->]. rewrite (Hr p eq_refl). vm_compute. reflexivity.
Defined.
