(* ===== verification/Symbols.v ===== *)
(** * The symbols of an image: [src/gu_stacktrace.c], lines 104-154, 706-932

    [fill_symbols_debug_info] reads the symbol table of an image and builds the
    interval index that gives a frame its name: functions and untyped labels of
    executable sections, with Go names shortened into the arena of the image.
    libelf's answers are the fields of [sym_source]. *)

From Stdlib Require Import Ascii.
From stdpp Require Import strings.
From S2P Require Import Prelude IntervalArray Maps PathWalk NameHeap.

Record GElf_Sym : Type := mk_sym {
  st_name : Z;
  st_info : Z;
  st_shndx : Z;
  st_value : Z;
  st_size : Z;
}.

Definition STT_NOTYPE : Z := 0.
Definition STT_FUNC : Z := 2.
Definition GELF_ST_TYPE (info : Z) : Z := Z.land info 15.
Definition SHN_UNDEF : Z := 0.
Definition SHN_LORESERVE : Z := 0xff00.
Definition SHN_ABS : Z := 0xfff1.
Definition SHN_COMMON : Z := 0xfff2.
Definition SHF_EXECINSTR : Z := 4.

(** What libelf says about the string table of the symbols: whether the section
    and its header can be read, its size, its first data block with its offset
    in the section, whether there is another block, and [elf_strptr]. *)
Record strtab : Type := mk_strtab {
  tb_shdr_size : option Z;
  tb_data : option (text * Z);
  tb_more : bool;
  tb_strptr : Z -> option text;
}.

(** The symbol section: the size and entry size of its header, whether it has
    data, [gelf_getsym] by index, the string table it links to, and the flags of
    the section with a given index. *)
Record sym_source : Type := mk_source {
  so_shdr : option (Z * Z);
  so_data : bool;
  so_sym : nat -> option GElf_Sym;
  so_strtab : strtab;
  so_flags : Z -> option Z;
}.

(** ** The string table *)

(** [struct gu_symbol_string_table_view]: [None] when it is not [direct]. *)
Definition gu_symbol_string_table_view_init (tb : strtab) : option text :=
  match tb_shdr_size tb with
  | None => None
  | Some sh_size =>
    match tb_data tb with
    | None => None
    | Some (d_buf, d_off) =>
      if (Z.of_nat (length d_buf) =? 0) || negb (d_off =? 0) then None else
      if tb_more tb then None else
      if Z.of_nat (length d_buf) <? sh_size then None else Some d_buf
    end
  end.

Definition gu_symbol_string_table_view_get (tb : strtab) (view : option text) (offset : Z) : option text :=
  match view with
  | None => tb_strptr tb offset
  | Some data =>
    if Z.of_nat (length data) <=? offset then None else
    let name := drop (Z.to_nat offset) data in
    if decide (NUL ∈ name) then Some (c_str name) else None
  end.

(** ** Executable sections *)

Section exec.
Context (flags_of : Z -> option Z).

Definition is_exec_scn (shndx : Z) : bool :=
  match flags_of shndx with
  | Some sh_flags => negb (Z.land sh_flags SHF_EXECINSTR =? 0)
  | None => false
  end.

(** [is_exec_scn_cached]: [alloc] is the allocation of the cache entry. *)
Definition is_exec_scn_cached (alloc : bool) (shndx : Z) (cache : gmap Z bool) : bool * gmap Z bool :=
  if (shndx =? SHN_UNDEF) || (shndx =? SHN_ABS) || (shndx =? SHN_COMMON) then (false, cache) else
  if SHN_LORESERVE <=? shndx then (false, cache) else
  match cache !! shndx with
  | Some is_exec => (is_exec, cache)
  | None => (is_exec_scn shndx, if alloc then <[shndx := is_exec_scn shndx]> cache else cache)
  end.
End exec.

(** ** Mapping symbols of ARM images *)
Definition is_arm_elf_mapping_symbol_name (name : text) : bool :=
  let at_ k := default NUL (name !! k) in
  if negb (bool_decide (at_ 0%nat = "$"%char)) then false else
  if negb (bool_decide (at_ 1%nat ∈ ["a"%char; "d"%char; "t"%char; "x"%char])) then false else
  bool_decide (at_ 2%nat = NUL) || bool_decide (at_ 2%nat = "."%char).

(** ** Filling the table *)

(** [golang], [go_only_buildid] and [go_not_strip_name] of the image and the
    context, and the outcome of the small allocations by position. *)
Record sym_config : Type := mk_config {
  cg_golang : bool;
  cg_only_buildid : bool;
  cg_not_strip : bool;
  cg_cache_alloc : nat -> bool;
}.

Record fill_state : Type := mk_fill {
  fl_items : list interval_array_item;
  fl_cache : gmap Z bool;
  fl_heap : name_heap;
  fl_size : Z;
}.

Definition sizeof_item : Z := 24.

Section fill.
Context {HM : Malloc} (cfg : sym_config) (src : sym_source).

(** The name stored for a symbol: the payload, tagged when it lives in the
    arena; [0] is [NULL]. *)
Definition store_name (h : name_heap) (name : text) : outcome (Z * name_heap) :=
  if negb (cg_golang cfg) || cg_not_strip cfg then
    let '(p, h) := strdup h name in mret (default 0 p, h)
  else
    '(goname, h) ← golang_strip_name_to_arena h name;
    '(goname, h) ← (match goname with
                    | Some p => mret (Some p, h)
                    | None => gu_symbol_name_arena_strdup h name
                    end);
    mret (match goname with Some p => mark_interval_array_pointer_no_free p | None => 0 end, h).

(** One iteration of the loop: [None] is a [goto err_free]. *)
Definition symbol_step (count i : nat) (view : option text) (s : fill_state) : outcome (option fill_state * fill_state) :=
  match so_sym src i with
  | None => mret (None, s)
  | Some sym =>
    if st_value sym =? 0 then mret (Some s, s) else
    let sym_type := GELF_ST_TYPE (st_info sym) in
    let '(keep, cache) :=
      if sym_type =? STT_FUNC then (true, fl_cache s) else
      if negb (sym_type =? STT_NOTYPE) then (false, fl_cache s) else
      is_exec_scn_cached (so_flags src) (cg_cache_alloc cfg i) (st_shndx sym) (fl_cache s) in
    let s := mk_fill (fl_items s) cache (fl_heap s) (fl_size s) in
    if negb keep then mret (Some s, s) else
    match gu_symbol_string_table_view_get (so_strtab src) view (st_name sym) with
    | None => mret (None, s)
    | Some name =>
      if decide (name = []) then mret (Some s, s) else
      if decide (count <= length (fl_items s))%nat then Undef OutOfBounds else
      let e := if (sym_type =? STT_FUNC) && (st_size sym =? 0) then 0 else st_value sym +w st_size sym in
      if (sym_type =? STT_NOTYPE) && is_arm_elf_mapping_symbol_name name then mret (Some s, s) else
      if cg_golang cfg && cg_only_buildid cfg then
        let s := mk_fill (fl_items s ++ [mk_item (st_value sym) e 0]) (fl_cache s) (fl_heap s) (fl_size s) in
        mret (Some s, s) else
      '(private, h) ← store_name (fl_heap s) name;
      let s := mk_fill (fl_items s) (fl_cache s) h (fl_size s) in
      if private =? 0 then mret (None, s) else
      text ← read_name h (get_interval_array_pointer private).1;
      let s := mk_fill (fl_items s ++ [mk_item (st_value sym) e private]) (fl_cache s) h
                 (fl_size s +w (Z.of_nat (length text) + 1)) in
      mret (Some s, s)
    end
  end.

(** The loop; the second component is the state at the end either way. *)
Fixpoint symbol_loop (count i todo : nat) (view : option text) (s : fill_state) : outcome (bool * fill_state) :=
  match todo with
  | O => mret (true, s)
  | S todo =>
    '(next, s) ← symbol_step count i view s;
    match next with
    | None => mret (false, s)
    | Some s => symbol_loop count (S i) todo view s
    end
  end.

(** [err_free]: the names of the items that own them are freed. *)
Definition free_names (items : list interval_array_item) (h : name_heap) : name_heap :=
  mk_heap (foldr delete (nh_names h) (omap item_free items)) (nh_arena h) (nh_mallocs h).

(** What the function leaves in the context: [symbols], the heap,
    [sym_search_size], and what was added to [symbols_mem_size]. *)
Record fill_result : Type := mk_result {
  fr_symbols : option interval_array;
  fr_heap : name_heap;
  fr_size : Z;
  fr_mem : Z;
}.

(** [fill_symbols_debug_info] once a symbol section was found; [calloc_ok] and
    [realloc_ok] are the arrays of items, the last two flags the allocations of
    [gu_interval_array_init]. *)
Definition fill_symbols_debug_info {HQ : Qsort} (calloc_ok realloc_ok alloc_array alloc_items : bool) (h : name_heap)
  : outcome fill_result :=
  match so_shdr src with
  | None => mret (mk_result None h 0 0)
  | Some (sh_size, sh_entsize) =>
    if negb (so_data src) then mret (mk_result None h 0 0) else
    if sh_entsize =? 0 then Undef DivByZero else
    let count := Z.to_nat (sh_size / sh_entsize) in
    if negb calloc_ok then mret (mk_result None h 0 0) else
    let view := gu_symbol_string_table_view_init (so_strtab src) in
    '(ok, s) ← symbol_loop count 0 count view (mk_fill [] ∅ h 0);
    let failed items := mret (mk_result None (free_names items (fl_heap s)) (fl_size s) 0) in
    if negb ok then failed (fl_items s) else
    if decide (fl_items s = []) then mret (mk_result None (fl_heap s) (fl_size s) 0) else
    if negb realloc_ok then failed (fl_items s) else
    match gu_interval_array_init alloc_array alloc_items (fl_items s) with
    | (items, None) => failed items
    | (_, Some symbols) =>
      let size := fl_size s +w sizeof_item *w Z.of_nat (length (fl_items s)) in
      mret (mk_result (Some symbols) (fl_heap s) size size)
    end
  end.
End fill.

(** ** Specification *)

(** What becomes of a symbol: it is left out, it makes the table unreadable, or
    it is kept under a name. *)
Inductive verdict : Type := Skip | Unreadable | Keep (name : text).

Definition exec_section (flags_of : Z -> option Z) (shndx : Z) : bool :=
  negb ((shndx =? SHN_UNDEF) || (shndx =? SHN_ABS) || (shndx =? SHN_COMMON)) && negb (SHN_LORESERVE <=? shndx) &&
  is_exec_scn flags_of shndx.

Section spec.
Context (cfg : sym_config) (src : sym_source).

Definition symbol_name (sym : GElf_Sym) : option text :=
  gu_symbol_string_table_view_get (so_strtab src) (gu_symbol_string_table_view_init (so_strtab src)) (st_name sym).

Definition verdict_of (sym : GElf_Sym) : verdict :=
  let type := GELF_ST_TYPE (st_info sym) in
  if st_value sym =? 0 then Skip else
  if (type =? STT_FUNC) || ((type =? STT_NOTYPE) && exec_section (so_flags src) (st_shndx sym)) then
    match symbol_name sym with
    | None => Unreadable
    | Some name =>
      if decide (name = []) then Skip else
      if (type =? STT_NOTYPE) && is_arm_elf_mapping_symbol_name name then Skip else Keep name
    end
  else Skip.

(** The symbols kept among the first [n]. *)
Definition kept_of (i : nat) : list (GElf_Sym * text) :=
  match so_sym src i with
  | Some sym => match verdict_of sym with Keep name => [(sym, name)] | _ => [] end
  | None => []
  end.
Definition kept (n : nat) : list (GElf_Sym * text) := seq 0 n ≫= kept_of.

Definition symbol_end (sym : GElf_Sym) : Z :=
  if (GELF_ST_TYPE (st_info sym) =? STT_FUNC) && (st_size sym =? 0) then 0 else st_value sym +w st_size sym.

(** The text shown for a symbol: Go names are shortened, or kept in full when
    memory for the short form is refused. *)
Definition shown (name s : text) : Prop :=
  s = name \/ (cg_golang cfg = true /\ cg_not_strip cfg = false /\ s = go_short_name name).

(** The item of a kept symbol. *)
Definition item_for (h : name_heap) (x : GElf_Sym * text) (it : interval_array_item) : Prop :=
  start it = st_value x.1 /\ end_ it = symbol_end x.1 /\
  if cg_golang cfg && cg_only_buildid cfg then private it = 0
  else exists p s, 0 < p < 2 ^ 63 /\ (private it = p \/ private it = mark_interval_array_pointer_no_free p) /\
         name_at h p s /\ shown x.2 s.
End spec.

(** The strings [elf_strptr] returns are C strings. *)
Definition source_ok (src : sym_source) : Prop := forall off s, tb_strptr (so_strtab src) off = Some s -> NUL ∉ s.

(** ** Facts *)
Lemma symbol_name_text src sym name : source_ok src -> symbol_name src sym = Some name -> NUL ∉ name.
Proof.
  intros Hs. unfold symbol_name, gu_symbol_string_table_view_get. destruct (gu_symbol_string_table_view_init _); [|apply Hs].
  destruct (_ <=? _); [done|]. case_decide; [|done]. intros [= <-]. apply c_str_no_nul.
Qed.

Definition cache_ok (flags_of : Z -> option Z) (cache : gmap Z bool) : Prop :=
  forall k b, cache !! k = Some b -> b = is_exec_scn flags_of k.

(** The cache of section flags is transparent. *)
Lemma exec_cached_ok flags_of alloc shndx cache :
  cache_ok flags_of cache -> exists cache', is_exec_scn_cached flags_of alloc shndx cache = (exec_section flags_of shndx, cache') /\
    cache_ok flags_of cache'.
Proof.
  intros Hc. unfold is_exec_scn_cached, exec_section. destruct (_ || _ || _); [by exists cache|]. cbn [negb andb].
  destruct (SHN_LORESERVE <=? shndx); [by exists cache|]. cbn [negb andb]. destruct (cache !! shndx) as [b|] eqn:E.
  - exists cache. by rewrite (Hc _ _ E).
  - eexists. split; [done|]. destruct alloc; [|done]. intros k b [[<- <-]|[_ H]]%lookup_insert_Some; [done|by apply Hc].
Qed.

Lemma item_for_extends cfg h h' x it : extends h h' -> item_for cfg h x it -> item_for cfg h' x it.
Proof.
  intros He (H1 & H2 & H3). split; [done|]. split; [done|]. destruct (_ && _); [done|].
  destruct H3 as (p & s & Hp & Hpr & Hat & Hs). exists p, s. split; [done|]. split; [done|]. split; [by apply He|done].
Qed.

Section facts.
Context {HM : Malloc} (cfg : sym_config) (src : sym_source) (names0 : gmap Z text).

(** The names not owned by the items are those from before. *)
Definition balanced (items : list interval_array_item) (h : name_heap) : Prop :=
  foldr delete (nh_names h) (omap item_free items) = names0.

Record fill_ok (i : nat) (s : fill_state) : Prop := {
  fo_heap : heap_ok (fl_heap s);
  fo_cache : cache_ok (so_flags src) (fl_cache s);
  fo_items : Forall2 (item_for cfg (fl_heap s)) (kept src i) (fl_items s);
  fo_balanced : balanced (fl_items s) (fl_heap s);
  fo_count : (length (fl_items s) <= i)%nat;
}.

Lemma kept_S i : kept src (S i) = kept src i ++ kept_of src i.
Proof. unfold kept. rewrite seq_S, bind_app. cbn. by rewrite app_nil_r. Qed.

(** Storing a name: the payload owns its block or is marked. *)
Lemma store_name_ok h name :
  heap_ok h -> NUL ∉ name ->
  exists private h', store_name cfg h name = Done (private, h') /\ heap_ok h' /\ extends h h' /\
    if private =? 0 then nh_names h' = nh_names h
    else exists p s, 0 < p < 2 ^ 63 /\ (private = p \/ private = mark_interval_array_pointer_no_free p) /\
      get_interval_array_pointer private = (p, bool_decide (private <> p)) /\ name_at h' p s /\ shown cfg name s /\
      foldr delete (nh_names h') (option_list (freed_of private)) = nh_names h.
Proof.
  intros Hok Hn. unfold store_name. destruct (negb (cg_golang cfg) || cg_not_strip cfg) eqn:Eg.
  - destruct (strdup h name) as [r h'] eqn:E. apply strdup_ok in E as (Hok' & Hext & H); [|done..]. do 2 eexists.
    split; [done|]. split; [done|]. split; [done|]. destruct r as [a|]; cbn [default from_option]; [|done].
    destruct H as (Hfresh & Hnm & Ha & Hat). destruct (Z.eqb_spec (id a) 0); unfold id in *; [lia|].
    destruct (tag_roundtrip a) as [_ Htag]; [lia|]. exists a, name.
    split; [done|]. split; [by left|]. split; [|split; [done|split; [by left|]]].
    + rewrite bool_decide_eq_false_2; [done|]. intros H. by apply H.
    + unfold freed_of, item_free. cbn [private]. destruct (Z.eqb_spec a 0); [lia|]. rewrite Htag. cbn [option_list foldr].
      rewrite Hnm. by apply delete_insert_id.
  - apply orb_false_iff in Eg as [Hg Hns]. apply negb_false_iff in Hg.
    destruct (strip_ok h name Hok Hn) as (r & h1 & -> & Hok1 & Hext1 & Hnm1 & _ & Hp1). run.
    assert (Hmark : forall h' p s, nh_names h' = nh_names h -> 0 < p < 2 ^ 63 -> name_at h' p s -> shown cfg name s ->
      exists q t, 0 < q < 2 ^ 63 /\ (mark_interval_array_pointer_no_free p = q \/ mark_interval_array_pointer_no_free p = mark_interval_array_pointer_no_free q) /\
      get_interval_array_pointer (mark_interval_array_pointer_no_free p) = (q, bool_decide (mark_interval_array_pointer_no_free p <> q)) /\
      name_at h' q t /\ shown cfg name t /\
      foldr delete (nh_names h') (option_list (freed_of (mark_interval_array_pointer_no_free p))) = nh_names h).
    { intros h' p s Hnm Hp Hat Hsh. destruct (mark_pointer p Hp) as [Htag Hne]. exists p, s.
      split; [done|]. split; [by right|]. split; [|split; [done|split; [done|]]].
      - rewrite Htag. f_equal. symmetry. apply bool_decide_eq_true. intros E. destruct (tag_roundtrip p) as [_ H]; [lia|]. by rewrite <- E, Htag in H.
      - unfold freed_of, item_free. cbn [private]. destruct (Z.eqb_spec (mark_interval_array_pointer_no_free p) 0); [done|].
        by rewrite Htag. }
    destruct r as [p|].
    + run. do 2 eexists. split; [done|]. split; [done|]. split; [done|]. destruct (Hp1 p eq_refl) as [Hp Hat].
      destruct (Z.eqb_spec (mark_interval_array_pointer_no_free p) 0) as [E|]; [by destruct (mark_pointer p Hp)|].
      apply (Hmark _ p (go_short_name name)); try done. by right.
    + destruct (arena_strdup_ok h1 name Hok1 Hn) as (r & h2 & -> & Hok2 & Hext2 & Hnm2 & Hp2). run. do 2 eexists.
      split; [done|]. split; [done|]. split; [by etrans|]. destruct r as [p|]; [|by rewrite Hnm2]. destruct (Hp2 p eq_refl) as [Hp Hat].
      destruct (Z.eqb_spec (mark_interval_array_pointer_no_free p) 0) as [E|]; [by destruct (mark_pointer p Hp)|].
      apply (Hmark _ p name); [by rewrite Hnm2|done..|by left].
Qed.

(** A symbol that is left out. *)
Lemma skip_ok i s cache :
  fill_ok i s -> kept_of src i = [] -> cache_ok (so_flags src) cache ->
  fill_ok (S i) (mk_fill (fl_items s) cache (fl_heap s) (fl_size s)).
Proof. intros [Hh _ Hi Hb Hn] Hk Hc. split; cbn [fl_items fl_cache fl_heap]; try done; [by rewrite kept_S, Hk, app_nil_r|lia]. Qed.

(** A symbol that is kept. *)
Lemma keep_ok i s sym name h it size :
  fill_ok i s -> kept_of src i = [(sym, name)] -> heap_ok h -> extends (fl_heap s) h -> item_for cfg h (sym, name) it ->
  foldr delete (nh_names h) (option_list (freed_of (private it))) = nh_names (fl_heap s) ->
  fill_ok (S i) (mk_fill (fl_items s ++ [it]) (fl_cache s) h size).
Proof.
  intros [_ Hc Hi Hb Hn] Hk Hh Hext Hit Hf. split; cbn [fl_heap fl_cache fl_items]; try done.
  - rewrite kept_S, Hk. apply Forall2_app; [|by constructor]. eapply Forall2_impl; [done|]. intros x y Hxy. by eapply item_for_extends.
  - unfold balanced in *. rewrite omap_app, foldr_app.
    assert (Ho : omap item_free [it] = option_list (freed_of (private it))).
    { rewrite omap_item_free. unfold omap. cbn [fmap list_fmap list_omap]. destruct (freed_of (private it)); reflexivity. }
    by rewrite Ho, Hf.
  - rewrite length_app. cbn [length]. lia.
Qed.

Lemma symbol_step_ok count i s :
  source_ok src -> fill_ok i s -> (i < count)%nat ->
  exists next s', symbol_step cfg src count i (gu_symbol_string_table_view_init (so_strtab src)) s = Done (next, s') /\
    match next with
    | Some s1 => s1 = s' /\ fill_ok (S i) s'
    | None => balanced (fl_items s') (fl_heap s') /\ heap_ok (fl_heap s')
    end.
Proof.
  intros Hsrc Hok Hi. pose proof Hok as [Hh Hc Hits Hb Hn]. unfold symbol_step.
  assert (Hkept : kept_of src i = match so_sym src i with
    | Some sym => match verdict_of src sym with Keep name => [(sym, name)] | _ => [] end | None => [] end) by done.
  destruct (so_sym src i) as [sym|]; [|by do 2 eexists]. unfold verdict_of in Hkept.
  destruct (st_value sym =? 0).
  { do 2 eexists. split; [done|]. split; [done|]. destruct s. by apply (skip_ok i _ _ Hok). }
  set (type := GELF_ST_TYPE (st_info sym)) in *.
  assert (Hkeep : exists cache, cache_ok (so_flags src) cache /\
    (if type =? STT_FUNC then (true, fl_cache s) else if negb (type =? STT_NOTYPE) then (false, fl_cache s)
     else is_exec_scn_cached (so_flags src) (cg_cache_alloc cfg i) (st_shndx sym) (fl_cache s)) =
    ((type =? STT_FUNC) || ((type =? STT_NOTYPE) && exec_section (so_flags src) (st_shndx sym)), cache)).
  { destruct (type =? STT_FUNC); [by eexists|]. destruct (type =? STT_NOTYPE); cbn [negb orb andb]; [|by eexists].
    destruct (exec_cached_ok (so_flags src) (cg_cache_alloc cfg i) (st_shndx sym) _ Hc) as (cache & -> & Hcache). by exists cache. }
  destruct Hkeep as (cache & Hcache & ->). cbn [fl_items fl_heap fl_size fl_cache].
  destruct (_ || _); cbn [negb]; [|do 2 eexists; split; [done|]; split; [done|]; by apply skip_ok].
  fold (symbol_name src sym). destruct (symbol_name src sym) as [name|] eqn:Ename; [|by do 2 eexists].
  case_decide; [do 2 eexists; split; [done|]; split; [done|]; by apply skip_ok|]. rewrite decide_False by lia.
  destruct (_ && is_arm_elf_mapping_symbol_name name); [do 2 eexists; split; [done|]; split; [done|]; by apply skip_ok|].
  assert (Hok' : fill_ok i (mk_fill (fl_items s) cache (fl_heap s) (fl_size s))) by (by split).
  fold (symbol_end sym).
  destruct (cg_golang cfg && cg_only_buildid cfg) eqn:Eonly.
  { do 2 eexists. split; [done|]. split; [done|]. eapply (keep_ok i _ sym name _ _ _ Hok'); try done.
    split; [done|]. split; [done|]. by rewrite Eonly. }
  destruct (store_name_ok (fl_heap s) name Hh) as (priv & h & -> & Hh' & Hext & Hp); [by eapply symbol_name_text|]. run.
  destruct (Z.eqb_spec priv 0).
  { do 2 eexists. split; [done|]. cbn [fl_items fl_heap]. split; [|done]. unfold balanced in *. by rewrite Hp. }
  destruct Hp as (p & t & Hp & Hpr & Hget & Hat & Hsh & Hfree). rewrite Hget. cbn [fst].
  rewrite (name_at_read _ _ _ Hh' Hat). run. do 2 eexists. split; [done|]. split; [done|].
  eapply (keep_ok i _ sym name _ _ _ Hok'); try done. split; [done|]. split; [done|]. rewrite Eonly. by exists p, t.
Qed.

Lemma symbol_loop_ok count todo i s :
  source_ok src -> fill_ok i s -> (i + todo <= count)%nat ->
  exists ok s', symbol_loop cfg src count i todo (gu_symbol_string_table_view_init (so_strtab src)) s = Done (ok, s') /\
    balanced (fl_items s') (fl_heap s') /\ heap_ok (fl_heap s') /\ (ok = true -> fill_ok (i + todo) s').
Proof.
  intros Hsrc. revert i s. induction todo as [|todo IH]; intros i s Hok Hi; cbn [symbol_loop].
  { exists true, s. destruct Hok eqn:E. rewrite Nat.add_0_r. by split_and!. }
  destruct (symbol_step_ok count i s Hsrc Hok) as (next & s' & -> & Hn); [lia|]. run. destruct next as [s1|].
  - destruct Hn as [-> Hok']. destruct (IH (S i) s' Hok') as (ok & s2 & -> & H); [lia|]. exists ok, s2.
    by replace (i + S todo)%nat with (S i + todo)%nat by lia.
  - exists false, s'. by split_and!; [done|apply Hn..|].
Qed.

Lemma fill_result_ok {HQ : Qsort} calloc_ok realloc_ok a1 a2 h :
  source_ok src -> heap_ok h -> names0 = nh_names h -> (forall size, so_shdr src <> Some (size, 0)) ->
  exists r, fill_symbols_debug_info cfg src calloc_ok realloc_ok a1 a2 h = Done r /\ heap_ok (fr_heap r) /\
    foldr delete (nh_names (fr_heap r)) (gu_interval_array_destroy (fr_symbols r)) = names0 /\
    fr_mem r = (if fr_symbols r then fr_size r else 0) /\
    forall a, fr_symbols r = Some a -> exists items size ent, so_shdr src = Some (size, ent) /\ items <> [] /\
      (gu_interval_array_init true true items).2 = Some a /\
      Forall2 (item_for cfg (fr_heap r)) (kept src (Z.to_nat (size / ent))) items.
Proof.
  intros Hsrc Hh Hnames Hent. unfold fill_symbols_debug_info. destruct (so_shdr src) as [[size ent]|]; [|by eexists].
  destruct (negb (so_data src)); [by eexists|]. destruct (Z.eqb_spec ent 0) as [->|]; [by destruct (Hent size)|].
  destruct (negb calloc_ok); [by eexists|]. set (count := Z.to_nat _).
  destruct (symbol_loop_ok count count 0 (mk_fill [] ∅ h 0) Hsrc) as (ok & s & -> & Hbal & Hh' & Hok).
  { by split. }
  { lia. }
  run. assert (Hfail : forall items, omap item_free items ≡ₚ omap item_free (fl_items s) -> exists r,
    Done (mk_result None (free_names items (fl_heap s)) (fl_size s) 0) = Done r /\ heap_ok (fr_heap r) /\
    foldr delete (nh_names (fr_heap r)) (gu_interval_array_destroy (fr_symbols r)) = names0 /\
    fr_mem r = (if fr_symbols r then fr_size r else 0) /\
    forall a, fr_symbols r = Some a -> exists items size0 ent0, Some (size, ent) = Some (size0, ent0) /\ items <> [] /\
      (gu_interval_array_init true true items).2 = Some a /\
      Forall2 (item_for cfg (fr_heap r)) (kept src (Z.to_nat (size0 / ent0))) items).
  { intros items Hp. eexists. split; [done|]. cbn [fr_heap fr_symbols fr_mem gu_interval_array_destroy foldr free_names nh_names].
    assert (Hnm : foldr delete (nh_names (fl_heap s)) (omap item_free items) = names0) by (by rewrite (foldr_delete_perm _ _ _ Hp)).
    split_and!; try done. by apply drop_names_ok. }
  destruct ok; cbn [negb]; [|by apply Hfail]. specialize (Hok eq_refl).
  case_decide as Hne.
  { eexists. split; [done|]. cbn. split_and!; try done. by rewrite Hne in Hbal. }
  destruct realloc_ok; cbn [negb]; [|by apply Hfail].
  destruct (gu_interval_array_init a1 a2 (fl_items s)) as [items arr] eqn:Einit.
  pose proof (init_freed _ _ _ _ _ Einit) as [Hp Hd]. destruct arr as [a|]; [|by apply Hfail].
  eexists. split; [done|]. cbn [fr_heap fr_symbols fr_mem fr_size].
  split; [done|]. split; [by rewrite (foldr_delete_perm _ _ _ (Hd (ex_intro _ a eq_refl)))|]. split; [done|].
  intros a' [= <-]. exists (fl_items s), size, ent. split; [done|]. split; [done|]. split; [|apply (fo_items _ _ Hok)].
  destruct a1, a2; cbn [negb gu_interval_array_init] in Einit |- *; [by rewrite Einit|unfold gu_interval_array_init in Einit; rewrite decide_False in Einit by done; done..].
Qed.
End facts.

(** ** Looking up an address *)

(** Intervals with the same bounds are searched alike. *)
Definition same_bounds (a b : interval_array_item) : Prop := start a = start b /\ end_ a = end_ b.

Lemma next_start_bounds l l' s : Forall2 same_bounds l l' -> next_start l s = next_start l' s.
Proof. induction 1 as [|a b l l' [Hs _] _ IH]; cbn [next_start]; [done|]. by rewrite Hs, IH. Qed.

Lemma closed_bounds l l' a b addr :
  Forall2 same_bounds l l' -> same_bounds a b ->
  item_contains addr (closed_item l a) = item_contains addr (closed_item l' b).
Proof.
  intros Hl [Hs He]. unfold item_contains, closed_item, effective_end, open_last_end. cbn [start end_].
  by rewrite Hs, He, (next_start_bounds _ _ _ Hl).
Qed.

Lemma disjoint_bounds l l' : Forall2 same_bounds l l' -> disjoint_items l -> disjoint_items l'.
Proof.
  intros Hl [Hd Hs He Ho]. assert (Hback : forall b, b ∈ l' -> exists a, a ∈ l /\ same_bounds a b).
  { intros b [i Hi]%list_elem_of_lookup. eapply Forall2_lookup_r in Hl as (a & Ha & Hab); [|done].
    exists a. split; [by eapply list_elem_of_lookup_2|done]. }
  split.
  - assert (start <$> l' = start <$> l) as ->; [|done]. clear -Hl. induction Hl as [|a b l l' [H _] _ IH]; [done|]. cbn. by rewrite H, IH.
  - intros b (a & Ha & <- & _)%Hback. by apply Hs.
  - intros b (a & Ha & <- & <-)%Hback. by apply He.
  - intros b b' (a & Ha & <- & <-)%Hback (a' & Ha' & <- & _)%Hback. by apply Ho.
Qed.

(** The bounds of a symbol, and the first kept symbol around an address. *)
Definition symbol_item (x : GElf_Sym * text) : interval_array_item := mk_item (st_value x.1) (symbol_end x.1) 0.
Definition symbol_at (l : list (GElf_Sym * text)) (addr : Z) : option (GElf_Sym * text) :=
  head (filter (fun x => item_contains addr (closed_item (symbol_item <$> l) (symbol_item x)) = true) l).

Lemma items_same_bounds cfg h l items :
  Forall2 (item_for cfg h) l items -> Forall2 same_bounds (symbol_item <$> l) items.
Proof. intros H. apply Forall2_fmap_l. eapply Forall2_impl; [done|]. intros x it (H1 & H2 & _). by split. Qed.

Lemma covering_symbol cfg h l items addr :
  Forall2 (item_for cfg h) l items ->
  match symbol_at l addr with
  | Some x => exists it, covering_item items addr = Some it /\ item_for cfg h x it
  | None => covering_item items addr = None
  end.
Proof.
  intros H. pose proof (items_same_bounds _ _ _ _ H) as Hb. unfold symbol_at, covering_item.
  assert (Hgen : forall l1 items1, Forall2 (item_for cfg h) l1 items1 ->
    match head (filter (fun x => item_contains addr (closed_item (symbol_item <$> l) (symbol_item x)) = true) l1) with
    | Some x => exists it, head (filter (fun it => item_contains addr (closed_item items it) = true) items1) = Some it /\ item_for cfg h x it
    | None => head (filter (fun it => item_contains addr (closed_item items it) = true) items1) = None
    end); [|by apply Hgen].
  induction 1 as [|x it l1 items1 Hx Hl1 IH]; [done|].
  assert (E : item_contains addr (closed_item (symbol_item <$> l) (symbol_item x)) = item_contains addr (closed_item items it)).
  { apply closed_bounds; [done|]. destruct Hx as (H1 & H2 & _). by split. }
  destruct (item_contains addr (closed_item items it)) eqn:Ec.
  - rewrite !filter_cons_True by done. by exists it.
  - rewrite !filter_cons_False by congruence. done.
Qed.

(** Looking up an address in the table of an image: the payload of the item found
    is one of the table, and leads to the name of the symbol. *)
Lemma lookup_kept {HM : Malloc} {HQ : Qsort} cfg src calloc_ok realloc_ok alloc_array alloc_items h r a size ent addr :
  source_ok src -> heap_ok h -> so_shdr src = Some (size, ent) -> ent <> 0 ->
  fill_symbols_debug_info cfg src calloc_ok realloc_ok alloc_array alloc_items h = Done r -> fr_symbols r = Some a ->
  disjoint_items (symbol_item <$> kept src (Z.to_nat (size / ent))) ->
  match symbol_at (kept src (Z.to_nat (size / ent))) addr with
  | Some (sym, name) => exists i it p, gu_interval_array_search (Some a) addr = Done (Z.of_nat i, it, Some a) /\
      start it = st_value sym /\ p ∈ private <$> all_items a /\ private it = (get_interval_array_pointer p).1 /\
      if cg_golang cfg && cg_only_buildid cfg then private it = 0
      else 0 < private it < 2 ^ 63 /\ exists s, read_name (fr_heap r) (private it) = Done s /\ shown cfg name s
  | None => gu_interval_array_search (Some a) addr = Done (-1, clear_interval_array_item, Some a)
  end.
Proof.
  intros Hs Hh Hshdr Hent Hfill Ha Hd.
  destruct (fill_result_ok cfg src _ calloc_ok realloc_ok alloc_array alloc_items h Hs Hh eq_refl) as (r' & E & Hh' & _ & _ & Hr).
  { intros z. rewrite Hshdr. congruence. }
  rewrite Hfill in E. injection E as <-. destruct (Hr a Ha) as (items & size' & ent' & Hshdr' & Hne & Hinit & Hits).
  rewrite Hshdr in Hshdr'. injection Hshdr' as <- <-.
  assert (Hdi : disjoint_items items) by (eapply disjoint_bounds; [by eapply items_same_bounds|done]).
  destruct (search_covering items Hne Hdi) as (a' & Hinit' & Hsearch). rewrite Hinit in Hinit'. injection Hinit' as <-.
  specialize (Hsearch addr). pose proof (covering_symbol _ _ _ _ addr Hits) as Hcov.
  destruct (symbol_at _ addr) as [[sym name]|]; [|by rewrite Hcov in Hsearch].
  destruct Hcov as (it & Hcov & Hst & _ & Hp). rewrite Hcov in Hsearch. destruct Hsearch as (i & Hsearch).
  do 2 eexists. exists (private it). split; [exact Hsearch|]. cbn [start private]. split; [done|]. split.
  { destruct (gu_interval_array_init true true items) as [items' arr] eqn:Ei. cbn in Hinit. subst arr.
    apply init_private in Ei as [_ Ep]. rewrite Ep. apply list_elem_of_fmap_2.
    unfold covering_item in Hcov. by apply head_Some_elem_of, list_elem_of_filter in Hcov as [_ ?]. }
  split; [done|]. destruct (_ && _); [by rewrite Hp|]. destruct Hp as (p & s & Hp & Hpr & Hat & Hsh).
  assert ((get_interval_array_pointer (private it)).1 = p) as ->.
  { destruct (tag_roundtrip p) as [H1 H2]; [lia|]. by destruct Hpr as [->| ->]; [rewrite H2|rewrite H1]. }
  split; [done|]. exists s. split; [by apply name_at_read|done].
Qed.

(** ** Properties *)

(** C29: filling the symbol table of any image whose header has a non-zero entry
    size, with any allocation refused, is defined and leaks no name: what it
    leaves on the heap is exactly what destroying the resulting table frees, and
    the statistics grow by exactly the size that is subtracted then. *)
Theorem symbols_balanced {HM : Malloc} {HQ : Qsort} cfg src calloc_ok realloc_ok alloc_array alloc_items h :
  source_ok src -> heap_ok h -> (forall size, so_shdr src <> Some (size, 0)) ->
  exists r, fill_symbols_debug_info cfg src calloc_ok realloc_ok alloc_array alloc_items h = Done r /\
    foldr delete (nh_names (fr_heap r)) (gu_interval_array_destroy (fr_symbols r)) = nh_names h /\
    fr_mem r = (if fr_symbols r then fr_size r else 0).
Proof.
  intros Hs Hh He. destruct (fill_result_ok cfg src _ calloc_ok realloc_ok alloc_array alloc_items h Hs Hh eq_refl He)
    as (r & E & _ & Hd & Hm & _). by exists r.
Qed.


(** ** Witnesses *)

(** A Go image with a function, an open function and a mapping symbol. *)
Definition sample_strtab : strtab :=
  mk_strtab (Some 26) (Some (NUL :: txt "main" ++ NUL :: txt "github.com/a/b.F" ++ NUL :: txt "$x" ++ [NUL], 0)) false (fun _ => None).
Definition sample_source : sym_source :=
  mk_source (Some (72, 24)) true
    (fun i => [mk_sym 1 2 1 0x1000 0x20; mk_sym 6 2 1 0x2000 0; mk_sym 23 0 1 0x1000 0] !! i) sample_strtab
    (fun i => if i =? 1 then Some 6 else None).
Definition sample_config : sym_config := mk_config true false false (fun _ => true).

Lemma sample_source_ok : source_ok sample_source.
Proof. by intros off s. Qed.

Lemma sample_kept_disjoint : disjoint_items (symbol_item <$> kept sample_source (Z.to_nat (72 / 24))).
Proof.
  assert (symbol_item <$> kept sample_source (Z.to_nat (72 / 24)) = [mk_item 0x1000 0x1020 0; mk_item 0x2000 0 0]) as ->
    by (vm_compute; reflexivity).
  solve_disjoint.
Qed.

Lemma symbols_balanced_witness :
  exists r, fill_symbols_debug_info (HM := rising_malloc) sample_config sample_source true true true false empty_names = Done r /\
    foldr delete (nh_names (fr_heap r)) (gu_interval_array_destroy (fr_symbols r)) = ∅ /\ fr_mem r = (if fr_symbols r then fr_size r else 0).
Proof.
  apply (symbols_balanced (HM := rising_malloc) sample_config sample_source true true true false empty_names).
  - apply sample_source_ok.
  - apply empty_names_ok.
  - intros size. vm_compute. intros [=].
Defined.

