(* ===== verification/KernelSyms.v ===== *)
(** * Kernel symbols: [src/gu_stacktrace.c], lines 72-76, 1859-1870, 2072-2221

    [gu_load_kernel_symbols] reads [/proc/kallsyms] into an interval index and a
    hash table of names; the two searches translate between kernel addresses and
    names.  The lock that lets one thread replace the table while others search
    it is in [KernelLock]. *)

From Stdlib Require Import Ascii.
From stdpp Require Import strings.
From S2P Require Import Prelude IntervalArray Maps PathWalk NameHeap.

(** ** Data *)

(** [struct kernel_symbol_entry]: its key is the string at [name]. *)
Record kernel_symbol_entry : Type := mk_entry {
  ke_key : text;
  ke_addr : Z;
}.

(** Look-up in a uthash table, of whose entries with one key any may be found;
    the table keeps the length of a key in an [unsigned].  [KernelHash] is the
    instance the macros give. *)
Definition keys_fit (l : list kernel_symbol_entry) (k : text) : Prop :=
  Forall (fun e => is_u32 (Z.of_nat (length (ke_key e)))) l /\ is_u32 (Z.of_nat (length k)).

Class UtHash : Type := {
  hash_find : list kernel_symbol_entry -> text -> option kernel_symbol_entry;
  hash_find_in l k e : keys_fit l k -> hash_find l k = Some e -> e ∈ l /\ ke_key e = k;
  hash_find_none l k e : keys_fit l k -> hash_find l k = None -> e ∈ l -> ke_key e <> k;
}.

(** [kernel_symbols], [kernel_symbol_hash] and [kernel_symbols_mem_size] of the
    context, [g_ksym_items_count], and the memory of the names. *)
Record ksyms : Type := mk_ksyms {
  ks_array : option interval_array;
  ks_hash : list kernel_symbol_entry;
  ks_mem : Z;
  ks_count : Z;
  ks_heap : name_heap;
}.

(** An item of the array under construction: what [realloc] adds has no
    determinate [end]. *)
Record ksym_item : Type := mk_ksym_item {
  ki_start : Z;
  ki_end : option Z;
  ki_private : Z;
}.

(** ** Reading the file *)
Definition getlines (content : text) : list text := fgets_loop (length content) (length content) content.

Definition is_text_line (line : text) : bool := strstr line (txt " t ") || strstr line (txt " T ").

(** [sscanf(line, "%lx %c %511s", ...)] with all three fields assigned. *)
Definition scan_ksym (line : text) : option (Z * ascii * text) :=
  '(addr, l) ← scan_lx line;
  match skip_space l with
  | [] => None
  | type :: l => '(name, _) ← scan_s 511 l; Some (addr, type, name)
  end.

(** The smallest power of two from [cap] on that holds [count]. *)
Fixpoint round_up (fuel : nat) (cap count : Z) : outcome Z :=
  if cap <? count then
    match fuel with
    | O => Undef SignedOverflow
    | S fuel => round_up fuel (cap * 2) count
    end
  else mret cap.

Definition initial_cap (lines : list text) (count : Z) : outcome Z :=
  if count =? 0 then
    let n := Z.of_nat (length (filter (fun l => is_text_line l = true) lines)) in
    cap ← round_up 30 1 n;
    mret (if n =? 0 then 1024 else cap)
  else mret count.

(** What the allocator answers during a load: the array, its growth and the
    hash entry at an item, and the two allocations of the index. *)
Record load_allocs : Type := mk_allocs {
  lo_calloc : bool;
  lo_realloc : nat -> bool;
  lo_entry : nat -> bool;
  lo_array : bool;
  lo_items : bool;
}.

Record load_state : Type := mk_load {
  ld_items : list ksym_item;
  ld_cap : Z;
  ld_hash : list kernel_symbol_entry;
  ld_mem : Z;
  ld_heap : name_heap;
}.

Section load.
Context {HM : Malloc} (o : load_allocs).

(** The room for one more item: [None] when [realloc] fails. *)
Definition grow_items (i : nat) (cap : Z) : outcome (option Z) :=
  if cap <=? Z.of_nat i then
    if 2 ^ 30 <=? cap then Undef SignedOverflow else mret (if lo_realloc o i then Some (cap * 2) else None)
  else mret (Some cap).

(** One line of the second pass; [cap0] is the size given to [calloc].  [None]
    is the return after a failed [realloc]. *)
Definition load_line (cap0 : Z) (line : text) (s : load_state) : outcome (option load_state) :=
  match scan_ksym line with
  | None => mret (Some s)
  | Some (addr, type, name) =>
    if negb (bool_decide (type = "t"%char) || bool_decide (type = "T"%char)) then mret (Some s) else
    let i := length (ld_items s) in
    cap ← grow_items i (ld_cap s);
    match cap with
    | None => mret None
    | Some cap =>
      let '(p, h) := strdup (ld_heap s) name in
      let item := mk_ksym_item addr (if Z.of_nat i <? cap0 then Some 0 else None) (default 0 p) in
      let hash := match p with
                  | Some _ => if lo_entry o i then ld_hash s ++ [mk_entry name addr] else ld_hash s
                  | None => ld_hash s
                  end in
      let mem := match p with Some _ => ld_mem s +w (Z.of_nat (length name) + 1) | None => ld_mem s end in
      mret (Some (mk_load (ld_items s ++ [item]) cap hash mem h))
    end
  end.

(** The second pass: [inr] is the state in which it finished, [inl] the one in
    which [realloc] failed. *)
Fixpoint load_loop (cap0 : Z) (lines : list text) (s : load_state) : outcome (load_state + load_state) :=
  match lines with
  | [] => mret (inr s)
  | line :: lines =>
    next ← load_line cap0 line s;
    match next with
    | None => mret (inl s)
    | Some s => load_loop cap0 lines s
    end
  end.

(** Freeing the names of the items. *)
Definition free_private (items : list ksym_item) (h : name_heap) : name_heap :=
  mk_heap (foldr delete (nh_names h) (ki_private <$> items)) (nh_arena h) (nh_mallocs h).

(** The items as the index reads them: an indeterminate [end] is read. *)
Fixpoint init_items (items : list ksym_item) : outcome (list interval_array_item) :=
  match items with
  | [] => mret []
  | it :: items =>
    match ki_end it with
    | None => Undef Uninit
    | Some e => l ← init_items items; mret (mk_item (ki_start it) e (ki_private it) :: l)
    end
  end.

Definition with_ks_heap (ks : ksyms) (h : name_heap) : ksyms := mk_ksyms (ks_array ks) (ks_hash ks) (ks_mem ks) (ks_count ks) h.

Definition gu_load_kernel_symbols {HQ : Qsort} (file : option text) (ks : ksyms) : outcome (Z * ksyms) :=
  match file with
  | None => mret (-1, ks)
  | Some content =>
    let lines := getlines content in
    cap0 ← initial_cap lines (ks_count ks);
    if negb (lo_calloc o) then mret (-1, ks) else
    r ← load_loop cap0 lines (mk_load [] cap0 [] 0 (ks_heap ks));
    match r with
    | inl s => mret (-1, with_ks_heap ks (free_private (ld_items s) (ld_heap s)))
    | inr s =>
      items ← init_items (ld_items s);
      match (gu_interval_array_init (lo_array o) (lo_items o) items).2 with
      | None => mret (-1, mk_ksyms (ks_array ks) (ks_hash ks) (ks_mem ks) (ld_cap s) (free_private (ld_items s) (ld_heap s)))
      | Some new_array =>
        let h := ld_heap s in
        let h := mk_heap (foldr delete (nh_names h) (gu_interval_array_destroy (ks_array ks))) (nh_arena h) (nh_mallocs h) in
        mret (0, mk_ksyms (Some new_array) (ld_hash s) (ld_mem s) (ld_cap s) h)
      end
    end
  end.
End load.

(** ** Searching *)

(** [gu_search_kernel_symbol]: the result, the offset and the text left in a
    buffer of [len > 0] bytes. *)
Definition gu_search_kernel_symbol (ks : ksyms) (addr : Z) (len : nat) : outcome (Z * option (Z * text)) :=
  match ks_array ks with
  | None => mret (-1, None)
  | Some a =>
    '(result, item, _) ← gu_interval_array_search (Some a) addr;
    if 0 <=? result then
      name ← (if private item =? 0 then Undef BadPointer else read_name (ks_heap ks) (private item));
      mret (0, Some (addr -w start item, take (len - 1) name))
    else mret (-1, None)
  end.

Definition gu_search_kernel_address {HH : UtHash} (ks : ksyms) (name : text) : Z :=
  match ks_hash ks with
  | [] => 0
  | hash => match hash_find hash name with Some e => ke_addr e | None => 0 end
  end.

(** ** Specification *)

(** The function symbols of the file, as address and name. *)
Definition ksym_of (line : text) : option (Z * text) :=
  match scan_ksym line with
  | Some (addr, type, name) =>
    if bool_decide (type = "t"%char) || bool_decide (type = "T"%char) then Some (addr, name) else None
  | None => None
  end.
Definition ksym_list (content : text) : list (Z * text) := omap ksym_of (getlines content).

(** The last symbol at or below an address. *)
Definition nearest (l : list (Z * text)) (addr : Z) (x : Z * text) : Prop :=
  x ∈ l /\ x.1 <= addr /\ forall y, y ∈ l -> y.1 <= addr -> y.1 <= x.1.

(** Every name the published index owns is there. *)
Record ks_ok (ks : ksyms) : Prop := {
  ko_heap : heap_ok (ks_heap ks);
  ko_owned p : p ∈ gu_interval_array_destroy (ks_array ks) -> is_Some (nh_names (ks_heap ks) !! p);
}.

(** ** Facts *)

(** The conversions read only characters of the line. *)
Lemma skip_space_chars l c : c ∈ skip_space l -> c ∈ l.
Proof. induction l as [|d l IH]; [done|]. cbn [skip_space]. destruct (isspace d); [|done]. intros H. right. by apply IH. Qed.
Lemma scan_digits_chars acc l v k r c : scan_digits acc l = (v, k, r) -> c ∈ r -> c ∈ l.
Proof.
  revert acc v k r. induction l as [|d l IH]; intros acc v k r; cbn [scan_digits]; [by intros [= _ _ <-]|].
  destruct (hex_digit d) as [x|]; [|by intros [= _ _ <-]]. destruct (scan_digits _ l) as [[v1 k1] r1] eqn:E.
  intros [= _ _ <-] Hc. right. by eapply IH.
Qed.
Lemma scan_lx_chars l v r c : scan_lx l = Some (v, r) -> c ∈ r -> c ∈ l.
Proof.
  unfold scan_lx. intros E Hc. apply skip_space_chars. set (l0 := skip_space l) in *.
  destruct (match l0 with [] => _ | _ => _ end) as [neg l1] eqn:E1.
  assert (H1 : forall d, d ∈ l1 -> d ∈ l0).
  { intros d Hd. destruct l0 as [|x l0]; [by injection E1 as _ <-|].
    repeat case_decide; injection E1 as _ <-; try done; by right. }
  apply H1. set (l2 := match l1 with [] => _ | _ => _ end) in E.
  assert (H2 : forall d, d ∈ l2 -> d ∈ l1).
  { intros d. unfold l2. destruct l1 as [|x [|y l1]]; [done..|]. case_decide; [|done]. intros Hd. right. by right. }
  apply H2. destruct (scan_digits 0 l2) as [[v1 k1] r1] eqn:E2. case_decide; [done|]. injection E as _ <-.
  by eapply scan_digits_chars.
Qed.
Lemma scan_word_length n l w r : scan_word n l = (w, r) -> (length w <= n)%nat.
Proof.
  revert l w r. induction n as [|n IH]; intros [|d l] w r; cbn [scan_word]; try (intros [= <- _]; cbn; lia).
  destruct (isspace d); [intros [= <- _]; cbn; lia|]. destruct (scan_word n l) as [w1 r1] eqn:E.
  intros [= <- _]. apply IH in E. cbn. lia.
Qed.

(** The names fit the buffer of [sscanf]. *)
Lemma ksym_name_short content a name : (a, name) ∈ ksym_list content -> (length name <= 511)%nat.
Proof.
  unfold ksym_list. rewrite list_elem_of_omap. intros (line & _ & Hk). unfold ksym_of, scan_ksym in Hk.
  destruct (scan_lx line) as [[addr l]|]; [|done]. cbn in Hk. destruct (skip_space l) as [|type l1]; [done|].
  unfold scan_s in Hk. destruct (scan_word 511 (skip_space l1)) as [w r] eqn:Ew. apply scan_word_length in Ew.
  case_decide; [done|]. cbn in Hk. destruct (_ || _); by simplify_eq.
Qed.

Lemma scan_word_chars n l w r c : scan_word n l = (w, r) -> c ∈ w -> c ∈ l.
Proof.
  revert l w r. induction n as [|n IH]; intros [|d l] w r; cbn [scan_word]; try (intros [= <- _]; by intros ?%not_elem_of_nil).
  destruct (isspace d); [intros [= <- _]; by intros ?%not_elem_of_nil|]. destruct (scan_word n l) as [w1 r1] eqn:E.
  intros [= <- _] [->|Hc]%elem_of_cons; [by left|]. right. by eapply IH.
Qed.

Lemma scan_ksym_chars line addr type name c : scan_ksym line = Some (addr, type, name) -> c ∈ name -> c ∈ line.
Proof.
  unfold scan_ksym. destruct (scan_lx line) as [[v l]|] eqn:E; cbn [mbind option_bind]; [|done].
  destruct (skip_space l) as [|t l1] eqn:Es; [done|]. unfold scan_s. destruct (scan_word _ _) as [w r] eqn:Ew. case_decide; [done|].
  cbn [mbind option_bind]. intros [= <- <- <-] Hc. eapply scan_lx_chars; [done|]. apply skip_space_chars. rewrite Es. right.
  apply skip_space_chars. by eapply scan_word_chars.
Qed.

Lemma scan_ksym_addr line addr type name : scan_ksym line = Some (addr, type, name) -> is_u64 addr.
Proof.
  unfold scan_ksym. destruct (scan_lx line) as [[v l]|] eqn:E; cbn [mbind option_bind]; [|done].
  apply scan_lx_range in E. destruct (skip_space l); [done|]. destruct (scan_s _ _) as [[w r]|]; cbn; [|done]. by intros [= <- _ _].
Qed.

Lemma fgets_loop_text fuel n l line : line ∈ fgets_loop fuel n l -> NUL ∉ line.
Proof.
  revert l. induction fuel as [|fuel IH]; intros l; cbn [fgets_loop]; [by intros ?%not_elem_of_nil|].
  destruct l as [|c l]; [by intros ?%not_elem_of_nil|]. destruct (fgets n (c :: l)) as [a r].
  intros [->|H]%elem_of_cons; [apply c_str_no_nul|by eapply IH].
Qed.

Section facts.
Context {HM : Malloc} (o : load_allocs) (h0 : name_heap).

(** An item under construction: its name is a block that was not there before. *)
Definition kitem_ok (h : name_heap) (x : Z * text) (it : ksym_item) : Prop :=
  ki_start it = x.1 /\ (ki_end it = Some 0 \/ ki_end it = None) /\
  (ki_private it = 0 \/
   (0 < ki_private it < 2 ^ 63 /\ nh_names h0 !! ki_private it = None /\ nh_names h !! ki_private it = Some x.2)).

Record load_ok (done_ : list (Z * text)) (s : load_state) : Prop := {
  lk_heap : heap_ok (ld_heap s);
  lk_sub : nh_names h0 ⊆ nh_names (ld_heap s);
  lk_items : Forall2 (kitem_ok (ld_heap s)) done_ (ld_items s);
  lk_balanced : foldr delete (nh_names (ld_heap s)) (ki_private <$> ld_items s) = nh_names h0;
  lk_hash e : e ∈ ld_hash s -> (ke_addr e, ke_key e) ∈ done_;
}.

Lemma load_line_ok cap0 line s done_ r :
  NUL ∉ line -> load_ok done_ s -> load_line o cap0 line s = Done r ->
  match r with
  | Some s' => load_ok (done_ ++ option_list (ksym_of line)) s'
  | None => True
  end.
Proof.
  intros Hline Hok. unfold load_line, ksym_of. destruct (scan_ksym line) as [[[addr type] name]|] eqn:Escan.
  2:{ intros [= <-]. by rewrite app_nil_r. }
  destruct (_ || _); cbn [negb]; [|intros [= <-]; by rewrite app_nil_r].
  destruct (grow_items o _ _) as [[cap|]|]; run; [|by intros [= <-]|done].
  destruct (strdup (ld_heap s) name) as [p h] eqn:Ed.
  assert (Hname : NUL ∉ name) by (intros H; apply Hline; by eapply scan_ksym_chars).
  destruct Hok as [Hh Hsub Hits Hbal Hhash]. apply strdup_ok in Ed as (Hh' & _ & Hp); [|done..].
  intros [= <-]. cbn [option_list].
  assert (Hold : nh_names (ld_heap s) ⊆ nh_names h).
  { destruct p as [a|]; [|by rewrite Hp]. destruct Hp as (Hf & -> & _). by apply insert_subseteq. }
  assert (Hkeep : Forall2 (kitem_ok h) done_ (ld_items s)).
  { eapply Forall2_impl; [done|]. intros x it (H1 & H2 & H3). split; [done|]. split; [done|].
    destruct H3 as [H3|(H3 & H4 & H5)]; [by left|]. right. split; [done|]. split; [done|]. by eapply lookup_weaken. }
  split; cbn [ld_heap ld_items ld_hash].
  - done.
  - by etrans.
  - apply Forall2_app; [done|]. constructor; [|constructor]. split; [done|]. split; [cbn; destruct (_ <? _); [by left|by right]|].
    cbn [ki_private]. destruct p as [a|]; [|by left]. destruct Hp as (Hf & Hnm & Ha & _). right. change (default 0 (Some a)) with a.
    split; [done|]. split; [|by rewrite Hnm, lookup_insert_eq].
    destruct (nh_names h0 !! _) eqn:E; [|done]. by rewrite (lookup_weaken _ _ _ _ E Hsub) in Hf.
  - rewrite fmap_app, foldr_app. cbn [fmap list_fmap foldr ki_private]. rewrite <- Hbal. f_equal. destruct p as [a|].
    + change (default 0 (Some a)) with a. destruct Hp as (Hf & -> & _). by apply delete_insert_id.
    + rewrite Hp. cbn [default from_option]. apply delete_id. destruct (nh_names (ld_heap s) !! 0) eqn:E; [|done]. apply (ho_names _ Hh) in E. lia.
  - intros e. assert (Hw : forall e, e ∈ ld_hash s -> (ke_addr e, ke_key e) ∈ done_ ++ [(addr, name)]).
    { intros e' He'. apply elem_of_app. left. by apply Hhash. }
    destruct p; [|apply Hw]. destruct (lo_entry o _); [|apply Hw]. rewrite elem_of_app. intros [He|He]; [by apply Hw|].
    apply list_elem_of_singleton in He as ->. apply elem_of_app. right. by left.
Qed.

Lemma load_loop_ok cap0 lines s done_ r :
  Forall (fun line => NUL ∉ line) lines -> load_ok done_ s -> load_loop o cap0 lines s = Done r ->
  match r with
  | inr s' => load_ok (done_ ++ omap ksym_of lines) s'
  | inl s' => exists d, load_ok d s'
  end.
Proof.
  intros Hl. revert s done_. induction Hl as [|line lines Hline _ IH]; intros s done_ Hok; cbn [load_loop].
  { intros [= <-]. by rewrite app_nil_r. }
  destruct (load_line o cap0 line s) as [[s1|]|] eqn:E; run; [| |done].
  - apply (load_line_ok _ _ _ done_) in E; [|done..]. intros Hr. apply IH with (done_ := done_ ++ option_list (ksym_of line)) in Hr; [|done].
    destruct r; [done|]. rewrite <- app_assoc in Hr. unfold omap in *. cbn [list_omap]. by destruct (ksym_of line).
  - intros [= <-]. by eexists.
Qed.

(** A successful reading of the items: every end is open. *)
Lemma init_items_ok h done_ items l :
  Forall2 (kitem_ok h) done_ items -> init_items items = Done l ->
  l = (fun it => mk_item (ki_start it) 0 (ki_private it)) <$> items.
Proof.
  intros Hf. revert l. induction Hf as [|x it done_ items (_ & He & _) _ IH]; intros l; cbn [init_items]; [by intros [= <-]|].
  destruct He as [-> | ->]; [|done]. destruct (init_items items) as [l1|]; run; [|done]. intros [= <-]. by rewrite (IH l1).
Qed.
End facts.

(** *** A finished load *)

(** An item of the published index. *)
Definition final_ok (h : name_heap) (x : Z * text) (it : interval_array_item) : Prop :=
  start it = x.1 /\ end_ it = 0 /\
  (private it = 0 \/ (0 < private it < 2 ^ 63 /\ nh_names h !! private it = Some x.2)).

Lemma load_result {HM : Malloc} {HQ : Qsort} o content ks ret ks' :
  ks_ok ks -> gu_load_kernel_symbols o (Some content) ks = Done (ret, ks') ->
  ks_ok ks' /\ (ret = 0 -> exists items a, ks_array ks' = Some a /\ items <> [] /\
    (gu_interval_array_init true true items).2 = Some a /\
    Forall2 (final_ok (ks_heap ks')) (ksym_list content) items /\
    forall e, e ∈ ks_hash ks' -> (ke_addr e, ke_key e) ∈ ksym_list content).
Proof.
  intros [Hh Hown]. unfold gu_load_kernel_symbols. destruct (initial_cap _ _) as [cap0|]; run; [|done].
  destruct (negb (lo_calloc o)); [intros [= <- <-]; by split|].
  destruct (load_loop o cap0 (getlines content) _) as [r|] eqn:El; run; [|done].
  apply (load_loop_ok o (ks_heap ks) _ _ _ []) in El.
  2:{ apply Forall_forall. intros line. apply fgets_loop_text. }
  2:{ split; cbn; try done. intros e He. by apply not_elem_of_nil in He. }
  assert (Hfail : forall d s n, load_ok (ks_heap ks) d s ->
    ks_ok (mk_ksyms (ks_array ks) (ks_hash ks) (ks_mem ks) n (free_private (ld_items s) (ld_heap s)))).
  { intros d s n [Hh1 _ _ Hbal _]. split; cbn [ks_heap ks_array]; [by apply (drop_names_ok (ki_private <$> ld_items s))|].
    intros p Hp. cbn [free_private nh_names]. rewrite Hbal. by apply Hown. }
  destruct r as [s|s].
  { destruct El as [d Hd]. intros [= <- <-]. split; [|done]. by apply (Hfail d). }
  destruct (init_items (ld_items s)) as [items|] eqn:Ei; run; [|done]. cbn [app] in El. fold (ksym_list content) in El.
  pose proof El as [Hh1 Hsub Hits Hbal Hhash]. apply (init_items_ok _ _ _ _ _ Hits) in Ei.
  destruct (gu_interval_array_init _ _ items).2 as [a|] eqn:Ea; intros [= <- <-]; [|split; [by eapply Hfail|done]].
  set (h := mk_heap _ _ _).
  assert (Hnew : forall p t, nh_names (ks_heap ks) !! p = None -> nh_names (ld_heap s) !! p = Some t -> nh_names h !! p = Some t).
  { intros p t Hp Ht. unfold h. cbn [nh_names]. rewrite foldr_delete_lookup; [done|]. intros Hin%Hown. rewrite Hp in Hin. by destruct Hin. }
  assert (Hfin : Forall2 (final_ok h) (ksym_list content) items).
  { rewrite Ei. apply Forall2_fmap_r. eapply Forall2_impl; [done|]. intros x it (H1 & _ & H3).
    split; [done|]. split; [done|]. cbn [private]. destruct H3 as [H3|(H3 & H4 & H5)]; [by left|]. right. split; [done|]. by apply Hnew. }
  assert (Hne : items <> []) by (intros ->; by destruct (lo_array o), (lo_items o)).
  assert (Hinit : (gu_interval_array_init true true items).2 = Some a).
  { unfold gu_interval_array_init in *. rewrite decide_False in Ea |- * by done. by destruct (lo_array o), (lo_items o). }
  split; [|intros _; by exists items, a]. split; cbn [ks_heap ks_array]; [by apply (drop_names_ok (gu_interval_array_destroy (ks_array ks)))|].
  destruct (gu_interval_array_init true true items) as [items' arr] eqn:Eb. cbn in Hinit. subst arr.
  destruct (init_freed _ _ _ _ _ Eb) as [_ Hd]. intros p Hp. rewrite (Hd (ex_intro _ a eq_refl)) in Hp.
  apply list_elem_of_omap in Hp as (it & Hit & Hf). apply list_elem_of_lookup in Hit as [i Hi].
  eapply Forall2_lookup_r in Hfin as (x & _ & _ & _ & Hp); [|done]. unfold item_free in Hf.
  destruct (Z.eqb_spec (private it) 0); [done|]. destruct Hp as [|[Hp Hl]]; [done|].
  destruct (tag_roundtrip (private it)) as [_ Htag]; [lia|]. rewrite Htag in Hf. injection Hf as <-. by eexists.
Qed.

(** *** Looking up an address *)
Lemma final_disjoint h l items :
  Forall2 (final_ok h) l items -> NoDup l.*1 -> Forall (fun x => 0 <= x.1 < UINT64_MAX) l -> disjoint_items items.
Proof.
  intros Hf Hnd Hr. assert (Hs : start <$> items = l.*1).
  { clear -Hf. induction Hf as [|x it l items (H & _) _ IH]; [done|]. cbn. by rewrite H, IH. }
  assert (Hin : forall it, it ∈ items -> end_ it = 0 /\ 0 <= start it < UINT64_MAX).
  { intros it [i Hi]%list_elem_of_lookup. eapply Forall2_lookup_r in Hf as (x & Hx & H1 & H2 & _); [|done].
    split; [done|]. rewrite H1. rewrite Forall_lookup in Hr. by eapply Hr. }
  split.
  - by rewrite Hs.
  - intros it Hit. by apply Hin.
  - intros it Hit. destruct (Hin it Hit) as [-> _]. split; [word|by left].
  - intros a b Ha Hb _. destruct (Hin a Ha) as [-> _]. destruct (Hin b Hb) as [_ ?]. lia.
Qed.

Lemma covering_nearest h l items addr :
  Forall2 (final_ok h) l items -> NoDup l.*1 -> Forall (fun x => 0 <= x.1 < UINT64_MAX) l ->
  (forall x, nearest l addr x -> addr < open_last_end (mk_item x.1 0 0) ->
     exists it, covering_item items addr = Some it /\ final_ok h x it) /\
  ((forall x, x ∈ l -> addr < x.1) -> covering_item items addr = None).
Proof.
  intros Hf Hnd Hr. pose proof (final_disjoint _ _ _ Hf Hnd Hr) as Hd. split.
  - intros x (Hx & Hle & Hmax) Hlast. apply list_elem_of_lookup in Hx as [i Hi].
    pose proof Hf as Hf'. eapply Forall2_lookup_l in Hf' as (it & Hit & Hok); [|done]. exists it. split; [|done].
    destruct Hok as (H1 & H2 & _). apply covering_unique; [done|by eapply list_elem_of_lookup_2|].
    unfold item_contains, closed_item, effective_end. cbn [start end_]. rewrite H2, H1. cbn [Z.eqb]. apply andb_true_iff.
    split; [by apply Z.leb_le|]. apply Z.ltb_lt. destruct (next_start items x.1) as [e|] eqn:En; cbn [default from_option].
    + apply next_start_Some in En as (Hlt & (b & Hb & <-) & _). apply list_elem_of_lookup in Hb as [j Hj].
      eapply Forall2_lookup_r in Hf as (y & Hy & Hy1 & _); [|done]. apply Z.lt_nge. intros Hge. unfold id in *. rewrite Hy1 in *.
      specialize (Hmax y (list_elem_of_lookup_2 _ _ _ Hy) Hge). lia.
    + unfold open_last_end in *. cbn [start] in *. by rewrite H1.
  - intros Hall. unfold covering_item. destruct (filter _ items) as [|it rest] eqn:E; [done|]. exfalso.
    assert (Hin : it ∈ it :: rest) by (by left). rewrite <- E in Hin. apply list_elem_of_filter in Hin as [Hc [i Hi]%list_elem_of_lookup].
    eapply Forall2_lookup_r in Hf as (x & Hx & H1 & _); [|done]. specialize (Hall x (list_elem_of_lookup_2 _ _ _ Hx)).
    unfold item_contains, closed_item in Hc. cbn [start] in Hc. rewrite H1 in Hc. apply andb_true_iff in Hc as [Hc _]. apply Z.leb_le in Hc. lia.
Qed.

(** No name was refused: every item of the index has its name. *)
Definition all_named (ks : ksyms) : Prop :=
  match ks_array ks with Some a => 0 ∉ (private <$> all_items a) | None => True end.

Lemma lookup_loaded {HM : Malloc} {HQ : Qsort} o content ks ks' addr len :
  ks_ok ks -> gu_load_kernel_symbols o (Some content) ks = Done (0, ks') -> all_named ks' ->
  NoDup (ksym_list content).*1 -> Forall (fun x => 0 <= x.1 < UINT64_MAX) (ksym_list content) ->
  (forall x, nearest (ksym_list content) addr x -> addr < open_last_end (mk_item x.1 0 0) ->
     gu_search_kernel_symbol ks' addr len = Done (0, Some (addr -w x.1, take (len - 1) x.2))) /\
  ((forall x, x ∈ ksym_list content -> addr < x.1) -> gu_search_kernel_symbol ks' addr len = Done (-1, None)).
Proof.
  intros Hks Hload Hnamed Hnd Hr. apply (load_result _ _ _ _ _ Hks) in Hload as [[Hh _] Hload].
  destruct (Hload eq_refl) as (items & a & Ha & Hne & Hinit & Hf & _).
  destruct (search_covering items Hne (final_disjoint _ _ _ Hf Hnd Hr)) as (a' & Hinit' & Hsearch).
  rewrite Hinit in Hinit'. injection Hinit' as <-. specialize (Hsearch addr).
  destruct (covering_nearest _ _ _ addr Hf Hnd Hr) as [Hcov Hnone]. unfold gu_search_kernel_symbol, all_named in *. rewrite Ha in *.
  split.
  - intros x Hx Hlast. destruct (Hcov x Hx Hlast) as (it & Hc & H1 & _ & Hp). rewrite Hc in Hsearch. destruct Hsearch as (i & ->). run.
    cbn [start private]. rewrite (proj2 (Z.leb_le _ _)) by lia.
    assert (Hit : private it <> 0).
    { intros E. apply Hnamed. destruct (gu_interval_array_init true true items) as [items' arr] eqn:Eb. cbn in Hinit. subst arr.
      apply init_private in Eb as [_ Hpr]. rewrite Hpr. rewrite <- E. apply list_elem_of_fmap_2.
      unfold covering_item in Hc. apply head_Some_elem_of, list_elem_of_filter in Hc. by destruct Hc. }
    destruct Hp as [|[Hp Hl]]; [done|]. destruct (tag_roundtrip (private it)) as [_ Htag]; [lia|]. rewrite Htag. cbn [fst].
    rewrite (proj2 (Z.eqb_neq _ _)) by done. unfold read_name. rewrite Hl. run. by rewrite H1.
  - intros Hall. rewrite (Hnone Hall) in Hsearch. by rewrite Hsearch.
Qed.

(** ** Properties *)


(** Looking a name up and then its address gives the name back, with
    distance zero. *)
Theorem kernel_symbol_roundtrip {HM : Malloc} {HQ : Qsort} {HH : UtHash} o content ks ks' name len :
  ks_ok ks -> gu_load_kernel_symbols o (Some content) ks = Done (0, ks') -> all_named ks' ->
  NoDup (ksym_list content).*1 -> Forall (fun x => UINT32_MAX <= x.1 < UINT64_MAX - 1) (ksym_list content) ->
  (length name < len)%nat -> is_u32 (Z.of_nat (length name)) -> gu_search_kernel_address ks' name <> 0 ->
  gu_search_kernel_symbol ks' (gu_search_kernel_address ks' name) len = Done (0, Some (0, name)).
Proof.
  intros Hks Hload Hnamed Hnd Hr Hlen Hfit Hne.
  assert (Hin : (gu_search_kernel_address ks' name, name) ∈ ksym_list content).
  { pose proof (load_result _ _ _ _ _ Hks Hload) as [_ Hres]. destruct (Hres eq_refl) as (items & a & _ & _ & _ & _ & Hhash).
    unfold gu_search_kernel_address in *. destruct (ks_hash ks') as [|e0 es]; [done|].
    destruct (hash_find (e0 :: es) name) as [e|] eqn:E; [|done]. apply hash_find_in in E as [He <-]; [by apply Hhash|].
    split; [|done]. apply Forall_forall. intros e' He'%Hhash%ksym_name_short. word. }
  set (a := gu_search_kernel_address ks' name) in *. pose proof (proj1 (Forall_forall _ _) Hr _ Hin) as Ha. cbn [fst] in Ha.
  destruct (lookup_loaded o content ks ks' a len Hks Hload Hnamed Hnd) as [H1 _].
  { eapply Forall_impl; [done|]. cbn. intros x. word. }
  rewrite (H1 (a, name)).
  - cbn [fst snd]. rewrite sub64_small by word. rewrite Z.sub_diag, take_ge by lia. done.
  - split; [done|]. split; [done|]. intros y _ Hy. done.
  - unfold open_last_end. cbn [start fst]. destruct (Z.ltb_spec a UINT32_MAX); lia.
Qed.

(** ** Witnesses *)
Definition all_allocs : load_allocs := mk_allocs true (fun _ => true) (fun _ => true) true true.
Definition line_of (s : string) : text := txt s ++ [newline].
Definition sample_kallsyms : text :=
  line_of "ffffffff81000000 T _text" ++ line_of "ffffffff81000040 d data" ++ line_of "ffffffff81000100 t do_one".
Definition no_ksyms : ksyms := mk_ksyms None [] 0 0 empty_names.

Lemma no_ksyms_ok : ks_ok no_ksyms.
Proof. split; [apply empty_names_ok|]. intros p Hp. by apply not_elem_of_nil in Hp. Qed.

(** The state after loading the sample. *)
Definition loaded_ksyms : ksyms :=
  match gu_load_kernel_symbols (HM := rising_malloc) all_allocs (Some sample_kallsyms) no_ksyms with
  | Done (_, ks) => ks
  | Undef _ => no_ksyms
  end.

(** The items added by [realloc] have no determinate end, which the index
    reads: a reload that finds more symbols than the capacity kept from the
    first load is undefined. *)
Theorem kernel_reload_reads_uninit :
  match gu_load_kernel_symbols (HM := rising_malloc) all_allocs (Some (line_of "ffffffff81000000 T _text")) no_ksyms with
  | Done (0, ks) => gu_load_kernel_symbols (HM := rising_malloc) all_allocs (Some sample_kallsyms) ks = Undef Uninit
  | _ => False
  end.
Proof. vm_compute. reflexivity. Qed.

Definition first_find : UtHash.
Proof.
  refine {| hash_find := fun l k => head (filter (fun e => ke_key e = k) l) |}.
  - intros l k e _ H. apply head_Some_elem_of, list_elem_of_filter in H. by destruct H.
  - intros l k e _ H He Hk. apply head_None in H. eapply not_elem_of_nil. rewrite <- H. by apply list_elem_of_filter.
Defined.

Lemma sample_ksyms : ksym_list sample_kallsyms = [(0xffffffff81000000, txt "_text"); (0xffffffff81000100, txt "do_one")].
Proof. vm_compute. reflexivity. Qed.
Lemma sample_load : gu_load_kernel_symbols (HM := rising_malloc) all_allocs (Some sample_kallsyms) no_ksyms = Done (0, loaded_ksyms).
Proof. vm_compute. reflexivity. Qed.
Lemma sample_named : all_named loaded_ksyms.
Proof. apply (bool_decide_unpack _). vm_compute. done. Qed.
Lemma sample_addresses : NoDup (ksym_list sample_kallsyms).*1.
Proof. apply (bool_decide_unpack _). vm_compute. done. Qed.


Lemma kernel_symbol_roundtrip_witness :
  gu_search_kernel_symbol loaded_ksyms (gu_search_kernel_address (HH := first_find) loaded_ksyms (txt "do_one")) 16
    = Done (0, Some (0, txt "do_one")).
Proof.
  apply (kernel_symbol_roundtrip (HM := rising_malloc) (HH := first_find) all_allocs sample_kallsyms no_ksyms loaded_ksyms (txt "do_one") 16
    no_ksyms_ok sample_load sample_named sample_addresses).
  - apply (bool_decide_unpack _). vm_compute. done.
  - cbn. lia.
  - apply (bool_decide_unpack _). vm_compute. done.
  - vm_compute. done.
Defined.
