(* ===== verification/KernelHash.v ===== *)
(** * The hash table of kernel symbols: [src/gu_stacktrace.c], lines 72-76, 2143, 2216

    [KernelSyms] searches names through the interface [UtHash].  This file is the
    instance the macros of [include/uthash.h] give: the entries added one by one
    with [HASH_ADD_KEYPTR], and [HASH_FIND_STR] in the table they form. *)

From Stdlib Require Import Ascii.
From stdpp Require Import strings.
From S2P Require Import Prelude HashTable HashChains HashRefine Maps KernelSyms.
Import Uthash.

(** The bytes of a name. *)
Definition name_bytes (s : text) : list Z := code <$> s.

(** [offsetof(struct kernel_symbol_entry, hh)] and the size of an entry; entry
    [i] as [malloc] may place it. *)
Definition entry_hh : Z := 16.
Definition entry_size : Z := 72.
Definition entry_addr (i : nat) : Z := (Z.of_nat i + 1) * entry_size.

(** The elements of the table: address and key. *)
Definition entries (l : list kernel_symbol_entry) : list (Z * list Z) :=
  imap (fun i e => (entry_addr i, name_bytes (ke_key e))) l.

(** [HASH_ADD_KEYPTR(hh, new_hash, entry->name, strlen(entry->name), entry)] for
    each entry. *)
Definition add_all (items : list (Z * list Z)) : list hash_op :=
  (fun x => Add ample x.1 x.2 (Z.of_nat (length x.2))) <$> items.
Definition kernel_heap (items : list (Z * list Z)) : heap :=
  list_to_map ((fun x => (x.1 + entry_hh, zeroed)) <$> items).
Definition kernel_table (l : list kernel_symbol_entry) : outcome (option (memory * option Z)) :=
  run_ops entry_hh (add_all (entries l)) (mk_mem (kernel_heap (entries l)) ∅, None).

(** [HASH_FIND_STR(ctx->kernel_symbol_hash, name, entry)].  Nothing is searched
    after a failed allocation, which ends the process; the first entry stands
    for that case. *)
Definition find_entry (l : list kernel_symbol_entry) (k : text) : option kernel_symbol_entry :=
  match kernel_table l with
  | Done (Some (m, head)) =>
    match HASH_FIND_STR entry_hh m head (name_bytes k) with
    | Done (Some e) => l !! Z.to_nat (e / entry_size - 1)
    | _ => None
    end
  | _ => @hash_find first_find l k
  end.

Lemma code_inj a b : code a = code b -> a = b.
Proof.
  unfold code. intros H%N2Z.inj. rewrite <- (ascii_N_embedding a), <- (ascii_N_embedding b). by rewrite H.
Qed.

#[export] Instance name_bytes_inj : Inj (=) (=) name_bytes.
Proof.
  intros x y. unfold name_bytes. revert y. induction x as [|a x IH]; intros [|b y] H; try done.
  injection H as Ha Hx. f_equal; [by apply code_inj|by apply IH].
Qed.

Lemma entry_index i : Z.to_nat (entry_addr i / entry_size - 1) = i.
Proof. unfold entry_addr. rewrite Z.div_mul by done. lia. Qed.

Lemma elem_of_entries l a k :
  (a, k) ∈ entries l <-> exists i e, l !! i = Some e /\ a = entry_addr i /\ k = name_bytes (ke_key e).
Proof.
  unfold entries. rewrite elem_of_lookup_imap. split.
  - intros (i & e & [= -> ->] & Hi). eauto.
  - intros (i & e & Hi & -> & ->). eauto.
Qed.

Lemma entries_nodup l : NoDup (entries l).*1.
Proof.
  apply NoDup_alt. intros i j a. rewrite !list_lookup_fmap. unfold entries. rewrite !list_lookup_imap.
  destruct (l !! i), (l !! j); cbn; try done. unfold entry_addr, entry_size. intros [= <-] [= H]. lia.
Qed.

(** The additions meet what the table asks of its callers. *)
Lemma add_all_ok base H0 items : forall acc,
  NoDup (acc ++ items).*1 -> Forall (fun x => is_u32 (Z.of_nat (length x.2))) items ->
  (forall x, x ∈ items -> is_Some (H0 !! (x.1 + entry_hh))) -> base = ∅ ->
  ops_ok entry_hh base H0 acc (add_all items) /\ foldl spec_op acc (add_all items) = acc ++ items.
Proof.
  induction items as [|[e k] items IH]; intros acc Hnd Hfit Hh Hb; cbn [add_all fmap list_fmap ops_ok foldl].
  { by rewrite app_nil_r. }
  apply Forall_cons in Hfit as [Hk Hfit]. cbn [fst snd spec_op]. rewrite Nat2Z.id, firstn_all.
  destruct (IH (acc ++ [(e, k)])) as [Hok Hfold]; [by rewrite <- app_assoc|done|set_solver|done|].
  split; [|change (foldl spec_op (acc ++ [(e, k)]) (add_all items) = acc ++ (e, k) :: items); by rewrite Hfold, <- app_assoc].
  split; [|done].
  split_and!; [apply ample_bounded|intros t _; by rewrite Hb|by apply (Hh (e, k)); set_solver| |done|done].
  rewrite fmap_app in Hnd. apply NoDup_app in Hnd as (_ & Hd & _). intros Hin. apply (Hd e Hin). set_solver.
Qed.

Lemma kernel_heap_alive items x : x ∈ items -> is_Some (kernel_heap items !! (x.1 + entry_hh)).
Proof.
  intros Hx. unfold kernel_heap. apply not_eq_None_Some. rewrite <- not_elem_of_list_to_map. intros Hn. apply Hn.
  rewrite <- list_fmap_compose. apply list_elem_of_fmap. by exists x.
Qed.

Lemma kernel_table_represents l m head :
  Forall (fun e => is_u32 (Z.of_nat (length (ke_key e)))) l -> kernel_table l = Done (Some (m, head)) ->
  represents entry_hh ∅ m head (entries l).
Proof.
  intros Hl Hrun.
  assert (Forall (fun x => is_u32 (Z.of_nat (length x.2))) (entries l)) as Hfit.
  { apply Forall_forall. intros [a kb] (i & e & Hi & -> & ->)%elem_of_entries. cbn. unfold name_bytes. rewrite length_fmap.
    apply (proj1 (Forall_forall _ _) Hl). by eapply list_elem_of_lookup_2. }
  destruct (add_all_ok ∅ (kernel_heap (entries l)) (entries l) []) as [Hok Hfold];
    [by apply entries_nodup|done|by apply kernel_heap_alive|done|].
  destruct (run_ops_ok entry_hh ∅ (kernel_heap (entries l)) (add_all (entries l)) _ _ []
              (represents_empty entry_hh (kernel_heap (entries l)) ∅) (fun _ H => H) Hok)
    as [(? & ? & ? & ? & ? & ? & ? & ? & _ & Hx & _)|(m1 & head1 & Hrun1 & Hr)].
  { unfold kernel_table in Hrun. by rewrite Hx in Hrun. }
  unfold kernel_table in Hrun. rewrite Hrun in Hrun1. injection Hrun1 as <- <-. by rewrite Hfold in Hr.
Qed.

(** The search in the pointers finds an entry of the name, if there is one. *)
Lemma find_entry_ok l k m head :
  keys_fit l k -> kernel_table l = Done (Some (m, head)) ->
  exists r, HASH_FIND_STR entry_hh m head (name_bytes k) = Done r /\
    match r with
    | Some a => (a, name_bytes k) ∈ entries l
    | None => forall a, (a, name_bytes k) ∉ entries l
    end.
Proof.
  intros [Hl Hk] Hrun. pose proof (kernel_table_represents l m head Hl Hrun) as Hr.
  unfold HASH_FIND_STR. assert (is_u32 (Z.of_nat (length (name_bytes k)))) as Hk' by (unfold name_bytes; by rewrite length_fmap).
  rewrite wrap_small by done.
  destruct (ob_find _ _ _ _ _ (represents_observes _ _ _ _ _ Hr) (name_bytes k) (Z.of_nat (length (name_bytes k))) Hk') as (r & Hf & Hres);
    [lia|]. exists r. split; [done|]. by rewrite Nat2Z.id, firstn_all in Hres.
Qed.

(** The table of the macros implements the interface. *)
#[export] Instance uthash_table : UtHash.
Proof.
  refine {| hash_find := find_entry |}; intros l k e Hfit; unfold find_entry.
  - destruct (kernel_table l) as [[[m head]|]|] eqn:Hrun; [|by apply (@hash_find_in first_find)..].
    destruct (find_entry_ok l k m head Hfit Hrun) as (r & -> & Hr). destruct r as [a|]; [|done].
    apply elem_of_entries in Hr as (i & e' & Hi & -> & Hk%(inj _)). rewrite entry_index, Hi. intros [= <-].
    split; [by eapply list_elem_of_lookup_2|done].
  - destruct (kernel_table l) as [[[m head]|]|] eqn:Hrun; [|by apply (@hash_find_none first_find)..].
    destruct (find_entry_ok l k m head Hfit Hrun) as (r & -> & Hr). destruct r as [a|].
    + apply elem_of_entries in Hr as (i & e' & Hi & -> & _). by rewrite entry_index, Hi.
    + intros _ [i Hi]%list_elem_of_lookup_1 Hk. apply (Hr (entry_addr i)), elem_of_entries. exists i, e. by subst k.
Defined.

(** [gu_kernel_symbol_hash_destroy]: every entry is taken out and freed. *)
Definition gu_kernel_symbol_hash_destroy (m : memory) (hash : option Z) : outcome memory :=
  match hash with
  | None => mret m
  | Some _ => '(m, _) ← HASH_ITER entry_hh fst (sweep entry_hh (fun _ => false)) (size (handles m)) hash (m, hash); mret m
  end.

Lemma represents_size base m head items : represents entry_hh base m head items -> (length items <= size (handles m))%nat.
Proof.
  intros Hr. pose proof (represents_nodup _ _ _ _ _ Hr) as Hnd. rewrite <- (length_fmap fst), <- (length_fmap (fun e => e + entry_hh)).
  apply size_bound; [by apply NoDup_handles|]. intros p (x & -> & Hx)%list_elem_of_fmap. by eapply represents_alive.
Qed.

(** Destroying the table of a load leaves neither table nor entry. *)
Theorem kernel_hash_destroyed l m head :
  Forall (fun e => is_u32 (Z.of_nat (length (ke_key e)))) l -> kernel_table l = Done (Some (m, head)) ->
  exists m', gu_kernel_symbol_hash_destroy m head = Done m' /\ tables m' = ∅ /\
    forall x, x ∈ entries l -> handles m' !! (x.1 + entry_hh) = None.
Proof.
  intros Hl Hrun. pose proof (kernel_table_represents l m head Hl Hrun) as Hr.
  destruct (hash_sweep_ok entry_hh ∅ (fun _ => false) (entries l) m head _ Hr (represents_size _ _ _ _ Hr))
    as (m' & head' & Hit & Hr' & _ & Hnone).
  assert (filter (fun x : Z * list Z => false = true) (entries l) = []) as Enil.
  { generalize (entries l) as xs. intros xs. induction xs as [|x xs IH]; [done|]. by rewrite filter_cons, decide_False. }
  rewrite Enil in Hr'. destruct Hr' as [_ Ht].
  destruct head as [h|].
  - exists m'. split; [cbn [gu_kernel_symbol_hash_destroy]; by rewrite Hit|]. split; [done|].
    intros [e k] Hx. by eapply Hnone.
  - destruct Hr as [Hh Ht']. destruct (entries l) as [|x xs]; [|done]. exists m. split_and!; [done|done|set_solver].
Qed.

(** The loaded symbols of [KernelSyms], searched through the pointers. *)
Example kernel_address_by_pointers :
  gu_search_kernel_address (HH := uthash_table) loaded_ksyms (txt "do_one") = 0xffffffff81000100 /\
  gu_search_kernel_address (HH := uthash_table) loaded_ksyms (txt "missing") = 0.
Proof. vm_compute. done. Qed.

Definition two_entries : list kernel_symbol_entry := [mk_entry (txt "_text") 0xffffffff81000000; mk_entry (txt "do_one") 0xffffffff81000100].

Lemma kernel_hash_destroyed_witness :
  exists m head m', kernel_table two_entries = Done (Some (m, head)) /\
    gu_kernel_symbol_hash_destroy m head = Done m' /\ tables m' = ∅.
Proof.
  destruct (kernel_table two_entries) as [[[m head]|]|] eqn:Hrun.
  - destruct (kernel_hash_destroyed two_entries m head) as (m' & Hd & Ht & _).
    + unfold two_entries. repeat constructor; by vm_compute.
    + exact Hrun.
    + exists m, head, m'. split; [reflexivity|]. split; [exact Hd|exact Ht].
  - exfalso. revert Hrun. vm_compute. discriminate.
  - exfalso. revert Hrun. vm_compute. discriminate.
Defined.
