(* ===== verification/KernelLock.v ===== *)
(** * Replacing the kernel symbols while they are searched: [src/gu_stacktrace.c], lines 2072, 2150-2221

    [kernel_symbols_mutex] protects the pointers to the index and the hash
    table.  A loader publishes a new table under the lock and destroys the old
    one after releasing it; searches hold the lock.  Tables are generations;
    following a pointer into a destroyed one is a fault.  A schedule is the
    list of the threads that take the next step. *)

From S2P Require Import Prelude.

(** ** Threads *)

(** The steps of [gu_load_kernel_symbols] from the new table on: [old_array] is
    read before the lock is taken. *)
Inductive loader_pc : Type :=
  | LIdle
  | LReady (old : option nat) (new : nat)
  | LLocked (old : option nat) (new : nat)
  | LSwapped (old : option nat)
  | LUnlocked (old : option nat).

(** [gu_search_kernel_symbol]: everything happens between lock and unlock. *)
Inductive finder_pc : Type :=
  | FIdle
  | FLocked
  | FSearching (g : nat)
  | FDone.

(** [gu_search_kernel_address]: the entry found is read after the unlock. *)
Inductive address_pc : Type :=
  | AIdle
  | ALocked
  | ASearching (g : nat)
  | AFound (g : option nat)
  | AUnlocked (g : option nat).

Inductive thread : Type :=
  | Loader (pc : loader_pc)
  | Finder (pc : finder_pc)
  | Addresser (pc : address_pc).

Record lock_state : Type := mk_lock_state {
  k_published : option nat;
  k_alive : gset nat;
  k_next : nat;
  k_holder : option nat;
  k_threads : gmap nat thread;
}.

Definition with_thread (s : lock_state) (t : nat) (th : thread) : lock_state :=
  mk_lock_state (k_published s) (k_alive s) (k_next s) (k_holder s) (<[t := th]> (k_threads s)).
Definition locked (s : lock_state) (h : option nat) : lock_state :=
  mk_lock_state (k_published s) (k_alive s) (k_next s) h (k_threads s).

(** Taking the lock: [None] is to wait. *)
Definition lock (s : lock_state) (t : nat) (th : thread) : option (outcome lock_state) :=
  match k_holder s with
  | Some _ => None
  | None => Some (Done (with_thread (locked s (Some t)) t th))
  end.
Definition unlock (s : lock_state) (t : nat) (th : thread) : option (outcome lock_state) :=
  Some (Done (with_thread (locked s None) t th)).

(** Following a pointer into table [g]. *)
Definition follow (s : lock_state) (g : nat) (s' : lock_state) : option (outcome lock_state) :=
  Some (if decide (g ∈ k_alive s) then Done s' else Undef BadPointer).

Definition loader_step (s : lock_state) (t : nat) (pc : loader_pc) : option (outcome lock_state) :=
  match pc with
  | LIdle =>
    let new := k_next s in
    Some (Done (with_thread (mk_lock_state (k_published s) ({[new]} ∪ k_alive s) (S new) (k_holder s) (k_threads s)) t
                  (Loader (LReady (k_published s) new))))
  | LReady old new => lock s t (Loader (LLocked old new))
  | LLocked old new =>
    Some (Done (with_thread (mk_lock_state (Some new) (k_alive s) (k_next s) (k_holder s) (k_threads s)) t (Loader (LSwapped old))))
  | LSwapped old => unlock s t (Loader (LUnlocked old))
  | LUnlocked None => Some (Done (with_thread s t (Loader LIdle)))
  | LUnlocked (Some g) =>
    follow s g (with_thread (mk_lock_state (k_published s) (k_alive s ∖ {[g]}) (k_next s) (k_holder s) (k_threads s)) t (Loader LIdle))
  end.

Definition finder_step (s : lock_state) (t : nat) (pc : finder_pc) : option (outcome lock_state) :=
  match pc with
  | FIdle => lock s t (Finder FLocked)
  | FLocked => Some (Done (with_thread s t (Finder (match k_published s with Some g => FSearching g | None => FDone end))))
  | FSearching g => follow s g (with_thread s t (Finder FDone))
  | FDone => unlock s t (Finder FIdle)
  end.

Definition address_step (s : lock_state) (t : nat) (pc : address_pc) : option (outcome lock_state) :=
  match pc with
  | AIdle => lock s t (Addresser ALocked)
  | ALocked => Some (Done (with_thread s t (Addresser (match k_published s with Some g => ASearching g | None => AFound None end))))
  | ASearching g => follow s g (with_thread s t (Addresser (AFound (Some g))))
  | AFound g => unlock s t (Addresser (AUnlocked g))
  | AUnlocked None => Some (Done (with_thread s t (Addresser AIdle)))
  | AUnlocked (Some g) => follow s g (with_thread s t (Addresser AIdle))
  end.

(** The next step of a thread; [None] when it has to wait or does not exist. *)
Definition thread_step (s : lock_state) (t : nat) : option (outcome lock_state) :=
  match k_threads s !! t with
  | None => None
  | Some (Loader pc) => loader_step s t pc
  | Some (Finder pc) => finder_step s t pc
  | Some (Addresser pc) => address_step s t pc
  end.

Fixpoint run_schedule (s : lock_state) (ts : list nat) : outcome lock_state :=
  match ts with
  | [] => mret s
  | t :: ts =>
    match thread_step s t with
    | None => run_schedule s ts
    | Some r => s ← r; run_schedule s ts
    end
  end.

Definition initial_state (threads : gmap nat thread) : lock_state := mk_lock_state None ∅ 0 None threads.

(** ** Invariant *)

(** One loader and any number of symbol searches. *)
Definition is_loader (th : thread) : bool := match th with Loader _ => true | _ => false end.
Definition supported (th : thread) : bool := match th with Addresser _ => false | _ => true end.
Definition critical (th : thread) : bool :=
  match th with
  | Loader (LLocked _ _) | Loader (LSwapped _) => true
  | Finder FIdle => false
  | Finder _ => true
  | _ => false
  end.

(** What a thread relies on. *)
Definition thread_ok (s : lock_state) (th : thread) : Prop :=
  match th with
  | Loader LIdle => True
  | Loader (LReady old new) | Loader (LLocked old new) => old = k_published s /\ new ∈ k_alive s /\ k_published s <> Some new
  | Loader (LSwapped old) | Loader (LUnlocked old) => forall g, old = Some g -> g ∈ k_alive s /\ k_published s <> Some g
  | Finder (FSearching g) => k_published s = Some g
  | Finder _ => True
  | Addresser _ => False
  end.

Record lock_ok (s : lock_state) : Prop := {
  lo_published g : k_published s = Some g -> g ∈ k_alive s;
  lo_fresh g : g ∈ k_alive s -> (g < k_next s)%nat;
  lo_threads t th : k_threads s !! t = Some th -> thread_ok s th /\ (critical th = true <-> k_holder s = Some t);
  lo_holder t : k_holder s = Some t -> is_Some (k_threads s !! t);
  lo_loader t t' th th' : k_threads s !! t = Some th -> k_threads s !! t' = Some th' ->
    is_loader th = true -> is_loader th' = true -> t = t';
}.

(** ** Facts *)

(** One thread moves; the others must still be right about the table. *)
Lemma lock_ok_update s t th th' pub alive next holder :
  lock_ok s -> k_threads s !! t = Some th -> is_loader th' = is_loader th ->
  let s' := mk_lock_state pub alive next holder (<[t := th']> (k_threads s)) in
  (forall g, pub = Some g -> g ∈ alive) -> (forall g, g ∈ alive -> (g < next)%nat) ->
  thread_ok s' th' -> (critical th' = true <-> holder = Some t) ->
  (forall u thu, u <> t -> k_threads s !! u = Some thu -> thread_ok s thu -> (critical thu = true <-> k_holder s = Some u) ->
    thread_ok s' thu /\ (critical thu = true <-> holder = Some u)) ->
  (forall u, holder = Some u -> u = t \/ k_holder s = Some u) ->
  lock_ok s'.
Proof.
  intros [Hp Hf Ht Hh Hl] E Hld s' Hp' Hf' Hth Hcr Hothers Hholder. split; unfold s'; cbn [k_published k_alive k_next k_holder k_threads]; try done.
  - intros u thu [[<- <-]|[Hne Hu]]%lookup_insert_Some; [done|]. destruct (Ht _ _ Hu). by apply Hothers.
  - intros u [->|Hu]%Hholder; [rewrite lookup_insert_eq; by eexists|]. destruct (Hh _ Hu) as [thu Hthu].
    destruct (decide (u = t)) as [->|]; [rewrite lookup_insert_eq; by eexists|]. rewrite lookup_insert_ne by done. by eexists.
  - intros u u' thu thu' [[<- <-]|[Hne Hu]]%lookup_insert_Some [[<- <-]|[Hne' Hu']]%lookup_insert_Some H1 H2; try done.
    + rewrite Hld in H1. by eapply Hl.
    + rewrite Hld in H2. by eapply Hl.
    + by eapply Hl.
Qed.

Ltac expose := unfold with_thread, locked; cbn [k_published k_alive k_next k_holder k_threads].

Lemma finder_step_ok s t pc r :
  lock_ok s -> k_threads s !! t = Some (Finder pc) -> finder_step s t pc = Some r -> exists s', r = Done s' /\ lock_ok s'.
Proof.
  intros Hok E. pose proof (lo_threads _ Hok _ _ E) as [Hth Hcr]. pose proof (lo_published _ Hok) as Hp. pose proof (lo_fresh _ Hok) as Hf.
  assert (Hmove : forall pc', (critical (Finder pc') = true <-> k_holder s = Some t) -> thread_ok s (Finder pc') ->
    lock_ok (with_thread s t (Finder pc'))).
  { intros pc' Hc' Ht'. expose; eapply (lock_ok_update s); try done. intros u Hu. by right. }
  destruct pc as [| |g|]; cbn [finder_step].
  - unfold lock. destruct (k_holder s) eqn:Eh; [done|]. intros [= <-]. eexists. split; [done|].
    expose; eapply (lock_ok_update s); try done; [|intros u [= <-]; by left].
    intros u thu Hne _ H1 H2. split; [by destruct thu as [[]|[]|[]]|]. rewrite H2, Eh. split; [done|]. intros [= ->]. done.
  - intros [= <-]. eexists. split; [done|]. apply Hmove; destruct (k_published s) eqn:Ep; try done.
  - cbn in Hth. unfold follow. rewrite decide_True by (by apply Hp). intros [= <-]. eexists. split; [done|]. by apply Hmove.
  - intros [= <-]. eexists. split; [done|]. expose; eapply (lock_ok_update s); try done.
    intros u thu Hne _ H1 H2. split; [by destruct thu as [[]|[]|[]]|]. rewrite H2. split; [|done].
    intros Hu. rewrite (proj1 Hcr eq_refl) in Hu. congruence.
Qed.

(** No other thread is a loader, nor inside the lock while [t] is. *)
Lemma other_finder s t pc u thu :
  lock_ok s -> k_threads s !! t = Some (Loader pc) -> u <> t -> k_threads s !! u = Some thu ->
  exists pc', thu = Finder pc' /\ (k_holder s = Some t -> pc' = FIdle).
Proof.
  intros Hok E Hne Hu. destruct (lo_threads _ Hok _ _ Hu) as [Hth Hcr]. destruct thu as [pcu|pc'|]; [| |done].
  - destruct Hne. by eapply (lo_loader _ Hok).
  - exists pc'. split; [done|]. intros Hh. destruct pc'; [done|..]; destruct Hcr as [Hcr _]; specialize (Hcr eq_refl); congruence.
Qed.

Lemma loader_step_ok s t pc r :
  lock_ok s -> k_threads s !! t = Some (Loader pc) -> loader_step s t pc = Some r -> exists s', r = Done s' /\ lock_ok s'.
Proof.
  intros Hok E. pose proof (lo_threads _ Hok _ _ E) as [Hth Hcr]. pose proof (lo_published _ Hok) as Hp. pose proof (lo_fresh _ Hok) as Hf.
  destruct pc as [|old new|old new|old|[g|]]; cbn [loader_step].
  - intros [= <-]. eexists. split; [done|]. expose; eapply (lock_ok_update s); try done.
    + intros g Hg. specialize (Hp g Hg). set_solver.
    + intros g. rewrite elem_of_union, elem_of_singleton. intros [->|Hg]; [lia|]. specialize (Hf g Hg). lia.
    + cbn. split; [done|]. split; [set_solver|]. intros Hg. specialize (Hf _ (Hp _ Hg)). lia.
    + intros u thu Hne Hu H1 H2. destruct (other_finder s t _ u thu Hok E Hne Hu) as (pc' & -> & _). by destruct pc'.
    + intros u Hu. by right.
  - unfold lock. destruct (k_holder s) eqn:Eh; [done|]. intros [= <-]. eexists. split; [done|].
    expose; eapply (lock_ok_update s); try done; [|intros u [= <-]; by left].
    intros u thu Hne _ H1 H2. split; [by destruct thu as [[]|[]|[]]|]. rewrite H2, Eh. split; [done|]. intros [= ->]. done.
  - cbn in Hth. destruct Hth as (-> & Hnew & Hne0). intros [= <-]. eexists. split; [done|]. expose; eapply (lock_ok_update s); try done.
    + by intros g [= <-].
    + cbn. intros g Hg. split; [by apply Hp|]. congruence.
    + intros u thu Hne Hu H1 H2. destruct (other_finder s t _ u thu Hok E Hne Hu) as (pc' & -> & Hidle).
      rewrite Hidle in * by (by apply Hcr). done.
    + intros u Hu. by right.
  - intros [= <-]. eexists. split; [done|]. expose; eapply (lock_ok_update s); try done.
    intros u thu Hne _ H1 H2. split; [by destruct thu as [[]|[]|[]]|]. rewrite H2. split; [|done].
    intros Hu. rewrite (proj1 Hcr eq_refl) in Hu. congruence.
  - cbn in Hth. destruct (Hth g eq_refl) as [Hg Hne0]. unfold follow. rewrite decide_True by done. intros [= <-].
    eexists. split; [done|]. expose; eapply (lock_ok_update s); try done.
    + intros g' Hg'. specialize (Hp g' Hg'). assert (g' <> g) by congruence. set_solver.
    + intros g' Hg'. apply Hf. set_solver.
    + intros u thu Hne Hu H1 H2. destruct (other_finder s t _ u thu Hok E Hne Hu) as (pc' & -> & _). by destruct pc'.
    + intros u Hu. by right.
  - intros [= <-]. eexists. split; [done|]. expose; eapply (lock_ok_update s); try done.
    intros u Hu. by right.
Qed.

Lemma run_schedule_ok ts s : lock_ok s -> exists s', run_schedule s ts = Done s' /\ lock_ok s'.
Proof.
  revert s. induction ts as [|t ts IH]; intros s Hok; cbn [run_schedule]; [by eexists|].
  destruct (thread_step s t) as [r|] eqn:E; [|by apply IH].
  assert (exists s', r = Done s' /\ lock_ok s') as (s' & -> & Hok').
  { unfold thread_step in E. destruct (k_threads s !! t) as [[pc|pc|pc]|] eqn:Et; [by eapply loader_step_ok|by eapply finder_step_ok| |done].
    by destruct (lo_threads _ Hok _ _ Et). }
  run. by apply IH.
Qed.

(** The holder of the lock is never blocked. *)
Lemma holder_enabled s t : lock_ok s -> k_holder s = Some t -> is_Some (thread_step s t).
Proof.
  intros Hok Hh. destruct (lo_holder _ Hok _ Hh) as [th E]. destruct (lo_threads _ Hok _ _ E) as [Hth Hcr].
  unfold thread_step. rewrite E. apply Hcr in Hh. destruct th as [[]|[]|]; cbn in Hh; try done; by eexists.
Qed.

(** ** Properties *)

(** C30: with one loading thread and any number of symbol searches, no schedule
    follows a pointer into a destroyed table, and no schedule ends in a deadlock:
    a thread that cannot move waits for a holder that can. *)
Theorem kernel_search_race_free threads ts :
  (forall t th, threads !! t = Some th -> th = Loader LIdle \/ th = Finder FIdle) ->
  (forall t t', threads !! t = Some (Loader LIdle) -> threads !! t' = Some (Loader LIdle) -> t = t') ->
  exists s, run_schedule (initial_state threads) ts = Done s /\
    forall t, is_Some (k_threads s !! t) -> is_Some (thread_step s t) \/ exists u, k_holder s = Some u /\ is_Some (thread_step s u).
Proof.
  intros Hidle Hone. destruct (run_schedule_ok ts (initial_state threads)) as (s & -> & Hok).
  { split; cbn; try done.
    - intros t th [->| ->]%Hidle; (split; [done|]); by split.
    - intros t t' th th' Ht Ht' H1 H2. destruct (Hidle _ _ Ht) as [->| ->]; [|done]. destruct (Hidle _ _ Ht') as [->| ->]; [|done]. by apply Hone. }
  exists s. split; [done|]. intros t [th Et]. destruct (k_holder s) as [u|] eqn:Eh.
  - right. exists u. split; [done|]. by apply holder_enabled.
  - left. unfold thread_step. rewrite Et. destruct th as [[| | | |[]]|[]|]; cbn; unfold lock; rewrite ?Eh; try (by eexists).
    by destruct (lo_threads _ Hok _ _ Et).
Qed.

(** The address search reads the entry it found after releasing the lock: a
    loader that replaces the table in between frees it first.  Two concurrent
    loaders free the same old table. *)
Theorem kernel_address_race :
  run_schedule (initial_state {[0%nat := Loader LIdle; 1%nat := Addresser AIdle]})
    [0; 0; 0; 0; 0; 1; 1; 1; 1; 0; 0; 0; 0; 0; 1]%nat = Undef BadPointer /\
  run_schedule (initial_state {[0%nat := Loader LIdle; 1%nat := Loader LIdle]})
    [0; 0; 0; 0; 0; 0; 1; 0; 0; 0; 0; 1; 1; 1; 1]%nat = Undef BadPointer.
Proof. split; vm_compute; reflexivity. Qed.

Lemma kernel_search_race_free_witness :
  exists s, run_schedule (initial_state {[0%nat := Loader LIdle; 1%nat := Finder FIdle]})
      [0; 0; 0; 0; 0; 1; 1; 0; 0; 1; 1; 0; 0; 0; 0]%nat = Done s /\
    forall t, is_Some (k_threads s !! t) -> is_Some (thread_step s t) \/ exists u, k_holder s = Some u /\ is_Some (thread_step s u).
Proof.
  apply kernel_search_race_free.
  - intros t th [[<- <-]|[_ [_ <-]%lookup_singleton_Some]]%lookup_insert_Some; [by left|by right].
  - intros t t' [[<- _]|[_ [_ H]%lookup_singleton_Some]]%lookup_insert_Some [[<- _]|[_ [_ H']%lookup_singleton_Some]]%lookup_insert_Some; done.
Defined.
