(* ===== verification/Dump.v ===== *)
(** * Saved samples: [src/profile_debug.c]

    [gu_debug_dump_sample] writes a snapshot to a file named after the process,
    the second and a counter, and copies the maps and binaries it refers to;
    [gu_read_stack_dump] reads it back for offline unwinding, in the current
    format and in the older one. *)

From Stdlib Require Import Ascii.
From stdpp Require Import strings pretty.
From S2P Require Import Prelude Types Arch Maps PathWalk DebugFile.

(** ** The name of a dump *)

(** [record_timestamp] and [count]. *)
Record dump_names : Type := mk_dump_names {
  record_timestamp : Z;
  dump_count : Z;
}.

Definition next_dump (timestamp : Z) (s : dump_names) : outcome dump_names :=
  if record_timestamp s =? timestamp then
    if dump_count s =? 2 ^ 31 - 1 then Undef SignedOverflow else mret (mk_dump_names (record_timestamp s) (dump_count s + 1))
  else mret (mk_dump_names timestamp 0).

(** [%d] and [%ld] *)
Definition decimal (x : Z) : text := txt (pretty x).
Definition dump_name (pid : Z) (s : dump_names) : text :=
  snprintf 512 (decimal pid ++ txt "_" ++ decimal (record_timestamp s) ++ txt "_" ++ decimal (dump_count s) ++ txt ".dump.v2").

(** ** Writing *)

(** [fwrite] of one object, or of an array: writing no bytes counts as a failure
    for an object. *)
Inductive dump_item : Type :=
  | Object (bytes : outcome (list Z))
  | Array_ (bytes : outcome (list Z)).

(** What [stdio] does with the [n]-th write: all of it, or a part only. *)
Definition write_answers : Type := nat -> option nat.

(** The writes in order up to the first that fails; what the file holds then,
    and whether all were done. *)
Fixpoint write_all (io : write_answers) (n : nat) (items : list dump_item) (out : list Z) : outcome (list Z * bool) :=
  match items with
  | [] => mret (out, true)
  | item :: items =>
    bytes ← (match item with Object b | Array_ b => b end);
    let empty_object := match item with Object _ => bool_decide (bytes = []) | Array_ _ => false end in
    if (empty_object : bool) then mret (out, false) else
    match io n with
    | Some k => mret (out ++ take k bytes, false)
    | None => write_all io (S n) items (out ++ bytes)
    end
  end.

(** The first [n] entries of an array in memory. *)
Definition entries (n : Z) (l : list Z) : outcome (list Z) :=
  if Z.of_nat (length l) <? n then Undef OutOfBounds else mret (take (Z.to_nat n) l).

Definition words_bytes (l : list Z) : list Z := l ≫= le_bytes 8.

Section dump.
Context {HA : Arch}.

Definition sizeof_pt_regs : Z := 8 * pt_regs_words.

Definition dump_items (info : gu_stack_info) : list dump_item :=
  [Object (mret (le_bytes 4 (u32 (si_pid info))));
   Object (mret (le_bytes 8 (stack_size info)));
   Object (mret (le_bytes 8 (flags info)));
   Object (mret (le_bytes 8 sizeof_pt_regs));
   Object (words ← deref (regs info); words ← entries pt_regs_words words; mret (words_bytes words));
   Object (if stack_size info =? 0 then mret [] else data ← deref (stack_data info); entries (stack_size info) data);
   Object (mret (le_bytes 8 (ustack_fp_level info)));
   Array_ (words ← entries (ustack_fp_level info) (ustack_fp info); mret (words_bytes words))].
End dump.

(** ** Related files *)

(** What copying the related files does: lines written to the saved maps, files
    copied, and the vDSO written. *)
Inductive dump_action : Type :=
  | PutLine (line : text)
  | CopyFile (from to : text)
  | DumpVdso (to : text).

(** The answers for one line: [fputs], and the three allocations. *)
Record line_answers : Type := mk_answers {
  la_fputs : bool;
  la_strdup : bool;
  la_join_from : bool;
  la_join_to : bool;
}.

(** [strchr(line, '/')] *)
Fixpoint from_slash (l : text) : option text :=
  match l with
  | [] => None
  | c :: l' => if decide (c = slash) then Some l else from_slash l'
  end.

(** [strrchr(bin_path, '/') + 1] *)
Definition after_last_slash (l : text) : option text :=
  (fun d => drop (S (length d)) l) <$> before_last_slash l.

(** One line of the loop: the actions, and whether it goes on. *)
Definition dump_line (a : line_answers) (proc_root_path path line : text) : list dump_action * bool :=
  if negb (la_fputs a) then ([], false) else
  let executable := strstr line (txt " r-xp ") || strstr line (txt " rwxp ") in
  match (if executable : bool then from_slash line else None) with
  | None => ([PutLine line], true)
  | Some bin_path =>
    if negb (la_strdup a) then ([PutLine line], false) else
    if strstr bin_path (txt " (deleted)") then ([PutLine line], true) else
    match gu_path_join (la_join_from a) proc_root_path bin_path, after_last_slash bin_path with
    | Some new_path, Some binary_name =>
      match gu_path_join (la_join_to a) path binary_name with
      | Some output_bin_path => ([PutLine line; CopyFile new_path output_bin_path], true)
      | None => ([PutLine line], false)
      end
    | _, _ => ([PutLine line], false)
    end
  end.

Fixpoint dump_lines (answers : nat -> line_answers) (i : nat) (proc_root_path path : text) (lines : list text)
  : list dump_action * bool :=
  match lines with
  | [] => ([], true)
  | line :: lines =>
    let '(acts, go) := dump_line (answers i) proc_root_path path line in
    if (go : bool) then let '(rest, ok) := dump_lines answers (S i) proc_root_path path lines in (acts ++ rest, ok)
    else (acts, false)
  end.

(** What the system answers to one dump: the clock, the allocations of the
    joined paths, the files that can be opened, and the writes. *)
Record dump_env : Type := mk_dump_env {
  de_time : Z;
  de_join : bool;
  de_open : bool;
  de_io : write_answers;
  de_maps : option (list text);
  de_maps_join : bool;
  de_maps_open : bool;
  de_lines : nat -> line_answers;
  de_vdso_join : bool;
}.

Definition dump_all_related_files (e : dump_env) (pid : Z) (path : text) : list dump_action :=
  match de_maps e, gu_path_join (de_maps_join e) path (txt "maps") with
  | Some lines, Some _ =>
    if negb (de_maps_open e) then [] else
    let proc_root_path := snprintf 128 (txt "/proc/" ++ decimal pid ++ txt "/root") in
    let '(acts, ok) := dump_lines (de_lines e) 0 proc_root_path path lines in
    if (ok : bool) then
      acts ++ match gu_path_join (de_vdso_join e) path (txt "__vdso.so") with Some to => [DumpVdso to] | None => [] end
    else acts
  | _, _ => []
  end.

(** [gu_debug_dump_sample]: the counters after it, the file it wrote with its
    contents, and what was done for the related files. *)
Definition gu_debug_dump_sample {HA : Arch} (e : dump_env) (info : gu_stack_info) (path : text) (dump_related_files : bool)
  (s : dump_names) : outcome (dump_names * option (text * list Z) * list dump_action) :=
  s ← next_dump (de_time e) s;
  match gu_path_join (de_join e) path (dump_name (si_pid info) s) with
  | None => mret (s, None, [])
  | Some file_path =>
    if negb (de_open e) then mret (s, None, []) else
    '(bytes, ok) ← write_all (de_io e) 0 (dump_items info) [];
    mret (s, Some (file_path, bytes), if ok && dump_related_files then dump_all_related_files e (si_pid info) path else [])
  end.

(** ** Reading *)
Inductive dump_version : Type :=
  | GU_DEBUG_DUMP_VER_ERROR
  | GU_DEBUG_DUMP_VERSION_V1
  | GU_DEBUG_DUMP_VERSION_V2.

Definition str_ends_with (str suffix : text) : bool :=
  if (length str <? length suffix)%nat then false
  else bool_decide (drop (length str - length suffix) str = suffix).

Definition gu_debug_dump_version (path : text) : dump_version :=
  if str_ends_with path (txt ".dump.v2") then GU_DEBUG_DUMP_VERSION_V2 else
  if str_ends_with path (txt ".dump") then GU_DEBUG_DUMP_VERSION_V1 else GU_DEBUG_DUMP_VER_ERROR.

(** [fread] of one object of [n] bytes: the bytes and the rest of the file;
    [None] when it does not return 1. *)
Definition fread (n : Z) (rest : list Z) : option (list Z * list Z) :=
  if (n =? 0) || (Z.of_nat (length rest) <? n) then None
  else Some (take (Z.to_nat n) rest, drop (Z.to_nat n) rest).

(** The [n] words that start with the bytes [l]. *)
Fixpoint bytes_words (n : nat) (l : list Z) : list Z :=
  match n with
  | O => []
  | S n => le_value (take 8 l) :: bytes_words n (drop 8 l)
  end.

Definition FP_ENTRIES : nat := Z.to_nat (MAX_FP_STACK_LEVEL + 1).
Definition DUMP_V1_FP_FLAGS : Z := Z.shiftl 1 3.

(** [ustack_fp] of a zeroed snapshot after its first bytes were overwritten. *)
Definition fp_array (bytes : list Z) : list Z :=
  bytes_words FP_ENTRIES (bytes ++ replicate (8 * FP_ENTRIES - length bytes) 0).

(** The frame pointers of the old format: the captured stack holds them. *)
Definition v1_snapshot (info : gu_stack_info) (stack : list Z) : gu_stack_info :=
  if gu_flags_is_set info GU_FLAG_HINT_SET_FP then
    let n := if 127 * 8 <? stack_size info then 127 * 8 else stack_size info in
    mk_gu_stack_info (si_pid info) (stack_size info) (si_unique_id info) (regs info) (regs_size info) (flags info)
      (fp_array (take (Z.to_nat n) stack)) (n / 8) (stack_data info)
  else info.

(** The frame pointers of the current format: the level is read first, and that
    many entries are read into the array. *)
Definition v2_snapshot (info : gu_stack_info) (rest : list Z) : outcome (option gu_stack_info) :=
  match fread 8 rest with
  | None => mret None
  | Some (level, rest) =>
    let level := le_value level in
    if level =? 0 then mret (Some (mk_gu_stack_info (si_pid info) (stack_size info) (si_unique_id info) (regs info)
      (regs_size info) (flags info) (ustack_fp info) 0 (stack_data info))) else
    let got := take (Z.to_nat (8 * level)) rest in
    if decide (8 * FP_ENTRIES < length got)%nat then Undef OutOfBounds else
    if Z.of_nat (length got) <? 8 * level then mret None else
    mret (Some (mk_gu_stack_info (si_pid info) (stack_size info) (si_unique_id info) (regs info) (regs_size info)
                  (flags info) (fp_array got) level (stack_data info)))
  end.

(** The flags of the snapshot: in the old format a type whose bit 3 says that
    the stack holds frame pointers. *)
Definition read_flags (version : dump_version) (rest : list Z) : option (Z * list Z) :=
  match version with
  | GU_DEBUG_DUMP_VERSION_V1 =>
    '(type, rest) ← fread 4 rest;
    Some (if Z.land (le_value type) DUMP_V1_FP_FLAGS =? 0 then 0 else flag_value GU_FLAG_HINT_SET_FP, rest)
  | _ => '(fl, rest) ← fread 8 rest; Some (le_value fl, rest)
  end.

(** [gu_read_stack_dump]: [file] is what opening the path yields, [alloc_info]
    and [alloc] the allocations; [None] is [NULL], after everything is freed. *)
Definition gu_read_stack_dump (path : text) (file : option (list Z)) (alloc_info : bool) (alloc : Z -> bool)
  : outcome (option gu_stack_info) :=
  if negb alloc_info then mret None else
  match file with
  | None => mret None
  | Some content =>
    match gu_debug_dump_version path with
    | GU_DEBUG_DUMP_VER_ERROR => mret None
    | version =>
      let header :=
        '(pid, rest) ← fread 4 content;
        '(size, rest) ← fread 8 rest;
        '(fl, rest) ← read_flags version rest;
        '(rsize, rest) ← fread 8 rest;
        Some (s32 (le_value pid), le_value size, fl, le_value rsize, rest) in
      match header with
      | None => mret None
      | Some (pid, size, fl, rsize, rest) =>
        if negb (alloc rsize) || negb (alloc size) then mret None else
        let body :=
          '(rbytes, rest) ← fread rsize rest;
          '(stack, rest) ← fread size rest;
          Some (rbytes, stack, rest) in
        match body with
        | None => mret None
        | Some (rbytes, stack, rest) =>
          let info := mk_gu_stack_info pid size 0 (Some (bytes_words (Z.to_nat (rsize / 8)) rbytes)) (u32 rsize) fl
                        (replicate FP_ENTRIES 0) 0 (Some stack) in
          match version with
          | GU_DEBUG_DUMP_VERSION_V1 => mret (Some (v1_snapshot info stack))
          | _ => v2_snapshot info rest
          end
        end
      end
    end
  end.

(** ** Facts *)
Definition yields (item : dump_item) (bytes : list Z) : Prop :=
  match item with Object b => b = Done bytes /\ bytes <> [] | Array_ b => b = Done bytes end.

Lemma write_all_done n items bytess out :
  Forall2 yields items bytess -> write_all (fun _ => None) n items out = Done (out ++ concat bytess, true).
Proof.
  intros H. revert n out. induction H as [|item bytes items bytess Hy _ IH]; intros n out; cbn [write_all concat]; [by rewrite app_nil_r|].
  destruct item as [b|b]; cbn [yields] in Hy; [destruct Hy as [-> Hne]|subst b]; run.
  - rewrite bool_decide_eq_false_2 by done. by rewrite IH, app_assoc.
  - by rewrite IH, app_assoc.
Qed.

Lemma fread_app n l r : Z.of_nat (length l) = n -> 0 < n -> fread n (l ++ r) = Some (l, r).
Proof.
  intros <- Hn. unfold fread. rewrite length_app. destruct (Z.eqb_spec (Z.of_nat (length l)) 0); [lia|].
  destruct (Z.ltb_spec (Z.of_nat (length l + length r)) (Z.of_nat (length l))); [lia|]. cbn [orb].
  by rewrite Nat2Z.id, take_app_length, drop_app_length.
Qed.

Lemma length_words_bytes l : length (words_bytes l) = (8 * length l)%nat.
Proof.
  unfold words_bytes. induction l as [|w l IH]; [done|]. cbn [mbind list_bind]. rewrite length_app, length_le_bytes, IH. cbn [length]. lia.
Qed.

Lemma bytes_words_app l r : Forall is_u64 l -> bytes_words (length l) (words_bytes l ++ r) = l.
Proof.
  unfold words_bytes. induction 1 as [|w l Hw _ IH]; [done|]. cbn [mbind list_bind length bytes_words].
  rewrite <- app_assoc, (take_app_length' (le_bytes 8 w)), (drop_app_length' (le_bytes 8 w)) by (by rewrite length_le_bytes).
  by rewrite IH, le_value_bytes by done.
Qed.

Lemma bytes_words_zero n : bytes_words n (replicate (8 * n) 0) = replicate n 0.
Proof.
  induction n as [|n IH]; [done|]. cbn [bytes_words]. replace (8 * S n)%nat with (8 + 8 * n)%nat by lia.
  rewrite replicate_add, take_app_length', drop_app_length' by (by rewrite length_replicate). by rewrite IH.
Qed.

Lemma bytes_words_split n m l r :
  length l = (8 * n)%nat -> bytes_words (n + m) (l ++ r) = bytes_words n l ++ bytes_words m r.
Proof.
  revert l. induction n as [|n IH]; intros l Hl; [by destruct l|]. cbn [Nat.add bytes_words app].
  rewrite take_app_le, drop_app_le by lia. f_equal. apply IH. rewrite length_drop. lia.
Qed.

Lemma fp_array_words l :
  Forall is_u64 l -> (length l <= FP_ENTRIES)%nat -> fp_array (words_bytes l) = l ++ replicate (FP_ENTRIES - length l) 0.
Proof.
  intros Hl Hn. unfold fp_array. rewrite length_words_bytes.
  replace (8 * FP_ENTRIES - 8 * length l)%nat with (8 * (FP_ENTRIES - length l))%nat by lia.
  replace FP_ENTRIES with (length l + (FP_ENTRIES - length l))%nat at 1 by lia.
  rewrite bytes_words_split by apply length_words_bytes. rewrite bytes_words_zero. f_equal.
  rewrite <- (app_nil_r (words_bytes l)). by apply bytes_words_app.
Qed.

(** A snapshot as a sampler fills it. *)
Record dumpable {HA : Arch} (info : gu_stack_info) (words data : list Z) : Prop := {
  du_pid : - 2 ^ 31 <= si_pid info < 2 ^ 31;
  du_flags : is_u64 (flags info);
  du_regs : regs info = Some words;
  du_words : Z.of_nat (length words) = pt_regs_words /\ Forall is_u64 words;
  du_size : 0 < pt_regs_words < 2 ^ 29;
  du_stack : stack_data info = Some data /\ Z.of_nat (length data) = stack_size info /\ 0 < stack_size info < 2 ^ 64;
  du_fp : Forall is_u64 (ustack_fp info) /\ length (ustack_fp info) = FP_ENTRIES;
  du_level : 0 <= ustack_fp_level info <= Z.of_nat FP_ENTRIES;
}.

Lemma entries_all l : entries (Z.of_nat (length l)) l = Done l.
Proof. unfold entries. rewrite (proj2 (Z.ltb_ge _ _)) by lia. by rewrite Nat2Z.id, firstn_all. Qed.

(** What is read back: everything but the caller's [unique_id], and the entries
    above the level are cleared. *)
Definition restored {HA : Arch} (info : gu_stack_info) : gu_stack_info :=
  mk_gu_stack_info (si_pid info) (stack_size info) 0 (regs info) sizeof_pt_regs (flags info)
    (take (Z.to_nat (ustack_fp_level info)) (ustack_fp info) ++
     replicate (FP_ENTRIES - Z.to_nat (ustack_fp_level info)) 0)
    (ustack_fp_level info) (stack_data info).

Lemma v2_level info fp level :
  Forall is_u64 fp -> Z.of_nat (length fp) = level -> 0 <= level <= Z.of_nat FP_ENTRIES -> ustack_fp info = replicate FP_ENTRIES 0 ->
  v2_snapshot info (le_bytes 8 level ++ words_bytes fp) =
    Done (Some (mk_gu_stack_info (si_pid info) (stack_size info) (si_unique_id info) (regs info) (regs_size info) (flags info)
                  (fp ++ replicate (FP_ENTRIES - length fp) 0) level (stack_data info))).
Proof.
  intros Hfp Hlen Hlevel Hzero. unfold v2_snapshot. assert (Hl : Z.of_nat FP_ENTRIES = 128) by done.
  rewrite fread_app by (rewrite ?length_le_bytes; lia). rewrite le_value_bytes by (change (256 ^ Z.of_nat 8) with (2 ^ 64); lia).
  destruct (Z.eqb_spec level 0) as [->|].
  { destruct fp; [|cbn in *; lia]. cbn [length app]. by rewrite Nat.sub_0_r, Hzero. }
  rewrite take_ge by (rewrite length_words_bytes; lia). rewrite decide_False by (rewrite length_words_bytes; lia).
  rewrite length_words_bytes. rewrite (proj2 (Z.ltb_ge _ _)) by lia. by rewrite fp_array_words by (try lia; done).
Qed.

Lemma dump_read_back {HA : Arch} info words data path :
  dumpable info words data -> gu_debug_dump_version path = GU_DEBUG_DUMP_VERSION_V2 ->
  exists bytes, write_all (fun _ => None) 0 (dump_items info) [] = Done (bytes, true) /\
    gu_read_stack_dump path (Some bytes) true (fun _ => true) = Done (Some (restored info)).
Proof.
  intros [Hpid Hfl Hregs [Hwl Hw] Hsz (Hdata & Hdl & Hds) [Hfp Hfpl] Hlevel] Hpath.
  set (fp := take (Z.to_nat (ustack_fp_level info)) (ustack_fp info)).
  assert (Hfpn : Z.of_nat (length fp) = ustack_fp_level info) by (unfold fp; rewrite length_take, Hfpl; lia).
  assert (Hfp64 : Forall is_u64 fp) by (by apply Forall_take).
  eexists. split.
  { apply write_all_done. unfold dump_items. repeat match goal with |- Forall2 yields (_ :: _) _ => econstructor 2 end.
    1-4: split; [done|]; intros E%(f_equal length); by rewrite length_le_bytes in E.
    - cbn [yields]. rewrite Hregs. run. rewrite <- Hwl, entries_all. run. split; [done|].
      intros E%(f_equal length). rewrite length_words_bytes in E. cbn in E. lia.
    - cbn [yields]. destruct (Z.eqb_spec (stack_size info) 0); [lia|]. rewrite Hdata. run. rewrite <- Hdl, entries_all.
      split; [done|]. intros ->. cbn in Hdl. lia.
    - split; [done|]. intros E%(f_equal length). by rewrite length_le_bytes in E.
    - cbn [yields]. unfold entries. rewrite (proj2 (Z.ltb_ge _ _)) by lia. run. done.
    - constructor. }
  cbn [concat app]. rewrite app_nil_r. fold fp. unfold gu_read_stack_dump, read_flags, sizeof_pt_regs. cbn [negb]. rewrite Hpath.
  rewrite !fread_app by (rewrite ?length_le_bytes; lia). cbn [mbind option_bind].
  repeat (rewrite fread_app by (rewrite ?length_le_bytes; lia); cbn [mbind option_bind]).
  rewrite !(le_value_bytes 8) by (change (256 ^ Z.of_nat 8) with (2 ^ 64); unfold in_width in *; lia).
  rewrite le_value_bytes by (change (256 ^ Z.of_nat 4) with (2 ^ 32); by apply wrap_range). cbn [negb orb].
  rewrite fread_app by (rewrite ?length_words_bytes; lia). cbn [mbind option_bind].
  rewrite fread_app by lia. cbn [mbind option_bind].
  rewrite v2_level by (cbn [ustack_fp]; try done; lia). cbn [si_pid stack_size si_unique_id regs regs_size flags stack_data].
  rewrite swrap_wrap, swrap_small by lia. rewrite wrap_small by (unfold in_width; lia).
  replace (Z.to_nat (8 * pt_regs_words / 8)) with (length words) by (rewrite Z.mul_comm, Z.div_mul; lia).
  rewrite <- (app_nil_r (words_bytes words)), bytes_words_app by done. unfold restored. fold fp. rewrite Hregs, Hdata.
  by replace (length fp) with (Z.to_nat (ustack_fp_level info)) by lia.
Qed.

(** *** Names *)
Definition digit_or_sign (c : ascii) : Prop := c <> "_"%char.

Lemma pretty_N_go_chars x s : Forall digit_or_sign (txt s) -> Forall digit_or_sign (txt (pretty_N_go x s)).
Proof.
  revert s. induction (N.lt_wf_0 x) as [x _ IH]; intros s Hs. destruct (decide (0 < x)%N).
  - rewrite pretty_N_go_step by done. apply IH; [by apply N.div_lt|]. constructor; [|done].
    unfold digit_or_sign, pretty_N_char. repeat case_match; done.
  - assert (x = 0%N) as -> by lia. by rewrite pretty_N_go_0.
Qed.

Lemma pretty_N_go_length x s k :
  (x < 10 ^ N.of_nat k)%N -> (length (txt (pretty_N_go x s)) <= k + length (txt s))%nat.
Proof.
  revert x s. induction k as [|k IH]; intros x s Hx.
  { assert (x = 0%N) as -> by (cbn in Hx; lia). by rewrite pretty_N_go_0. }
  destruct (decide (0 < x)%N); [|assert (x = 0%N) as -> by lia; rewrite pretty_N_go_0; lia].
  rewrite pretty_N_go_step by done. etrans; [apply IH|unfold txt; cbn [String.list_ascii_of_string length]; lia].
  apply N.Div0.div_lt_upper_bound. by rewrite <- N.pow_succ_r', <- Nat2N.inj_succ.
Qed.

Lemma decimal_ok z k :
  - 10 ^ Z.of_nat k < z < 10 ^ Z.of_nat k -> Forall digit_or_sign (decimal z) /\ (length (decimal z) <= 2 + k)%nat.
Proof.
  intros Hz. unfold decimal. assert (Hpos : forall p, Z.pos p < 10 ^ Z.of_nat k ->
    Forall digit_or_sign (txt (pretty (N.pos p))) /\ (length (txt (pretty (N.pos p))) <= k)%nat).
  { intros p Hp. unfold pretty, pretty_N. rewrite decide_False by done. split; [by apply pretty_N_go_chars|].
    etrans; [apply (pretty_N_go_length _ _ k)|cbn; lia]. apply N2Z.inj_lt. by rewrite N2Z.inj_pow, nat_N_Z. }
  destruct z as [|p|p].
  - cbn. split; [by repeat constructor|lia].
  - destruct (Hpos p) as [H1 H2]; [lia|]. split; [done|]. change (pretty (Z.pos p)) with (pretty (N.pos p)). lia.
  - destruct (Hpos p) as [H1 H2]; [lia|]. change (txt (pretty (Z.neg p))) with ("-"%char :: txt (pretty (N.pos p))).
    split; [by constructor|cbn [length]; lia].
Qed.

Lemma txt_inj s s' : txt s = txt s' -> s = s'.
Proof. intros E. apply (f_equal String.string_of_list_ascii) in E. by rewrite !String.string_of_list_ascii_of_string in E. Qed.

Lemma decimal_inj z z' : decimal z = decimal z' -> z = z'.
Proof. intros E%txt_inj. by apply (inj pretty) in E. Qed.

(** The text before the first underscore is determined. *)
Lemma split_underscore a a' b b' :
  Forall digit_or_sign a -> Forall digit_or_sign a' -> a ++ "_"%char :: b = a' ++ "_"%char :: b' -> a = a' /\ b = b'.
Proof.
  intros Ha. revert a'. induction Ha as [|c a Hc _ IH]; intros [|c' a'] Ha' E; cbn [app] in E.
  - by injection E.
  - apply Forall_cons in Ha' as [Hc' _]. by injection E as <- _.
  - by injection E as -> _.
  - apply Forall_cons in Ha' as [_ Ha']. injection E as -> E. apply IH in E as [-> ->]; done.
Qed.

Definition name_range (pid : Z) (s : dump_names) : Prop :=
  - 10 ^ 10 < pid < 10 ^ 10 /\ - 10 ^ 19 < record_timestamp s < 10 ^ 19 /\ 0 <= dump_count s < 10 ^ 10.

Lemma dump_name_full pid s :
  name_range pid s ->
  dump_name pid s = decimal pid ++ "_"%char :: decimal (record_timestamp s) ++ "_"%char :: decimal (dump_count s) ++ txt ".dump.v2".
Proof.
  intros (H1 & H2 & H3). destruct (decimal_ok pid 10 H1) as [_ L1]. destruct (decimal_ok (record_timestamp s) 19 H2) as [_ L2].
  destruct (decimal_ok (dump_count s) 10) as [_ L3]; [change (Z.of_nat 10) with 10; lia|].
  unfold dump_name, snprintf. rewrite take_ge; [done|]. rewrite !length_app. cbn [length txt String.list_ascii_of_string]. lia.
Qed.

Lemma dump_name_inj pid pid' s s' :
  name_range pid s -> name_range pid' s' -> dump_name pid s = dump_name pid' s' -> s = s'.
Proof.
  intros H H'. rewrite !dump_name_full by done. destruct H as (H1 & H2 & H3), H' as (H1' & H2' & H3'). intros E.
  apply split_underscore in E as [_ E]; [|by apply (decimal_ok _ 10)..].
  apply split_underscore in E as [Et E]; [|by apply (decimal_ok _ 19)..]. apply decimal_inj in Et.
  apply app_inv_tail, decimal_inj in E. destruct s, s'. cbn in *. by subst.
Qed.

(** A name that ends in the suffix of the current format keeps it in any
    directory. *)
Lemma trim_end_suffix l suffix c : c <> newline -> c <> " "%char -> trim_end (l ++ suffix ++ [c]) = l ++ suffix ++ [c].
Proof. rewrite app_assoc. apply trim_end_id. Qed.

Lemma str_ends_with_app l suffix : str_ends_with (l ++ suffix) suffix = true.
Proof.
  unfold str_ends_with. rewrite length_app. destruct (Nat.ltb_spec (length l + length suffix) (length suffix)); [lia|].
  replace (length l + length suffix - length suffix)%nat with (length l) by lia. rewrite drop_app_length. by apply bool_decide_eq_true.
Qed.

Lemma dump_path_version path pid s :
  name_range pid s ->
  exists file, gu_path_join true path (dump_name pid s) = Some file /\ gu_debug_dump_version file = GU_DEBUG_DUMP_VERSION_V2.
Proof.
  intros H. unfold gu_path_join. cbn [negb]. eexists. split; [done|]. rewrite dump_name_full by done. match goal with |- context [path ++ ?x ++ _] => set (sep := x) end.
  replace (path ++ sep ++ _) with ((path ++ sep ++ decimal pid ++ "_"%char :: decimal (record_timestamp s) ++ "_"%char :: decimal (dump_count s)) ++ txt ".dump.v2")
    by (rewrite <- !app_assoc; cbn [app]; by rewrite <- !app_assoc).
  change (txt ".dump.v2") with (txt ".dump.v" ++ ["2"%char]). rewrite trim_end_suffix by done. unfold gu_debug_dump_version. by rewrite str_ends_with_app.
Qed.

(** Only the answers matter to the writes. *)
Lemma write_all_answers io io' n items out : (forall n, io n = io' n) -> write_all io n items out = write_all io' n items out.
Proof.
  intros E. revert n out. induction items as [|item items IH]; intros n out; [done|]. cbn [write_all]. destruct item as [b|b].
  all: destruct b as [bytes|]; run; [|done]; rewrite E; destruct (io' n); by rewrite ?IH.
Qed.

(** A run of dumps: the state each name is made from. *)
Fixpoint dump_run (times : list Z) (s : dump_names) : outcome (list dump_names) :=
  match times with
  | [] => mret []
  | t :: times => s ← next_dump t s; l ← dump_run times s; mret (s :: l)
  end.

(** Later dumps have a later second or a larger count. *)
Definition before (s s' : dump_names) : Prop :=
  record_timestamp s < record_timestamp s' \/ (record_timestamp s = record_timestamp s' /\ dump_count s < dump_count s').

Lemma next_dump_before t s s' : record_timestamp s <= t -> next_dump t s = Done s' -> before s s' /\ record_timestamp s' = t.
Proof.
  unfold next_dump, before. destruct (Z.eqb_spec (record_timestamp s) t).
  - destruct (_ =? _); [done|]. intros _ [= <-]. cbn. split; [right; split; [done|lia]|done].
  - intros Ht [= <-]. cbn. split; [left; lia|done].
Qed.

Lemma dump_run_before times s l :
  Sorted Z.le (record_timestamp s :: times) -> dump_run times s = Done l -> StronglySorted before (s :: l).
Proof.
  revert s l. induction times as [|t times IH]; intros s l Hs; cbn [dump_run]; [intros [= <-]; by repeat constructor|].
  destruct (next_dump t s) as [s1|] eqn:E1; run; [|done]. destruct (dump_run times s1) as [l1|] eqn:E2; run; [|done]. intros [= <-].
  inversion Hs as [|? ? Hs1 Hhd]; subst. inversion Hhd; subst. apply next_dump_before in E1 as [Hb Ht]; [|done]. rewrite <- Ht in Hs1.
  specialize (IH s1 l1 Hs1 E2). constructor; [done|]. inversion IH as [|? ? _ Hall]; subst. constructor; [done|].
  eapply Forall_impl; [exact Hall|]. intros x Hx. unfold before in *. lia.
Qed.

(** *** Related files *)
Definition put_of (a : dump_action) : option text := match a with PutLine l => Some l | _ => None end.
Definition all_answers : nat -> line_answers := fun _ => mk_answers true true true true.

Lemma before_last_slash_None l : slash ∈ l -> is_Some (before_last_slash l).
Proof.
  induction l as [|c l IH]; [by intros ?%not_elem_of_nil|]. cbn [before_last_slash].
  destruct (before_last_slash l) eqn:E; [by eexists|]. intros [<-|H]%elem_of_cons; [rewrite decide_True by done; by eexists|].
  destruct (IH H) as [? ?]. done.
Qed.

Lemma from_slash_head l b : from_slash l = Some b -> slash ∈ b.
Proof.
  induction l as [|c l IH]; cbn [from_slash]; [done|]. case_decide as Hc; [|done]. intros [= <-]. subst c. by left.
Qed.

(** When nothing fails every line of the maps is saved, in order. *)
Lemma related_maps_complete root path lines i :
  exists acts, dump_lines all_answers i root path lines = (acts, true) /\ omap put_of acts = lines.
Proof.
  revert i. induction lines as [|line lines IH]; intros i; cbn [dump_lines]; [by exists []|].
  assert (Hline : exists acts, dump_line (all_answers i) root path line = (acts, true) /\ omap put_of acts = [line]).
  { unfold dump_line. cbn [la_fputs la_strdup la_join_from la_join_to all_answers negb].
    destruct (if _ || _ then from_slash line else None) as [b|] eqn:E; [|by eexists].
    destruct (strstr b _); [by eexists|]. assert (Hb : slash ∈ b) by (destruct (_ || _); [by eapply from_slash_head|done]).
    unfold gu_path_join, after_last_slash. cbn [negb]. destruct (before_last_slash_None _ Hb) as [d ->]. cbn [fmap option_fmap option_map].
    by eexists. }
  destruct Hline as (acts & -> & Ha). destruct (IH (S i)) as (rest & -> & Hr). exists (acts ++ rest). split; [done|].
  by rewrite omap_app, Ha, Hr.
Qed.

(** A dump written whole is read back. *)
Lemma dump_then_read {HA : Arch} e info words data path related s s1 :
  dumpable info words data -> next_dump (de_time e) s = Done s1 -> name_range (si_pid info) s1 ->
  de_join e = true -> de_open e = true -> (forall n, de_io e n = None) ->
  exists file bytes acts, gu_debug_dump_sample e info path related s = Done (s1, Some (file, bytes), acts) /\
    gu_read_stack_dump file (Some bytes) true (fun _ => true) = Done (Some (restored info)) /\
    gu_debug_dump_version file = GU_DEBUG_DUMP_VERSION_V2.
Proof.
  intros Hd Hs Hr Hj Ho Hio. unfold gu_debug_dump_sample. rewrite Hs. run. rewrite Hj.
  destruct (dump_path_version path (si_pid info) s1 Hr) as (file & -> & Hv). rewrite Ho. cbn [negb].
  rewrite (write_all_answers _ (fun _ => None)) by done. destruct (dump_read_back info words data file Hd Hv) as (bytes & -> & Hread).
  run. by exists file, bytes; eexists.
Qed.

(** ** Properties *)

(** A sample saved under any directory is written whole, to a file the
    reader recognises by its name, and reading that file gives the snapshot back:
    registers, stack, flags and frame pointers; only the caller's unique id is
    not saved. *)
Theorem dump_roundtrip {HA : Arch} e info words data path related s s1 :
  dumpable info words data -> next_dump (de_time e) s = Done s1 -> name_range (si_pid info) s1 ->
  de_join e = true -> de_open e = true -> (forall n, de_io e n = None) ->
  exists file bytes acts, gu_debug_dump_sample e info path related s = Done (s1, Some (file, bytes), acts) /\
    gu_read_stack_dump file (Some bytes) true (fun _ => true) = Done (Some (restored info)).
Proof.
  intros Hd Hs Hr Hj Ho Hio. destruct (dump_then_read e info words data path related s s1 Hd Hs Hr Hj Ho Hio) as (file & bytes & acts & E & Hread & _).
  by exists file, bytes, acts.
Qed.

(** Dumps made while the clock does not run backwards all have different
    names, so none overwrites another, whatever processes they are of. *)
Theorem dump_files_distinct times s l i j si sj pi pj :
  Sorted Z.le (record_timestamp s :: times) -> dump_run times s = Done l ->
  l !! i = Some si -> l !! j = Some sj -> i <> j ->
  name_range pi si -> name_range pj sj -> dump_name pi si <> dump_name pj sj.
Proof.
  intros Hs Hr Hi Hj Hij Hri Hrj E. apply dump_name_inj in E as ->; [|done..].
  apply dump_run_before in Hr; [|done]. inversion Hr as [|? ? Hss _]; subst.
  assert (Hlt : forall a b, (a < b)%nat -> l !! a = Some sj -> l !! b = Some sj -> False).
  { intros a b Hab Ha Hb. rewrite <- (take_drop_middle _ _ _ Ha) in Hss. apply StronglySorted_app_1_r in Hss.
    inversion Hss as [|? ? _ Hall]; subst. rewrite Forall_forall in Hall. assert (Hin : sj ∈ drop (S a) l).
    { apply list_elem_of_lookup. exists (b - S a)%nat. rewrite lookup_drop. by replace (S a + (b - S a))%nat with b by lia. }
    specialize (Hall _ Hin). unfold before in Hall. lia. }
  destruct (Nat.lt_total i j) as [H|[H|H]]; [by destruct (Hlt i j)|done|by destruct (Hlt j i)].
Qed.

(** The level of a dump is not checked against the array it is read into: a
    file with more entries than the array has overflows it. *)
Theorem dump_level_overflow path pid size fl rsize rbytes stack level fps :
  gu_debug_dump_version path = GU_DEBUG_DUMP_VERSION_V2 ->
  0 < size < 2 ^ 64 -> 0 < rsize < 2 ^ 64 -> Z.of_nat (length rbytes) = rsize -> Z.of_nat (length stack) = size ->
  Z.of_nat FP_ENTRIES < level < 2 ^ 64 -> (8 * FP_ENTRIES < length fps)%nat ->
  gu_read_stack_dump path
    (Some (le_bytes 4 pid ++ le_bytes 8 size ++ le_bytes 8 fl ++ le_bytes 8 rsize ++ rbytes ++ stack ++ le_bytes 8 level ++ fps))
    true (fun _ => true) = Undef OutOfBounds.
Proof.
  intros Hpath Hsize Hrsize Hrl Hsl Hlevel Hfps. unfold gu_read_stack_dump, read_flags. cbn [negb]. rewrite Hpath.
  repeat (rewrite fread_app by (rewrite ?length_le_bytes; lia); cbn [mbind option_bind]).
  rewrite (le_value_bytes 8 size), (le_value_bytes 8 rsize) by (change (256 ^ Z.of_nat 8) with (2 ^ 64); lia). cbn [negb orb].
  rewrite fread_app by lia. cbn [mbind option_bind]. rewrite fread_app by lia. cbn [mbind option_bind]. unfold v2_snapshot.
  rewrite fread_app by (rewrite ?length_le_bytes; lia). rewrite le_value_bytes by (change (256 ^ Z.of_nat 8) with (2 ^ 64); lia).
  destruct (Z.eqb_spec level 0); [lia|]. rewrite decide_True; [done|]. rewrite length_take. lia.
Qed.

(** ** Witnesses *)
Definition sample_snapshot : gu_stack_info :=
  mk_gu_stack_info 1234 3 99 (Some (seqZ 7 34)) 272 1 (seqZ 100 128) 2 (Some [1; 2; 255]).

Lemma sample_dumpable : dumpable (HA := aarch64) sample_snapshot (seqZ 7 34) [1; 2; 255].
Proof.
  split.
  - cbn. lia.
  - cbn. word.
  - done.
  - split; [done|]. apply (bool_decide_unpack _). vm_compute. done.
  - cbn. lia.
  - split; [done|]. split; [done|]. cbn. lia.
  - split; [apply (bool_decide_unpack _); vm_compute; done|]. vm_compute. done.
  - change (Z.of_nat FP_ENTRIES) with 128. cbn. lia.
Qed.

Definition sample_env : dump_env :=
  mk_dump_env 1700000000 true true (fun _ => None) (Some [txt "1000-2000 r-xp 0 08:01 7 /bin/a b"]) true true all_answers true.

Lemma dump_roundtrip_witness :
  exists file bytes acts,
    gu_debug_dump_sample (HA := aarch64) sample_env sample_snapshot (txt "/tmp") true (mk_dump_names 0 0) =
      Done (mk_dump_names 1700000000 0, Some (file, bytes), acts) /\
    gu_read_stack_dump file (Some bytes) true (fun _ => true) = Done (Some (restored (HA := aarch64) sample_snapshot)).
Proof.
  apply (dump_roundtrip (HA := aarch64) sample_env sample_snapshot (seqZ 7 34) [1; 2; 255]); try reflexivity.
  - apply sample_dumpable.
  - unfold name_range. cbn. lia.
Defined.

Lemma dump_files_distinct_witness : dump_name 7 (mk_dump_names 5 1) <> dump_name 8 (mk_dump_names 6 0).
Proof.
  apply (dump_files_distinct [5; 5; 6] (mk_dump_names 0 0) [mk_dump_names 5 0; mk_dump_names 5 1; mk_dump_names 6 0] 1 2);
    try reflexivity; try done; try (unfold name_range; cbn; lia).
  repeat constructor; cbn; lia.
Defined.

Lemma dump_level_overflow_witness :
  gu_read_stack_dump (txt "x.dump.v2")
    (Some (le_bytes 4 1 ++ le_bytes 8 1 ++ le_bytes 8 0 ++ le_bytes 8 1 ++ [0] ++ [0] ++ le_bytes 8 129 ++ replicate (8 * 129) 0))
    true (fun _ => true) = Undef OutOfBounds.
Proof.
  apply (dump_level_overflow (txt "x.dump.v2") 1 1 0 1 [0] [0] 129 (replicate (8 * 129) 0)); try done; try lia.
  rewrite length_replicate. change FP_ENTRIES with (Z.to_nat 128). lia.
Defined.
