(* ===== verification/ProcStat.v ===== *)
(** * The identity of a process: [gu_get_pid_unique_id] of [src/gu_stacktrace.c], lines 1958-1991

    A process is identified by its start time, field 22 of [/proc/<pid>/stat].
    The second field is the command name in parentheses, which may contain
    spaces and parentheses itself, so the fields are counted from the last
    closing one.  [Context] takes the result from its environment; here it is
    computed from the contents of the file. *)

From Stdlib Require Import Ascii.
From stdpp Require Import strings pretty.
From S2P Require Import Prelude Maps PathWalk DebugFile Dump.

(** [strrchr(l, c) + 1] *)
Fixpoint after_last (c : ascii) (l : text) : option text :=
  match l with
  | [] => None
  | x :: l => match after_last c l with Some r => Some r | None => if decide (x = c) then Some l else None end
  end.

(** [while ( *cur && !isspace( *cur)) cur++;] *)
Fixpoint skip_word (l : text) : text :=
  match l with
  | c :: l' => if isspace c then l else skip_word l'
  | [] => []
  end.

(** The loop over the fields: [n] of them are skipped before the one that is
    read; 0 when the line ends or the field is not a number. *)
Fixpoint stat_field (n : nat) (cur : text) : Z :=
  let cur := skip_space cur in
  if decide (cur = []) then 0 else
  match n with
  | S n => stat_field n (skip_word cur)
  | O => let '(parsed, errno, rest) := strtoull cur in if errno || bool_decide (rest = cur) then 0 else parsed
  end.

(** The start time in the file; [None] is a failing [fopen]. *)
Definition stat_start_time (file : option text) : Z :=
  match file with
  | None | Some [] => 0
  | Some content =>
    match after_last ")"%char (c_str (fgets 4095 content).1) with
    | None => 0
    | Some cur => stat_field 19 cur
    end
  end.

(** ** Reading numbers back *)

Lemma digit_char_value x : (x < 10)%N -> dec_digit (pretty_N_char x) = Some (Z.of_N x) /\ isspace (pretty_N_char x) = false.
Proof.
  intros Hx. assert (H : x = 0%N \/ x = 1%N \/ x = 2%N \/ x = 3%N \/ x = 4%N \/ x = 5%N \/ x = 6%N \/ x = 7%N \/ x = 8%N \/ x = 9%N) by lia.
  repeat destruct H as [->|H]; [done..|by rewrite H].
Qed.

(** The digits of a number, then whatever follows them. *)
Lemma dec_digits_go x s rest :
  exists k, dec_digits 0 (txt (pretty_N_go x s) ++ rest) = (let '(v, j, r) := dec_digits (Z.of_N x) (txt s ++ rest) in (v, (k + j)%nat, r)) /\
    ((0 < x)%N -> (0 < k)%nat).
Proof.
  revert s. induction (N.lt_wf_0 x) as [x _ IH]; intros s. destruct (decide (0 < x)%N) as [Hx|Hx].
  - rewrite pretty_N_go_step by done.
    destruct (IH (x `div` 10)%N (N.div_lt x 10 Hx eq_refl) (String (pretty_N_char (x `mod` 10)) s)) as (k & -> & _).
    destruct (digit_char_value (x `mod` 10)) as [Hd _]; [by apply N.mod_lt|].
    change (txt (String (pretty_N_char (x `mod` 10)) s) ++ rest) with (pretty_N_char (x `mod` 10) :: txt s ++ rest). cbn [dec_digits]. rewrite Hd.
    replace (10 * Z.of_N (x `div` 10) + Z.of_N (x `mod` 10)) with (Z.of_N x) by (pose proof (N.div_mod x 10); lia).
    destruct (dec_digits (Z.of_N x) (txt s ++ rest)) as [[v j] r]. exists (S k). split; [|lia]. f_equal. f_equal. lia.
  - assert (x = 0%N) as -> by lia. rewrite pretty_N_go_0. exists O. split; [|lia]. by destruct (dec_digits _ _) as [[v j] r].
Qed.

Lemma dec_digits_decimal v rest :
  0 <= v -> match rest with [] => True | c :: _ => dec_digit c = None end ->
  exists k, dec_digits 0 (decimal v ++ rest) = (v, S k, rest).
Proof.
  intros Hv Hr. assert (Hend : forall a, dec_digits a rest = (a, O, rest)) by (intros a; destruct rest as [|c l]; [done|cbn; by rewrite Hr]).
  unfold decimal. destruct v as [|p|p]; [|..|lia].
  - exists O. change (txt (pretty 0) ++ rest) with ("0"%char :: rest). cbn [dec_digits]. change (dec_digit "0"%char) with (Some 0). cbn iota beta. by rewrite Hend.
  - change (pretty (Z.pos p)) with (pretty (N.pos p)). unfold pretty, pretty_N. rewrite decide_False by done.
    destruct (dec_digits_go (N.pos p) "" rest) as (k & -> & Hk). cbn [txt String.list_ascii_of_string app]. rewrite Hend.
    destruct k; [lia|]. exists (k + 0)%nat. done.
Qed.

(** The first character of a number is a digit. *)
Lemma decimal_head v : 0 <= v -> exists c l, decimal v = c :: l /\ is_Some (dec_digit c).
Proof.
  intros Hv. destruct (dec_digits_decimal v []) as [k E]; [done|done|]. rewrite app_nil_r in E.
  destruct (decimal v) as [|c l]; [done|]. exists c, l. split; [done|]. cbn in E. destruct (dec_digit c); [done|]. by injection E.
Qed.

Lemma digit_not_special c : is_Some (dec_digit c) -> isspace c = false /\ c <> "-"%char /\ c <> "+"%char.
Proof.
  unfold dec_digit. intros [x H]. destruct (_ && _) eqn:E; [|done]. apply andb_true_iff in E as [E1%Z.leb_le E2%Z.leb_le].
  split_and!; [|intros ->; change (code "-"%char) with 45 in E1; lia|intros ->; change (code "+"%char) with 43 in E1; lia]. unfold isspace.
  apply orb_false_iff. split; [apply Z.eqb_neq; lia|]. apply andb_false_iff. right. apply Z.leb_gt. lia.
Qed.

Lemma strtoull_decimal v rest :
  0 <= v < 2 ^ 64 -> match rest with [] => True | c :: _ => dec_digit c = None end ->
  strtoull (decimal v ++ rest) = (v, false, rest).
Proof.
  intros Hv Hr. destruct (dec_digits_decimal v rest) as [k E]; [lia|done|]. destruct (decimal_head v) as (c & l & Ed & Hc); [lia|].
  destruct (digit_not_special c Hc) as (H1 & H2 & H3). unfold strtoull. rewrite Ed in E |- *. cbn [app skip_space]. rewrite H1.
  rewrite !decide_False by done. cbn [app] in E. rewrite E. destruct (Z.leb_spec (2 ^ 64) v); [lia|done].
Qed.

(** ** Skipping fields *)

Lemma skip_word_ok w rest : Forall (fun c => isspace c = false) w -> ends_word rest -> skip_word (w ++ rest) = rest.
Proof.
  intros Hw Hr. induction Hw as [|c w Hc _ IH]; cbn [app skip_word]; [|by rewrite Hc].
  destruct rest as [|c l]; [done|]. cbn in *. by rewrite Hr.
Qed.

Definition spaced (words : list text) : text := words ≫= (fun w => " "%char :: w).

Lemma stat_field_words words v rest :
  Forall word_ok words -> 0 <= v < 2 ^ 64 -> ends_word rest ->
  stat_field (length words) (spaced words ++ " "%char :: decimal v ++ rest) = v.
Proof.
  intros Hw Hv Hr. induction Hw as [|w words [Hne Hsp] Hws IH].
  - destruct (decimal_head v) as (c & l & Ed & Hc); [lia|]. destruct (digit_not_special c Hc) as (H1 & _).
    cbn [spaced mbind list_bind app length stat_field skip_space]. change (isspace " "%char) with true. cbn iota.
    rewrite Ed. cbn [app skip_space]. rewrite H1, decide_False by done. change (c :: l ++ rest) with ((c :: l) ++ rest). rewrite <- Ed.
    rewrite strtoull_decimal; [|lia|].
    + cbn [orb]. rewrite bool_decide_eq_false_2; [done|]. intros E. apply (f_equal length) in E. rewrite Ed, length_app in E. cbn in E. lia.
    + destruct rest as [|x rest]; [done|]. cbn in Hr. destruct (dec_digit x) eqn:Ex; [|done].
      destruct (digit_not_special x) as [Hx _]; [by eexists|]. congruence.
  - destruct w as [|c w]; [done|]. pose proof (Forall_inv Hsp) as Hc.
    change (spaced ((c :: w) :: words)) with (" "%char :: (c :: w) ++ spaced words). cbn [length].
    rewrite <- app_comm_cons, <- app_assoc. cbn [stat_field skip_space app]. change (isspace " "%char) with true. cbn iota.
    rewrite Hc, decide_False by done. rewrite app_comm_cons, skip_word_ok; [exact IH|done|by destruct words].
Qed.

Lemma dec_digits_prefix a l v k r : dec_digits a l = (v, k, r) -> exists p, l = p ++ r /\ Forall (fun c => is_Some (dec_digit c)) p.
Proof.
  revert a v k. induction l as [|c l IH]; intros a v k; cbn [dec_digits]; [intros [= _ _ <-]; by exists []|].
  destruct (dec_digit c) as [d|] eqn:Ed; [|intros [= _ _ <-]; by exists []].
  destruct (dec_digits (10 * a + d) l) as [[v' k'] r'] eqn:E. intros [= _ _ <-]. apply IH in E as (p & -> & Hp).
  exists (c :: p). split; [done|]. constructor; [by eexists|done].
Qed.

Lemma decimal_no_paren v : 0 <= v -> ")"%char ∉ decimal v.
Proof.
  intros Hv Hin. destruct (dec_digits_decimal v []) as [k E]; [done|done|]. apply dec_digits_prefix in E as (p & Ep & Hp).
  rewrite !app_nil_r in Ep. rewrite Ep in Hin. apply (proj1 (Forall_forall _ _) Hp) in Hin. by destruct Hin.
Qed.

Lemma after_last_app c a b : c ∉ b -> after_last c (a ++ c :: b) = Some b.
Proof.
  intros Hb. assert (Hn : after_last c b = None).
  { induction b as [|x b IH]; [done|]. apply not_elem_of_cons in Hb as [Hx Hb]. cbn. by rewrite IH, decide_False by done. }
  induction a as [|x a IH]; cbn [app after_last]; [by rewrite Hn, decide_True by done|by rewrite IH].
Qed.

Lemma fgets_line n l rest : newline ∉ l -> (length l < n)%nat -> fgets n (l ++ newline :: rest) = (l ++ [newline], rest).
Proof.
  revert n. induction l as [|c l IH]; intros n Hl Hn; destruct n as [|n]; cbn in *; try lia; [done|].
  apply not_elem_of_cons in Hl as [Hc Hl]. rewrite decide_False by done. by rewrite IH by (done || lia).
Qed.

(** The line the kernel prints: the pid, the command in parentheses, the fields
    from the third to the twenty-first, the start time, and the rest. *)
Definition stat_line (pid comm : text) (fields : list text) (start_time : Z) (rest : text) : text :=
  pid ++ txt " (" ++ comm ++ ")"%char :: spaced fields ++ " "%char :: decimal start_time ++ rest.

(** ** Properties *)

(** The start time that identifies a process is read correctly whatever its
    command is called: spaces and parentheses in the name do not shift the
    fields. *)
Theorem start_time_exact pid comm fields start_time rest :
  length fields = 19%nat -> Forall word_ok fields -> 0 <= start_time < 2 ^ 64 -> ends_word rest ->
  ")"%char ∉ spaced fields ++ rest ->
  newline ∉ stat_line pid comm fields start_time rest -> NUL ∉ stat_line pid comm fields start_time rest ->
  (length (stat_line pid comm fields start_time rest) < 4095)%nat ->
  stat_start_time (Some (stat_line pid comm fields start_time rest ++ [newline])) = start_time.
Proof.
  intros Hl Hw Hs Hr Hp Hn H0 Hlen. unfold stat_start_time. set (line := stat_line pid comm fields start_time rest) in *.
  destruct (line ++ [newline]) as [|c0 l0] eqn:E; [by destruct line|]. rewrite <- E. clear E c0 l0.
  rewrite fgets_line by done. cbn [fst]. rewrite c_str_id by (rewrite not_elem_of_app; split; [done|rewrite not_elem_of_cons; split; [done|apply not_elem_of_nil]]).
  subst line. unfold stat_line.
  replace ((pid ++ txt " (" ++ comm ++ ")"%char :: spaced fields ++ " "%char :: decimal start_time ++ rest) ++ [newline])
    with ((pid ++ txt " (" ++ comm) ++ ")"%char :: (spaced fields ++ " "%char :: decimal start_time ++ rest ++ [newline]))
    by (repeat (rewrite <- app_assoc || rewrite <- app_comm_cons); done).
  rewrite after_last_app.
  - rewrite <- Hl. apply stat_field_words; [done|done|]. by destruct rest.
  - rewrite not_elem_of_app in Hp. destruct Hp as [Hp1 Hp2]. rewrite not_elem_of_app, not_elem_of_cons, !not_elem_of_app.
    split_and!; [done|done|apply decimal_no_paren; lia|done|rewrite not_elem_of_cons; split; [done|apply not_elem_of_nil]].
Qed.

Lemma start_time_exact_witness :
  stat_start_time (Some (stat_line (txt "7") (txt "a) R (b") (replicate 19 (txt "0")) 123456 (txt " 9 9") ++ [newline])) = 123456.
Proof.
  apply (start_time_exact (txt "7") (txt "a) R (b") (replicate 19 (txt "0")) 123456 (txt " 9 9")); try done.
  - apply Forall_replicate. split; [done|]. by repeat constructor.
  - apply (bool_decide_unpack _). by vm_compute.
  - apply (bool_decide_unpack _). by vm_compute.
  - apply (bool_decide_unpack _). by vm_compute.
  - vm_compute. lia.
Defined.
