(* ===== verification/BtStats.v ===== *)
(** * Timing statistics of the replay tool: [tools/bt_debug.c], lines 22-348

    The names of the stop reasons, and the statistics the tool keeps of the time
    each unwind takes: the running sums, the samples it stores for the
    percentiles, and the logarithmic histogram.  Arithmetic in [double] is the
    binary64 arithmetic of [SpecFloat], each operation rounded; [log2] is an
    argument. *)

From Stdlib Require Import Ascii Floats.SpecFloat.
From stdpp Require Import strings sorting.
From S2P Require Import Prelude Types Maps DebugFile Dump.

(** ** Stop reasons *)

(** The entries of [stop_reason_str], by the value of the enumerator. *)
Definition stop_reason_str : list (gu_unwind_reason * string) :=
  [(GU_UNWIND_REASON_OK, "OK"); (GU_UNWIND_REASON_NO_REGS, "NO_REGS"); (GU_UNWIND_REASON_NO_ELF, "NO_ELF");
   (GU_UNWIND_REASON_NO_CFI, "NO_CFI"); (GU_UNWIND_REASON_CFI_FAIL, "CFI_FAIL"); (GU_UNWIND_REASON_ARCH_FAIL, "ARCH_FAIL");
   (GU_UNWIND_REASON_PROCESS_EXIT, "PROCESS_EXIT"); (GU_UNWIND_REASON_LANG_SKIP, "LANG_SKIP");
   (GU_UNWIND_REASON_TRUNCATED, "TRUNCATED"); (GU_UNWIND_REASON_NO_EXEC_PC, "NO_EXEC_PC");
   (GU_UNWIND_REASON_CFI_FRAME_DECODE_FAILED, "CFI_FRAME_DECODE_FAILED");
   (GU_UNWIND_REASON_CFI_FRAME_CFA_FAILED, "CFI_FRAME_CFA_FAILED");
   (GU_UNWIND_REASON_CFI_FRAME_CFA_CALC_FAILED, "CFI_FRAME_CFA_CALC_FAILED");
   (GU_UNWIND_REASON_END_OF_STACK, "END_OF_STACK"); (GU_UNWIND_REASON_STACK_READ_OUT_OF_RANGE, "STACK_READ_OUT_OF_RANGE");
   (GU_UNWIND_REASON_NO_PROGRESS, "NO_PROGRESS"); (GU_UNWIND_REASON_UNKNOWN, "UNKNOWN")]%string.

Definition format_stop_reason (fl : Z) (buf_size : Z) : text :=
  match list_find (fun p => reason_code p.1 = gu_flags_reason fl) stop_reason_str with
  | Some (_, (_, s)) => txt s
  | None => snprintf buf_size (txt "UNMAPPED_REASON_" ++ decimal (gu_flags_reason fl))
  end.

Definition format_stop_status (fl : Z) : text :=
  if decide (gu_flags_reason fl = reason_code GU_UNWIND_REASON_OK \/ gu_flags_reason fl = reason_code GU_UNWIND_REASON_END_OF_STACK)
  then txt "NORMAL" else txt "ABNORMAL".

(** ** The statistics *)

(** [times] is the allocated array; an entry not yet written is [None]. *)
Record unwind_timing_stats : Type := mk_timing {
  total_ns : Z;
  count : Z;
  min_ns : Z;
  max_ns : Z;
  first_ns : Z;
  first_recorded : bool;
  times : option (list (option Z));
  times_capacity : Z;
  hist_min_ns : Z;
  hist_max_ns : Z;
  hist_bins : Z;
  hist_counts : option (list Z);
  max_us : Z;
  max_ms : Z;
  max_us_count : Z;
  max_ms_count : Z;
}.

Definition init_timing_stats (alloc_times alloc_hist : bool) : unwind_timing_stats :=
  mk_timing 0 0 UINT64_MAX 0 0 false
    (if alloc_times then Some (replicate 1000 None) else None) (if alloc_times then 1000 else 0)
    0 0 (if alloc_hist then 20 else 0) (if alloc_hist then Some (replicate 20 0) else None) 0 0 0 0.

Definition free_timing_stats (s : unwind_timing_stats) : unwind_timing_stats :=
  mk_timing (total_ns s) (count s) (min_ns s) (max_ns s) (first_ns s) (first_recorded s) None (times_capacity s)
    (hist_min_ns s) (hist_max_ns s) (hist_bins s) None (max_us s) (max_ms s) (max_us_count s) (max_ms_count s).

Definition update_timing_stats (s : unwind_timing_stats) (elapsed_ns : Z) : unwind_timing_stats :=
  if negb (first_recorded s) then
    mk_timing (total_ns s) (count s) (min_ns s) (max_ns s) elapsed_ns true (times s) (times_capacity s)
      (hist_min_ns s) (hist_max_ns s) (hist_bins s) (hist_counts s) (max_us s) (max_ms s) (max_us_count s) (max_ms_count s)
  else
  let times' := match times s with
                | Some l => Some (if count s <? times_capacity s then <[Z.to_nat (count s) := Some elapsed_ns]> l else l)
                | None => None
                end in
  let elapsed_us := elapsed_ns / 1000 in
  let elapsed_ms := elapsed_ns / 1000000 in
  let slow := 0 <? elapsed_ms in
  let unset := (hist_min_ns s =? 0) && (hist_max_ns s =? 0) in
  mk_timing (total_ns s +w elapsed_ns) (count s +w 1)
    (if elapsed_ns <? min_ns s then elapsed_ns else min_ns s) (if max_ns s <? elapsed_ns then elapsed_ns else max_ns s)
    (first_ns s) true times' (times_capacity s)
    (if unset then elapsed_ns else if elapsed_ns <? hist_min_ns s then elapsed_ns else hist_min_ns s)
    (if unset then elapsed_ns else if hist_max_ns s <? elapsed_ns then elapsed_ns else hist_max_ns s)
    (hist_bins s) (hist_counts s)
    (if negb slow && (max_us s <? elapsed_us) then elapsed_us else max_us s)
    (if slow && (max_ms s <? elapsed_ms) then elapsed_ms else max_ms s)
    (if slow then max_us_count s else max_us_count s +w 1) (if slow then max_ms_count s +w 1 else max_ms_count s).

(** ** Samples and percentiles *)

Definition compare_uint64 (va vb : Z) : Z := if va <? vb then -1 else if vb <? va then 1 else 0.
Definition not_after (va vb : Z) : Prop := compare_uint64 va vb <= 0.
#[export] Instance not_after_dec va vb : Decision (not_after va vb) := Z_le_dec _ _.

(** [times[i]] *)
Definition time_at (l : list (option Z)) (i : nat) : outcome Z :=
  match l !! i with
  | Some (Some t) => mret t
  | Some None => Undef Uninit
  | None => Undef OutOfBounds
  end.

(** The first [n] entries, from [i] on. *)
Fixpoint read_times (l : list (option Z)) (n i : nat) : outcome (list Z) :=
  match n with
  | O => mret []
  | S n => t ← time_at l i; ts ← read_times l n (S i); mret (t :: ts)
  end.

(** The [memcpy] of [count] samples and [qsort]; [None] when there are fewer
    than two or no memory. *)
Definition sorted_times (s : unwind_timing_stats) (alloc : bool) : outcome (option (list Z)) :=
  match times s with
  | Some l => if (1 <? count s) && alloc then ts ← read_times l (Z.to_nat (count s)) 0; mret (Some (merge_sort not_after ts)) else mret None
  | None => mret None
  end.

(** [double]: binary64. *)
Definition dbl_mul : spec_float -> spec_float -> spec_float := SFmul 53 1024.
Definition dbl_div : spec_float -> spec_float -> spec_float := SFdiv 53 1024.
Definition dbl_add : spec_float -> spec_float -> spec_float := SFadd 53 1024.
Definition dbl_sub : spec_float -> spec_float -> spec_float := SFsub 53 1024.
Definition dbl_of_Z (z : Z) : spec_float := binary_normalize 53 1024 z 0 false.

(** The conversion to an integer drops the fraction; a value the type cannot
    hold is undefined. *)
Definition dbl_trunc (x : spec_float) : option Z :=
  match x with
  | S754_zero _ => Some 0
  | S754_finite s m e =>
    let v := if 0 <=? e then Z.pos m * 2 ^ e else Z.pos m / 2 ^ (- e) in
    Some (if s then - v else v)
  | _ => None
  end.
Definition dbl_to_u64 (x : spec_float) : outcome Z :=
  match dbl_trunc x with
  | Some v => if (0 <=? v) && (v <? 2 ^ 64) then mret v else Undef SignedOverflow
  | None => Undef SignedOverflow
  end.
Definition dbl_to_int (x : spec_float) : outcome Z :=
  match dbl_trunc x with
  | Some v => if (- 2 ^ 31 <=? v) && (v <? 2 ^ 31) then mret v else Undef SignedOverflow
  | None => Undef SignedOverflow
  end.

Definition calculate_percentile (sorted : list Z) (count : Z) (percentile : spec_float) : outcome Z :=
  if count =? 0 then mret 0 else
  let at_ i := of_opt (sorted !! Z.to_nat i) in
  let index := dbl_mul (dbl_div percentile (dbl_of_Z 100)) (dbl_of_Z (count - 1)) in
  lower_index ← dbl_to_u64 index;
  let upper_index := lower_index +w 1 in
  if count <=? upper_index then at_ (count - 1) else
  let fraction := dbl_sub index (dbl_of_Z lower_index) in
  lower ← at_ lower_index;
  upper ← at_ upper_index;
  dbl_to_u64 (dbl_add (dbl_mul (dbl_of_Z lower) (dbl_sub (dbl_of_Z 1) fraction)) (dbl_mul (dbl_of_Z upper) fraction)).

(** P50, P75, P90, P95, P99 and P99.9 *)
Definition percentiles : list spec_float := (dbl_of_Z <$> [50; 75; 90; 95; 99]) ++ [dbl_div (dbl_of_Z 999) (dbl_of_Z 10)].
Fixpoint printed_percentiles (ps : list spec_float) (sorted : list Z) (count : Z) : outcome (list Z) :=
  match ps with
  | [] => mret []
  | p :: ps => v ← calculate_percentile sorted count p; vs ← printed_percentiles ps sorted count; mret (v :: vs)
  end.

(** ** The histogram *)

Fixpoint floor_loop (fuel : nat) (result value : Z) : outcome Z :=
  match fuel with
  | O => Undef OutOfFuel
  | S fuel => if result *w 2 <=? value then floor_loop fuel (result *w 2) value else mret result
  end.
Definition power_of_2_floor (fuel : nat) (value : Z) : outcome Z := if value =? 0 then mret 1 else floor_loop fuel 1 value.

Fixpoint ceil_loop (fuel : nat) (result value : Z) : outcome Z :=
  match fuel with
  | O => Undef OutOfFuel
  | S fuel => if result <? value then ceil_loop fuel (result *w 2) value else mret result
  end.
Definition power_of_2_ceil (fuel : nat) (value : Z) : outcome Z := if value =? 0 then mret 1 else ceil_loop fuel 1 value.

(** The range of the histogram, made non-empty. *)
Definition hist_range (fuel : nat) (s : unwind_timing_stats) : outcome (Z * Z) :=
  min_pow2 ← power_of_2_floor fuel (hist_min_ns s);
  max_pow2 ← power_of_2_ceil fuel (hist_max_ns s);
  mret (if min_pow2 =? max_pow2 then if 1 <? min_pow2 then (min_pow2 / 2, max_pow2) else (min_pow2, max_pow2 *w 2)
        else (min_pow2, max_pow2)).

Section histogram.
Variable log2 : spec_float -> spec_float.

Definition bin_size (bins : Z) (log_min log_max : spec_float) : spec_float := dbl_div (dbl_sub log_max log_min) (dbl_of_Z bins).

(** The bin of one sample, clamped. *)
Definition bin_index (bins : Z) (log_min size : spec_float) (time : Z) : outcome Z :=
  i ← dbl_to_int (dbl_div (dbl_sub (log2 (dbl_of_Z time)) log_min) size);
  let i := if i <? 0 then 0 else i in
  mret (if bins <=? i then bins - 1 else i).

Fixpoint fill_bins (bins : Z) (log_min size : spec_float) (ts : list Z) (counts : list Z) : outcome (list Z) :=
  match ts with
  | [] => mret counts
  | t :: ts =>
    i ← bin_index bins log_min size t;
    c ← of_opt (counts !! Z.to_nat i);
    fill_bins bins log_min size ts (<[Z.to_nat i := c +w 1]> counts)
  end.

(** [build_histogram], which [print_timing_stats] repeats on a temporary array:
    the counts it leaves, or [None] when there is nothing to count. *)
Definition build_histogram (fuel : nat) (s : unwind_timing_stats) : outcome (option (list Z)) :=
  match hist_counts s with
  | Some _ =>
    if count s =? 0 then mret None else
    '(min_pow2, max_pow2) ← hist_range fuel s;
    let log_min := log2 (dbl_of_Z min_pow2) in
    let size := bin_size (hist_bins s) log_min (log2 (dbl_of_Z max_pow2)) in
    ts ← (l ← deref (times s); read_times l (Z.to_nat (count s)) 0);
    counts ← fill_bins (hist_bins s) log_min size ts (replicate (Z.to_nat (hist_bins s)) 0);
    mret (Some counts)
  | None => mret None
  end.

(** What [print_timing_stats] computes: the mean, the percentiles and the
    histogram; the allocations of the two temporary arrays are arguments. *)
Record timing_report : Type := mk_timing_report {
  tr_avg_ns : Z;
  tr_percentiles : option (list Z);
  tr_histogram : option (list Z);
}.
Definition print_timing_stats (fuel : nat) (alloc_sorted alloc_counts : bool) (s : unwind_timing_stats) : outcome (option timing_report) :=
  if negb (first_recorded s) || (count s =? 0) then mret None else
  sorted ← sorted_times s alloc_sorted;
  ps ← match sorted with
       | Some l => vs ← printed_percentiles percentiles l (count s); mret (Some vs)
       | None => mret None
       end;
  hist ← (if alloc_counts then build_histogram fuel s else mret None);
  mret (Some (mk_timing_report (total_ns s / count s) ps hist)).
End histogram.

(** ** What the statistics hold *)

Definition sum_ns (l : list Z) : Z := foldr Z.add 0 l.
Definition least (l : list Z) : Z := foldr Z.min UINT64_MAX l.
Definition greatest (l : list Z) : Z := foldr Z.max 0 l.

(** The array after the samples [es]. *)
Definition stored (es : list Z) : list (option Z) := (Some <$> take 1000 es) ++ replicate (1000 - length es) None.

Lemma stored_snoc es e :
  stored (es ++ [e]) = if Z.of_nat (length es) <? 1000 then <[length es := Some e]> (stored es) else stored es.
Proof.
  unfold stored. rewrite length_app. cbn [length]. destruct (Z.ltb_spec (Z.of_nat (length es)) 1000) as [H|H].
  - rewrite !take_ge, fmap_app by (rewrite ?length_app; cbn; lia). rewrite insert_app_r_alt by (rewrite length_fmap; lia).
    rewrite length_fmap, Nat.sub_diag. replace (1000 - length es)%nat with (S (1000 - (length es + 1))) by lia.
    cbn. by rewrite <- app_assoc.
  - rewrite take_app_le by lia. replace (1000 - (length es + 1))%nat with (1000 - length es)%nat by lia. done.
Qed.

Lemma sum_snoc es e : sum_ns (es ++ [e]) = sum_ns es + e.
Proof. unfold sum_ns. rewrite foldr_app. cbn. induction es as [|x es IH]; cbn; [lia|]. rewrite IH. lia. Qed.
Lemma sum_nonneg es : Forall is_u64 es -> 0 <= sum_ns es.
Proof. unfold sum_ns. induction 1 as [|e es He _ IH]; cbn [foldr]; [lia|]. word. Qed.
Lemma least_snoc es e : least (es ++ [e]) = Z.min (least es) (Z.min e UINT64_MAX).
Proof. unfold least. rewrite foldr_app. cbn. induction es as [|x es IH]; cbn; [lia|]. rewrite IH. lia. Qed.
Lemma greatest_snoc es e : greatest (es ++ [e]) = Z.max (greatest es) (Z.max e 0).
Proof. unfold greatest. rewrite foldr_app. cbn. induction es as [|x es IH]; cbn; [lia|]. rewrite IH. lia. Qed.

(** The invariant of a run of updates. *)
Record summarises (e0 : Z) (es : list Z) (s : unwind_timing_stats) : Prop := {
  sm_first : first_recorded s = true /\ first_ns s = e0;
  sm_total : total_ns s = sum_ns es;
  sm_count : count s = Z.of_nat (length es);
  sm_min : min_ns s = least es;
  sm_max : max_ns s = greatest es;
  sm_times : times s = Some (stored es) /\ times_capacity s = 1000;
  sm_slow : 0 <= max_us_count s /\ 0 <= max_ms_count s /\ max_us_count s + max_ms_count s = count s;
}.

Lemma update_summarises e0 es s e :
  summarises e0 es s -> is_u64 e -> Forall is_u64 es -> sum_ns es + e < 2 ^ 64 -> Z.of_nat (length es) < 2 ^ 64 - 1 ->
  summarises e0 (es ++ [e]) (update_timing_stats s e).
Proof.
  intros [[Hf Hf0] Ht Hc Hmin Hmax [Htm Hcap] (Hu & Hm & Hsum)] He Hes Hs Hl. unfold update_timing_stats. rewrite Hf. cbn [negb].
  pose proof (sum_nonneg es Hes) as Hpos. unfold in_width in He.
  split; cbn.
  - done.
  - rewrite Ht, sum_snoc. apply add64_small. lia.
  - rewrite Hc, length_app, add64_small by (cbn; lia). cbn. lia.
  - rewrite Hmin, least_snoc. unfold UINT64_MAX. destruct (Z.ltb_spec e (least es)); lia.
  - rewrite Hmax, greatest_snoc. destruct (Z.ltb_spec (greatest es) e); lia.
  - rewrite Htm, Hcap, Hc, stored_snoc, Nat2Z.id. done.
  - rewrite Hc in *. destruct (0 <? e / 1000000); rewrite !add64_small by lia; lia.
Qed.

Lemma run_summarises e0 es s :
  summarises e0 [] s -> Forall is_u64 es -> sum_ns es < 2 ^ 64 -> Z.of_nat (length es) < 2 ^ 64 ->
  summarises e0 es (fold_left update_timing_stats es s).
Proof.
  intros H0. induction es as [|e es IH] using rev_ind; [done|]. rewrite Forall_app, Forall_singleton, sum_snoc, length_app, fold_left_app.
  cbn [length fold_left]. intros [Hes He] Hs Hl. pose proof (sum_nonneg es Hes). unfold in_width in He.
  apply update_summarises; [apply IH; [done|lia|lia]|done..|lia].
Qed.

Lemma time_stored es i e : (i < 1000)%nat -> es !! i = Some e -> time_at (stored es) i = Done e.
Proof.
  intros Hi He. assert (Hl : (i < length es)%nat) by (by apply lookup_lt_Some in He). unfold time_at, stored.
  rewrite lookup_app_l, list_lookup_fmap, lookup_take by (rewrite ?length_fmap, ?length_take; lia).
  by rewrite decide_True, He by lia.
Qed.

Lemma read_stored es n i : (i + n <= Nat.min 1000 (length es))%nat -> read_times (stored es) n i = Done (take n (drop i es)).
Proof.
  revert i. induction n as [|n IH]; intros i Hi; [done|]. cbn [read_times].
  destruct (lookup_lt_is_Some_2 es i) as [e He]; [lia|]. rewrite (time_stored es i e) by (done || lia). run.
  rewrite IH by lia. run. by rewrite (drop_S es e i He).
Qed.

Lemma read_past es n i : (i <= 1000)%nat -> (1000 <= length es)%nat -> (1000 < i + n)%nat -> read_times (stored es) n i = Undef OutOfBounds.
Proof.
  revert i. induction n as [|n IH]; intros i Hi He Hn; [lia|]. cbn [read_times].
  destruct (decide (i = 1000%nat)) as [->|Hne].
  - unfold time_at. rewrite (lookup_ge_None_2 (stored es)); [done|]. unfold stored.
    rewrite length_app, length_fmap, length_take, length_replicate. lia.
  - destruct (lookup_lt_is_Some_2 es i) as [e Ee]; [lia|]. rewrite (time_stored es i e) by (done || lia). run.
    by rewrite IH by lia.
Qed.

(** ** The powers of two *)

Lemma double_pow k : 0 <= k < 63 -> 2 ^ k *w 2 = 2 ^ (k + 1).
Proof.
  intros Hk. rewrite Z.pow_add_r by lia. apply wrap_small. split; [lia|]. rewrite <- Z.pow_add_r by lia.
  apply (Z.le_lt_trans _ (2 ^ 63)); [apply Z.pow_le_mono_r; lia|done].
Qed.

Lemma floor_loop_ok k fuel value :
  0 <= k -> 2 ^ k <= value < 2 ^ 63 -> (Z.to_nat (Z.log2 value - k) < fuel)%nat -> floor_loop fuel (2 ^ k) value = Done (2 ^ Z.log2 value).
Proof.
  revert k. induction fuel as [|fuel IH]; intros k Hk Hv Hf; [lia|]. cbn [floor_loop].
  assert (Hk62 : k <= Z.log2 value) by (apply Z.log2_le_pow2; lia).
  assert (Hlog : Z.log2 value < 63) by (apply Z.log2_lt_pow2; lia).
  rewrite double_pow by lia. destruct (Z.leb_spec (2 ^ (k + 1)) value) as [H|H].
  - apply IH; [lia|lia|]. assert (k + 1 <= Z.log2 value) by (apply Z.log2_le_pow2; lia). lia.
  - assert (Z.log2 value < k + 1) by (apply Z.log2_lt_pow2; lia). by replace (Z.log2 value) with k by lia.
Qed.

Lemma floor_loop_stuck fuel k value :
  2 ^ 63 <= value < 2 ^ 64 -> 0 <= k <= 64 -> floor_loop fuel (2 ^ k mod 2 ^ 64) value = Undef OutOfFuel.
Proof.
  intros Hv. revert k. induction fuel as [|fuel IH]; intros k Hk; [done|]. cbn [floor_loop].
  assert (E : (2 ^ k mod 2 ^ 64) *w 2 = 2 ^ (Z.min (k + 1) 64) mod 2 ^ 64).
  { unfold mul64, wrap. rewrite Zmult_mod_idemp_l. change (2 ^ k * 2) with (2 ^ k * 2 ^ 1). rewrite <- Z.pow_add_r by lia.
    destruct (decide (k = 64)) as [->|]; [done|]. f_equal. f_equal. lia. }
  rewrite E. set (j := Z.min (k + 1) 64). destruct (Z.leb_spec (2 ^ j mod 2 ^ 64) value) as [_|H]; [apply IH; lia|].
  exfalso. destruct (decide (j = 64)) as [Ej|Ej]; [rewrite Ej in H; change (2 ^ 64 mod 2 ^ 64) with 0 in H; lia|].
  assert (2 ^ j <= 2 ^ 63) by (apply Z.pow_le_mono_r; lia). rewrite Z.mod_small in H by lia. lia.
Qed.

Lemma ceil_loop_ok k fuel value :
  0 <= k <= Z.log2_up value -> 0 < value <= 2 ^ 63 -> (Z.to_nat (Z.log2_up value - k) < fuel)%nat ->
  ceil_loop fuel (2 ^ k) value = Done (2 ^ Z.log2_up value).
Proof.
  revert k. induction fuel as [|fuel IH]; intros k Hk Hv Hf; [lia|]. cbn [ceil_loop].
  assert (Hlog : Z.log2_up value <= 63) by (apply Z.log2_up_le_pow2; lia).
  destruct (Z.ltb_spec (2 ^ k) value) as [H|H].
  - assert (k < Z.log2_up value) by (apply Z.log2_up_lt_pow2; lia). rewrite double_pow by lia. apply IH; lia.
  - assert (Z.log2_up value <= k) by (apply Z.log2_up_le_pow2; lia). by replace (Z.log2_up value) with k by lia.
Qed.

Lemma ceil_loop_stuck fuel k value :
  2 ^ 63 < value < 2 ^ 64 -> 0 <= k <= 64 -> ceil_loop fuel (2 ^ k mod 2 ^ 64) value = Undef OutOfFuel.
Proof.
  intros Hv. revert k. induction fuel as [|fuel IH]; intros k Hk; [done|]. cbn [ceil_loop].
  destruct (Z.ltb_spec (2 ^ k mod 2 ^ 64) value) as [_|H].
  - unfold mul64, wrap. rewrite Zmult_mod_idemp_l. change (2 ^ k * 2) with (2 ^ k * 2 ^ 1). rewrite <- Z.pow_add_r by lia.
    destruct (decide (k = 64)) as [->|]; [change (2 ^ (64 + 1) mod 2 ^ 64) with (2 ^ 64 mod 2 ^ 64)|]; apply IH; lia.
  - exfalso. destruct (decide (k = 64)) as [->|]; [change (2 ^ 64 mod 2 ^ 64) with 0 in H; lia|].
    assert (2 ^ k <= 2 ^ 63) by (apply Z.pow_le_mono_r; lia). rewrite Z.mod_small in H by lia. lia.
Qed.

(** ** Properties *)

(** The statistics of a run of unwinds.  After the first sample, which is
    kept apart, [n] further ones leave their exact sum, number, least and
    greatest value; but only 1000 of them are stored while all are counted, so
    the copy that is sorted for the percentiles is the samples in order when
    [n] is at most 1000, and reads past the array when it is larger. *)
Theorem timing_samples_bounded e0 es :
  Forall is_u64 es -> sum_ns es < 2 ^ 64 -> Z.of_nat (length es) < 2 ^ 64 ->
  let s := fold_left update_timing_stats (e0 :: es) (init_timing_stats true true) in
  (first_ns s = e0 /\ total_ns s = sum_ns es /\ count s = Z.of_nat (length es) /\ min_ns s = least es /\ max_ns s = greatest es) /\
  ((2 <= length es <= 1000)%nat -> exists l, sorted_times s true = Done (Some l) /\ l ≡ₚ es /\ StronglySorted Z.le l) /\
  ((1000 < length es)%nat -> sorted_times s true = Undef OutOfBounds /\
     forall log2 fuel alloc, print_timing_stats log2 fuel true alloc s = Undef OutOfBounds).
Proof.
  intros Hes Hsum Hl s. assert (Hs : summarises e0 es s).
  { apply (run_summarises e0 es (update_timing_stats (init_timing_stats true true) e0)); [|done..]. split; done. }
  clearbody s. destruct Hs as [[Hf Hf0] Ht Hc Hmin Hmax [Htm Hcap] _]. split; [done|].
  assert (Hsorted : (1 < length es)%nat -> sorted_times s true = ts ← read_times (stored es) (length es) 0; mret (Some (merge_sort not_after ts))).
  { intros H. unfold sorted_times. rewrite Htm, Hc. destruct (Z.ltb_spec 1 (Z.of_nat (length es))); [|lia]. cbn [andb]. by rewrite Nat2Z.id. }
  split; intros Hn; rewrite Hsorted by lia.
  - rewrite read_stored by lia. cbn [drop]. rewrite firstn_all. run. eexists. split; [done|]. split; [apply merge_sort_Permutation|].
    assert (Htotal : Total not_after) by (intros x y; unfold not_after, compare_uint64; destruct (Z.ltb_spec x y), (Z.ltb_spec y x); lia).
    assert (Htrans : Transitive not_after).
    { intros x y z. unfold not_after, compare_uint64. destruct (Z.ltb_spec x y), (Z.ltb_spec y x), (Z.ltb_spec y z), (Z.ltb_spec z y), (Z.ltb_spec x z), (Z.ltb_spec z x); lia. }
    eapply StronglySorted_impl; [|apply (StronglySorted_merge_sort not_after)].
    intros x y. unfold not_after, compare_uint64. destruct (Z.ltb_spec x y), (Z.ltb_spec y x); lia.
  - rewrite read_past by lia. split; [done|]. intros log2 fuel alloc. unfold print_timing_stats. rewrite Hf, Hc, Hsorted by lia. cbn [negb orb].
    destruct (Z.eqb_spec (Z.of_nat (length es)) 0); [lia|]. by rewrite read_past by lia.
Qed.

(** The loops that round to a power of two end exactly for the values whose
    result fits: rounding down is right below 2^63 and never ends from 2^63 on,
    where doubling wraps to zero; rounding up is right to 2^63 and never ends
    above. *)
Theorem power_of_2_terminates value :
  0 < value < 2 ^ 64 ->
  (value < 2 ^ 63 -> power_of_2_floor 64 value = Done (2 ^ Z.log2 value)) /\
  (2 ^ 63 <= value -> forall fuel, power_of_2_floor fuel value = Undef OutOfFuel) /\
  (value <= 2 ^ 63 -> power_of_2_ceil 64 value = Done (2 ^ Z.log2_up value)) /\
  (2 ^ 63 < value -> forall fuel, power_of_2_ceil fuel value = Undef OutOfFuel).
Proof.
  intros Hv. unfold power_of_2_floor, power_of_2_ceil. destruct (Z.eqb_spec value 0) as [|_]; [lia|].
  pose proof (Z.log2_nonneg value). pose proof (Z.log2_up_nonneg value). split_and!; intros Hb.
  - assert (Z.log2 value < 63) by (apply Z.log2_lt_pow2; lia). apply (floor_loop_ok 0); lia.
  - intros fuel. apply (floor_loop_stuck fuel 0); lia.
  - assert (Z.log2_up value <= 63) by (apply Z.log2_up_le_pow2; lia). apply (ceil_loop_ok 0); lia.
  - intros fuel. apply (ceil_loop_stuck fuel 0); lia.
Qed.

Lemma timing_samples_bounded_witness :
  let s := fold_left update_timing_stats (9 :: [30; 10; 20]) (init_timing_stats true true) in
  (first_ns s = 9 /\ total_ns s = 60 /\ count s = 3 /\ min_ns s = 10 /\ max_ns s = 30) /\
  exists l, sorted_times s true = Done (Some l) /\ l ≡ₚ [30; 10; 20] /\ StronglySorted Z.le l.
Proof.
  destruct (timing_samples_bounded 9 [30; 10; 20]) as (H1 & H2 & _);
    [repeat constructor; word|cbn; lia|cbn; lia|]. split; [exact H1|apply H2; cbn; lia].
Defined.

Lemma power_of_2_terminates_witness :
  power_of_2_floor 64 1500 = Done (2 ^ Z.log2 1500) /\ power_of_2_ceil 64 1500 = Done (2 ^ Z.log2_up 1500) /\
  power_of_2_floor 1000 (2 ^ 63) = Undef OutOfFuel.
Proof.
  destruct (power_of_2_terminates 1500) as (H1 & _ & H2 & _); [lia|].
  destruct (power_of_2_terminates (2 ^ 63)) as (_ & H3 & _); [lia|].
  split; [apply H1; lia|]. split; [apply H2; lia|apply H3; lia].
Defined.
