(* ===== verification/Timer.v ===== *)
(** * The retire timer: [src/gu_stacktrace.c], lines 158-251

    A thread publishes the time once a second and asks for a sweep; the context
    reads both through atomics.  A run is an interleaving of the steps of the
    two threads; a step of the timer carries what the clock and [poll] answer. *)

From S2P Require Import Prelude.

(** ** State *)
Inductive poll_answer : Type :=
  | PollReady
  | PollTimeout
  | PollEintr
  | PollError.

(** Where [gu_retire_timer_thread] is: at the test of [retire_timer_stop], at
    the clock, before each of its stores, in [poll], or after an interruption. *)
Inductive timer_pc : Type :=
  | TCheck
  | TClock
  | TStoreNow (now_ns : Z)
  | TStorePending
  | TPoll
  | TRetry
  | TExit.

#[export] Instance timer_pc_eq_dec : EqDecision timer_pc.
Proof. solve_decision. Defined.

Record timer : Type := mk_timer {
  tm_started : bool;
  tm_stop : bool;
  tm_pending : bool;
  tm_now : Z;
  tm_event_fd : bool;   (** open *)
  tm_signalled : bool;  (** the descriptor is readable *)
  tm_pc : timer_pc;
}.

Definition with_pc (s : timer) (pc : timer_pc) : timer :=
  mk_timer (tm_started s) (tm_stop s) (tm_pending s) (tm_now s) (tm_event_fd s) (tm_signalled s) pc.

(** ** The thread *)
Definition timer_step (clock : Z) (poll : poll_answer) (s : timer) : timer :=
  match tm_pc s with
  | TCheck => with_pc s (if tm_stop s then TExit else TClock)
  | TClock => with_pc s (if clock =? 0 then TPoll else TStoreNow clock)
  | TStoreNow v =>
    mk_timer (tm_started s) (tm_stop s) (tm_pending s) v (tm_event_fd s) (tm_signalled s) TStorePending
  | TStorePending =>
    mk_timer (tm_started s) (tm_stop s) true (tm_now s) (tm_event_fd s) (tm_signalled s) TPoll
  | TPoll => with_pc s (match poll with PollEintr => TRetry | _ => TCheck end)
  | TRetry => with_pc s (if tm_stop s then TCheck else TPoll)
  | TExit => s
  end.

(** ** The context *)

(** [gu_retire_timer_start]: [eventfd_ok] and [create_ok] are the descriptor and
    the thread. *)
Definition gu_retire_timer_start (clock : Z) (eventfd_ok create_ok : bool) : Z * timer :=
  if negb eventfd_ok then (-1, mk_timer false false false clock false false TExit) else
  if negb create_ok then (-1, mk_timer false false false clock false false TExit) else
  (0, mk_timer true false false clock true false TCheck).

(** The first half of [gu_retire_timer_stop], up to the join. *)
Definition stop_request (s : timer) : timer :=
  if negb (tm_started s) then s else
  mk_timer (tm_started s) true (tm_pending s) (tm_now s) (tm_event_fd s) (tm_event_fd s || tm_signalled s) (tm_pc s).

(** The rest, once the thread has exited; [None] while the join waits. *)
Definition stop_join (s : timer) : option timer :=
  if negb (tm_started s) then Some s else
  if decide (tm_pc s = TExit) then
    Some (mk_timer false (tm_stop s) (tm_pending s) (tm_now s) false (tm_signalled s) TExit)
  else None.

(** An event of a run: a step of the thread, or an access of the context, with
    what it observes. *)
Inductive timer_event : Type :=
  | ThreadStep (clock : Z) (poll : poll_answer)
  | ExchangePending
  | LoadNow.
Inductive observation : Type := Exchanged (b : bool) | Loaded (v : Z).

Definition timer_event_step (e : timer_event) (s : timer) : timer * list observation :=
  match e with
  | ThreadStep clock poll => (timer_step clock poll s, [])
  | ExchangePending =>
    (mk_timer (tm_started s) (tm_stop s) false (tm_now s) (tm_event_fd s) (tm_signalled s) (tm_pc s), [Exchanged (tm_pending s)])
  | LoadNow => (s, [Loaded (tm_now s)])
  end.

Fixpoint timer_run (es : list timer_event) (s : timer) : list observation :=
  match es with
  | [] => []
  | e :: es => let '(s, o) := timer_event_step e s in o ++ timer_run es s
  end.

(** ** Specification *)

(** Times never run backwards, and a sweep that was asked for has a time. *)
Fixpoint times_ok (low : Z) (asked : bool) (os : list observation) : Prop :=
  match os with
  | [] => True
  | Exchanged b :: os => times_ok low (asked || b) os
  | Loaded v :: os => low <= v < 2 ^ 63 /\ (asked = true -> v <> 0) /\ times_ok v asked os
  end.

(** The clock of the run is monotonic; it may fail, which reads as zero. *)
Fixpoint clock_ok (low : Z) (es : list timer_event) : Prop :=
  match es with
  | [] => True
  | ThreadStep clock _ :: es => clock < 2 ^ 63 /\ (clock = 0 \/ low <= clock) /\ clock_ok (if clock =? 0 then low else clock) es
  | _ :: es => clock_ok low es
  end.

(** ** Facts *)
Definition pc_ok (s : timer) (top : Z) : Prop :=
  match tm_pc s with
  | TStoreNow v => tm_now s <= v <= top /\ 0 < v < 2 ^ 63
  | TStorePending => 0 < tm_now s
  | _ => True
  end.

Record timer_ok (s : timer) (top : Z) : Prop := {
  tk_now : 0 <= tm_now s <= top;
  tk_range : tm_now s < 2 ^ 63;
  tk_pending : tm_pending s = true -> 0 < tm_now s;
  tk_pc : pc_ok s top;
}.

Lemma timer_step_ok clock poll s top :
  timer_ok s top -> clock < 2 ^ 63 -> clock = 0 \/ top <= clock ->
  timer_ok (timer_step clock poll s) (if clock =? 0 then top else clock) /\ tm_now s <= tm_now (timer_step clock poll s) /\
  (tm_pending s = true -> tm_pending (timer_step clock poll s) = true).
Proof.
  intros [Hn Hr Hp Hpc] Hc Hm. set (top' := if clock =? 0 then top else clock).
  assert (Htop : top <= top') by (unfold top'; destruct (Z.eqb_spec clock 0); lia).
  assert (Hmove : forall pc, pc_ok (with_pc s pc) top' -> timer_ok (with_pc s pc) top').
  { intros pc H. split; cbn; [lia|done|done|done]. }
  unfold timer_step. unfold pc_ok in Hpc. destruct (tm_pc s) as [| |v| | | |] eqn:E.
  - split; [apply Hmove; unfold pc_ok; cbn; by destruct (tm_stop s)|]. cbn. split; [lia|done].
  - split; [|cbn; split; [lia|done]]. apply Hmove. unfold pc_ok, top' in *. cbn [tm_pc with_pc tm_now].
    destruct (Z.eqb_spec clock 0); [done|]. lia.
  - split; [|cbn; split; [lia|done]]. split; cbn; [lia|lia|intros; lia|unfold pc_ok; cbn; lia].
  - split; [|cbn; split; [lia|done]]. split; cbn; [lia|done|done|done].
  - split; [apply Hmove; unfold pc_ok; cbn; by destruct poll|]. cbn. split; [lia|done].
  - split; [apply Hmove; unfold pc_ok; cbn; by destruct (tm_stop s)|]. cbn. split; [lia|done].
  - split; [|split; [lia|done]]. split; [lia|done|done|]. unfold pc_ok. by rewrite E.
Qed.

Lemma timer_run_ok es s top low asked :
  timer_ok s top -> clock_ok top es -> low <= tm_now s -> (asked = true -> 0 < tm_now s) -> times_ok low asked (timer_run es s).
Proof.
  revert s top low asked. induction es as [|e es IH]; intros s top low asked Hok Hc Hlow Ha; cbn [timer_run]; [done|].
  destruct e as [clock poll| |]; cbn [timer_event_step app clock_ok] in *.
  - destruct Hc as (H1 & H2 & H3). destruct (timer_step_ok clock poll s top Hok H1 H2) as (Hok' & Hmono & _).
    eapply IH; [exact Hok'|done|lia|]. intros H. specialize (Ha H). lia.
  - cbn [times_ok]. destruct Hok as [Hn Hr Hp Hpc]. eapply (IH _ top).
    + split; cbn; [done|done|done|]. unfold pc_ok in *. cbn. done.
    + done.
    + cbn. done.
    + cbn [tm_now]. intros [H|H]%orb_true_iff; [by apply Ha|by apply Hp].
  - cbn [times_ok]. pose proof (tk_now _ _ Hok). pose proof (tk_range _ _ Hok). split; [lia|]. split; [intros H'; specialize (Ha H'); lia|].
    by eapply IH.
Qed.

(** How far the thread is from its exit once it has been asked. *)
Definition rank (pc : timer_pc) : nat :=
  match pc with
  | TExit => 0
  | TCheck => 1
  | TRetry => 2
  | TPoll => 3
  | TStorePending => 4
  | TStoreNow _ => 5
  | TClock => 6
  end.

Lemma timer_step_rank clock poll s :
  tm_stop s = true -> tm_started s = true ->
  (rank (tm_pc (timer_step clock poll s)) <= pred (rank (tm_pc s)))%nat /\
  tm_stop (timer_step clock poll s) = true /\ tm_started (timer_step clock poll s) = true.
Proof.
  intros Hs Hst. unfold timer_step. destruct (tm_pc s) eqn:E; cbn; rewrite ?Hs, ?E; cbn; repeat split; try done; try lia.
  - destruct (clock =? 0); cbn; lia.
  - destruct poll; cbn; lia.
Qed.

(** The thread alone, from its [k]-th answer on. *)
Definition thread_run (answers : nat -> Z * poll_answer) (s : timer) (k n : nat) : timer :=
  foldl (fun t i => timer_step (answers i).1 (answers i).2 t) s (seq k n).

Lemma thread_run_rank answers s k n :
  tm_stop s = true -> tm_started s = true ->
  (rank (tm_pc (thread_run answers s k n)) <= rank (tm_pc s) - n)%nat /\ tm_started (thread_run answers s k n) = true.
Proof.
  unfold thread_run. revert s k. induction n as [|n IH]; intros s k Hs Hst; cbn [seq foldl]; [split; [lia|done]|].
  destruct (timer_step_rank (answers k).1 (answers k).2 s Hs Hst) as (Hr & Hs' & Hst'). destruct (IH _ (S k) Hs' Hst') as [H1 H2].
  split; [lia|done].
Qed.

(** ** Properties *)

(** C36: once [gu_retire_timer_stop] has asked, the thread exits within six of its
    steps, whatever the clock and [poll] answer, interruptions included: the join
    returns, the descriptor is closed and the timer is stopped. *)
Theorem timer_stops (answers : nat -> Z * poll_answer) s :
  tm_started s = true ->
  exists s', stop_join (thread_run answers (stop_request s) 0 6) = Some s' /\ tm_started s' = false /\ tm_event_fd s' = false.
Proof.
  intros Hst. assert (H : tm_stop (stop_request s) = true /\ tm_started (stop_request s) = true) by (unfold stop_request; by rewrite Hst).
  destruct (thread_run_rank answers (stop_request s) 0 6) as [Hr Hst']; [apply H..|]. unfold stop_join. rewrite Hst'. cbn [negb].
  assert (rank (tm_pc (stop_request s)) <= 6)%nat by (destruct (tm_pc (stop_request s)); cbn; lia).
  rewrite decide_True; [by eexists|]. destruct (tm_pc (thread_run answers (stop_request s) 0 6)); cbn in Hr; try lia. done.
Qed.

(** However the two threads interleave, the times the context loads never run
    backwards and stay in range, and after a sweep was asked for a time is there
    to be loaded, if the clock of the system does not run backwards. *)
Theorem timer_times_monotonic clock es r s :
  gu_retire_timer_start clock true true = (r, s) -> 0 <= clock < 2 ^ 63 -> clock_ok clock es -> times_ok 0 false (timer_run es s).
Proof.
  intros [= _ <-] Hc Hes. apply (timer_run_ok es _ clock); try done; [|cbn; lia]. split; cbn; [lia|lia|done|done].
Qed.

(** ** Witnesses *)
Definition sample_timer : timer := mk_timer true false false 5 true false TPoll.
Lemma timer_stops_witness :
  exists s', stop_join (thread_run (fun _ => (7, PollEintr)) (stop_request sample_timer) 0 6) = Some s' /\
    tm_started s' = false /\ tm_event_fd s' = false.
Proof. apply timer_stops. reflexivity. Defined.

Lemma timer_times_monotonic_witness :
  times_ok 0 false (timer_run
    [LoadNow; ThreadStep 9 PollReady; ThreadStep 9 PollReady; ThreadStep 9 PollReady; LoadNow; ThreadStep 9 PollReady; ExchangePending; LoadNow]
    (gu_retire_timer_start 5 true true).2).
Proof. eapply timer_times_monotonic; [reflexivity|lia|]. cbn. lia. Defined.
