(* ===== verification/Context.v ===== *)
(** * The unwinder context: [src/gu_stacktrace.c], [src/gu_stacktrace.h]

    The caches one [gu_context] keeps between samples: ELF images shared by
    the processes that map them (reference counted, retired for ten seconds
    before they are freed), and per process the index of its executable
    mappings, reloaded at most once per jittered interval.

    The state is explicit: contexts, mappings and process entries live in maps
    keyed by their address (or pid, as in the source's hash tables), a pointer
    is an address, and following one that is not in its map is a fault. *)

From stdpp Require Import strings.
From S2P Require Import Prelude Types IntervalArray CfiProgram Cfi CfiParse ElfRanges Maps.

Definition GU_ELF_RETIRE_TTL_NS : Z := 10 * 1000000000.
Definition GU_PID_MAPS_RELOAD_MIN_INTERVAL_NS : Z := 30 * 1000000000.
Definition GU_PID_MAPS_RELOAD_MAX_INTERVAL_NS : Z := 90 * 1000000000.

(** ** Data *)

(** [struct per_elf_ctx].  [ec_names] is the memory of the symbol names the
    image owns (the strings its symbol payloads point to), [ec_cache] the parse
    cache embedded in [gu_cfi].  The libelf handles and the paths are closed or
    only printed once the image is loaded. *)
Record per_elf_ctx : Type := mk_elf {
  ec_build_id : list Z;
  ec_golang : bool;
  ec_symbols : option interval_array;
  ec_names : gmap Z string;
  ec_cfi : option gu_cfi;
  ec_cache : list parse_cache_entry;
  ec_sym_search_size : Z;
  ec_refcnt : Z;
  ec_exec_virt_addr : Z;
  ec_exec_ranges : list gu_elf_exec_range;
  ec_retired : bool;
  ec_retire_deadline_ns : Z;
}.

(** [struct per_elf_map_ctx] *)
Record per_elf_map_ctx : Type := mk_map {
  mc_elf_ctx : Z;
  mc_exec_virt_addr : Z;
}.

(** [struct per_pid_ctx]; [pc_addr] is the address of the object, the caller's
    private block is its bytes. *)
Record per_pid_ctx : Type := mk_pid {
  pc_addr : Z;
  pc_elf_ctx_list : option interval_array;
  pc_pid : Z;
  pc_comm : string;
  pc_golang : bool;
  pc_preload : bool;
  pc_unique_id : Z;
  pc_last_maps_load_ns : Z;
  pc_next_maps_reload_ns : Z;
  pc_rand_state : Z;
  pc_private : option (list Z);
}.

Inductive gu_pid_ctx_event : Type :=
  | GU_PID_CTX_EVENT_CREATE (pid start_time : Z) (comm : string)
  | GU_PID_CTX_EVENT_DESTROY (pid start_time : Z) (comm : string).

(** [struct gu_context], less the kernel symbols.  [cx_events] are the listener
    notifications sent so far; [cx_ticks] counts the calls that left the
    library, so that each gets its own answer from the environment. *)
Record gu_context : Type := mk_ctx {
  cx_elfs : gmap Z per_elf_ctx;
  cx_maps : gmap Z per_elf_map_ctx;
  cx_pids : gmap Z per_pid_ctx;
  cx_next_deadline_ns : Z;
  cx_timer_started : bool;
  cx_debug : bool;
  cx_go_only_buildid : bool;
  cx_stats : gu_statistics;
  cx_events : list gu_pid_ctx_event;
  cx_ticks : nat;
}.

(** The path a deleted mapping is opened through. *)
Inductive live_open_path : Type :=
  | ProcExe (pid : Z)
  | ProcMapFile (pid start end_ : Z).

(** What reading an image yields once its build-id is known: the tables
    [load_elf] builds from the sections. *)
Record elf_image : Type := mk_image {
  im_golang : bool;
  im_symbols : option interval_array;
  im_names : gmap Z string;
  im_cfi : option gu_cfi;
  im_sym_search_size : Z;
  im_phdrs : option (list (option GElf_Phdr)); (** libelf's answers, as in [ElfRanges] *)
}.

(** ** The environment

    What the kernel, libelf and the allocator answer; the natural number is the
    position of the call in the run, so two calls may get different answers.
    [timer_now] and [timer_pending] are what the atomic loads of the fields
    written by the retire timer thread return: any interleaving with that
    thread is some choice of these answers. *)
Class Env : Type := {
  clock_ns : nat -> Z;                   (** [clock_gettime]; [0] on failure *)
  timer_now : nat -> Z;
  timer_pending : nat -> bool;
  kill_ok : nat -> Z -> bool;            (** [kill(pid, 0) == 0] *)
  proc_maps_file : nat -> Z -> option Z -> option text; (** [/proc/<pid>/maps], or a saved copy *)
  maps_alloc : nat -> nat -> bool;       (** the allocations made while reading it *)
  proc_comm : nat -> Z -> string;
  proc_start_time : nat -> Z -> Z;       (** field 22 of [/proc/<pid>/stat] *)
  read_build_id : nat -> Z -> string -> option live_open_path -> option (list Z);
  read_image : nat -> Z -> string -> option live_open_path -> option elf_image;
  malloc_addr : nat -> gset Z -> option Z; (** a block outside those in use *)
  malloc_ok : nat -> bool;               (** an allocation whose address does not matter *)
  clock_range n : 0 <= clock_ns n < 2 ^ 63;
  timer_range n : 0 <= timer_now n < 2 ^ 63;
  pid_block : nat -> option Z;           (** [calloc] of a [struct per_pid_ctx] *)
  pid_block_u64 n a : pid_block n = Some a -> is_u64 a;
  proc_maps_format n pid d t : proc_maps_file n pid d = Some t -> maps_file_ok t;
  malloc_fresh n used a : malloc_addr n used = Some a -> a ∉ used /\ 0 < a < 2 ^ 63;
}.

(** ** Updates of the counters and of the context *)
Definition on_elf_ctx_count (f : Z -> Z) (s : gu_statistics) : gu_statistics :=
  mk_gu_statistics (f (elf_ctx_count s)) (pid_ctx_count s) (elf_ctx_alloc_count s)
    (pid_ctx_alloc_count s)
    (retired_elf_ctx_count s) (retired_elf_cache_hit s) (retired_elf_expired s)
    (pid_maps_reload_count s) (pid_maps_reload_throttle_count s) (symbols_mem_size s)
    (cfi_mem_size s) (cfi_data_mem_size s) (kernel_symbols_mem_size s)
    (unique_id_caused_reload_count s).
Definition on_pid_ctx_count (f : Z -> Z) (s : gu_statistics) : gu_statistics :=
  mk_gu_statistics (elf_ctx_count s) (f (pid_ctx_count s)) (elf_ctx_alloc_count s)
    (pid_ctx_alloc_count s)
    (retired_elf_ctx_count s) (retired_elf_cache_hit s) (retired_elf_expired s)
    (pid_maps_reload_count s) (pid_maps_reload_throttle_count s) (symbols_mem_size s)
    (cfi_mem_size s) (cfi_data_mem_size s) (kernel_symbols_mem_size s)
    (unique_id_caused_reload_count s).
Definition on_elf_ctx_alloc_count (f : Z -> Z) (s : gu_statistics) : gu_statistics :=
  mk_gu_statistics (elf_ctx_count s) (pid_ctx_count s) (f (elf_ctx_alloc_count s))
    (pid_ctx_alloc_count s)
    (retired_elf_ctx_count s) (retired_elf_cache_hit s) (retired_elf_expired s)
    (pid_maps_reload_count s) (pid_maps_reload_throttle_count s) (symbols_mem_size s)
    (cfi_mem_size s) (cfi_data_mem_size s) (kernel_symbols_mem_size s)
    (unique_id_caused_reload_count s).
Definition on_pid_ctx_alloc_count (f : Z -> Z) (s : gu_statistics) : gu_statistics :=
  mk_gu_statistics (elf_ctx_count s) (pid_ctx_count s) (elf_ctx_alloc_count s) (f
    (pid_ctx_alloc_count s))
    (retired_elf_ctx_count s) (retired_elf_cache_hit s) (retired_elf_expired s)
    (pid_maps_reload_count s) (pid_maps_reload_throttle_count s) (symbols_mem_size s)
    (cfi_mem_size s) (cfi_data_mem_size s) (kernel_symbols_mem_size s)
    (unique_id_caused_reload_count s).
Definition on_retired_elf_ctx_count (f : Z -> Z) (s : gu_statistics) : gu_statistics :=
  mk_gu_statistics (elf_ctx_count s) (pid_ctx_count s) (elf_ctx_alloc_count s)
    (pid_ctx_alloc_count s)
    (f (retired_elf_ctx_count s)) (retired_elf_cache_hit s) (retired_elf_expired s)
    (pid_maps_reload_count s) (pid_maps_reload_throttle_count s) (symbols_mem_size s)
    (cfi_mem_size s) (cfi_data_mem_size s) (kernel_symbols_mem_size s)
    (unique_id_caused_reload_count s).
Definition on_retired_elf_cache_hit (f : Z -> Z) (s : gu_statistics) : gu_statistics :=
  mk_gu_statistics (elf_ctx_count s) (pid_ctx_count s) (elf_ctx_alloc_count s)
    (pid_ctx_alloc_count s)
    (retired_elf_ctx_count s) (f (retired_elf_cache_hit s)) (retired_elf_expired s)
    (pid_maps_reload_count s) (pid_maps_reload_throttle_count s) (symbols_mem_size s)
    (cfi_mem_size s) (cfi_data_mem_size s) (kernel_symbols_mem_size s)
    (unique_id_caused_reload_count s).
Definition on_retired_elf_expired (f : Z -> Z) (s : gu_statistics) : gu_statistics :=
  mk_gu_statistics (elf_ctx_count s) (pid_ctx_count s) (elf_ctx_alloc_count s)
    (pid_ctx_alloc_count s)
    (retired_elf_ctx_count s) (retired_elf_cache_hit s) (f (retired_elf_expired s))
    (pid_maps_reload_count s) (pid_maps_reload_throttle_count s) (symbols_mem_size s)
    (cfi_mem_size s) (cfi_data_mem_size s) (kernel_symbols_mem_size s)
    (unique_id_caused_reload_count s).
Definition on_pid_maps_reload_count (f : Z -> Z) (s : gu_statistics) : gu_statistics :=
  mk_gu_statistics (elf_ctx_count s) (pid_ctx_count s) (elf_ctx_alloc_count s)
    (pid_ctx_alloc_count s)
    (retired_elf_ctx_count s) (retired_elf_cache_hit s) (retired_elf_expired s)
    (f (pid_maps_reload_count s)) (pid_maps_reload_throttle_count s) (symbols_mem_size s)
    (cfi_mem_size s) (cfi_data_mem_size s) (kernel_symbols_mem_size s)
    (unique_id_caused_reload_count s).
Definition on_pid_maps_reload_throttle_count (f : Z -> Z) (s : gu_statistics) : gu_statistics :=
  mk_gu_statistics (elf_ctx_count s) (pid_ctx_count s) (elf_ctx_alloc_count s)
    (pid_ctx_alloc_count s)
    (retired_elf_ctx_count s) (retired_elf_cache_hit s) (retired_elf_expired s)
    (pid_maps_reload_count s) (f (pid_maps_reload_throttle_count s)) (symbols_mem_size s)
    (cfi_mem_size s) (cfi_data_mem_size s) (kernel_symbols_mem_size s)
    (unique_id_caused_reload_count s).
Definition on_symbols_mem_size (f : Z -> Z) (s : gu_statistics) : gu_statistics :=
  mk_gu_statistics (elf_ctx_count s) (pid_ctx_count s) (elf_ctx_alloc_count s)
    (pid_ctx_alloc_count s)
    (retired_elf_ctx_count s) (retired_elf_cache_hit s) (retired_elf_expired s)
    (pid_maps_reload_count s) (pid_maps_reload_throttle_count s) (f (symbols_mem_size s))
    (cfi_mem_size s) (cfi_data_mem_size s) (kernel_symbols_mem_size s)
    (unique_id_caused_reload_count s).
Definition on_cfi_mem_size (f : Z -> Z) (s : gu_statistics) : gu_statistics :=
  mk_gu_statistics (elf_ctx_count s) (pid_ctx_count s) (elf_ctx_alloc_count s)
    (pid_ctx_alloc_count s)
    (retired_elf_ctx_count s) (retired_elf_cache_hit s) (retired_elf_expired s)
    (pid_maps_reload_count s) (pid_maps_reload_throttle_count s) (symbols_mem_size s)
    (f (cfi_mem_size s)) (cfi_data_mem_size s) (kernel_symbols_mem_size s)
    (unique_id_caused_reload_count s).
Definition on_cfi_data_mem_size (f : Z -> Z) (s : gu_statistics) : gu_statistics :=
  mk_gu_statistics (elf_ctx_count s) (pid_ctx_count s) (elf_ctx_alloc_count s)
    (pid_ctx_alloc_count s)
    (retired_elf_ctx_count s) (retired_elf_cache_hit s) (retired_elf_expired s)
    (pid_maps_reload_count s) (pid_maps_reload_throttle_count s) (symbols_mem_size s)
    (cfi_mem_size s) (f (cfi_data_mem_size s)) (kernel_symbols_mem_size s)
    (unique_id_caused_reload_count s).
Definition on_unique_id_caused_reload_count (f : Z -> Z) (s : gu_statistics) : gu_statistics :=
  mk_gu_statistics (elf_ctx_count s) (pid_ctx_count s) (elf_ctx_alloc_count s)
    (pid_ctx_alloc_count s)
    (retired_elf_ctx_count s) (retired_elf_cache_hit s) (retired_elf_expired s)
    (pid_maps_reload_count s) (pid_maps_reload_throttle_count s) (symbols_mem_size s)
    (cfi_mem_size s) (cfi_data_mem_size s) (kernel_symbols_mem_size s)
    (f (unique_id_caused_reload_count s)).

Definition with_elfs (c : gu_context) v : gu_context :=
  mk_ctx v (cx_maps c) (cx_pids c) (cx_next_deadline_ns c) (cx_timer_started c) (cx_debug c)
    (cx_go_only_buildid c) (cx_stats c) (cx_events c) (cx_ticks c).
Definition with_maps (c : gu_context) v : gu_context :=
  mk_ctx (cx_elfs c) v (cx_pids c) (cx_next_deadline_ns c) (cx_timer_started c) (cx_debug c)
    (cx_go_only_buildid c) (cx_stats c) (cx_events c) (cx_ticks c).
Definition with_pids (c : gu_context) v : gu_context :=
  mk_ctx (cx_elfs c) (cx_maps c) v (cx_next_deadline_ns c) (cx_timer_started c) (cx_debug c)
    (cx_go_only_buildid c) (cx_stats c) (cx_events c) (cx_ticks c).
Definition with_next_deadline (c : gu_context) v : gu_context :=
  mk_ctx (cx_elfs c) (cx_maps c) (cx_pids c) v (cx_timer_started c) (cx_debug c)
    (cx_go_only_buildid c) (cx_stats c) (cx_events c) (cx_ticks c).
Definition with_stats (c : gu_context) v : gu_context :=
  mk_ctx (cx_elfs c) (cx_maps c) (cx_pids c) (cx_next_deadline_ns c) (cx_timer_started c)
    (cx_debug c) (cx_go_only_buildid c) v (cx_events c) (cx_ticks c).
Definition with_events (c : gu_context) v : gu_context :=
  mk_ctx (cx_elfs c) (cx_maps c) (cx_pids c) (cx_next_deadline_ns c) (cx_timer_started c)
    (cx_debug c) (cx_go_only_buildid c) (cx_stats c) v (cx_ticks c).
Definition with_ticks (c : gu_context) v : gu_context :=
  mk_ctx (cx_elfs c) (cx_maps c) (cx_pids c) (cx_next_deadline_ns c) (cx_timer_started c)
    (cx_debug c) (cx_go_only_buildid c) (cx_stats c) (cx_events c) v.
Definition on_stats (f : gu_statistics -> gu_statistics) (c : gu_context) : gu_context :=
  with_stats c (f (cx_stats c)).
Definition notify (c : gu_context) (e : gu_pid_ctx_event) : gu_context :=
  with_events c (cx_events c ++ [e]).
Definition tick (c : gu_context) : gu_context := with_ticks c (S (cx_ticks c)).

(** [x++], [x--] on a [uint64_t], and [if (x) x--;]. *)
Definition incr (x : Z) : Z := x +w 1.
Definition decr (x : Z) : Z := x -w 1.
Definition decr_pos (x : Z) : Z := if x =? 0 then x else x -w 1.

Definition with_cache (e : per_elf_ctx) (l : list parse_cache_entry) : per_elf_ctx :=
  mk_elf (ec_build_id e) (ec_golang e) (ec_symbols e) (ec_names e) (ec_cfi e) l
    (ec_sym_search_size e) (ec_refcnt e) (ec_exec_virt_addr e) (ec_exec_ranges e) (ec_retired e)
    (ec_retire_deadline_ns e).
Definition with_refcnt (e : per_elf_ctx) (n : Z) : per_elf_ctx :=
  mk_elf (ec_build_id e) (ec_golang e) (ec_symbols e) (ec_names e) (ec_cfi e) (ec_cache e)
    (ec_sym_search_size e) n (ec_exec_virt_addr e) (ec_exec_ranges e) (ec_retired e)
    (ec_retire_deadline_ns e).
Definition with_retired (e : per_elf_ctx) (r : bool) (d : Z) : per_elf_ctx :=
  mk_elf (ec_build_id e) (ec_golang e) (ec_symbols e) (ec_names e) (ec_cfi e) (ec_cache e)
    (ec_sym_search_size e) (ec_refcnt e) (ec_exec_virt_addr e) (ec_exec_ranges e) r d.

Definition with_rand (p : per_pid_ctx) (x : Z) : per_pid_ctx :=
  mk_pid (pc_addr p) (pc_elf_ctx_list p) (pc_pid p) (pc_comm p) (pc_golang p) (pc_preload p) (pc_unique_id
    p) (pc_last_maps_load_ns p) (pc_next_maps_reload_ns p) x (pc_private p).
Definition with_schedule (p : per_pid_ctx) (last next : Z) : per_pid_ctx :=
  mk_pid (pc_addr p) (pc_elf_ctx_list p) (pc_pid p) (pc_comm p) (pc_golang p) (pc_preload p) (pc_unique_id
    p) last next (pc_rand_state p) (pc_private p).
Definition with_preload (p : per_pid_ctx) (b : bool) : per_pid_ctx :=
  mk_pid (pc_addr p) (pc_elf_ctx_list p) (pc_pid p) (pc_comm p) (pc_golang p) b (pc_unique_id p)
    (pc_last_maps_load_ns p) (pc_next_maps_reload_ns p) (pc_rand_state p) (pc_private p).
Definition with_private (p : per_pid_ctx) (v : option (list Z)) : per_pid_ctx :=
  mk_pid (pc_addr p) (pc_elf_ctx_list p) (pc_pid p) (pc_comm p) (pc_golang p) (pc_preload p) (pc_unique_id
    p) (pc_last_maps_load_ns p) (pc_next_maps_reload_ns p) (pc_rand_state p) v.

Section context.
Context {HE : Env} {HQ : Qsort}.

(** ** Time *)
Definition gu_monotonic_ns (c : gu_context) : Z * gu_context := (clock_ns (cx_ticks c), tick c).

Definition gu_cache_now_ns (c : gu_context) : Z * gu_context :=
  if cx_timer_started c then
    let timer_now_ns := timer_now (cx_ticks c) in
    if negb (timer_now_ns =? 0) then (timer_now_ns, tick c) else gu_monotonic_ns (tick c)
  else gu_monotonic_ns c.

(** ** Retirement of ELF images

    The functions that take a [struct per_elf_ctx *] take its address. *)

(** [gu_unretire_elf_ctx] on a non-[NULL] context. *)
Definition gu_unretire_elf_ctx (c : gu_context) (a : Z) (activate : bool) : outcome gu_context :=
  e ← deref (cx_elfs c !! a);
  if negb (ec_retired e) then mret c else
  let c := with_elfs c (<[a := with_retired e false 0]> (cx_elfs c)) in
  let c := on_stats (on_retired_elf_ctx_count decr_pos) c in
  mret (if activate then on_stats (on_elf_ctx_count incr) c else c).

(** The memory statistics [clear_elf_ctx] gives back with the tables. *)
Definition drop_tables (symbols : option interval_array) (cfi : option gu_cfi) (sym_search_size : Z)
    (s : gu_statistics) : gu_statistics :=
  let s := match symbols with
           | Some _ => on_symbols_mem_size (fun x => x -w sym_search_size) s
           | None => s
           end in
  match cfi with
  | Some f => on_cfi_data_mem_size (fun x => x -w cfi_data_mem_usage f)
                (on_cfi_mem_size (fun x => x -w cfi_mem_usage f) s)
  | None => s
  end.

(** [clear_elf_ctx] on a context of the cache: its tables, names and the object
    itself are freed. *)
Definition clear_elf_ctx (c : gu_context) (a : Z) : outcome gu_context :=
  e ← deref (cx_elfs c !! a);
  let was_retired := ec_retired e in
  c ← (if was_retired then gu_unretire_elf_ctx c a false else mret c);
  let c := on_stats (drop_tables (ec_symbols e) (ec_cfi e) (ec_sym_search_size e)) c in
  let c := with_elfs c (delete a (cx_elfs c)) in
  mret (if negb was_retired then on_stats (on_elf_ctx_count decr_pos) c else c).

(** [gu_retire_elf_ctx]: contexts of the cache have their [gu_ctx] set. *)
Definition gu_retire_elf_ctx (c : gu_context) (a : Z) : outcome gu_context :=
  e ← deref (cx_elfs c !! a);
  if ec_retired e then mret c else
  let '(now_ns, c) := gu_cache_now_ns c in
  let deadline := now_ns +w GU_ELF_RETIRE_TTL_NS in
  let c := with_elfs c (<[a := with_retired e true deadline]> (cx_elfs c)) in
  let c := on_stats (on_elf_ctx_count decr_pos) c in
  let c := on_stats (on_retired_elf_ctx_count incr) c in
  mret (if (cx_next_deadline_ns c =? 0) || (deadline <? cx_next_deadline_ns c)
        then with_next_deadline c deadline else c).

(** The loop of [gu_retired_elf_sweep] over the addresses of the cache. *)
Fixpoint sweep_loop (todo : list Z) (now_ns next_deadline : Z) (c : gu_context)
  : outcome (Z * gu_context) :=
  match todo with
  | [] => mret (next_deadline, c)
  | a :: todo =>
    e ← deref (cx_elfs c !! a);
    if negb (ec_retired e) then sweep_loop todo now_ns next_deadline c else
    if (now_ns =? UINT64_MAX) || (ec_retire_deadline_ns e <=? now_ns) then
      c ← clear_elf_ctx (on_stats (on_retired_elf_expired incr) c) a;
      sweep_loop todo now_ns next_deadline c
    else if (next_deadline =? 0) || (ec_retire_deadline_ns e <? next_deadline)
      then sweep_loop todo now_ns (ec_retire_deadline_ns e) c
      else sweep_loop todo now_ns next_deadline c
  end.

Definition gu_retired_elf_sweep (c : gu_context) (now_ns : Z) : outcome gu_context :=
  if now_ns =? 0 then mret c else
  if negb (now_ns =? UINT64_MAX) &&
     ((retired_elf_ctx_count (cx_stats c) =? 0) ||
      (negb (cx_next_deadline_ns c =? 0) && (now_ns <? cx_next_deadline_ns c))) then mret c else
  '(next, c) ← sweep_loop (map_to_list (cx_elfs c)).*1 now_ns 0 (with_next_deadline c 0);
  mret (with_next_deadline c next).

Definition gu_maybe_sweep_retired_elf (c : gu_context) : outcome gu_context :=
  if retired_elf_ctx_count (cx_stats c) =? 0 then mret c else
  if cx_timer_started c then
    let pending := timer_pending (cx_ticks c) in
    let c := tick c in
    if negb pending then mret c else
    let now_ns := timer_now (cx_ticks c) in
    let c := tick c in
    let '(now_ns, c) := if now_ns =? 0 then gu_monotonic_ns c else (now_ns, c) in
    gu_retired_elf_sweep c now_ns
  else
    let '(now_ns, c) := gu_monotonic_ns c in
    gu_retired_elf_sweep c now_ns.

(** [gu_put_elf_ctx] on a non-[NULL] context. *)
Definition gu_put_elf_ctx (c : gu_context) (a : Z) : outcome gu_context :=
  e ← deref (cx_elfs c !! a);
  let n := decr (ec_refcnt e) in
  let c := with_elfs c (<[a := with_refcnt e n]> (cx_elfs c)) in
  if n =? 0 then gu_retire_elf_ctx c a else mret c.

(** ** Loading an image *)

(** [HASH_FIND] on the build-id. *)
Definition find_build_id (c : gu_context) (id : list Z) : option Z :=
  fst <$> head (filter (fun x => ec_build_id x.2 = id) (map_to_list (cx_elfs c))).

(** Every block the context owns. *)
Definition in_use (c : gu_context) : gset Z := dom (cx_elfs c) ∪ dom (cx_maps c).

Definition add_tables (im : elf_image) (s : gu_statistics) : gu_statistics :=
  let s := match im_symbols im with
           | Some _ => on_symbols_mem_size (fun x => x +w im_sym_search_size im) s
           | None => s
           end in
  match im_cfi im with
  | Some f => on_cfi_data_mem_size (fun x => x +w cfi_data_mem_usage f)
                (on_cfi_mem_size (fun x => x +w cfi_mem_usage f) s)
  | None => s
  end.

(** The loop of [get_elf_exec_virt_addr]. *)
Fixpoint exec_virt_addr_loop (phdrs : list (option GElf_Phdr)) : Z :=
  match phdrs with
  | [] | None :: _ => 0
  | Some ph :: phdrs =>
    if (p_type ph =? PT_LOAD) && negb (Z.land (p_flags ph) PF_X =? 0)
    then p_vaddr ph - (if p_align ph =? 0 then 0 else p_vaddr ph mod p_align ph)
    else exec_virt_addr_loop phdrs
  end.
Definition get_elf_exec_virt_addr (elf : option (list (option GElf_Phdr))) : Z :=
  match elf with None => 0 | Some phdrs => exec_virt_addr_loop phdrs end.

(** The executable ranges and [exec_virt_addr] of an image; [alloc] is the
    [calloc] of the ranges. *)
Definition image_ranges (alloc : bool) (im : elf_image) : list gu_elf_exec_range * Z :=
  let '(ret, ranges) := gu_elf_exec_ranges_load_from_elf alloc (im_phdrs im) in
  (ranges, if ret =? 0 then gu_elf_exec_ranges_first_start ranges
           else get_elf_exec_virt_addr (im_phdrs im)).

(** The context copied out of the scratch one, with its first reference. *)
Definition elf_of_image (id : list Z) (im : elf_image) (ranges : list gu_elf_exec_range)
    (exec_virt_addr : Z) : per_elf_ctx :=
  mk_elf id (im_golang im) (im_symbols im) (im_names im) (im_cfi im)
    (replicate (Z.to_nat GU_CFI_PARSE_CACHE_SIZE) empty_entry)
    (im_sym_search_size im) 1 exec_virt_addr ranges false 0.

(** A cached image is used again: it is revived when retired and gets one more
    reference. *)
Definition reuse_elf (c : gu_context) (a : Z) : outcome (option Z * gu_context) :=
  e ← deref (cx_elfs c !! a);
  c ← (if ec_retired e then
         c ← gu_unretire_elf_ctx c a true;
         mret (on_stats (on_retired_elf_cache_hit incr) c)
       else mret c);
  e ← deref (cx_elfs c !! a);
  mret (Some a, with_elfs c (<[a := with_refcnt e (incr (ec_refcnt e))]> (cx_elfs c))).

(** The image just read enters the cache, unless no memory is left for it. *)
Definition insert_elf (c : gu_context) (id : list Z) (im : elf_image) : option Z * gu_context :=
  let c := on_stats (add_tables im) c in
  let '(ranges, exec_virt_addr) := image_ranges (malloc_ok (cx_ticks c)) im in
  let c := tick c in
  let block := malloc_addr (cx_ticks c) (in_use c) in
  let c := tick c in
  match block with
  | None => (None, on_stats (drop_tables (im_symbols im) (im_cfi im) (im_sym_search_size im)) c)
  | Some a =>
    let c := with_elfs c (<[a := elf_of_image id im ranges exec_virt_addr]> (cx_elfs c)) in
    (Some a, on_stats (on_elf_ctx_count incr) c)
  end.

(** [load_elf]: [None] is [NULL].  Opening the file and reading its build-id,
    then building its tables, are the environment's [read_build_id] and
    [read_image]; a failure of either leaves through [exit], which clears the
    scratch context.  [LoadElf] spells both out. *)
Definition load_elf (c : gu_context) (file_name : string) (pid : Z) (open_path : option live_open_path)
  : outcome (option Z * gu_context) :=
  let id := read_build_id (cx_ticks c) pid file_name open_path in
  let c := tick c in
  match id with
  | None => mret (None, c)
  | Some id =>
    match find_build_id c id with
    | Some a => reuse_elf c a
    | None =>
      let c := on_stats (on_elf_ctx_alloc_count incr) c in
      let im := read_image (cx_ticks c) pid file_name open_path in
      let c := tick c in
      match im with
      | None => mret (None, c)
      | Some im => mret (insert_elf c id im)
      end
    end
  end.

(** ** Mappings of a process *)

(** [gu_resolve_map_exec_virt_addr] on a non-[NULL] context. *)
Definition gu_resolve_map_exec_virt_addr (ranges : list gu_elf_exec_range) (m : maps_info) : Z :=
  if mi_end m <=? mi_start m then 0 else
  default 0 (gu_elf_exec_ranges_find_by_offset ranges (mi_offset m) (mi_end m - mi_start m)).

Definition map_ctx_of (a : Z) (e : per_elf_ctx) (map_exec_virt_addr : Z) : per_elf_map_ctx :=
  mk_map a (if negb (map_exec_virt_addr =? 0) then map_exec_virt_addr else ec_exec_virt_addr e).

(** [gu_alloc_elf_map_ctx] on a non-[NULL] context. *)
Definition gu_alloc_elf_map_ctx (c : gu_context) (elf : Z) (map_exec_virt_addr : Z)
  : outcome (option Z * gu_context) :=
  let block := malloc_addr (cx_ticks c) (in_use c) in
  let c := tick c in
  match block with
  | None => mret (None, c)
  | Some m =>
    e ← deref (cx_elfs c !! elf);
    mret (Some m, with_maps c (<[m := map_ctx_of elf e map_exec_virt_addr]> (cx_maps c)))
  end.

(** [gu_get_elf_ctx_from_item]: the context ([None] is [NULL]) and
    [*map_exec_virt_addr]. *)
Definition gu_get_elf_ctx_from_item (c : gu_context) (it : interval_array_item)
  : outcome (option Z * Z) :=
  if private it =? 0 then mret (None, 0) else
  let p := (get_interval_array_pointer (private it)).1 in
  if p =? 0 then mret (None, 0) else
  m ← deref (cx_maps c !! p);
  mret (Some (mc_elf_ctx m), mc_exec_virt_addr m).

(** [__private_clean_elf_ctx] on a non-[NULL] mapping. *)
Definition private_clean_elf_ctx (c : gu_context) (p : Z) : outcome gu_context :=
  m ← deref (cx_maps c !! p);
  c ← gu_put_elf_ctx c (mc_elf_ctx m);
  mret (with_maps c (delete p (cx_maps c))).

Fixpoint clean_all (ps : list Z) (c : gu_context) : outcome gu_context :=
  match ps with
  | [] => mret c
  | p :: ps => c ← private_clean_elf_ctx c p; clean_all ps c
  end.

(** The mappings [gu_cleanup_elf_map_items] cleans. *)
Definition item_payload (it : interval_array_item) : option Z :=
  let p := (get_interval_array_pointer (private it)).1 in if p =? 0 then None else Some p.
Definition gu_cleanup_elf_map_items (c : gu_context) (items : list interval_array_item)
  : outcome gu_context :=
  clean_all (omap item_payload items) c.

(** ** Reload throttling *)
Definition gu_maps_reload_random_u64 (c : gu_context) (p : per_pid_ctx)
  : Z * per_pid_ctx * gu_context :=
  let x := pc_rand_state p in
  let '(x, c) :=
    if x =? 0 then
      let '(now, c) := gu_monotonic_ns c in
      (Z.lxor (Z.lxor (Z.lxor (shl64 (u32 (pc_pid p)) 32) (pc_unique_id p)) now) (pc_addr p), c)
    else (x, c) in
  let x := if x =? 0 then 0x9e3779b97f4a7c15 else x in
  let x := Z.lxor x (shl64 x 13) in
  let x := Z.lxor x (Z.shiftr x 7) in
  let x := Z.lxor x (shl64 x 17) in
  let x := if x =? 0 then 0xd1b54a32d192ed03 else x in
  (x, with_rand p x, c).

Definition gu_schedule_next_maps_reload (c : gu_context) (p : per_pid_ctx)
  : per_pid_ctx * gu_context :=
  let '(now, c) := gu_cache_now_ns c in
  let span := GU_PID_MAPS_RELOAD_MAX_INTERVAL_NS - GU_PID_MAPS_RELOAD_MIN_INTERVAL_NS in
  let '(r, p, c) := gu_maps_reload_random_u64 c p in
  let delay := GU_PID_MAPS_RELOAD_MIN_INTERVAL_NS + r mod (span + 1) in
  (with_schedule p now (now +w delay), c).

(** [gu_maps_reload_allowed] for the process entry [pid]. *)
Definition gu_maps_reload_allowed (c : gu_context) (pid : Z) : outcome (bool * gu_context) :=
  p ← deref (cx_pids c !! pid);
  let '(p, c) := if pc_next_maps_reload_ns p =? 0
                 then gu_schedule_next_maps_reload c p else (p, c) in
  let c := with_pids c (<[pid := p]> (cx_pids c)) in
  let '(now, c) := gu_cache_now_ns c in
  if pc_next_maps_reload_ns p <=? now then mret (true, c) else
  mret (false, on_stats (on_pid_maps_reload_throttle_count incr) c).

(** ** Process entries *)

Definition open_path_of (c : gu_context) (i : nat) (pid : Z) (m : maps_info) : option live_open_path :=
  if negb (cx_debug c) && mi_deleted m then
    Some (if decide (i = 0%nat) then ProcExe pid else ProcMapFile pid (mi_start m) (mi_end m))
  else None.

(** The loop of [gu_load_pid] over the mappings from index [i] on: the items
    built so far, whether the main executable is Go, and [false] when it leaves
    through [exit]. *)
Fixpoint load_maps (pid : Z) (i : nat) (maps : list maps_info) (items : list interval_array_item)
    (golang : bool) (c : gu_context)
  : outcome (bool * list interval_array_item * bool * gu_context) :=
  match maps with
  | [] => mret (true, items, golang, c)
  | m :: maps =>
    '(elf, c) ← load_elf c (mi_path m) pid (open_path_of c i pid m);
    match elf with
    | None => load_maps pid (S i) maps (items ++ [mk_item (mi_start m) (mi_end m) 0]) golang c
    | Some a =>
      e ← deref (cx_elfs c !! a);
      let map_exec_virt_addr := gu_resolve_map_exec_virt_addr (ec_exec_ranges e) m in
      let golang := if decide (i = 0%nat) then golang || ec_golang e else golang in
      '(map_ctx, c) ← gu_alloc_elf_map_ctx c a map_exec_virt_addr;
      match map_ctx with
      | None => c ← gu_put_elf_ctx c a; mret (false, items, golang, c)
      | Some p =>
        let it := mk_item (mi_start m) (mi_end m) (mark_interval_array_pointer_no_free p) in
        load_maps pid (S i) maps (items ++ [it]) golang c
      end
    end
  end.

(** [gu_load_pid]: [None] is [NULL]; the entry is not in the table yet. *)
Definition gu_load_pid (c : gu_context) (info : gu_stack_info)
  : outcome (option per_pid_ctx * gu_context) :=
  let pid := si_pid info in
  match cx_pids c !! pid with
  | Some p => mret (Some p, c)
  | None =>
    let debug_maps := if cx_debug c && negb (si_unique_id info =? 0)
                      then Some (si_unique_id info) else None in
    maps ← gu_get_maps_info (maps_alloc (cx_ticks c)) PERMISSION_X
             (proc_maps_file (cx_ticks c) pid debug_maps);
    let c := tick c in
    match maps with
    | None => mret (None, c)
    | Some maps =>
    let alloc_items := malloc_ok (cx_ticks c) in
    let c := tick c in
    if negb alloc_items then mret (None, c) else
    let block := pid_block (cx_ticks c) in
    let c := tick c in
    match block with
    | None => mret (None, c)
    | Some addr =>
      let c := on_stats (on_pid_ctx_alloc_count incr) c in
      '(ok, items, golang, c) ← load_maps pid 0 maps [] false c;
      if negb ok then c ← gu_cleanup_elf_map_items c items; mret (None, c) else
      let '(items, elf_ctx_list) :=
        gu_interval_array_init (malloc_ok (cx_ticks c)) (malloc_ok (S (cx_ticks c))) items in
      let c := tick (tick c) in
      match elf_ctx_list with
      | None => c ← gu_cleanup_elf_map_items c items; mret (None, c)
      | Some arr =>
        let comm := proc_comm (cx_ticks c) pid in
        let c := tick c in
        let p := mk_pid addr (Some arr) pid comm golang false (si_unique_id info) 0 0 0 None in
        let '(p, c) := gu_schedule_next_maps_reload c p in
        mret (Some p, c)
      end
    end
    end
  end.

(** [free] on payloads the array still owns; every one of them is a mapping. *)
Fixpoint free_maps (ps : list Z) (c : gu_context) : outcome gu_context :=
  match ps with
  | [] => mret c
  | p :: ps => _ ← deref (cx_maps c !! p); free_maps ps (with_maps c (delete p (cx_maps c)))
  end.

(** [gu_clear_pid_ctx] on the entry of [pid]. *)
Definition gu_clear_pid_ctx (c : gu_context) (pid : Z) : outcome gu_context :=
  p ← deref (cx_pids c !! pid);
  let c := with_pids c (delete pid (cx_pids c)) in
  let c := on_stats (on_pid_ctx_count decr) c in
  match pc_elf_ctx_list p with
  | None => mret c
  | Some arr =>
    c ← clean_all (gu_interval_array_for_each_private (Some arr)) c;
    free_maps (gu_interval_array_destroy (Some arr)) c
  end.

Definition event_create (p : per_pid_ctx) : gu_pid_ctx_event :=
  GU_PID_CTX_EVENT_CREATE (pc_pid p) (pc_unique_id p) (pc_comm p).
Definition event_destroy (p : per_pid_ctx) : gu_pid_ctx_event :=
  GU_PID_CTX_EVENT_DESTROY (pc_pid p) (pc_unique_id p) (pc_comm p).

(** [HASH_ADD_INT], the counter and the notification that follow a load. *)
Definition add_pid (c : gu_context) (p : per_pid_ctx) : gu_context :=
  let c := with_pids c (<[pc_pid p := p]> (cx_pids c)) in
  notify (on_stats (on_pid_ctx_count incr) c) (event_create p).

Definition set_fp_hint (info : gu_stack_info) (golang : bool) : gu_stack_info :=
  if golang then gu_flags_set info GU_FLAG_HINT_SET_FP else info.

(** [gu_reload_pid_ctx]: the new entry ([None] is [NULL]). *)
Definition gu_reload_pid_ctx (c : gu_context) (pid : Z) (info : gu_stack_info)
  : outcome (option Z * gu_stack_info * gu_context) :=
  old ← deref (cx_pids c !! pid);
  let copied := malloc_ok (cx_ticks c) in
  let c := tick c in
  let private_copy := match pc_private old with
                      | Some bytes => if copied then Some bytes else None
                      | None => None
                      end in
  let c := notify c (event_destroy old) in
  c ← gu_clear_pid_ctx c pid;
  '(new, c) ← gu_load_pid c info;
  match new with
  | None => mret (None, info, c)
  | Some new =>
    let new := with_private (with_preload new (pc_preload old)) private_copy in
    mret (Some (pc_pid new), set_fp_hint info (pc_golang new), add_pid c new)
  end.

(** [gu_search_pid_elf_ctx]: the result, [*elf_item], [*pid_ctx], the snapshot,
    [*maps_reloaded] and the context. *)
Definition gu_search_pid_elf_ctx (c : gu_context) (pid_ctx : option Z) (info : gu_stack_info) (pc : Z)
    (maps_reloaded : bool)
  : outcome (Z * interval_array_item * option Z * gu_stack_info * bool * gu_context) :=
  pid ← deref pid_ctx;
  p ← deref (cx_pids c !! pid);
  '(ret, it, _) ← gu_interval_array_search (pc_elf_ctx_list p) pc;
  if (0 <=? ret) || maps_reloaded then mret (ret, it, pid_ctx, info, maps_reloaded, c) else
  '(allowed, c) ← gu_maps_reload_allowed c pid;
  if negb allowed then mret (ret, it, pid_ctx, info, maps_reloaded, c) else
  let alive := cx_debug c || kill_ok (cx_ticks c) (si_pid info) in
  let c := if cx_debug c then c else tick c in
  if negb alive then
    mret (ret, it, pid_ctx, gu_flags_set_reason info GU_UNWIND_REASON_PROCESS_EXIT, maps_reloaded, c)
  else
  let c := on_stats (on_pid_maps_reload_count incr) c in
  '(new, info, c) ← gu_reload_pid_ctx c pid info;
  match new with
  | None => mret (ret, it, None, info, true, c)
  | Some new_pid =>
    p ← deref (cx_pids c !! new_pid);
    match pc_elf_ctx_list p with
    | None => mret (ret, it, new, info, true, c)
    | Some arr =>
      '(ret, it, _) ← gu_interval_array_search (Some arr) pc;
      mret (ret, it, new, info, true, c)
    end
  end.

(** ** Public operations on the context *)

(** [gu_init] after the allocation, less the kernel symbols; [timer] is whether
    [gu_retire_timer_start] succeeds. *)
Definition gu_init (debug_print go_buildid_only timer : bool) : gu_context :=
  mk_ctx ∅ ∅ ∅ 0 timer debug_print go_buildid_only
    (mk_gu_statistics 0 0 0 0 0 0 0 0 0 0 0 0 0 0) [] 0.

Fixpoint clear_pids (pids : list Z) (c : gu_context) : outcome gu_context :=
  match pids with
  | [] => mret c
  | pid :: pids => c ← gu_clear_pid_ctx c pid; clear_pids pids c
  end.

(** [gu_cleanup] up to the release of the context itself: the timer thread is
    stopped first. *)
Definition gu_cleanup (c : gu_context) : outcome gu_context :=
  let c := mk_ctx (cx_elfs c) (cx_maps c) (cx_pids c) (cx_next_deadline_ns c) false (cx_debug c)
             (cx_go_only_buildid c) (cx_stats c) (cx_events c) (cx_ticks c) in
  c ← clear_pids (map_to_list (cx_pids c)).*1 c;
  gu_retired_elf_sweep c UINT64_MAX.

(** [gu_set_pid_private_info]; [None] is a [NULL] block or a size of at most
    zero. *)
Definition gu_set_pid_private_info (c : gu_context) (pid : Z) (block : option (list Z)) : gu_context :=
  match cx_pids c !! pid with
  | None => c
  | Some p =>
    let copied := malloc_ok (cx_ticks c) in
    let v := match block with Some bytes => if copied then Some bytes else None | None => None end in
    tick (with_pids c (<[pid := with_private p v]> (cx_pids c)))
  end.

(** [gu_get_pid_private_info]: the copy the caller gets. *)
Definition gu_get_pid_private_info (c : gu_context) (pid : Z) : option (list Z) * gu_context :=
  match cx_pids c !! pid with
  | None => (None, c)
  | Some p =>
    match pc_private p with
    | None => (None, c)
    | Some bytes => (if malloc_ok (cx_ticks c) then Some bytes else None, tick c)
    end
  end.

(** [gu_get_pid_unique_id]; the parse of [/proc/<pid>/stat] is the
    environment's. *)
Definition gu_get_pid_unique_id (c : gu_context) (pid : Z) : Z * gu_context :=
  if pid <=? 0 then (0, c) else
  match cx_pids c !! pid with
  | Some p => if negb (pc_unique_id p =? 0) then (pc_unique_id p, c)
              else (proc_start_time (cx_ticks c) pid, tick c)
  | None => (proc_start_time (cx_ticks c) pid, tick c)
  end.

Definition gu_set_pid_exit_unique (c : gu_context) (pid unique_id : Z) : outcome gu_context :=
  match cx_pids c !! pid with
  | None => mret c
  | Some p =>
    if negb (unique_id =? 0) && negb (pc_unique_id p =? unique_id) then mret c else
    gu_clear_pid_ctx (notify c (event_destroy p)) pid
  end.
Definition gu_set_pid_exit (c : gu_context) (pid : Z) : outcome gu_context :=
  gu_set_pid_exit_unique c pid 0.

(** [gu_event_occur]; a module reload only replaces the kernel symbols. *)
Definition gu_event_occur (c : gu_context) (type : gu_event_type) (event_data : option Z)
  : outcome gu_context :=
  c ← gu_maybe_sweep_retired_elf c;
  match type, event_data with
  | GU_EVENT_PROCESS_EXIT, Some pid => gu_set_pid_exit_unique c pid 0
  | _, _ => mret c
  end.

Definition gu_preload_pid_debug_info (c : gu_context) (pid : Z) : outcome (Z * gu_context) :=
  let '(unique_id, c) := gu_get_pid_unique_id c pid in
  let info := mk_gu_stack_info pid 0 unique_id None 0 0 [] 0 None in
  c ← gu_maybe_sweep_retired_elf c;
  match cx_pids c !! pid with
  | Some p => mret (pc_unique_id p, c)
  | None =>
    let alive := kill_ok (cx_ticks c) pid in
    let c := tick c in
    if negb alive then mret (0, c) else
    '(new, c) ← gu_load_pid c info;
    match new with
    | None => mret (0, c)
    | Some p => mret (pc_unique_id p, add_pid c (with_preload p true))
    end
  end.

(** [gu_unwind] up to the choice of the unwinder, for a non-[NULL] [info]: the
    snapshot, the context and the entry the unwind works on, [None] for an early
    [return -1]. *)
Definition gu_unwind_front (c : gu_context) (info : gu_stack_info)
  : outcome (gu_stack_info * gu_context * option Z) :=
  match regs info with
  | None => mret (gu_flags_set_reason info GU_UNWIND_REASON_NO_REGS, c, None)
  | Some _ =>
    c ← gu_maybe_sweep_retired_elf c;
    c ← (match cx_pids c !! si_pid info with
         | Some p =>
           if negb (si_unique_id info =? 0) && negb (pc_unique_id p =? si_unique_id info) &&
              negb (cx_debug c) then
             gu_clear_pid_ctx (notify (on_stats (on_unique_id_caused_reload_count incr) c)
                                 (event_destroy p)) (pc_pid p)
           else mret c
         | None => mret c
         end);
    '(found, info, c) ← (match cx_pids c !! si_pid info with
      | Some p => mret (Some p, info, c)
      | None =>
        let alive := kill_ok (cx_ticks c) (si_pid info) in
        let c := tick c in
        if negb alive && negb (cx_debug c) then mret (None, info, c) else
        '(new, c) ← gu_load_pid c info;
        match new with
        | None => mret (None, info, c)
        | Some p => mret (Some p, set_fp_hint info (pc_golang p), add_pid c p)
        end
      end);
    match found with
    | None => mret (gu_flags_set_reason info GU_UNWIND_REASON_PROCESS_EXIT, c, None)
    | Some p =>
      match pc_elf_ctx_list p with
      | None => mret (gu_flags_set_reason info GU_UNWIND_REASON_NO_ELF, c, None)
      | Some _ => mret (info, c, Some (pc_pid p))
      end
    end
  end.
End context.

(** ** A concrete environment: time stands at [now], nothing can be read *)
Definition next_free (used : gset Z) : Z := 1 + set_fold Z.max 0 used.

Lemma next_free_spec used : (forall a, a ∈ used -> a < next_free used) /\ 0 < next_free used.
Proof.
  unfold next_free. apply (set_fold_ind_L (fun r X => (forall a, a ∈ X -> a < 1 + r) /\ 0 < 1 + r)).
  - split; [set_solver|lia].
  - intros x X r Hx [Ha Hr]. split; [|lia]. intros a [->%elem_of_singleton|Hin]%elem_of_union; [lia|].
    specialize (Ha a Hin). lia.
Qed.

Definition still_env (now : Z) (Hnow : 0 <= now < 2 ^ 63) : Env.
Proof.
  refine {| clock_ns := fun _ => now; timer_now := fun _ => now; timer_pending := fun _ => true;
    kill_ok := fun _ _ => true; proc_maps_file := fun _ _ _ => None; maps_alloc := fun _ _ => true; proc_comm := fun _ _ => EmptyString;
    proc_start_time := fun _ _ => 0; read_build_id := fun _ _ _ _ => None;
    read_image := fun _ _ _ _ => None;
    malloc_addr := fun _ used => if next_free used <? 2 ^ 63 then Some (next_free used) else None;
    malloc_ok := fun _ => true; pid_block := fun _ => Some 0x1000 |}.
  - by intros _.
  - by intros _.
  - intros _ a [= <-]. done.
  - by intros _.
  - intros _ used a. destruct (next_free_spec used) as [Hlt Hpos].
    destruct (Z.ltb_spec (next_free used) (2 ^ 63)); [|done]. intros [= <-]. split; [|lia].
    intros Hin. specialize (Hlt _ Hin). lia.
Defined.
