(* ===== verification/Events.v ===== *)
(** * Process lifecycle events: [src/gu_pid_ctx_event.c]

    The process-wide table of listeners and the delivery of an event to them.
    A callback is an opaque number; a delivery is the list of calls made, which
    run after the lock is released, on copies of the table. *)

From stdpp Require Import strings.
From S2P Require Import Prelude Types Maps Context.

Definition GU_PID_CTX_EVENT_LISTENER_MAX : nat := 16.
Definition TASK_COMM_LEN : nat := 16.

(** One slot of [pid_ctx_event_cbs] and [pid_ctx_event_ctxs]: [None] is a
    [NULL] callback. *)
Record listener : Type := mk_listener {
  ls_callback : Z;
  ls_ctx : Z;
}.
Abbreviation listener_table := (list (option listener)).
Definition no_listeners : listener_table := replicate GU_PID_CTX_EVENT_LISTENER_MAX None.

(** The loop that looks for a free slot: the index it stops at. *)
Fixpoint find_free (slots : listener_table) (i : nat) : nat :=
  match slots with
  | [] => i
  | Some _ :: slots => find_free slots (S i)
  | None :: _ => i
  end.

(** [gu_register_pid_ctx_event_listener]; a [None] callback is [NULL]. *)
Definition gu_register_pid_ctx_event_listener (callback : option Z) (cb_ctx : Z)
    (slots : listener_table) : Z * listener_table :=
  match callback with
  | None => (-1, slots)
  | Some cb =>
    let i := find_free slots 0 in
    if decide (GU_PID_CTX_EVENT_LISTENER_MAX <= i)%nat then (-1, slots)
    else (0, <[i := Some (mk_listener cb cb_ctx)]> slots)
  end.

(** [pid_ctx_event_notify] on a non-[NULL] event: the calls made, in order. *)
Definition pid_ctx_event_notify (event : gu_pid_ctx_event) (slots : listener_table)
  : list (Z * gu_pid_ctx_event * Z) :=
  omap (fun s => (fun l => (ls_callback l, event, ls_ctx l)) <$> s) slots.

(** [strncpy] into [char comm[TASK_COMM_LEN]] and the terminator written over
    its last byte. *)
Definition event_comm (comm : string) : string := of_txt (take (TASK_COMM_LEN - 1) (txt comm)).

Inductive event_type : Type := EVENT_CREATE | EVENT_DESTROY.

(** [gu_pid_ctx_event_notify_pid_ctx] *)
Definition gu_pid_ctx_event_notify_pid_ctx (pid start_time : Z) (comm : string) (type : event_type)
    (slots : listener_table) : list (Z * gu_pid_ctx_event * Z) :=
  pid_ctx_event_notify
    (match type with
     | EVENT_CREATE => GU_PID_CTX_EVENT_CREATE pid start_time (event_comm comm)
     | EVENT_DESTROY => GU_PID_CTX_EVENT_DESTROY pid start_time (event_comm comm)
     end) slots.

(** ** Specification: listeners in the order they registered *)

(** A table that holds the listeners [ls]. *)
Definition holds (slots : listener_table) (ls : list listener) : Prop :=
  (length ls <= GU_PID_CTX_EVENT_LISTENER_MAX)%nat /\
  slots = (Some <$> ls) ++ replicate (GU_PID_CTX_EVENT_LISTENER_MAX - length ls) None.

Definition spec_register (callback : option Z) (cb_ctx : Z) (ls : list listener) : Z * list listener :=
  match callback with
  | None => (-1, ls)
  | Some cb => if decide (length ls < GU_PID_CTX_EVENT_LISTENER_MAX)%nat
               then (0, ls ++ [mk_listener cb cb_ctx]) else (-1, ls)
  end.

Lemma find_free_holds ls n i : find_free ((Some <$> ls) ++ replicate n None) i = (i + length ls)%nat.
Proof.
  revert i. induction ls as [|l ls IH]; intros i; cbn; [destruct n; cbn; lia|]. rewrite IH. lia.
Qed.

Lemma register_refines callback cb_ctx slots ls :
  holds slots ls ->
  (gu_register_pid_ctx_event_listener callback cb_ctx slots).1 = (spec_register callback cb_ctx ls).1 /\
  holds (gu_register_pid_ctx_event_listener callback cb_ctx slots).2 (spec_register callback cb_ctx ls).2.
Proof.
  intros [Hl ->]. unfold gu_register_pid_ctx_event_listener, spec_register. destruct callback as [cb|]; [|done].
  rewrite find_free_holds. cbn [plus]. do 2 case_decide; try lia; cbn [fst snd]; [done|].
  split; [done|]. split; [rewrite length_app; cbn; lia|].
  rewrite insert_app_r_alt by (rewrite length_fmap; lia). rewrite length_fmap, Nat.sub_diag.
  rewrite fmap_app, length_app, <- app_assoc. f_equal. cbn [length fmap list_fmap].
  replace (GU_PID_CTX_EVENT_LISTENER_MAX - length ls)%nat with (S (GU_PID_CTX_EVENT_LISTENER_MAX - (length ls + 1))) by lia.
  done.
Qed.

Lemma notify_refines event slots ls :
  holds slots ls -> pid_ctx_event_notify event slots = (fun l => (ls_callback l, event, ls_ctx l)) <$> ls.
Proof.
  intros [_ ->]. unfold pid_ctx_event_notify. rewrite omap_app.
  assert (forall n, omap (fun s : option listener => (fun l => (ls_callback l, event, ls_ctx l)) <$> s) (replicate n None) = []) as ->.
  { intros n. induction n; [done|]. unfold omap in *. cbn [replicate list_omap]. done. }
  rewrite app_nil_r. induction ls as [|l ls IH]; [done|]. unfold omap in *. cbn. by rewrite IH.
Qed.

(** A run of registrations, with the results returned. *)
Fixpoint register_all (regs : list (option Z * Z)) (slots : listener_table) : list Z * listener_table :=
  match regs with
  | [] => ([], slots)
  | (cb, ctx) :: regs =>
    let '(r, slots) := gu_register_pid_ctx_event_listener cb ctx slots in
    let '(rs, slots) := register_all regs slots in (r :: rs, slots)
  end.

Definition accepted (regs : list (option Z * Z)) : list listener :=
  take GU_PID_CTX_EVENT_LISTENER_MAX (omap (fun x => (fun cb => mk_listener cb x.2) <$> x.1) regs).

Lemma register_all_refines regs slots ls rs slots' :
  holds slots ls -> register_all regs slots = (rs, slots') ->
  holds slots' (take GU_PID_CTX_EVENT_LISTENER_MAX (ls ++ omap (fun x => (fun cb => mk_listener cb x.2) <$> x.1) regs)) /\
  length rs = length regs.
Proof.
  revert slots ls rs. induction regs as [|[cb ctx] regs IH]; intros slots ls rs Hh; cbn [register_all].
  { intros [= <- <-]. cbn. rewrite app_nil_r, take_ge by apply Hh. done. }
  destruct (register_refines cb ctx slots ls Hh) as [_ Hh']. destruct (gu_register_pid_ctx_event_listener _ _ _) as [r s1].
  destruct (register_all regs s1) as [rs1 s2] eqn:E. intros [= <- <-].
  destruct (IH _ _ _ Hh' E) as [H1 H2]. cbn [snd length]. split; [|by rewrite H2].
  replace (take _ (ls ++ _)) with (take GU_PID_CTX_EVENT_LISTENER_MAX ((spec_register cb ctx ls).2 ++
     omap (fun x => (fun cb => mk_listener cb x.2) <$> x.1) regs)); [done|].
  unfold omap. cbn [list_omap]. unfold spec_register. destruct cb as [cb|]; cbn [fst snd fmap option_fmap option_map]; [|done].
  destruct Hh as [Hl _]. case_decide; cbn [snd]; [by rewrite <- app_assoc|].
  assert (length ls = GU_PID_CTX_EVENT_LISTENER_MAX) as Hfull by lia. by rewrite !(take_app_le ls) by lia.
Qed.

(** ** Properties *)

(** The listener table implements a list.  After any sequence of
    registrations, an event is delivered exactly once to each of the first
    sixteen non-null callbacks, in the order they registered and with the
    context each was registered with. *)
Theorem listeners_notified_in_order regs rs slots pid start_time comm type :
  register_all regs no_listeners = (rs, slots) ->
  exists event, gu_pid_ctx_event_notify_pid_ctx pid start_time comm type slots =
    (fun l => (ls_callback l, event, ls_ctx l)) <$> accepted regs /\
    event = match type with
            | EVENT_CREATE => GU_PID_CTX_EVENT_CREATE pid start_time (event_comm comm)
            | EVENT_DESTROY => GU_PID_CTX_EVENT_DESTROY pid start_time (event_comm comm)
            end /\ (String.length (event_comm comm) < TASK_COMM_LEN)%nat.
Proof.
  intros E. apply (register_all_refines _ _ []) in E as [Hh _].
  2:{ split; [cbn; lia|done]. }
  eexists. split; [by apply notify_refines|]. split; [done|].
  assert (Hlen : forall l, String.length (of_txt l) = length l) by (intros l; induction l; cbn; auto).
  unfold event_comm. rewrite Hlen, length_take. unfold TASK_COMM_LEN. lia.
Qed.

Lemma listeners_notified_in_order_witness :
  gu_pid_ctx_event_notify_pid_ctx 42 7 "worker" EVENT_CREATE
    (register_all [(Some 11, 1); (None, 2); (Some 12, 3)] no_listeners).2 =
  [(11, GU_PID_CTX_EVENT_CREATE 42 7 "worker", 1); (12, GU_PID_CTX_EVENT_CREATE 42 7 "worker", 3)].
Proof.
  destruct (register_all [(Some 11, 1); (None, 2); (Some 12, 3)] no_listeners) as [rs slots] eqn:E.
  destruct (listeners_notified_in_order _ rs slots 42 7 "worker" EVENT_CREATE E) as (event & H & -> & _).
  exact H.
Defined.
