(* ===== verification/ContextInv.v ===== *)
(** * Invariants of the context: [src/gu_stacktrace.c]

    Every image is referenced exactly by the mappings that name it, an image
    without references is retired and counted as such, and every mapping belongs
    to one process entry.  The invariant holds of a new context and every public
    operation keeps it, whatever the environment answers; in particular no
    operation follows a dangling pointer. *)

From stdpp Require Import strings.
From S2P Require Import Prelude Types IntervalArray Cfi CfiParse ElfRanges Maps Context.

(** ** Counting in maps *)
Definition count_where {A} (P : A -> bool) (m : gmap Z A) : Z :=
  Z.of_nat (size (filter (fun x : Z * A => P x.2 = true) m)).
Definition b2z (b : bool) : Z := if b then 1 else 0.

Lemma count_insert_new {A} (P : A -> bool) (m : gmap Z A) i x :
  m !! i = None -> count_where P (<[i := x]> m) = count_where P m + b2z (P x).
Proof.
  intros Hi. unfold count_where. rewrite map_filter_insert. case_decide as HP; cbn [snd] in HP.
  - rewrite HP, map_size_insert_None; [simpl; lia|]. apply map_lookup_filter_None. by left.
  - apply not_true_is_false in HP. rewrite HP, delete_id by done. simpl. lia.
Qed.

Section count.
Context {A : Type} (P : A -> bool).
Implicit Types m : gmap Z A.

Lemma count_delete m i x : m !! i = Some x -> count_where P (delete i m) = count_where P m - b2z (P x).
Proof.
  intros Hi. rewrite <- (insert_id m i x) at 2 by done. rewrite <- insert_delete_eq.
  rewrite count_insert_new by apply lookup_delete_eq. lia.
Qed.

Lemma count_update m i x y :
  m !! i = Some y -> count_where P (<[i := x]> m) = count_where P m - b2z (P y) + b2z (P x).
Proof.
  intros Hi. rewrite <- insert_delete_eq, count_insert_new by apply lookup_delete_eq.
  by rewrite (count_delete _ _ y).
Qed.

Lemma count_nonneg m : 0 <= count_where P m.
Proof. unfold count_where. lia. Qed.

Lemma count_pos m i x : m !! i = Some x -> P x = true -> 0 < count_where P m.
Proof.
  intros Hi HP. pose proof (count_nonneg (delete i m)) as Hn. rewrite (count_delete _ _ x) in Hn by done.
  rewrite HP in Hn. simpl in Hn. lia.
Qed.

Lemma count_zero m : (forall i x, m !! i = Some x -> P x = false) -> count_where P m = 0.
Proof.
  intros Hall. unfold count_where. replace (filter _ m) with (∅ : gmap Z A); [done|]. symmetry.
  apply map_empty_filter. intros i x Hi. simpl. by rewrite (Hall i x Hi).
Qed.

Lemma count_zero_inv m i x : count_where P m = 0 -> m !! i = Some x -> P x = false.
Proof.
  intros H0 Hi. destruct (P x) eqn:E; [|done]. pose proof (count_pos m i x Hi E). lia.
Qed.

(** Every entry satisfies a predicate or its negation. *)
Lemma count_partition m : count_where (fun x => negb (P x)) m + count_where P m = Z.of_nat (size m).
Proof.
  induction m as [|i x m Hi IH] using map_ind.
  { unfold count_where. by rewrite !map_filter_empty. }
  rewrite !count_insert_new by done.
  rewrite map_size_insert_None, Nat2Z.inj_succ by done. destruct (P x); cbn [b2z negb]; lia.
Qed.

(** A map has no more entries than its keys can take values. *)
Lemma count_bounded m n : (forall i, is_Some (m !! i) -> 0 < i < n) -> count_where P m < Z.max 1 n.
Proof.
  intros Hk. unfold count_where.
  assert (Hsub : dom (filter (fun x : Z * A => P x.2 = true) m) ⊆ (list_to_set (seqZ 1 (n - 1)) : gset Z)).
  { intros i Hi. apply elem_of_list_to_set, elem_of_seqZ. apply elem_of_dom in Hi as [x Hx].
    apply map_lookup_filter_Some in Hx as [Hx _]. specialize (Hk i ltac:(by eauto)). lia. }
  apply subseteq_size in Hsub. rewrite size_dom in Hsub.
  rewrite size_list_to_set, length_seqZ in Hsub by apply NoDup_seqZ. lia.
Qed.
End count.

(** ** Payloads of an index *)

(** The items [gu_load_pid] builds: no image, or a tagged pointer to a mapping. *)
Definition good_item (it : interval_array_item) : Prop :=
  private it = 0 \/ exists p, 0 < p < 2 ^ 63 /\ private it = mark_interval_array_pointer_no_free p.

Lemma good_item_views it : good_item it -> item_visit it = item_payload it /\ item_free it = None.
Proof.
  unfold item_visit, item_payload, item_free. intros [->|(p & Hp & ->)]; [done|].
  destruct (mark_pointer p Hp) as [-> Hne]. cbn [fst].
  destruct (Z.eqb_spec (mark_interval_array_pointer_no_free p) 0); [done|].
  by destruct (Z.eqb_spec p 0); [lia|].
Qed.

(** The payloads depend on the [private] fields only. *)
Definition payload_of (p : Z) : option Z :=
  let q := (get_interval_array_pointer p).1 in if q =? 0 then None else Some q.
Lemma omap_payload (l : list interval_array_item) : omap item_payload l = omap payload_of (private <$> l).
Proof.
  induction l as [|it l IH]; [done|]. rewrite fmap_cons. unfold omap in *. cbn [list_omap].
  change (item_payload it) with (payload_of (private it)). by rewrite IH.
Qed.

Lemma good_items_views (l : list interval_array_item) :
  Forall good_item l -> omap item_visit l = omap item_payload l /\ omap item_free l = [].
Proof.
  induction 1 as [|it l Hit _ [IH1 IH2]]; [done|]. unfold omap in *. cbn [list_omap].
  destruct (good_item_views it Hit) as [-> ->]. by rewrite IH1, IH2.
Qed.

Lemma good_items_private l l' :
  (private <$> l') ≡ₚ (private <$> l) -> Forall good_item l -> Forall good_item l'.
Proof.
  intros Hp Hl. apply Forall_forall. intros it Hit.
  assert (private it ∈ (private <$> l)) as Hin by (rewrite <- Hp; by apply list_elem_of_fmap_2).
  apply list_elem_of_fmap in Hin as (it' & E & Hin). rewrite Forall_forall in Hl.
  specialize (Hl it' Hin). unfold good_item in *. by rewrite E.
Qed.

(** Searching an index is safe and its hits carry its payloads. *)
Definition searchable (arr : interval_array) : Prop :=
  forall addr, exists r it, gu_interval_array_search (Some arr) addr = Done (r, it, Some arr) /\
    (private it = 0 \/ private it ∈ gu_interval_array_for_each_private (Some arr)).

Lemma searchable_built a l :
  arr_count a = Z.of_nat (length l) -> active_items a = Some l -> with_items a l = a ->
  Forall good_item l -> gu_interval_array_for_each_private (Some a) = omap item_visit l -> searchable a.
Proof.
  intros Hc Ha Hw Hg Hv addr.
  destruct (search_built_safe a l _ addr Hc eq_refl Ha Hw) as (r & it & Hs & _). exists r, it. split; [done|].
  destruct (search_member a l addr r it _ Ha Hs) as [->|(y & Hy & ->)]; [by left|]. cbn [private].
  rewrite Forall_forall in Hg. specialize (Hg y Hy). destruct Hg as [->|(p & Hp & Ep)]; [by left|]. right.
  rewrite Hv. apply list_elem_of_omap. exists y. split; [done|]. unfold item_visit. rewrite Ep.
  destruct (mark_pointer p Hp) as [-> Hne]. by destruct (Z.eqb_spec (mark_interval_array_pointer_no_free p) 0).
Qed.

(** Building the index keeps the payloads, in the array and in the caller's
    items. *)
Lemma init_payloads `{Qsort} a1 a2 items items' arr :
  Forall good_item items -> gu_interval_array_init a1 a2 items = (items', arr) ->
  Forall good_item items' /\ omap item_payload items' ≡ₚ omap item_payload items /\
  match arr with
  | None => True
  | Some a => gu_interval_array_for_each_private arr ≡ₚ omap item_payload items /\
              gu_interval_array_destroy arr = [] /\ searchable a
  end.
Proof.
  intros Hg. unfold gu_interval_array_init. case_decide; [by intros [= <- <-]|].
  destruct a1; simpl; [|by intros [= <- <-]]. set (l := fix_open_ends (qsort items)).
  assert (Hp : (private <$> l) ≡ₚ (private <$> items)).
  { unfold l. rewrite fix_open_ends_private. by rewrite qsort_perm. }
  assert (Hgl : Forall good_item l) by (by eapply good_items_private).
  assert (Hpl : omap item_payload l ≡ₚ omap item_payload items) by (rewrite !omap_payload; by rewrite Hp).
  destruct a2; simpl; [|by intros [= <- <-]].
  assert (Hu : private <$> (to_u32 <$> l) = private <$> l) by (rewrite <- list_fmap_compose; done).
  assert (Hgu : Forall good_item (to_u32 <$> l)) by (eapply good_items_private; [by rewrite Hu|done]).
  destruct (last_end l <? UINT32_MAX); intros [= <- <-]; (split; [done|]); (split; [done|]); simpl;
    rewrite ?app_nil_r.
  - destruct (good_items_views _ Hgu) as [-> ->]. split; [|split; [done|]].
    + rewrite omap_payload, Hu, <- omap_payload. done.
    + apply (searchable_built _ (to_u32 <$> l)); try done; simpl; [by rewrite length_fmap|by rewrite app_nil_r].
  - destruct (good_items_views _ Hgl) as [-> ->]. split; [done|]. split; [done|]. by apply (searchable_built _ l).
Qed.

(** ** The invariant *)
Definition is_retired (e : per_elf_ctx) : bool := ec_retired e.
Definition is_active (e : per_elf_ctx) : bool := negb (ec_retired e).
Definition maps_to (a : Z) (m : per_elf_map_ctx) : bool := mc_elf_ctx m =? a.

(** The mappings of a process entry. *)
Definition payloads (p : per_pid_ctx) : list Z := gu_interval_array_for_each_private (pc_elf_ctx_list p).
Definition all_payloads (pids : gmap Z per_pid_ctx) : list Z := (map_to_list pids).*2 ≫= payloads.

(** References to the image at [a]: from mappings, and those in [pend] that a
    running operation holds. *)
Definition refs (maps : gmap Z per_elf_map_ctx) (pend : list Z) (a : Z) : Z :=
  count_where (maps_to a) maps + Z.of_nat (length (filter (fun b => b = a) pend)).

(** The next reload of an entry is due 30 to 90 seconds after its mappings were
    read. *)
Definition scheduled (p : per_pid_ctx) : Prop :=
  0 <= pc_last_maps_load_ns p < 2 ^ 63 /\
  GU_PID_MAPS_RELOAD_MIN_INTERVAL_NS <= pc_next_maps_reload_ns p - pc_last_maps_load_ns p
    <= GU_PID_MAPS_RELOAD_MAX_INTERVAL_NS.

(** The index of an entry no longer owns its payloads, so destroying it frees
    none of them. *)
Definition pid_entry_ok (pid : Z) (p : per_pid_ctx) : Prop :=
  pc_pid p = pid /\ (exists arr, pc_elf_ctx_list p = Some arr /\ searchable arr) /\
  gu_interval_array_destroy (pc_elf_ctx_list p) = [] /\ scheduled p.

(** Entries with the same mappings and schedule. *)
Record same_entry (p p' : per_pid_ctx) : Prop := {
  se_pid : pc_pid p' = pc_pid p;
  se_list : pc_elf_ctx_list p' = pc_elf_ctx_list p;
  se_last : pc_last_maps_load_ns p' = pc_last_maps_load_ns p;
  se_next : pc_next_maps_reload_ns p' = pc_next_maps_reload_ns p;
}.
Lemma same_entry_ok p p' pid : same_entry p p' -> pid_entry_ok pid p -> pid_entry_ok pid p'.
Proof. intros [E1 E2 E3 E4]. unfold pid_entry_ok, scheduled. by rewrite E1, E2, E3, E4. Qed.
Lemma same_entry_payloads p p' : same_entry p p' -> payloads p' = payloads p.
Proof. intros []. unfold payloads. by f_equal. Qed.

(** [owned] are mappings that no entry of the table holds yet. *)
Record ctx_inv (pend owned : list Z) (c : gu_context) : Prop := {
  ci_elf_addr a : is_Some (cx_elfs c !! a) -> 0 < a < 2 ^ 63;
  ci_map_addr m : is_Some (cx_maps c !! m) -> 0 < m < 2 ^ 63;
  ci_pend : (length pend <= 1)%nat /\ forall a, a ∈ pend -> is_Some (cx_elfs c !! a);
  ci_entry pid p : cx_pids c !! pid = Some p -> pid_entry_ok pid p;
  ci_owner : all_payloads (cx_pids c) ++ owned ≡ₚ (map_to_list (cx_maps c)).*1;
  ci_target m x : cx_maps c !! m = Some x -> is_Some (cx_elfs c !! mc_elf_ctx x);
  ci_refcnt a e : cx_elfs c !! a = Some e -> ec_refcnt e = refs (cx_maps c) pend a;
  ci_retired a e : cx_elfs c !! a = Some e -> (ec_retired e = true <-> ec_refcnt e = 0);
  ci_deadline a e : cx_elfs c !! a = Some e -> ec_retired e = true ->
    0 < cx_next_deadline_ns c <= ec_retire_deadline_ns e;
  ci_next : 0 <= cx_next_deadline_ns c;
  ci_active_count : elf_ctx_count (cx_stats c) = count_where is_active (cx_elfs c);
  ci_retired_count : retired_elf_ctx_count (cx_stats c) = count_where is_retired (cx_elfs c);
  ci_pid_count : pid_ctx_count (cx_stats c) = u64 (Z.of_nat (size (cx_pids c)));
  ci_build_id a b e f : cx_elfs c !! a = Some e -> cx_elfs c !! b = Some f ->
    ec_build_id e = ec_build_id f -> a = b;
}.
Abbreviation ctx_ok := (ctx_inv [] []).

(** The parts of a context the invariant reads. *)
Record same_core (c c' : gu_context) : Prop := {
  sc_elfs : cx_elfs c' = cx_elfs c;
  sc_maps : cx_maps c' = cx_maps c;
  sc_pids : cx_pids c' = cx_pids c;
  sc_next : cx_next_deadline_ns c' = cx_next_deadline_ns c;
  sc_active : elf_ctx_count (cx_stats c') = elf_ctx_count (cx_stats c);
  sc_retired : retired_elf_ctx_count (cx_stats c') = retired_elf_ctx_count (cx_stats c);
  sc_pid_count : pid_ctx_count (cx_stats c') = pid_ctx_count (cx_stats c);
}.

#[export] Instance same_core_equiv : Equivalence same_core.
Proof. split; [by split|intros ? ? []; by split|intros ? ? ? [] []; split; congruence]. Qed.

#[export] Instance ctx_inv_proper pend owned : Proper (same_core ==> iff) (ctx_inv pend owned).
Proof.
  assert (Himp : forall c c', same_core c c' -> ctx_inv pend owned c -> ctx_inv pend owned c').
  { intros c c' [E1 E2 E3 E4 E5 E6 E7] [].
    split; rewrite ?E1, ?E2, ?E3, ?E4, ?E5, ?E6, ?E7; auto. }
  intros c c' Hc. split; apply Himp; [done|by symmetry].
Qed.

Lemma inv_core pend owned c c' : same_core c c' -> ctx_inv pend owned c -> ctx_inv pend owned c'.
Proof. intros Hc. by rewrite Hc. Qed.

Lemma core_tick c : same_core c (tick c).
Proof. by split. Qed.
Lemma core_notify c e : same_core c (notify c e).
Proof. by split. Qed.
Lemma core_stats f c :
  (forall s, elf_ctx_count (f s) = elf_ctx_count s /\
             retired_elf_ctx_count (f s) = retired_elf_ctx_count s /\ pid_ctx_count (f s) = pid_ctx_count s) ->
  same_core c (on_stats f c).
Proof. intros Hf. destruct (Hf (cx_stats c)) as (? & ? & ?). by split. Qed.
#[export] Hint Resolve core_tick core_notify : gu.

Lemma add_tables_core im s : elf_ctx_count (add_tables im s) = elf_ctx_count s /\
  retired_elf_ctx_count (add_tables im s) = retired_elf_ctx_count s /\
  pid_ctx_count (add_tables im s) = pid_ctx_count s.
Proof. unfold add_tables. by destruct (im_symbols im), (im_cfi im). Qed.
Lemma drop_tables_core a b n s : elf_ctx_count (drop_tables a b n s) = elf_ctx_count s /\
  retired_elf_ctx_count (drop_tables a b n s) = retired_elf_ctx_count s /\
  pid_ctx_count (drop_tables a b n s) = pid_ctx_count s.
Proof. unfold drop_tables. by destruct a, b. Qed.

(** ** Counters stay within 64 bits *)
Lemma elf_count_bound pend owned c P :
  ctx_inv pend owned c -> 0 <= count_where P (cx_elfs c) < 2 ^ 63.
Proof.
  intros Hi. split; [apply count_nonneg|].
  pose proof (count_bounded P (cx_elfs c) (2 ^ 63) (ci_elf_addr _ _ _ Hi)). lia.
Qed.

Lemma refs_bound pend owned c a :
  ctx_inv pend owned c -> 0 <= refs (cx_maps c) pend a <= 2 ^ 63.
Proof.
  intros Hi. unfold refs. pose proof (count_nonneg (maps_to a) (cx_maps c)).
  pose proof (count_bounded (maps_to a) (cx_maps c) (2 ^ 63) (ci_map_addr _ _ _ Hi)).
  destruct (ci_pend _ _ _ Hi) as [Hl _].
  pose proof (length_filter (fun b => b = a) pend). lia.
Qed.

Lemma refs_pend maps a b : refs maps [a] b = refs maps [] b + (if decide (a = b) then 1 else 0).
Proof. unfold refs. rewrite filter_cons. case_decide; simpl; lia. Qed.

Lemma decr_pos_small x : 0 < x < 2 ^ 64 -> decr_pos x = x - 1.
Proof.
  intros. unfold decr_pos. destruct (Z.eqb_spec x 0); [lia|]. apply sub64_small; [word|lia].
Qed.
Lemma incr_small x : 0 <= x < 2 ^ 64 - 1 -> incr x = x + 1.
Proof. intros. unfold incr. apply add64_small. lia. Qed.
Lemma decr_small x : 0 < x < 2 ^ 64 -> decr x = x - 1.
Proof. intros. unfold decr. apply sub64_small; [word|lia]. Qed.

(** ** Updating one image *)
Lemma inv_update pend pend' owned c c' a e e' :
  ctx_inv pend owned c -> cx_elfs c !! a = Some e ->
  cx_elfs c' = <[a := e']> (cx_elfs c) -> cx_maps c' = cx_maps c -> cx_pids c' = cx_pids c ->
  pid_ctx_count (cx_stats c') = pid_ctx_count (cx_stats c) ->
  ec_build_id e' = ec_build_id e ->
  (length pend' <= 1)%nat -> (forall b, b ∈ pend' -> b = a \/ b ∈ pend) ->
  ec_refcnt e' = refs (cx_maps c) pend' a ->
  (forall b, b <> a -> refs (cx_maps c) pend' b = refs (cx_maps c) pend b) ->
  (ec_retired e' = true <-> ec_refcnt e' = 0) ->
  0 <= cx_next_deadline_ns c' ->
  (forall b f, b <> a -> cx_elfs c !! b = Some f -> ec_retired f = true ->
     0 < cx_next_deadline_ns c' <= ec_retire_deadline_ns f) ->
  (ec_retired e' = true -> 0 < cx_next_deadline_ns c' <= ec_retire_deadline_ns e') ->
  elf_ctx_count (cx_stats c') = elf_ctx_count (cx_stats c) - b2z (is_active e) + b2z (is_active e') ->
  retired_elf_ctx_count (cx_stats c') =
    retired_elf_ctx_count (cx_stats c) - b2z (is_retired e) + b2z (is_retired e') ->
  ctx_inv pend' owned c'.
Proof.
  intros Hi Ha He Hm Hp Hpc Hid Hpl Hpend Hr Hro Hret Hnx Hd Hda Hac Hrc.
  assert (Hsome : forall b, is_Some (cx_elfs c' !! b) <-> is_Some (cx_elfs c !! b)).
  { intros b. rewrite He. destruct (decide (a = b)) as [<-|]; [|by rewrite lookup_insert_ne].
    rewrite lookup_insert_eq, Ha. split; eauto. }
  assert (Hlook : forall b f, cx_elfs c' !! b = Some f -> (b = a /\ f = e') \/ (b <> a /\ cx_elfs c !! b = Some f)).
  { intros b f. rewrite He. intros [[-> ->]|[Hne Hb]]%lookup_insert_Some; [by left|by right]. }
  split; rewrite ?Hm, ?Hp.
  - intros b Hb%Hsome. by eapply ci_elf_addr.
  - apply (ci_map_addr _ _ _ Hi).
  - split; [done|]. intros b Hb. apply Hsome. destruct (Hpend b Hb) as [->|Hb']; [by eauto|].
    by apply (ci_pend _ _ _ Hi).
  - apply (ci_entry _ _ _ Hi).
  - apply (ci_owner _ _ _ Hi).
  - intros m x Hx. apply Hsome. by eapply ci_target.
  - intros b f [[-> ->]|[Hne Hb]]%Hlook; [done|]. rewrite Hro by done. by eapply ci_refcnt.
  - intros b f [[-> ->]|[Hne Hb]]%Hlook; [done|]. by eapply ci_retired.
  - intros b f [[-> ->]|[Hne Hb]]%Hlook; [done|]. by apply Hd with b.
  - done.
  - rewrite Hac, (ci_active_count _ _ _ Hi), He. by rewrite (count_update is_active _ _ _ e).
  - rewrite Hrc, (ci_retired_count _ _ _ Hi), He. by rewrite (count_update is_retired _ _ _ e).
  - rewrite Hpc. apply (ci_pid_count _ _ _ Hi).
  - intros b1 b2 f1 f2 [[-> ->]|[Hn1 H1]]%Hlook [[-> ->]|[Hn2 H2]]%Hlook; [done|..];
      rewrite ?Hid; intros Heq; by eapply (ci_build_id _ _ _ Hi).
Qed.

Section operations.
Context {HE : Env} {HQ : Qsort}.

Lemma cache_now_core c now c' :
  gu_cache_now_ns c = (now, c') -> same_core c c' /\ 0 <= now < 2 ^ 63.
Proof.
  unfold gu_cache_now_ns, gu_monotonic_ns.
  destruct (cx_timer_started c); [destruct (timer_now (cx_ticks c) =? 0); cbn [negb]|];
    intros [= <- <-]; (split; [by split|]); first [apply clock_range|apply timer_range].
Qed.

(** [gu_put_elf_ctx] drops a pending reference. *)
Lemma put_ok owned c a :
  ctx_inv [a] owned c ->
  exists c', gu_put_elf_ctx c a = Done c' /\ ctx_inv [] owned c' /\
    cx_maps c' = cx_maps c /\ cx_pids c' = cx_pids c.
Proof.
  intros Hi. destruct (ci_pend _ _ _ Hi) as [_ Hpend]. destruct (Hpend a) as [e He]; [set_solver|].
  pose proof (ci_refcnt _ _ _ Hi _ _ He) as Hr. rewrite refs_pend, decide_True in Hr by done.
  pose proof (refs_bound _ _ _ a Hi) as Hb. rewrite refs_pend, decide_True in Hb by done.
  pose proof (count_nonneg (maps_to a) (cx_maps c)) as Hn.
  assert (Hr0 : 0 <= refs (cx_maps c) [] a) by (unfold refs; simpl; lia).
  pose proof (ci_retired _ _ _ Hi _ _ He) as Hret.
  assert (Hact : ec_retired e = false) by (destruct (ec_retired e); [apply proj1 in Hret; specialize (Hret eq_refl); lia|done]).
  unfold gu_put_elf_ctx. rewrite He. run. rewrite decr_small by lia.
  replace (ec_refcnt e - 1) with (refs (cx_maps c) [] a) by lia.
  assert (Hother : forall b, b <> a -> refs (cx_maps c) [] b = refs (cx_maps c) [a] b).
  { intros b Hb'. rewrite refs_pend, decide_False by done. lia. }
  destruct (Z.eqb_spec (refs (cx_maps c) [] a) 0) as [E0|Hne].
  - unfold gu_retire_elf_ctx. cbn [cx_elfs with_elfs]. rewrite lookup_insert_eq. run.
    cbn [ec_retired with_refcnt]. rewrite Hact. set (c1 := with_elfs c _).
    destruct (gu_cache_now_ns c1) as [now c2] eqn:Enow. apply cache_now_core in Enow as [[] Hnow].
    assert (Hdl : now +w GU_ELF_RETIRE_TTL_NS = now + GU_ELF_RETIRE_TTL_NS)
      by (apply add64_small; unfold GU_ELF_RETIRE_TTL_NS; lia).
    rewrite Hdl. set (d := now + GU_ELF_RETIRE_TTL_NS). assert (Hd : 0 < d) by (unfold d, GU_ELF_RETIRE_TTL_NS; lia).
    set (c3 := if _ || _ then _ else _).
    assert (Hc3 : cx_elfs c3 = <[a := with_retired (with_refcnt e 0) true d]> (cx_elfs c) /\
      cx_maps c3 = cx_maps c /\ cx_pids c3 = cx_pids c /\
      pid_ctx_count (cx_stats c3) = pid_ctx_count (cx_stats c) /\
      elf_ctx_count (cx_stats c3) = decr_pos (elf_ctx_count (cx_stats c)) /\
      retired_elf_ctx_count (cx_stats c3) = incr (retired_elf_ctx_count (cx_stats c)) /\
      cx_next_deadline_ns c3 = (if (cx_next_deadline_ns c =? 0) || (d <? cx_next_deadline_ns c) then d
                                else cx_next_deadline_ns c)).
    { subst c3. cbn [cx_next_deadline_ns on_stats with_stats with_elfs]. rewrite sc_next0. subst c1.
      cbn [cx_next_deadline_ns with_elfs] in *.
      destruct (_ || _); cbn; rewrite sc_elfs0, sc_maps0, sc_pids0, sc_pid_count0, sc_active0, sc_retired0;
        cbn; rewrite ?insert_insert_eq, E0, ?sc_next0; done. }
    destruct Hc3 as (H1 & H2 & H3 & H4 & H5 & H6 & H7). exists c3. split; [done|]. split; [|done].
    pose proof (elf_count_bound _ _ _ is_active Hi) as Bac. pose proof (elf_count_bound _ _ _ is_retired Hi) as Brc.
    rewrite (ci_active_count _ _ _ Hi) in H5. rewrite (ci_retired_count _ _ _ Hi) in H6.
    pose proof (count_pos is_active (cx_elfs c) a e He ltac:(unfold is_active; by rewrite Hact)).
    rewrite decr_pos_small in H5 by lia. rewrite incr_small in H6 by lia.
    eapply (inv_update [a] [] owned c c3 a e); try eassumption; try done.
    + simpl. lia.
    + set_solver.
    + rewrite H7. pose proof (ci_next _ _ _ Hi). by case_match; lia.
    + intros b f Hne Hf Hrf. rewrite H7. destruct (ci_deadline _ _ _ Hi _ _ Hf Hrf).
      destruct (Z.eqb_spec (cx_next_deadline_ns c) 0); [lia|]. cbn [orb].
      destruct (Z.ltb_spec d (cx_next_deadline_ns c)); lia.
    + intros _. rewrite H7. cbn. pose proof (ci_next _ _ _ Hi).
      destruct (Z.eqb_spec (cx_next_deadline_ns c) 0); cbn [orb]; [lia|].
      destruct (Z.ltb_spec d (cx_next_deadline_ns c)); lia.
    + rewrite H5, (ci_active_count _ _ _ Hi). unfold is_active. rewrite Hact. cbn. lia.
    + rewrite H6, (ci_retired_count _ _ _ Hi). unfold is_retired. rewrite Hact. cbn. lia.
  - eexists. split; [done|]. split; [|done].
    eapply (inv_update [a] [] owned c _ a e); try done; cbn.
    + lia.
    + set_solver.
    + rewrite Hact. by split.
    + apply (ci_next _ _ _ Hi).
    + intros b f Hb' Hf. by apply (ci_deadline _ _ _ Hi b).
    + by rewrite Hact.
    + unfold is_active. cbn. rewrite Hact. cbn. lia.
    + unfold is_retired. cbn. rewrite Hact. cbn. lia.
Qed.

(** *** Loading an image *)
Lemma find_build_id_spec c id :
  match find_build_id c id with
  | Some a => exists e, cx_elfs c !! a = Some e /\ ec_build_id e = id
  | None => forall a e, cx_elfs c !! a = Some e -> ec_build_id e <> id
  end.
Proof.
  unfold find_build_id. destruct (head _) as [[a e]|] eqn:E; simpl.
  - apply head_Some_elem_of, list_elem_of_filter in E as [Hid Hin%elem_of_map_to_list]. eauto.
  - apply head_None in E. intros a e He Hid.
    assert ((a, e) ∈ filter (fun x : Z * per_elf_ctx => ec_build_id x.2 = id) (map_to_list (cx_elfs c))) as Hin.
    { apply list_elem_of_filter. split; [done|]. by apply elem_of_map_to_list. }
    rewrite E in Hin. by apply not_elem_of_nil in Hin.
Qed.

(** A cached image gets one more reference, and is activated if it was retired. *)
Lemma reuse_ok owned c a e retired_hit :
  ctx_inv [] owned c -> cx_elfs c !! a = Some e ->
  ctx_inv [a] owned
    (with_elfs (if ec_retired e then on_stats (on_retired_elf_cache_hit retired_hit)
                  (on_stats (on_elf_ctx_count incr) (on_stats (on_retired_elf_ctx_count decr_pos) c)) else c)
       (<[a := with_refcnt (if ec_retired e then with_retired e false 0 else e) (incr (ec_refcnt e))]> (cx_elfs c))).
Proof.
  intros Hi He. pose proof (ci_refcnt _ _ _ Hi _ _ He) as Hr. pose proof (refs_bound _ _ _ a Hi) as Hb.
  pose proof (ci_retired _ _ _ Hi _ _ He) as Hret.
  pose proof (elf_count_bound _ _ _ is_active Hi) as Bac. pose proof (elf_count_bound _ _ _ is_retired Hi) as Brc.
  assert (Hpos : ec_retired e = true -> 0 < count_where is_retired (cx_elfs c)).
  { intros E. by eapply (count_pos is_retired _ a e). }
  eapply (inv_update [] [a] owned c _ a e); try done.
  - by destruct (ec_retired e).
  - by destruct (ec_retired e).
  - by destruct (ec_retired e).
  - by destruct (ec_retired e).
  - set_solver.
  - cbn. rewrite incr_small by lia. rewrite refs_pend, decide_True by done. by rewrite Hr.
  - intros b Hne. rewrite refs_pend, decide_False by done. lia.
  - cbn. rewrite incr_small by lia. assert (ec_retired (if ec_retired e then with_retired e false 0 else e) = false) as ->
      by (by destruct (ec_retired e) eqn:E). split; [done|lia].
  - destruct (ec_retired e); apply (ci_next _ _ _ Hi).
  - intros b f Hne Hf Hrf. destruct (ci_deadline _ _ _ Hi _ _ Hf Hrf). by destruct (ec_retired e).
  - cbn. by destruct (ec_retired e) eqn:E; cbn; rewrite ?E.
  - unfold is_active. destruct (ec_retired e) eqn:E; cbn; rewrite ?E; cbn; [|lia].
    rewrite (ci_active_count _ _ _ Hi), incr_small by lia. lia.
  - unfold is_retired. destruct (ec_retired e) eqn:E; cbn; rewrite ?E; cbn; [|lia].
    rewrite (ci_retired_count _ _ _ Hi), decr_pos_small by (specialize (Hpos eq_refl); lia). lia.
Qed.

(** A new image enters the cache with its first reference. *)
Lemma insert_elf_ok owned c c' a e :
  ctx_inv [] owned c -> a ∉ in_use c -> 0 < a < 2 ^ 63 ->
  ec_refcnt e = 1 -> ec_retired e = false ->
  (forall b f, cx_elfs c !! b = Some f -> ec_build_id f <> ec_build_id e) ->
  cx_elfs c' = <[a := e]> (cx_elfs c) -> cx_maps c' = cx_maps c -> cx_pids c' = cx_pids c ->
  cx_next_deadline_ns c' = cx_next_deadline_ns c ->
  elf_ctx_count (cx_stats c') = incr (elf_ctx_count (cx_stats c)) ->
  retired_elf_ctx_count (cx_stats c') = retired_elf_ctx_count (cx_stats c) ->
  pid_ctx_count (cx_stats c') = pid_ctx_count (cx_stats c) ->
  ctx_inv [a] owned c'.
Proof.
  intros Hi Hfresh Haddr Href Hret Hids He Hm Hp Hnx Hac Hrc Hpc.
  assert (Hnone : cx_elfs c !! a = None).
  { apply not_elem_of_dom. intros Hin. apply Hfresh, elem_of_union. by left. }
  assert (Hsome : forall b, is_Some (cx_elfs c !! b) -> is_Some (cx_elfs c' !! b)).
  { intros b [f Hf]. rewrite He, lookup_insert_ne; [by eauto|]. intros ->. by rewrite Hnone in Hf. }
  assert (Hlook : forall b f, cx_elfs c' !! b = Some f -> (b = a /\ f = e) \/ (b <> a /\ cx_elfs c !! b = Some f)).
  { intros b f. rewrite He. intros [[-> ->]|[Hne Hb]]%lookup_insert_Some; [by left|by right]. }
  assert (Hrefs : refs (cx_maps c) [a] a = 1).
  { rewrite refs_pend, decide_True by done. unfold refs. simpl.
    rewrite count_zero; [lia|]. intros m x Hx. unfold maps_to. apply Z.eqb_neq. intros E.
    destruct (ci_target _ _ _ Hi _ _ Hx) as [f Hf]. by rewrite E, Hnone in Hf. }
  split; rewrite ?Hm, ?Hp, ?Hnx.
  - intros b [f Hf]. apply Hlook in Hf as [[-> _]|[_ Hf]]; [done|]. apply (ci_elf_addr _ _ _ Hi). eauto.
  - apply (ci_map_addr _ _ _ Hi).
  - split; [done|]. intros b ->%list_elem_of_singleton. rewrite He, lookup_insert_eq. eauto.
  - apply (ci_entry _ _ _ Hi).
  - apply (ci_owner _ _ _ Hi).
  - intros m x Hx. apply Hsome. by eapply ci_target.
  - intros b f [[-> ->]|[Hne Hb]]%Hlook; [by rewrite Hrefs|].
    rewrite refs_pend, decide_False by done. rewrite Z.add_0_r. by eapply ci_refcnt.
  - intros b f [[-> ->]|[Hne Hb]]%Hlook; [|by eapply ci_retired]. rewrite Hret, Href. by split.
  - intros b f [[-> ->]|[Hne Hb]]%Hlook; [by rewrite Hret|]. by eapply ci_deadline.
  - apply (ci_next _ _ _ Hi).
  - pose proof (elf_count_bound _ _ _ is_active Hi). rewrite Hac, (ci_active_count _ _ _ Hi), incr_small by lia.
    rewrite He, count_insert_new by done. unfold is_active at 3. by rewrite Hret.
  - rewrite Hrc, (ci_retired_count _ _ _ Hi), He, count_insert_new by done. unfold is_retired at 3. rewrite Hret.
    cbn. lia.
  - rewrite Hpc. apply (ci_pid_count _ _ _ Hi).
  - intros b1 b2 f1 f2 [[-> ->]|[Hn1 H1]]%Hlook [[-> ->]|[Hn2 H2]]%Hlook; [done|..]; intros Heq.
    + by destruct (Hids b2 f2).
    + by destruct (Hids b1 f1).
    + by eapply (ci_build_id _ _ _ Hi).
Qed.

Lemma load_elf_ok owned c name pid path :
  ctx_inv [] owned c ->
  exists r c', load_elf c name pid path = Done (r, c') /\ cx_pids c' = cx_pids c /\
    ctx_inv (match r with Some a => [a] | None => [] end) owned c'.
Proof.
  intros Hi. unfold load_elf, reuse_elf, insert_elf.
  assert (Hi1 : ctx_inv [] owned (tick c)) by (by apply (inv_core _ _ c); auto with gu).
  destruct (read_build_id _ _ _ _) as [id|]; [|by exists None, (tick c)].
  pose proof (find_build_id_spec (tick c) id) as Hfind.
  destruct (find_build_id (tick c) id) as [a|].
  - destruct Hfind as (e & He & _). pose proof (reuse_ok owned _ a e incr Hi1 He) as Hr. rewrite He. run.
    destruct (ec_retired e) eqn:Eret.
    + unfold gu_unretire_elf_ctx. rewrite He. run. rewrite Eret. cbn [negb]. run. cbn [cx_elfs on_stats with_stats with_elfs].
      rewrite lookup_insert_eq. run. do 2 eexists. split; [done|]. split; [done|]. eapply inv_core; [|exact Hr].
      split; try done. cbn. by rewrite insert_insert_eq.
    + run. rewrite He. run. do 2 eexists. split; [done|]. split; [done|]. exact Hr.
  - set (c1 := on_stats (on_elf_ctx_alloc_count incr) (tick c)).
    assert (Hc1 : same_core (tick c) c1) by (by apply core_stats).
    destruct (read_image _ _ _ _) as [im|]; [|exists None, (tick c1); split; [done|]; split; [done|];
      by eapply inv_core; [etrans; [exact Hc1|by apply core_tick]|]].
    destruct (image_ranges _ im) as [ranges v].
    set (c2 := on_stats (add_tables im) (tick c1)).
    assert (Hc2 : same_core (tick c) c2).
    { etrans; [exact Hc1|]. etrans; [apply core_tick|]. apply core_stats. apply add_tables_core. }
    assert (Hi2 : ctx_inv [] owned (tick c2)) by (eapply inv_core; [etrans; [exact Hc2|apply core_tick]|done]).
    change (in_use (tick c2)) with (in_use c2).
    destruct (malloc_addr _ (in_use c2)) as [a|] eqn:Em.
    + destruct (malloc_fresh _ _ _ Em) as [Hfresh Haddr]. do 2 eexists. split; [done|]. split; [done|].
      eapply (insert_elf_ok owned (tick c2) _ a (elf_of_image id im ranges v)); try done.
    + do 2 eexists. split; [done|]. split; [done|]. eapply inv_core; [|exact Hi2].
      etrans; [apply core_tick|]. apply core_stats, drop_tables_core.
Qed.

(** *** Mappings *)
Lemma alloc_map_ok owned c a v :
  ctx_inv [a] owned c ->
  exists r c', gu_alloc_elf_map_ctx c a v = Done (r, c') /\ cx_pids c' = cx_pids c /\
    match r with
    | Some m => ctx_inv [] (m :: owned) c' /\ 0 < m < 2 ^ 63
    | None => ctx_inv [a] owned c'
    end.
Proof.
  intros Hi. unfold gu_alloc_elf_map_ctx. destruct (malloc_addr _ _) as [m|] eqn:Em.
  2:{ exists None, (tick c). split; [done|]. split; [done|]. apply (inv_core _ _ c); auto with gu. }
  destruct (malloc_fresh _ _ _ Em) as [Hfresh Haddr]. destruct (ci_pend _ _ _ Hi) as [_ Hpend].
  destruct (Hpend a) as [e He]; [set_solver|]. change (cx_elfs (tick c)) with (cx_elfs c). rewrite He. run.
  do 2 eexists. split; [done|]. split; [done|]. split; [|done].
  assert (Hnone : cx_maps c !! m = None).
  { apply not_elem_of_dom. intros Hin. apply Hfresh, elem_of_union. by right. }
  assert (Hrefs : forall b, refs (<[m := map_ctx_of a e v]> (cx_maps c)) [] b = refs (cx_maps c) [a] b).
  { intros b. rewrite refs_pend. unfold refs. rewrite count_insert_new by done. unfold maps_to at 2. cbn.
    destruct (Z.eqb_spec a b); case_decide; simpl; try done; lia. }
  destruct Hi. split; cbn; try done.
  - intros m' [x Hx]. apply lookup_insert_Some in Hx as [[<- _]|[_ Hx]]; [done|]. apply ci_map_addr0. eauto.
  - split; [lia|]. set_solver.
  - rewrite map_to_list_insert by done. rewrite fmap_cons. cbn [fst]. rewrite <- ci_owner0. by rewrite <- Permutation_middle.
  - intros m' x [[<- <-]|[_ Hx]]%lookup_insert_Some; [by eauto|]. by eapply ci_target0.
  - intros b f Hf. rewrite Hrefs. by apply ci_refcnt0.
Qed.

(** Removing a mapping leaves its reference pending. *)
Lemma delete_map_ok owned c p x :
  ctx_inv [] (p :: owned) c -> cx_maps c !! p = Some x ->
  ctx_inv [mc_elf_ctx x] owned (with_maps c (delete p (cx_maps c))).
Proof.
  intros Hi Hx.
  assert (Hrefs : forall b, refs (delete p (cx_maps c)) [mc_elf_ctx x] b = refs (cx_maps c) [] b).
  { intros b. rewrite refs_pend. unfold refs. rewrite (count_delete _ _ _ x) by done. unfold maps_to at 2.
    destruct (Z.eqb_spec (mc_elf_ctx x) b); case_decide; simpl; try done; lia. }
  destruct Hi. split; cbn; try done.
  - intros m [y Hy]. apply lookup_delete_Some in Hy as [_ Hy]. apply ci_map_addr0. eauto.
  - split; [lia|]. intros b ->%list_elem_of_singleton. by eapply ci_target0.
  - apply (Permutation_cons_inv (a := p)). rewrite Permutation_middle, ci_owner0.
    rewrite <- (insert_id (cx_maps c) p x) at 1 by done. rewrite <- insert_delete_eq.
    rewrite map_to_list_insert by apply lookup_delete_eq. done.
  - intros m y [_ Hy]%lookup_delete_Some. by eapply ci_target0.
  - intros b f Hf. rewrite Hrefs. by apply ci_refcnt0.
Qed.

(** [gu_put_elf_ctx] does not look at the mappings. *)
Lemma put_with_maps c m a :
  gu_put_elf_ctx (with_maps c m) a = (c' ← gu_put_elf_ctx c a; mret (with_maps c' m)).
Proof.
  unfold gu_put_elf_ctx. cbn [cx_elfs with_maps]. destruct (deref _) as [e|]; run; [|done].
  destruct (decr (ec_refcnt e) =? 0); run; [|done].
  unfold gu_retire_elf_ctx. cbn [cx_elfs with_elfs]. rewrite lookup_insert_eq. run.
  destruct (ec_retired _); run; [done|].
  unfold gu_cache_now_ns, gu_monotonic_ns. cbn [cx_timer_started cx_ticks with_elfs with_maps].
  destruct (cx_timer_started c); [destruct (negb _)|]; run;
    cbn [cx_next_deadline_ns with_stats on_stats with_elfs tick with_ticks with_maps];
    destruct (_ || _); done.
Qed.

Lemma inv_perm pend owned owned' c : owned ≡ₚ owned' -> ctx_inv pend owned c -> ctx_inv pend owned' c.
Proof. intros Hp []. split; try done. by rewrite <- Hp. Qed.

Lemma owned_map pend owned c p : ctx_inv pend (p :: owned) c -> is_Some (cx_maps c !! p).
Proof.
  intros Hi. apply elem_of_dom. pose proof (ci_owner _ _ _ Hi) as Hp.
  assert (p ∈ (map_to_list (cx_maps c)).*1) as Hin by (rewrite <- Hp; apply elem_of_app; right; by left).
  apply list_elem_of_fmap in Hin as ([q x] & -> & Hin). apply elem_of_map_to_list in Hin.
  by apply elem_of_dom_2 in Hin.
Qed.

Lemma clean_ok owned c p :
  ctx_inv [] (p :: owned) c ->
  exists c', private_clean_elf_ctx c p = Done c' /\ ctx_inv [] owned c' /\ cx_pids c' = cx_pids c.
Proof.
  intros Hi. destruct (owned_map _ _ _ _ Hi) as [x Hx]. unfold private_clean_elf_ctx. rewrite Hx. run.
  destruct (put_ok _ _ _ (delete_map_ok _ _ _ _ Hi Hx)) as (c' & Hput & Hi' & Hm & Hp).
  rewrite put_with_maps in Hput. destruct (gu_put_elf_ctx c _) as [c1|] eqn:Eput; run; [|done].
  injection Hput as <-. assert (cx_maps c1 = cx_maps c) as ->; [|by eexists].
  clear -Eput HE. unfold gu_put_elf_ctx in Eput. destruct (deref _) as [e|]; [|done].
  cbn [mbind outcome_bind] in Eput. destruct (_ =? 0); [|by injection Eput as <-].
  unfold gu_retire_elf_ctx in Eput. destruct (deref _) as [e'|]; [|done]. cbn [mbind outcome_bind] in Eput.
  destruct (ec_retired e'); [by injection Eput as <-|].
  destruct (gu_cache_now_ns _) as [now c2] eqn:En. apply cache_now_core in En as [[] _].
  cbn in sc_maps0. injection Eput as <-. by destruct (_ || _); cbn.
Qed.

Lemma clean_all_ok ps owned c :
  ctx_inv [] (ps ++ owned) c ->
  exists c', clean_all ps c = Done c' /\ ctx_inv [] owned c' /\ cx_pids c' = cx_pids c.
Proof.
  revert c. induction ps as [|p ps IH]; intros c Hi; cbn [clean_all]; [by exists c|].
  destruct (clean_ok _ _ _ Hi) as (c1 & -> & Hi1 & Hp1). run.
  destruct (IH _ Hi1) as (c2 & -> & Hi2 & Hp2). exists c2. by rewrite Hp2.
Qed.

(** *** Loading a process *)
Lemma load_maps_ok pid maps owned i items golang c :
  ctx_inv [] (omap item_payload items ++ owned) c -> Forall good_item items ->
  exists ok items' golang' c', load_maps pid i maps items golang c = Done (ok, items', golang', c') /\
    ctx_inv [] (omap item_payload items' ++ owned) c' /\ Forall good_item items' /\ cx_pids c' = cx_pids c.
Proof.
  revert i items golang c. induction maps as [|m maps IH]; intros i items golang c Hi Hg; cbn [load_maps].
  { by exists true, items, golang, c. }
  destruct (load_elf_ok _ c (mi_path m) pid (open_path_of c i pid m) Hi) as (r & c1 & -> & Hp1 & Hi1). run.
  destruct r as [a|].
  - destruct (ci_pend _ _ _ Hi1) as [_ Hpend]. destruct (Hpend a) as [e He]; [set_solver|]. rewrite He. run.
    destruct (alloc_map_ok _ c1 a (gu_resolve_map_exec_virt_addr (ec_exec_ranges e) m) Hi1) as (r & c2 & -> & Hp2 & Hi2).
    run. destruct r as [p|].
    + destruct Hi2 as [Hi2 Haddr].
      set (it := mk_item (mi_start m) (mi_end m) (mark_interval_array_pointer_no_free p)).
      assert (Hit : good_item it) by (right; by exists p).
      assert (Hpay : omap item_payload (items ++ [it]) = omap item_payload items ++ [p]).
      { rewrite omap_app. f_equal. unfold omap. cbn [list_omap]. unfold item_payload. cbn [private it].
        destruct (mark_pointer p Haddr) as [-> _]. cbn [fst]. by destruct (Z.eqb_spec p 0); [lia|]. }
      destruct (IH (S i) (items ++ [it]) (if decide (i = 0%nat) then golang || ec_golang e else golang) c2)
        as (ok & items' & golang' & c' & E & Hi' & Hg' & Hp').
      * rewrite Hpay. eapply inv_perm; [|exact Hi2]. rewrite <- app_assoc. cbn. by rewrite Permutation_middle.
      * apply Forall_app. by split; [|apply Forall_singleton].
      * exists ok, items', golang', c'. split; [exact E|]. rewrite Hp', Hp2, Hp1. done.
    + destruct (put_ok _ _ _ Hi2) as (c3 & -> & Hi3 & _ & Hp3). run. do 4 eexists. split; [done|].
      rewrite Hp3, Hp2, Hp1. done.
  - destruct (IH (S i) (items ++ [mk_item (mi_start m) (mi_end m) 0]) golang c1)
      as (ok & items' & golang' & c' & E & Hi' & Hg' & Hp').
    + rewrite omap_app. cbn. by rewrite app_nil_r.
    + apply Forall_app. split; [done|]. apply Forall_singleton. by left.
    + exists ok, items', golang', c'. split; [exact E|]. rewrite Hp', Hp1. done.
Qed.

Lemma random_core c p x p' c' :
  gu_maps_reload_random_u64 c p = (x, p', c') -> same_core c c' /\ p' = with_rand p x.
Proof.
  unfold gu_maps_reload_random_u64, gu_monotonic_ns.
  destruct (pc_rand_state p =? 0); cbv zeta; intros [= <- <- <-]; (split; [by split|done]).
Qed.

(** The next reload is due 30 to 90 seconds after the clock reading it is based
    on. *)
Lemma schedule_spec c p p' c' :
  gu_schedule_next_maps_reload c p = (p', c') ->
  same_core c c' /\ (exists x last next, p' = with_schedule (with_rand p x) last next) /\ scheduled p'.
Proof.
  unfold gu_schedule_next_maps_reload. destruct (gu_cache_now_ns c) as [now c1] eqn:En.
  apply cache_now_core in En as [Hc1 Hnow].
  destruct (gu_maps_reload_random_u64 c1 p) as [[x p1] c2] eqn:Er. apply random_core in Er as [Hc2 ->].
  intros [= <- <-]. split; [by etrans|]. split; [by do 3 eexists|]. unfold scheduled. cbn [pc_last_maps_load_ns pc_next_maps_reload_ns with_schedule].
  split; [done|]. unfold GU_PID_MAPS_RELOAD_MIN_INTERVAL_NS, GU_PID_MAPS_RELOAD_MAX_INTERVAL_NS in *.
  pose proof (Z.mod_pos_bound x (90 * 1000000000 - 30 * 1000000000 + 1)). rewrite add64_small by lia. lia.
Qed.

(** [gu_load_pid] on a process that is not in the table: the entry owns the new
    mappings, and nothing is left behind on failure. *)
Lemma load_pid_ok owned c info :
  ctx_inv [] owned c -> cx_pids c !! si_pid info = None ->
  exists r c', gu_load_pid c info = Done (r, c') /\ cx_pids c' = cx_pids c /\
    match r with
    | None => ctx_inv [] owned c'
    | Some p => ctx_inv [] (payloads p ++ owned) c' /\ pid_entry_ok (si_pid info) p
    end.
Proof.
  intros Hi Hnone. unfold gu_load_pid. rewrite Hnone.
  assert (Hfail : forall c1, same_core c c1 -> exists r c', @Done (option per_pid_ctx * gu_context) (None, c1) = Done (r, c') /\
    cx_pids c' = cx_pids c /\ match r with None => ctx_inv [] owned c'
    | Some p => ctx_inv [] (payloads p ++ owned) c' /\ pid_entry_ok (si_pid info) p end).
  { intros c1 Hc1. exists None, c1. split; [done|]. split; [apply Hc1|]. by eapply inv_core. }
  match goal with |- context [gu_get_maps_info ?a ?f ?t] =>
    assert (Hread : exists r, gu_get_maps_info a f t = Done r) end.
  { destruct (proc_maps_file _ _ _) as [t|] eqn:Et; [|by eexists]. apply proc_maps_format in Et.
    destruct (get_maps_ok (maps_alloc (cx_ticks c)) PERMISSION_X t Et) as (r & -> & _). eauto. }
  destruct Hread as [maps ->]. run. destruct maps as [maps|]; [|by apply Hfail].
  destruct (malloc_ok _); cbn [negb]; [|by apply Hfail].
  destruct (pid_block _) as [addr|]; [|by apply Hfail].
  set (c1 := on_stats (on_pid_ctx_alloc_count incr) (tick (tick (tick c)))).
  assert (Hc1 : same_core c c1) by (by split).
  destruct (load_maps_ok (si_pid info) maps owned 0 [] false c1)
    as (ok & items & golang & c2 & E & Hi2 & Hg & Hp2).
  { by apply (inv_core _ _ c). }
  { constructor. }
  rewrite E. run. destruct ok; cbn [negb].
  2:{ destruct (clean_all_ok _ _ _ Hi2) as (c3 & Ec & Hi3 & Hp3). unfold gu_cleanup_elf_map_items. rewrite Ec. run.
      do 2 eexists. split; [done|]. split; [by rewrite Hp3, Hp2|done]. }
  destruct (gu_interval_array_init _ _ items) as [items' arr] eqn:Ea.
  apply init_payloads in Ea as (Hg' & Hperm & Harr); [|done].
  assert (Hi3 : ctx_inv [] (omap item_payload items' ++ owned) (tick (tick c2))).
  { apply (inv_core _ _ c2); [by split|]. eapply inv_perm; [|exact Hi2]. by rewrite Hperm. }
  destruct arr as [arr|].
  2:{ destruct (clean_all_ok _ _ _ Hi3) as (c3 & Ec & Hi4 & Hp3). unfold gu_cleanup_elf_map_items. rewrite Ec. run.
      do 2 eexists. split; [done|]. split; [by rewrite Hp3; cbn; rewrite Hp2|done]. }
  destruct Harr as (Hvisit & Hdestroy & Hsearch).
  destruct (gu_schedule_next_maps_reload _ _) as [p c3] eqn:Es.
  apply schedule_spec in Es as (Hc3 & (x & last & next & ->) & Hsched). do 2 eexists. split; [done|].
  split; [rewrite (sc_pids _ _ Hc3); cbn; by rewrite Hp2|]. split; [|split; [done|]; split; [by exists arr|done]].
  eapply inv_core; [exact Hc3|]. apply (inv_core _ _ c2); [by split|]. eapply inv_perm; [|exact Hi2].
  unfold payloads. cbn [pc_elf_ctx_list with_schedule with_rand]. by rewrite Hvisit.
Qed.

(** *** Process entries *)
Lemma all_payloads_insert pids pid p :
  pids !! pid = None -> all_payloads (<[pid := p]> pids) ≡ₚ payloads p ++ all_payloads pids.
Proof. intros Hn. unfold all_payloads. by rewrite map_to_list_insert, fmap_cons, bind_cons by done. Qed.

Lemma all_payloads_delete pids pid p :
  pids !! pid = Some p -> all_payloads pids ≡ₚ payloads p ++ all_payloads (delete pid pids).
Proof.
  intros Hp. rewrite <- (insert_id pids pid p) at 1 by done. rewrite <- insert_delete_eq.
  apply all_payloads_insert, lookup_delete_eq.
Qed.

Lemma add_pid_ok c p :
  ctx_inv [] (payloads p) c -> pid_entry_ok (pc_pid p) p -> cx_pids c !! pc_pid p = None -> ctx_ok (add_pid c p).
Proof.
  intros [] Hok Hnone. split; cbn; try done.
  - intros pid q [[<- <-]|[_ Hq]]%lookup_insert_Some; [done|]. by apply ci_entry0.
  - rewrite app_nil_r, all_payloads_insert by done. by rewrite <- ci_owner0, Permutation_app_comm.
  - rewrite map_size_insert_None by done. unfold incr, add64. rewrite ci_pid_count0, wrap_add_l. f_equal. lia.
Qed.

Lemma clear_pid_ok c pid p :
  ctx_ok c -> cx_pids c !! pid = Some p ->
  exists c', gu_clear_pid_ctx c pid = Done c' /\ ctx_ok c' /\ cx_pids c' = delete pid (cx_pids c).
Proof.
  intros Hi Hp. unfold gu_clear_pid_ctx. rewrite Hp. run.
  destruct (ci_entry _ _ _ Hi _ _ Hp) as (_ & (arr & Harr & _) & Hdes & _). rewrite Harr in *.
  set (c1 := on_stats _ _).
  assert (Hi1 : ctx_inv [] (payloads p ++ []) c1).
  { rewrite app_nil_r. destruct Hi. split; cbn; try done.
    - intros q pq [_ Hq]%lookup_delete_Some. by apply ci_entry0.
    - rewrite <- ci_owner0, app_nil_r. by rewrite (all_payloads_delete (cx_pids c) pid p), Permutation_app_comm by done.
    - rewrite map_size_delete_Some by (by eauto). unfold decr, sub64. rewrite ci_pid_count0, wrap_sub_l. f_equal.
      assert (size (cx_pids c) <> 0)%nat; [|lia]. intros E. apply map_size_empty_iff in E. by rewrite E in Hp. }
  destruct (clean_all_ok _ _ _ Hi1) as (c2 & Ec & Hi2 & Hp2). unfold payloads in Ec. rewrite Harr in Ec. rewrite Ec. run.
  rewrite Hdes. cbn [free_maps]. exists c2. split; [done|]. split; [done|]. by rewrite Hp2.
Qed.
End operations.
