(* ===== verification/ContextSafe.v ===== *)
(** * The public operations keep the context invariant: [src/gu_stacktrace.c]

    Sweeping, reloading, searching, clearing and cleaning up: each operation is
    defined on every context of the invariant, keeps it, and does what its
    contract says. *)

From stdpp Require Import strings.
From S2P Require Import Prelude Types IntervalArray Cfi CfiParse ElfRanges Maps Context ContextInv.

(** ** Sweeping retired images *)

(** What a sweep at [now_ns] frees. *)
Definition expired (now_ns : Z) (e : per_elf_ctx) : bool :=
  ec_retired e && ((now_ns =? UINT64_MAX) || (ec_retire_deadline_ns e <=? now_ns)).

(** The images a sweep over the addresses [todo] leaves. *)
Definition swept (now_ns : Z) (todo : list Z) (elfs : gmap Z per_elf_ctx) : gmap Z per_elf_ctx :=
  filter (fun x => ~ (x.1 ∈ todo /\ expired now_ns x.2 = true)) elfs.

Lemma swept_skip now a todo elfs e :
  elfs !! a = Some e -> expired now e = false -> swept now (a :: todo) elfs = swept now todo elfs.
Proof.
  intros He Hx. apply map_filter_ext. intros b f Hf. cbn. rewrite elem_of_cons. split; [tauto|].
  intros Hn [[->|Hin] Hexp]; [congruence|tauto].
Qed.

Lemma swept_drop now a todo elfs e :
  elfs !! a = Some e -> expired now e = true ->
  swept now (a :: todo) elfs = swept now todo (delete a elfs).
Proof.
  intros He Hx. apply map_eq. intros b. apply option_eq. intros f. unfold swept.
  rewrite !map_lookup_filter_Some, lookup_delete_Some. cbn. rewrite elem_of_cons.
  split; [intros [Hb Hn]|intros [[Hne Hb] Hn]].
  - assert (a <> b) by (intros ->; rewrite He in Hb; simplify_eq; tauto). tauto.
  - split; [done|]. intros [[->|Hin] Hexp]; tauto.
Qed.

Lemma swept_nil now elfs : swept now [] elfs = elfs.
Proof. apply map_filter_id. intros b f _. cbn. set_solver. Qed.

(** Freeing an image without references. *)
Lemma delete_elf_ok c c' a e :
  ctx_ok c -> cx_elfs c !! a = Some e -> ec_retired e = true ->
  cx_elfs c' = delete a (cx_elfs c) -> cx_maps c' = cx_maps c -> cx_pids c' = cx_pids c ->
  cx_next_deadline_ns c' = cx_next_deadline_ns c ->
  elf_ctx_count (cx_stats c') = elf_ctx_count (cx_stats c) ->
  retired_elf_ctx_count (cx_stats c') = retired_elf_ctx_count (cx_stats c) - 1 ->
  pid_ctx_count (cx_stats c') = pid_ctx_count (cx_stats c) -> ctx_ok c'.
Proof.
  intros Hi Ha Hr He Hm Hp Hn Hac Hrc Hpc. pose proof (ci_refcnt _ _ _ Hi _ _ Ha) as Href.
  apply (ci_retired _ _ _ Hi _ _ Ha) in Hr as Hzero. rewrite Hzero in Href. unfold refs in Href. cbn in Href.
  assert (Hlook : forall b f, cx_elfs c' !! b = Some f -> cx_elfs c !! b = Some f).
  { intros b f. rewrite He. by intros [_ Hb]%lookup_delete_Some. }
  destruct Hi. split; rewrite ?Hm, ?Hp, ?Hn, ?Hac, ?Hrc, ?Hpc; eauto.
  - intros b [f Hb%Hlook]. eauto.
  - split; [cbn; lia|]. set_solver.
  - intros m x Hx. rewrite He. destruct (ci_target m x Hx) as [f Hf]. exists f.
    apply lookup_delete_Some. split; [|done]. intros ->.
    assert (Hz : maps_to (mc_elf_ctx x) x = false) by (eapply count_zero_inv; [|exact Hx]; lia).
    unfold maps_to in Hz. lia.
  - rewrite He, (count_delete _ _ _ e) by done. unfold is_active at 2. rewrite Hr. cbn. rewrite ci_active_count. lia.
  - rewrite He, (count_delete _ _ _ e) by done. unfold is_retired at 2. rewrite Hr. cbn. by rewrite ci_retired_count.
Qed.

Section operations.
Context {HE : Env} {HQ : Qsort}.

(** [clear_elf_ctx] on a retired image. *)
Lemma clear_retired c a e :
  cx_elfs c !! a = Some e -> ec_retired e = true -> exists c', clear_elf_ctx c a = Done c' /\
    cx_elfs c' = delete a (cx_elfs c) /\ cx_maps c' = cx_maps c /\ cx_pids c' = cx_pids c /\
    cx_next_deadline_ns c' = cx_next_deadline_ns c /\
    elf_ctx_count (cx_stats c') = elf_ctx_count (cx_stats c) /\
    retired_elf_ctx_count (cx_stats c') = decr_pos (retired_elf_ctx_count (cx_stats c)) /\
    pid_ctx_count (cx_stats c') = pid_ctx_count (cx_stats c).
Proof.
  intros He Hr. unfold clear_elf_ctx. rewrite He. run. rewrite Hr. unfold gu_unretire_elf_ctx.
  rewrite He. run. rewrite Hr. cbn [negb]. run. eexists. split; [done|].
  cbn [cx_elfs cx_maps cx_pids cx_next_deadline_ns cx_stats with_elfs on_stats with_stats].
  set (s := on_retired_elf_ctx_count _ _).
  destruct (drop_tables_core (ec_symbols e) (ec_cfi e) (ec_sym_search_size e) s) as (-> & -> & ->).
  split_and!; try done. by rewrite delete_insert_eq.
Qed.

(** The loop frees the expired images among [todo] and collects the earliest
    deadline of those it keeps; [D] is the deadline bound of the context the
    sweep started from. *)
Lemma sweep_loop_ok D todo now next c :
  ctx_ok (with_next_deadline c D) -> NoDup todo -> (forall a, a ∈ todo -> is_Some (cx_elfs c !! a)) ->
  0 <= next -> exists next' c', sweep_loop todo now next c = Done (next', c') /\
    ctx_ok (with_next_deadline c' D) /\ cx_elfs c' = swept now todo (cx_elfs c) /\
    cx_maps c' = cx_maps c /\ cx_pids c' = cx_pids c /\ 0 <= next' /\ (0 < next -> 0 < next' <= next) /\
    (forall a e, a ∈ todo -> cx_elfs c' !! a = Some e -> ec_retired e = true ->
       0 < next' <= ec_retire_deadline_ns e).
Proof.
  revert next c. induction todo as [|a todo IH]; intros next c Hi Hnd Hin Hnext; cbn [sweep_loop].
  { exists next, c. rewrite swept_nil. split_and!; try done; [lia..|]. intros a e Ha. set_solver. }
  apply NoDup_cons in Hnd as [Hfresh Hnd]. destruct (Hin a) as [e He]; [set_solver|]. rewrite He. run.
  (* an image that stays *)
  assert (Hkeep : forall next1, expired now e = false -> 0 <= next1 -> (0 < next -> 0 < next1 <= next) ->
    (ec_retired e = true -> 0 < next1 <= ec_retire_deadline_ns e) ->
    exists next' c', sweep_loop todo now next1 c = Done (next', c') /\
    ctx_ok (with_next_deadline c' D) /\ cx_elfs c' = swept now (a :: todo) (cx_elfs c) /\
    cx_maps c' = cx_maps c /\ cx_pids c' = cx_pids c /\ 0 <= next' /\ (0 < next -> 0 < next' <= next) /\
    (forall b f, b ∈ a :: todo -> cx_elfs c' !! b = Some f -> ec_retired f = true ->
       0 < next' <= ec_retire_deadline_ns f)).
  { intros next1 Hx Hn0 Hn1 Hd. destruct (IH next1 c) as (next' & c' & -> & Hi' & He' & Hm & Hp & H0 & Hle & Hall);
      [done|done|set_solver|done|]. exists next', c'.
    rewrite (swept_skip _ _ _ _ e) by done. split_and!; try done; [lia..|].
    intros b f [->|Hb]%elem_of_cons Hf Hr; [|by eapply Hall]. rewrite He' in Hf.
    apply map_lookup_filter_Some in Hf as [Hf _]. rewrite He in Hf. simplify_eq. specialize (Hd Hr). lia. }
  destruct (ec_retired e) eqn:Er; cbn [negb].
  2:{ apply Hkeep; [unfold expired; by rewrite Er|lia|lia|done]. }
  destruct ((now =? UINT64_MAX) || (ec_retire_deadline_ns e <=? now)) eqn:Ex.
  - set (c0 := on_stats (on_retired_elf_expired incr) c).
    destruct (clear_retired c0 a e He Er) as (c1 & -> & He1 & Hm1 & Hp1 & Hn1 & Hac1 & Hrc1 & Hpc1). run.
    assert (Hi1 : ctx_ok (with_next_deadline c1 D)).
    { apply (delete_elf_ok _ (with_next_deadline c1 D) a e Hi); try done. cbn. rewrite Hrc1. apply decr_pos_small. cbn.
      pose proof (ci_retired_count _ _ _ Hi) as Hrc. cbn in Hrc. rewrite Hrc.
      pose proof (elf_count_bound _ _ _ is_retired Hi) as Hb. cbn in Hb.
      pose proof (count_pos is_retired (cx_elfs c) a e He Er). lia. }
    destruct (IH next c1) as (next' & c' & -> & Hi' & He' & Hm & Hp & H0 & Hle & Hall); try done.
    { intros b Hb. rewrite He1. destruct (Hin b) as [f Hf]; [set_solver|]. exists f.
      apply lookup_delete_Some. split; [|done]. intros ->. done. }
    exists next', c'. rewrite (swept_drop _ _ _ _ e) by (done || by unfold expired; rewrite Er, Ex).
    rewrite Hm, Hp, Hm1, Hp1. change (cx_elfs c0) with (cx_elfs c) in He1.
    split_and!; try done; [by rewrite He', He1|lia..|]. intros b f [->|Hb]%elem_of_cons Hf Hr; [|by eapply Hall].
    rewrite He', He1 in Hf. apply map_lookup_filter_Some in Hf as [Hf _]. by rewrite lookup_delete_eq in Hf.
  - pose proof (ci_deadline _ _ _ Hi _ _ He Er) as Hd. cbn in Hd.
    assert (Hx : expired now e = false) by (unfold expired; by rewrite Er, Ex).
    destruct (Z.eqb_spec next 0), (Z.ltb_spec (ec_retire_deadline_ns e) next); cbn [orb]; apply Hkeep; auto; lia.
Qed.

(** A sweep frees exactly the expired images, whatever shortcut it takes. *)
Lemma sweep_ok c now :
  ctx_ok c -> 0 <= now -> exists c', gu_retired_elf_sweep c now = Done c' /\ ctx_ok c' /\
    cx_elfs c' = filter (fun x => expired now x.2 = false) (cx_elfs c) /\
    cx_maps c' = cx_maps c /\ cx_pids c' = cx_pids c.
Proof.
  intros Hi Hnow. unfold gu_retired_elf_sweep.
  assert (Hnone : (forall a e, cx_elfs c !! a = Some e -> expired now e = false) ->
    exists c', Done c = Done c' /\ ctx_ok c' /\
    cx_elfs c' = filter (fun x => expired now x.2 = false) (cx_elfs c) /\
    cx_maps c' = cx_maps c /\ cx_pids c' = cx_pids c).
  { intros Hall. exists c. split_and!; try done. symmetry. apply map_filter_id. intros a e He. cbn. eauto. }
  destruct (Z.eqb_spec now 0) as [->|Hne].
  { apply Hnone. intros a e He. unfold expired. destruct (ec_retired e) eqn:Er; [|done].
    pose proof (ci_deadline _ _ _ Hi _ _ He Er). cbn [andb]. word. }
  destruct (negb (now =? UINT64_MAX) && _) eqn:Eskip.
  - apply andb_true_iff in Eskip as [Hmax Hwhy]. apply Hnone. intros a e He. unfold expired.
    destruct (ec_retired e) eqn:Er; [|done]. cbn [andb]. pose proof (ci_deadline _ _ _ Hi _ _ He Er) as Hd.
    pose proof (count_pos is_retired (cx_elfs c) a e He Er) as Hc. pose proof (ci_retired_count _ _ _ Hi) as Hrc. lia.
  - assert (Hdom : forall a, a ∈ (map_to_list (cx_elfs c)).*1 <-> is_Some (cx_elfs c !! a)).
    { intros a. rewrite list_elem_of_fmap. split.
      - intros ([b e] & -> & Hin%elem_of_map_to_list). by eauto.
      - intros [e He]. exists (a, e). split; [done|]. by apply elem_of_map_to_list. }
    destruct (sweep_loop_ok (cx_next_deadline_ns c) (map_to_list (cx_elfs c)).*1 now 0 (with_next_deadline c 0))
      as (next & c' & -> & Hi' & He' & Hm & Hp & H0 & _ & Hall).
    + apply (inv_core _ _ c); [by split|done].
    + apply NoDup_fst_map_to_list.
    + intros a. apply Hdom.
    + lia.
    + run. exists (with_next_deadline c' next). split; [done|].
      assert (Hsub : forall a e, cx_elfs c' !! a = Some e -> cx_elfs c !! a = Some e).
      { intros a e. rewrite He'. by intros [Ha _]%map_lookup_filter_Some. }
      split_and!; try done.
      * destruct Hi'. split; cbn in *; try done. intros a e Ha Hr. apply (Hall a e); [|done|done].
        apply Hdom. apply Hsub in Ha. by eauto.
      * cbn. rewrite He'. apply map_filter_ext. intros a e Ha. cbn. rewrite Hdom. cbn in Ha.
        destruct (expired now e); split; try done; [|naive_solver]. intros Hn. exfalso. apply Hn. eauto.
Qed.

(** ** The time-based shortcuts *)
Lemma monotonic_core c now c' : gu_monotonic_ns c = (now, c') -> same_core c c' /\ 0 <= now < 2 ^ 63.
Proof. intros [= <- <-]. split; [auto with gu|apply clock_range]. Qed.

Lemma maybe_sweep_ok c :
  ctx_ok c -> exists c', gu_maybe_sweep_retired_elf c = Done c' /\ ctx_ok c' /\
    cx_pids c' = cx_pids c /\ cx_maps c' = cx_maps c.
Proof.
  intros Hi. unfold gu_maybe_sweep_retired_elf.
  assert (Hrun : forall c1 now, same_core c c1 -> 0 <= now -> exists c', gu_retired_elf_sweep c1 now = Done c' /\
    ctx_ok c' /\ cx_pids c' = cx_pids c /\ cx_maps c' = cx_maps c).
  { intros c1 now Hc Hnow. destruct (sweep_ok c1 now) as (c' & Hs & Hi' & _ & Hm & Hp); [by eapply inv_core|done|].
    exists c'. rewrite Hm, Hp. destruct Hc. done. }
  destruct (_ =? 0); [by exists c|]. destruct (cx_timer_started c).
  - destruct (timer_pending (cx_ticks c)); cbn [negb]; [|exists (tick c); split_and!; try done; by eapply inv_core; [apply core_tick|]].
    destruct (timer_now _ =? 0) eqn:E; apply Hrun; try (by split); apply clock_range || apply timer_range.
  - apply Hrun; [by split|apply clock_range].
Qed.

(** ** Reload throttling *)

(** Replacing an entry by one with the same mappings. *)
Lemma update_pid_ok c pid p p' :
  ctx_ok c -> cx_pids c !! pid = Some p -> same_entry p p' ->
  ctx_ok (with_pids c (<[pid := p']> (cx_pids c))).
Proof.
  intros [] Hp Hsame.
  split; cbn; try done.
  - intros q x [[<- <-]|[_ Hq]]%lookup_insert_Some; [|by apply ci_entry].
    eapply same_entry_ok; [done|]. by apply ci_entry.
  - rewrite <- ci_owner. rewrite <- insert_delete_eq, all_payloads_insert by apply lookup_delete_eq.
    rewrite (same_entry_payloads p p' Hsame). by rewrite <- all_payloads_delete by done.
  - by rewrite map_size_insert_Some by eauto.
Qed.

(** The decision for an entry of the table, whose schedule is always set: a
    refusal only counts. *)
Lemma reload_allowed_ok c pid p :
  ctx_ok c -> cx_pids c !! pid = Some p -> exists c', 
    gu_maps_reload_allowed c pid = Done (pc_next_maps_reload_ns p <=? (gu_cache_now_ns c).1, c') /\
    same_core c c' /\ cx_debug c' = cx_debug c.
Proof.
  intros Hi Hp. unfold gu_maps_reload_allowed. rewrite Hp. run.
  destruct (ci_entry _ _ _ Hi _ _ Hp) as (_ & _ & _ & [Hl Hn]).
  unfold GU_PID_MAPS_RELOAD_MIN_INTERVAL_NS, GU_PID_MAPS_RELOAD_MAX_INTERVAL_NS in Hn.
  destruct (Z.eqb_spec (pc_next_maps_reload_ns p) 0); [lia|].
  rewrite insert_id by done. replace (with_pids c (cx_pids c)) with c by (by destruct c).
  assert (Hdbg : cx_debug (gu_cache_now_ns c).2 = cx_debug c).
  { unfold gu_cache_now_ns, gu_monotonic_ns. repeat case_match; done. }
  destruct (gu_cache_now_ns c) as [now c2] eqn:En. apply cache_now_core in En as [Hc2 Hnow]. cbn [fst snd] in *.
  destruct (_ <=? now); eexists; (split; [done|]); (split; [|done]); [done|].
  etrans; [exact Hc2|]. by apply core_stats.
Qed.

(** ** Reloading and searching *)
Lemma reload_ok c info :
  ctx_ok c -> is_Some (cx_pids c !! si_pid info) ->
  exists new info' c', gu_reload_pid_ctx c (si_pid info) info = Done (new, info', c') /\ ctx_ok c' /\
    match new with
    | Some q => q = si_pid info /\ is_Some (cx_pids c' !! q)
    | None => cx_pids c' !! si_pid info = None
    end.
Proof.
  intros Hi [old Hold]. unfold gu_reload_pid_ctx. rewrite Hold. run.
  destruct (clear_pid_ok (notify (tick c) (event_destroy old)) (si_pid info) old) as (c1 & -> & Hi1 & Hp1).
  { apply (inv_core _ _ c); [by split|done]. } { done. }
  run. assert (Hnone : cx_pids c1 !! si_pid info = None) by (rewrite Hp1; apply lookup_delete_eq).
  destruct (load_pid_ok [] c1 info Hi1 Hnone) as ([p|] & c2 & -> & Hp2 & Hres); run.
  2:{ do 3 eexists. split; [done|]. by rewrite Hp2. }
  destruct Hres as [Hi2 Hentry]. rewrite app_nil_r in Hi2. do 3 eexists. split; [done|].
  set (new := with_private _ _). assert (Hsame : same_entry p new) by done.
  assert (Hnew : pc_pid new = si_pid info) by apply Hentry. rewrite Hnew. split.
  - apply add_pid_ok; [done|rewrite Hnew; by eapply same_entry_ok|]. by rewrite Hnew, Hp2.
  - split; [done|]. cbn [cx_pids add_pid with_pids notify with_events on_stats with_stats]. rewrite Hnew, lookup_insert_eq. eauto.
Qed.

(** A mapping found by a search is one of the process, and its image is alive. *)
Definition resolves (c : gu_context) (it : interval_array_item) : Prop :=
  exists elf v, gu_get_elf_ctx_from_item c it = Done (elf, v) /\
    forall a, elf = Some a -> is_Some (cx_elfs c !! a).

Lemma clear_item_resolves c : resolves c clear_interval_array_item.
Proof. by exists None, 0. Qed.

Lemma entry_search c pid p pc :
  ctx_ok c -> cx_pids c !! pid = Some p -> exists r it,
    gu_interval_array_search (pc_elf_ctx_list p) pc = Done (r, it, pc_elf_ctx_list p) /\ resolves c it.
Proof.
  intros Hi Hp. destruct (ci_entry _ _ _ Hi _ _ Hp) as (_ & (arr & Harr & Hs) & _).
  destruct (Hs pc) as (r & it & E & Hpay). exists r, it. rewrite Harr. split; [done|].
  unfold resolves, gu_get_elf_ctx_from_item. destruct (Z.eqb_spec (private it) 0) as [|Hne]; [by exists None, 0|].
  destruct Hpay as [|Hin]; [done|].
  assert (Hown : private it ∈ (map_to_list (cx_maps c)).*1).
  { rewrite <- (ci_owner _ _ _ Hi), app_nil_r. unfold all_payloads. apply list_elem_of_bind. exists p.
    split; [unfold payloads; by rewrite Harr|]. apply list_elem_of_fmap. exists (pid, p). split; [done|].
    by apply elem_of_map_to_list. }
  apply list_elem_of_fmap in Hown as ([m x] & Em & Hx%elem_of_map_to_list). cbn in Em.
  destruct (ci_map_addr _ _ _ Hi m) as [Hm0 Hm1]; [by eauto|].
  rewrite Em. destruct (tag_roundtrip m) as [_ ->]; [lia|]. cbn [fst]. destruct (Z.eqb_spec m 0); [lia|].
  rewrite Hx. run. do 2 eexists. split; [done|]. intros a [= <-]. by eapply ci_target.
Qed.

Lemma resolves_core c c' it : cx_elfs c' = cx_elfs c -> cx_maps c' = cx_maps c -> resolves c it -> resolves c' it.
Proof. unfold resolves, gu_get_elf_ctx_from_item. by intros -> ->. Qed.

(** [gu_search_pid_elf_ctx] from a live entry of the sampled process. *)
Lemma search_ok c info pc reloaded :
  ctx_ok c -> is_Some (cx_pids c !! si_pid info) ->
  exists ret it p info' reloaded' c',
    gu_search_pid_elf_ctx c (Some (si_pid info)) info pc reloaded = Done (ret, it, p, info', reloaded', c') /\
    ctx_ok c' /\ (0 <= ret -> resolves c' it) /\
    match p with
    | Some q => q = si_pid info /\ is_Some (cx_pids c' !! q)
    | None => ret < 0 /\ reloaded' = true
    end.
Proof.
  intros Hi [px Hp]. unfold gu_search_pid_elf_ctx. run. rewrite Hp. run.
  destruct (entry_search c (si_pid info) px pc Hi Hp) as (r & it & Es & Hit). rewrite Es. run.
  destruct ((0 <=? r) || reloaded) eqn:Edone.
  { do 6 eexists. split; [done|]. split_and!; eauto. }
  destruct (reload_allowed_ok c (si_pid info) px Hi Hp) as (c1 & -> & Hc1 & _). run.
  assert (Hi1 : ctx_ok c1) by (by eapply inv_core). assert (Hp1 : cx_pids c1 !! si_pid info = Some px) by (by rewrite (sc_pids _ _ Hc1)).
  set (b := pc_next_maps_reload_ns px <=? _).
  assert (Hstay : forall (info' : gu_stack_info) c2, same_core c1 c2 -> exists ret it' p info'' reloaded' c',
    Done (r, it, Some (si_pid info), info', reloaded, c2) = Done (ret, it', p, info'', reloaded', c') /\
    ctx_ok c' /\ (0 <= ret -> resolves c' it') /\
    match p with
    | Some q => q = si_pid info /\ is_Some (cx_pids c' !! q)
    | None => ret < 0 /\ reloaded' = true
    end).
  { intros info' c2 Hc2. do 6 eexists. split; [done|]. split; [by eapply inv_core|]. split; [lia|].
    split; [done|]. rewrite (sc_pids _ _ Hc2). eauto. }
  destruct b; cbn [negb]; [|by apply Hstay].
  set (c2 := if cx_debug c1 then c1 else tick c1).
  assert (Hc2 : same_core c1 c2) by (unfold c2; destruct (cx_debug c1); [done|auto with gu]).
  destruct (cx_debug c1 || _); cbn [negb]; [|by apply Hstay].
  set (c3 := on_stats (on_pid_maps_reload_count incr) c2).
  assert (Hc3 : same_core c1 c3) by (etrans; [exact Hc2|by apply core_stats]).
  destruct (reload_ok c3 info) as (new & info' & c4 & -> & Hi4 & Hnew).
  { by eapply inv_core. } { rewrite (sc_pids _ _ Hc3). eauto. }
  run. destruct new as [q|].
  2:{ do 6 eexists. split; [done|]. split; [done|]. split; [lia|]. split; [lia|done]. }
  destruct Hnew as [-> [p4 Hp4]]. rewrite Hp4. run.
  destruct (entry_search c4 (si_pid info) p4 pc Hi4 Hp4) as (r4 & it4 & Es4 & Hit4).
  destruct (pc_elf_ctx_list p4) as [arr|] eqn:Earr; [rewrite Es4; run|];
    do 6 eexists; (split; [done|]); (split; [done|]); (split; [try lia; done|]); (split; [done|by eauto]).
Qed.

(** ** Leaving, preloading and sampling *)
Lemma exit_ok c pid uid :
  ctx_ok c -> exists c', gu_set_pid_exit_unique c pid uid = Done c' /\ ctx_ok c'.
Proof.
  intros Hi. unfold gu_set_pid_exit_unique. destruct (cx_pids c !! pid) as [p|] eqn:Hp; [|by eexists].
  destruct (_ && _); [by eexists|].
  destruct (clear_pid_ok (notify c (event_destroy p)) pid p) as (c' & -> & Hi' & _); [|done|by eexists].
  apply (inv_core _ _ c); [auto with gu|done].
Qed.

Lemma event_ok c type data :
  ctx_ok c -> exists c', gu_event_occur c type data = Done c' /\ ctx_ok c'.
Proof.
  intros Hi. unfold gu_event_occur. destruct (maybe_sweep_ok c Hi) as (c1 & -> & Hi1 & _). run.
  destruct type, data; try (by eexists). by apply exit_ok.
Qed.

Lemma load_and_add c info f :
  (forall p, same_entry p (f p)) ->
  ctx_ok c -> cx_pids c !! si_pid info = None ->
  exists r c', gu_load_pid c info = Done (r, c') /\
    match r with
    | None => ctx_ok c'
    | Some p => ctx_ok (add_pid c' (f p)) /\ pid_entry_ok (si_pid info) p
    end.
Proof.
  intros Hf Hi Hnone. destruct (load_pid_ok [] c info Hi Hnone) as ([p|] & c' & -> & Hp & Hres); [|by do 2 eexists].
  destruct Hres as [Hi' Hentry]. rewrite app_nil_r in Hi'. do 2 eexists. split; [done|]. split; [|done].
  specialize (Hf p). pose proof Hentry as (Hpid & _).
  apply add_pid_ok; rewrite ?(se_pid _ _ Hf), ?Hpid.
  - by rewrite (same_entry_payloads p) by done.
  - by eapply same_entry_ok.
  - by rewrite Hp.
Qed.

Lemma unique_id_core c pid x c' : gu_get_pid_unique_id c pid = (x, c') -> same_core c c'.
Proof. unfold gu_get_pid_unique_id. repeat case_match; intros [= <- <-]; first [done|auto with gu]. Qed.

Lemma preload_ok c pid :
  ctx_ok c -> exists r c', gu_preload_pid_debug_info c pid = Done (r, c') /\ ctx_ok c'.
Proof.
  intros Hi. unfold gu_preload_pid_debug_info. destruct (gu_get_pid_unique_id c pid) as [uid c1] eqn:Eu.
  apply unique_id_core in Eu. destruct (maybe_sweep_ok c1) as (c2 & -> & Hi2 & _); [by eapply inv_core|]. run.
  destruct (cx_pids c2 !! pid) as [p|] eqn:Hp; [by do 2 eexists|].
  assert (Hi3 : ctx_ok (tick c2)) by (by eapply inv_core; [apply core_tick|]).
  destruct (kill_ok _ _); cbn [negb]; [|by do 2 eexists].
  destruct (load_and_add (tick c2) (mk_gu_stack_info pid 0 uid None 0 0 [] 0 None) (fun p => with_preload p true))
    as ([p|] & c3 & -> & Hres); try done; run.
  - destruct Hres as [Hadd _]. by do 2 eexists.
  - by do 2 eexists.
Qed.

Lemma set_private_ok c pid b : ctx_ok c -> ctx_ok (gu_set_pid_private_info c pid b).
Proof.
  intros Hi. unfold gu_set_pid_private_info. destruct (cx_pids c !! pid) as [p|] eqn:Hp; [|done].
  eapply inv_core; [apply core_tick|]. by eapply update_pid_ok.
Qed.

Lemma get_private_core c pid : same_core c (gu_get_pid_private_info c pid).2.
Proof. unfold gu_get_pid_private_info. repeat case_match; cbn [snd]; first [done|auto with gu]. Qed.

(** The entry an unwind starts from is the one of the sampled process. *)
Lemma front_ok c info :
  ctx_ok c -> exists info' c' found, gu_unwind_front c info = Done (info', c', found) /\ ctx_ok c' /\
    si_pid info' = si_pid info /\ forall q, found = Some q -> q = si_pid info /\ is_Some (cx_pids c' !! q).
Proof.
  intros Hi. unfold gu_unwind_front. destruct (regs info); [|by do 3 eexists].
  destruct (maybe_sweep_ok c Hi) as (c1 & -> & Hi1 & _). run.
  match goal with |- context [mbind _ ?m] => match m with match cx_pids c1 !! _ with _ => _ end =>
    assert (Hclear : exists c2, m = Done c2 /\ ctx_ok c2) end end.
  { destruct (cx_pids c1 !! si_pid info) as [p|] eqn:Hp; [|by eexists]. destruct (_ && _); [|by eexists].
    destruct (ci_entry _ _ _ Hi1 _ _ Hp) as [-> _].
    edestruct (clear_pid_ok (notify (on_stats (on_unique_id_caused_reload_count incr) c1) (event_destroy p)) (si_pid info) p)
      as (c' & -> & Hi' & _); [|done|by eexists].
    apply (inv_core _ _ c1); [by split|done]. }
  destruct Hclear as (c2 & -> & Hi2). run.
  assert (Hfinal : forall info' (p : per_pid_ctx) c', ctx_ok c' -> si_pid info' = si_pid info ->
    cx_pids c' !! si_pid info = Some p -> exists i c'' found,
    match pc_elf_ctx_list p with
    | Some _ => Done (info', c', Some (pc_pid p))
    | None => Done (gu_flags_set_reason info' GU_UNWIND_REASON_NO_ELF, c', None)
    end = Done (i, c'', found) /\ ctx_ok c'' /\
    si_pid i = si_pid info /\ forall q, found = Some q -> q = si_pid info /\ is_Some (cx_pids c'' !! q)).
  { intros info' p c' Hi' Hs Hp. destruct (ci_entry _ _ _ Hi' _ _ Hp) as [Hid _].
    destruct (pc_elf_ctx_list p); do 3 eexists; (split; [done|]); (split; [done|]); (split; [done|]); [|done].
    intros q [= <-]. rewrite Hid. eauto. }
  destruct (cx_pids c2 !! si_pid info) as [p|] eqn:Hp; run; [by apply Hfinal|].
  assert (Hi3 : ctx_ok (tick c2)) by (by eapply inv_core; [apply core_tick|]).
  destruct (negb (kill_ok _ _) && _); run; [by do 3 eexists|].
  destruct (load_and_add (tick c2) info (fun p => p)) as ([p|] & c3 & -> & Hres); try done; run; [|by do 3 eexists].
  destruct Hres as [Hadd Hentry]. apply Hfinal; [done|by destruct (pc_golang p)|].
  destruct Hentry as [Hid _]. cbn. rewrite Hid. apply lookup_insert_eq.
Qed.

(** ** Cleaning up *)
Lemma clear_pids_ok pids c :
  ctx_ok c -> NoDup pids -> (forall q, q ∈ pids -> is_Some (cx_pids c !! q)) ->
  exists c', clear_pids pids c = Done c' /\ ctx_ok c' /\ forall q, is_Some (cx_pids c' !! q) -> is_Some (cx_pids c !! q) /\ q ∉ pids.
Proof.
  revert c. induction pids as [|q pids IH]; intros c Hi Hnd Hin; cbn [clear_pids].
  { exists c. split; [done|]. split; [done|]. intros q Hq. split; [done|]. set_solver. }
  apply NoDup_cons in Hnd as [Hfresh Hnd]. destruct (Hin q) as [p Hp]; [set_solver|].
  destruct (clear_pid_ok c q p Hi Hp) as (c1 & -> & Hi1 & Hp1). run.
  destruct (IH c1 Hi1 Hnd) as (c' & -> & Hi' & Hall).
  { intros r Hr. rewrite Hp1. destruct (Hin r) as [x Hx]; [set_solver|]. exists x.
    apply lookup_delete_Some. split; [|done]. by intros ->. }
  exists c'. split; [done|]. split; [done|]. intros r [[x Hx] Hni]%Hall. rewrite Hp1 in Hx.
  apply lookup_delete_Some in Hx as [Hne Hx]. split; [by eauto|]. rewrite elem_of_cons. naive_solver.
Qed.

Lemma cleanup_ok c :
  ctx_ok c -> exists c', gu_cleanup c = Done c' /\ ctx_ok c' /\
    cx_elfs c' = ∅ /\ cx_maps c' = ∅ /\ cx_pids c' = ∅.
Proof.
  intros Hi. unfold gu_cleanup. set (c0 := mk_ctx _ _ _ _ _ _ _ _ _ _).
  assert (Hi0 : ctx_ok c0) by (apply (inv_core _ _ c); [by split|done]).
  destruct (clear_pids_ok (map_to_list (cx_pids c0)).*1 c0 Hi0) as (c1 & -> & Hi1 & Hall).
  { apply NoDup_fst_map_to_list. }
  { intros q ([b e] & -> & Hin%elem_of_map_to_list)%list_elem_of_fmap. by eauto. }
  run. assert (Hpids : cx_pids c1 = ∅).
  { apply map_empty. intros q. apply eq_None_not_Some. intros [[x Hx] Hni]%Hall. apply Hni, list_elem_of_fmap.
    exists (q, x). split; [done|]. by apply elem_of_map_to_list. }
  pose proof (ci_owner _ _ _ Hi1) as Hown. rewrite Hpids in Hown. cbn in Hown.
  apply Permutation_nil in Hown. apply fmap_nil_inv in Hown. apply map_to_list_empty_iff in Hown.
  destruct (sweep_ok c1 UINT64_MAX Hi1) as (c2 & Hs & Hi2 & He2 & Hm2 & Hp2); [done|]. exists c2.
  split; [done|]. split; [done|]. split; [|split; congruence]. rewrite He2. apply map_empty_filter. intros a e He. cbn.
  unfold expired. rewrite Z.eqb_refl. cbn.
  assert (ec_retired e = true) as ->; [|done]. apply (ci_retired _ _ _ Hi1 _ _ He).
  rewrite (ci_refcnt _ _ _ Hi1 _ _ He), Hown. done.
Qed.
End operations.

(** ** Where an image is loaded *)

(** The mapping [m] shows a part of the executable segment [ph] of an image
    loaded with displacement [bias]: the byte at file offset [o] of the segment
    is at address [bias + p_vaddr + (o - p_offset)]. *)
Record maps_segment (bias : Z) (ph : GElf_Phdr) (r : gu_elf_exec_range) (m : maps_info) : Prop := {
  ms_range : phdr_range ph = Some r;
  ms_congruent : 0 < p_align ph /\ p_vaddr ph mod p_align ph = p_offset ph mod p_align ph;
  ms_window : covers_offset r (mi_offset m) (mi_end m - mi_start m);
  ms_nonempty : mi_start m < mi_end m;
  ms_address : mi_start m = bias + (p_vaddr ph - p_offset ph) + mi_offset m;
}.

Lemma resolve_segment bias ph r m ranges :
  phdr_ok ph -> maps_segment bias ph r m -> r ∈ ranges ->
  (forall r', r' ∈ ranges -> covers_offset r' (mi_offset m) (mi_end m - mi_start m) -> r' = r) ->
  gu_resolve_map_exec_virt_addr ranges m = range_start r + (mi_offset m - range_offset r) /\
  mi_start m - bias = range_start r + (mi_offset m - range_offset r).
Proof.
  intros Hph [Hr [Ha Hc] Hw Hn Hm] Hin Huniq. pose proof (phdr_range_ok _ _ Hph Hr) as (H1 & H2 & H3).
  unfold covers_offset in Hw. unfold gu_resolve_map_exec_virt_addr.
  destruct (Z.leb_spec (mi_end m) (mi_start m)); [lia|].
  rewrite find_by_offset_spec by lia.
  rewrite (head_filter_unique _ ranges r) by (done || exact Hw || exact Huniq). cbn [fmap option_fmap option_map default].
  assert (Hd : range_start r - range_offset r = p_vaddr ph - p_offset ph).
  { unfold phdr_range in Hr. destruct (exec_load ph); [|done]. cbn [negb] in Hr.
    destruct (_ <=? _) in Hr; [done|]. injection Hr as <-. cbn. by apply align_down_congruent. }
  split; [|lia]. apply add64_small. lia.
Qed.

Lemma load_ranges_all phs loaded :
  load_loop (Some <$> phs) loaded = Some (loaded ++ omap phdr_range phs).
Proof.
  revert loaded. induction phs as [|ph phs IH]; intros loaded; [by rewrite app_nil_r|].
  rewrite fmap_cons. cbn [load_loop]. unfold omap in *. cbn [list_omap].
  destruct (phdr_range ph); rewrite IH; [|done]. by rewrite <- app_assoc.
Qed.

(** C13: the displacement the unwinder computes for a mapping is the load bias of
    the image.  For a mapping of an executable segment (address and offset
    congruent modulo its alignment, as ELF requires, and no other segment
    covering the same file window), every pc is translated to the address
    the image was linked at; a segment linked at address 0 falls back on the
    first executable segment, which starts no later (program headers are in
    address order). *)
Theorem mapping_bias_exact im phs id a ranges v bias ph r m pc :
  im_phdrs im = Some (Some <$> phs) -> ph ∈ phs -> image_ranges true im = (ranges, v) ->
  phdr_ok ph -> maps_segment bias ph r m ->
  (forall r', r' ∈ ranges -> covers_offset r' (mi_offset m) (mi_end m - mi_start m) -> r' = r) ->
  0 <= gu_elf_exec_ranges_first_start ranges <= range_start r ->
  pc -w (mi_start m -w mc_exec_virt_addr
    (map_ctx_of a (elf_of_image id im ranges v) (gu_resolve_map_exec_virt_addr ranges m))) = pc -w bias.
Proof.
  intros Hphs Hin Him Hph Hseg Huniq Hfirst. unfold image_ranges, gu_elf_exec_ranges_load_from_elf in Him.
  rewrite Hphs, load_ranges_all in Him. cbn [negb Z.eqb app] in Him. injection Him as <- <-.
  assert (Hr : r ∈ omap phdr_range phs) by (apply list_elem_of_omap; exists ph; split; [done|by apply Hseg]).
  destruct (resolve_segment _ _ _ _ _ Hph Hseg Hr Huniq) as [-> Hb].
  pose proof (phdr_range_ok _ _ Hph (ms_range _ _ _ _ Hseg)) as (H1 & _). pose proof (ms_window _ _ _ _ Hseg) as Hw.
  unfold covers_offset in Hw. unfold map_ctx_of. cbn [mc_exec_virt_addr ec_exec_virt_addr elf_of_image].
  set (x := range_start r + (mi_offset m - range_offset r)) in *.
  assert ((if negb (x =? 0) then x else gu_elf_exec_ranges_first_start (omap phdr_range phs)) = x) as ->.
  { destruct (Z.eqb_spec x 0); cbn [negb]; lia. }
  rewrite <- Hb. unfold sub64. rewrite wrap_sub_r. f_equal. lia.
Qed.

(** Two segments of a position-independent executable, the second mapped whole
    at a page-aligned bias. *)
Definition pie_phdrs : list GElf_Phdr :=
  [mk_phdr PT_LOAD 4 0 0 0x800 0x1000; mk_phdr PT_LOAD 5 0x1040 0x2040 0x900 0x1000].
Definition pie_image : elf_image := mk_image false None ∅ None 0 (Some (Some <$> pie_phdrs)).

Lemma mapping_bias_exact_witness :
  0x555555556100 -w (0x555555556000 -w mc_exec_virt_addr
    (map_ctx_of 7 (elf_of_image [1] pie_image [mk_range 0x2000 0x3000 0x1000] 0x2000)
       (gu_resolve_map_exec_virt_addr [mk_range 0x2000 0x3000 0x1000]
          (mk_maps "/bin/app" 0x555555556000 0x555555557000 0x1000 0x7f false)))) = 0x2100.
Proof.
  change 0x2100 with (0x555555556100 -w 0x555555554000) at 1.
  apply (mapping_bias_exact pie_image pie_phdrs [1] 7 [mk_range 0x2000 0x3000 0x1000] 0x2000 0x555555554000
    (mk_phdr PT_LOAD 5 0x1040 0x2040 0x900 0x1000) (mk_range 0x2000 0x3000 0x1000)
    (mk_maps "/bin/app" 0x555555556000 0x555555557000 0x1000 0x7f false)); try done.
  - apply list_elem_of_further, list_elem_of_here.
  - intros r' ->%list_elem_of_singleton. done.
Defined.
