(* ===== verification/Unwind.v ===== *)
(** * The unwinder: [src/gu_stacktrace.c], lines 2226-2854

    [gu_unwind] walks a snapshot frame by frame: it finds the image of the pc,
    reports the frame to the callback, decodes the CFI row of the pc and
    computes the caller's registers from it, until the stack ends, something is
    missing, or no progress is made; what is left is followed through saved
    frame pointers.  Hinted samples are unwound from the pc list the kernel
    collected ([gu_unwind_by_fp]).

    The callback is the list of the records it is called with. *)

From stdpp Require Import strings.
From S2P Require Import Prelude Types IntervalArray Arch CfiProgram CfiOps DwarfEval Cfi CfiParse.
From S2P Require Import ElfRanges Context.

(** ** Small helpers *)

Definition bottom_symbols : list string :=
  ["_start"; "__libc_start_main"; "__libc_start_call_main"; "start_thread"; "clone"; "__clone"]%string.

(** [is_stack_bottom_symbol]; [None] is [NULL]. *)
Definition is_stack_bottom_symbol (sym : option string) : bool :=
  match sym with
  | None => false
  | Some name => existsb (fun b => bool_decide (name = b)) bottom_symbols
  end.

Definition gu_frame_lookup_pc_for_return_address (pc : Z) (initial_frame signal_frame : bool) : Z :=
  if initial_frame || signal_frame || (pc =? 0) then pc else pc -w 1.
Definition gu_cfi_lookup_pc_for_frame (pc : Z) (initial_frame signal_frame : bool) : Z :=
  gu_frame_lookup_pc_for_return_address pc initial_frame signal_frame.

(** [gu_lookup_elf_symbol] on a non-[NULL] context: [*sym] ([0] is [NULL]) and
    [*func_offset]. *)
Definition gu_lookup_elf_symbol (e : per_elf_ctx) (lookup_relative_pc : Z) : outcome (Z * Z) :=
  match ec_symbols e with
  | None => mret (0, 0)
  | Some a =>
    '(ret, it, _) ← gu_interval_array_search (Some a) lookup_relative_pc;
    if ret <? 0 then mret (0, 0) else
    let symbol := (get_interval_array_pointer (private it)).1 in
    if symbol =? 0 then mret (0, 0) else
    mret (symbol, lookup_relative_pc -w start it)
  end.

(** The characters of a name the image owns. *)
Definition name_at (e : per_elf_ctx) (sym : Z) : outcome (option string) :=
  if sym =? 0 then mret None else s ← deref (ec_names e !! sym); mret (Some s).

Definition gu_frame_pointer_sane (bp next_bp : Z) : bool :=
  if (bp =? 0) || (next_bp =? 0) then false else
  if negb (Z.land bp 7 =? 0) || negb (Z.land next_bp 7 =? 0) then false else
  negb (next_bp <=? bp).

(** What a run of the unwinder changes: the context and the current process
    entry ([None] is [NULL]), the snapshot, the frames reported, the operation
    scratch, the heap of remembered CFI states and the out-of-range record. *)
Record uw_state : Type := mk_uw {
  uw_ctx : gu_context;
  uw_pid : option Z;
  uw_info : gu_stack_info;
  uw_frames : list gu_frame_record;
  uw_scratch : ops_scratch;
  uw_heap : cfi_heap;
  uw_oor : oor;
}.

Definition emit (u : uw_state) (f : gu_frame_record) : uw_state :=
  mk_uw (uw_ctx u) (uw_pid u) (uw_info u) (uw_frames u ++ [f]) (uw_scratch u) (uw_heap u) (uw_oor u).
Definition with_info (u : uw_state) (i : gu_stack_info) : uw_state :=
  mk_uw (uw_ctx u) (uw_pid u) i (uw_frames u) (uw_scratch u) (uw_heap u) (uw_oor u).
Definition with_oor_record (u : uw_state) (o : oor) : uw_state :=
  mk_uw (uw_ctx u) (uw_pid u) (uw_info u) (uw_frames u) (uw_scratch u) (uw_heap u) o.
Definition with_process (u : uw_state) (p : option Z) (i : gu_stack_info) (c : gu_context) : uw_state :=
  mk_uw c p i (uw_frames u) (uw_scratch u) (uw_heap u) (uw_oor u).

Section unwind.
Context {HA : Arch} {HE : Env} {HQ : Qsort}.
Variable page_size : Z.
(** [verbose] is [gu_verbose_enabled]: the arguments of a [GU_VERBOSE] are only
    evaluated when it is set. *)
Variable verbose : bool.
(** The allocations of the CFI interpreter, and the nesting of CFA evaluations
    the model follows. *)
Variable heap_ok : cfi_heap -> bool.
Variable depth : nat.

(** ** Image of a pc *)

(** The mapping a walk is in: the interval, its image and the virtual address
    it starts at. *)
Record mapping : Type := mk_mapping {
  mp_item : interval_array_item;
  mp_elf : option Z;
  mp_exec_virt_addr : Z;
  mp_reloaded : bool;
}.
Definition no_mapping : mapping := mk_mapping clear_interval_array_item None 0 false.

(** [elf_item.private != NULL && pc >= elf_item.start && pc < elf_item.end] *)
Definition in_mapping (m : mapping) (pc : Z) : bool :=
  negb (private (mp_item m) =? 0) && (start (mp_item m) <=? pc) && (pc <? end_ (mp_item m)).

(** [gu_search_pid_elf_ctx] on the state of the walk. *)
Definition search_mapping (u : uw_state) (m : mapping) (pc : Z)
  : outcome (Z * mapping * uw_state) :=
  '(ret, it, p, info, reloaded, c) ←
    gu_search_pid_elf_ctx (uw_ctx u) (uw_pid u) (uw_info u) pc (mp_reloaded m);
  mret (ret, mk_mapping it (mp_elf m) (mp_exec_virt_addr m) reloaded, with_process u p info c).

(** [elf_ctx = gu_get_elf_ctx_from_item(&elf_item, &map_exec_virt_addr)] *)
Definition open_mapping (u : uw_state) (m : mapping) : outcome mapping :=
  '(elf, v) ← gu_get_elf_ctx_from_item (uw_ctx u) (mp_item m);
  mret (mk_mapping (mp_item m) elf v (mp_reloaded m)).

Definition mapping_bias (m : mapping) : Z := start (mp_item m) -w mp_exec_virt_addr m.

(** ** Following saved frame pointers *)

(** [gu_stack_snapshot_read_u64]: [None] is [false]. *)
Definition gu_stack_snapshot_read_u64 (info : gu_stack_info) (raw_sp addr : Z) : outcome (option Z) :=
  match stack_data info with
  | None => mret None
  | Some bytes =>
    let stack_start := raw_sp -w (raw_sp mod page_size) in
    let stack_end := stack_start +w stack_size info in
    if (addr <? stack_start) || (stack_end <=? addr) || (addr +w 8 <? addr) ||
       (stack_end -w addr <? 8) then mret None else
    '(v, _) ← of_opt (read_le 8 (drop (Z.to_nat (addr -w stack_start)) bytes));
    mret (Some v)
  end.

(** [gu_append_pc_frame]: the result, whether [*end_of_stack] was set, the
    mapping and the state. *)
Definition gu_append_pc_frame (u : uw_state) (m : mapping) (pc : Z) (initial_frame signal_frame : bool)
  : outcome (bool * bool * mapping * uw_state) :=
  if pc =? 0 then mret (false, false, m, u) else
  '(ret, m, u) ← (if in_mapping m pc then mret (0, m, u) else search_mapping u m pc);
  if ret <? 0 then mret (false, false, m, u) else
  m ← open_mapping u m;
  match mp_elf m with
  | None => mret (true, false, m, emit u (mk_gu_frame_record pc pc 0 0 0 GU_FRAME_ANON_EXEC))
  | Some a =>
    e ← deref (cx_elfs (uw_ctx u) !! a);
    let relative_pc := pc -w mapping_bias m in
    let lookup_relative_pc :=
      gu_frame_lookup_pc_for_return_address relative_pc initial_frame signal_frame in
    '(sym, func_offset) ← gu_lookup_elf_symbol e lookup_relative_pc;
    name ← name_at e sym;
    mret (true, is_stack_bottom_symbol name, m,
          emit u (mk_gu_frame_record relative_pc pc func_offset sym a 0))
  end.

(** The loop of [gu_unwind_dwarf_tail_by_fp]: the number of frames appended and
    whether it reached the bottom. *)
Fixpoint tail_loop (max_frames : nat) (raw_sp : Z) (u : uw_state) (m : mapping) (bp appended : Z)
  : outcome (Z * uw_state) :=
  match max_frames with
  | O => mret (appended, u)
  | S max_frames =>
    next_bp ← gu_stack_snapshot_read_u64 (uw_info u) raw_sp bp;
    match next_bp with
    | None => mret (appended, u)
    | Some next_bp =>
      next_pc ← gu_stack_snapshot_read_u64 (uw_info u) raw_sp (bp +w 8);
      match next_pc with
      | None => mret (appended, u)
      | Some next_pc =>
        if negb (gu_frame_pointer_sane bp next_bp) then mret (appended, u) else
        if next_pc =? 0 then mret (appended, u) else
        '(ok, end_of_stack, m, u) ← gu_append_pc_frame u m next_pc false false;
        if negb ok then mret (appended, u) else
        if (end_of_stack : bool) then mret (appended + 1, u) else
        tail_loop max_frames raw_sp u m next_bp (appended + 1)
      end
    end
  end.

(** [gu_unwind_dwarf_tail_by_fp]: the frames appended, [*reason] and the state. *)
Definition gu_unwind_dwarf_tail_by_fp (u : uw_state) (raw_sp bp pc : Z) (append_current_pc : bool)
    (reason : gu_unwind_reason) : outcome (Z * gu_unwind_reason * uw_state) :=
  match uw_pid u with
  | None => mret (0, reason, u)
  | Some _ =>
    '(ok, end_of_stack, m, u) ←
      (if append_current_pc then gu_append_pc_frame u no_mapping pc true false
       else mret (false, false, no_mapping, u));
    if ok && end_of_stack then mret (1, GU_UNWIND_REASON_END_OF_STACK, u) else
    '(appended, u) ←
      tail_loop (Z.to_nat MAX_FP_STACK_LEVEL) raw_sp u m bp (if (ok : bool) then 1 else 0);
    mret (appended, if 0 <? appended then GU_UNWIND_REASON_END_OF_STACK else reason, u)
  end.

(** ** Frame-pointer samples *)

(** The record both unwinders report for a pc in an image: [sym] and
    [func_offset] as looked up, reduced to the function entry when Go frames
    are reported by build-id only. *)
Definition image_frame (c : gu_context) (e : per_elf_ctx) (a pc relative_pc func_offset sym : Z)
  : gu_frame_record :=
  if negb (cx_go_only_buildid c) || negb (ec_golang e)
  then mk_gu_frame_record relative_pc pc func_offset sym a 0
  else mk_gu_frame_record (relative_pc -w func_offset) pc 0 0 a 0.

(** The symbol lookup written out in [gu_unwind_by_fp]. *)
Definition fp_lookup_symbol (e : per_elf_ctx) (relative_pc : Z) : outcome (Z * Z) :=
  match ec_symbols e with
  | None => mret (0, 0)
  | Some a =>
    '(ret, it, _) ← gu_interval_array_search (Some a) relative_pc;
    if 0 <=? ret then mret ((get_interval_array_pointer (private it)).1, relative_pc -w start it)
    else mret (0, 0)
  end.

(** One iteration: [inl] leaves the loop with a reason, [inr] continues with
    the mapping. *)
Definition fp_step (u : uw_state) (m : mapping) (pc : Z) (allow_unknown : bool)
    (fp_level max_fp_level : Z) : outcome ((gu_unwind_reason + mapping) * uw_state) :=
  if pc =? 0 then mret (inl GU_UNWIND_REASON_END_OF_STACK, u) else
  '(stop, m, u) ←
    (if in_mapping m pc then mret (false, m, u) else
     '(ret, m, u) ← search_mapping u m pc;
     if 0 <=? ret then m ← open_mapping u m; mret (false, m, u)
     else mret (negb allow_unknown,
                mk_mapping (mp_item m) None (mp_exec_virt_addr m) (mp_reloaded m), u));
  if (stop : bool) then mret (inl GU_UNWIND_REASON_NO_EXEC_PC, u) else
  '(frame, bottom) ←
    (match mp_elf m with
     | Some a =>
       e ← deref (cx_elfs (uw_ctx u) !! a);
       let relative_pc := pc -w mapping_bias m in
       '(sym, func_offset) ← fp_lookup_symbol e relative_pc;
       name ← name_at e sym;
       mret (Some (image_frame (uw_ctx u) e a pc relative_pc func_offset sym),
             is_stack_bottom_symbol name)
     | None =>
       if negb allow_unknown then mret (None, false) else
       mret (Some (mk_gu_frame_record pc pc 0 0 0 GU_FRAME_ANON_EXEC), false)
     end);
  match frame with
  | None => mret (inl GU_UNWIND_REASON_NO_EXEC_PC, u)
  | Some f =>
    let u := emit u f in
    if bottom : bool then mret (inl GU_UNWIND_REASON_END_OF_STACK, u) else
    if max_fp_level <=? fp_level then mret (inl GU_UNWIND_REASON_END_OF_STACK, u) else
    mret (inr m, u)
  end.

(** The loop: the reason, the final [max_backtrace_level] and the state.  [budget]
    is [max_backtrace_level] at the loop condition. *)
Fixpoint fp_loop (budget : nat) (u : uw_state) (m : mapping) (pc : Z) (allow_unknown : bool)
    (fp_level max_fp_level : Z) : outcome (gu_unwind_reason * Z * uw_state) :=
  match budget with
  | O => mret (GU_UNWIND_REASON_UNKNOWN, -1, u)
  | S budget =>
    '(flow, u) ← fp_step u m pc allow_unknown fp_level max_fp_level;
    match flow with
    | inl reason => mret (reason, Z.of_nat budget, u)
    | inr m =>
      pc ← of_opt (ustack_fp (uw_info u) !! Z.to_nat fp_level);
      fp_loop budget u m pc allow_unknown (fp_level + 1) max_fp_level
    end
  end.

Definition set_reason (u : uw_state) (r : gu_unwind_reason) : uw_state :=
  with_info u (gu_flags_set_reason (uw_info u) r).

(** [gu_unwind_by_fp] *)
Definition gu_unwind_by_fp (u : uw_state) : outcome (Z * uw_state) :=
  let info := uw_info u in
  let max_fp_level := if MAX_FP_STACK_LEVEL <? ustack_fp_level info then MAX_FP_STACK_LEVEL
                      else ustack_fp_level info in
  let allow_unknown := gu_flags_is_set info GU_FLAG_FP_ALLOW_UNKNOWN in
  if max_fp_level <=? 0 then mret (0, set_reason u GU_UNWIND_REASON_END_OF_STACK) else
  pc ← of_opt (ustack_fp info !! 0%nat);
  '(reason, level, u) ←
    fp_loop (Z.to_nat MAX_FP_STACK_LEVEL) u no_mapping pc allow_unknown 1 max_fp_level;
  let reason := if decide (reason = GU_UNWIND_REASON_UNKNOWN) then GU_UNWIND_REASON_TRUNCATED
                else reason in
  mret (MAX_FP_STACK_LEVEL - level, set_reason u reason).

(** ** The DWARF walk *)

(** The locals of the loop of [gu_unwind]. *)
Record walk : Type := mk_walk {
  wk_pc : Z;
  wk_sp : Z;
  wk_prev_sp : Z;
  wk_prev_pc : Z;
  wk_mapping : mapping;
  wk_loop_count : Z;
  wk_signal_frame : bool;
}.

(** How an iteration ends: it leaves the loop with a reason, the pc and whether
    the tail reports that pc again, or goes on; [reason] is then the result of
    the last [gen_reg]. *)
Inductive walk_flow : Type :=
  | WStop (reason : gu_unwind_reason) (pc : Z) (append_current_pc : bool)
  | WNext (reason : gu_unwind_reason) (w : walk).

(** The lookup at the top of an iteration; the [WStop] it may end in. *)
Definition walk_mapping (u : uw_state) (m : mapping) (pc : Z)
  : outcome (option walk_flow * mapping * uw_state) :=
  if in_mapping m pc then mret (None, m, u) else
  '(ret, m, u) ← search_mapping u m pc;
  if ret <? 0 then mret (Some (WStop GU_UNWIND_REASON_NO_EXEC_PC pc false), m, u) else
  m ← open_mapping u m;
  match mp_elf m with
  | None => mret (Some (WStop GU_UNWIND_REASON_NO_EXEC_PC pc true), m, u)
  | Some _ => mret (None, m, u)
  end.

(** [gu_cfi_parse_cfi_ex] on the image at [a]. *)
Definition walk_parse (u : uw_state) (a : Z) (e : per_elf_ctx) (cfi : gu_cfi) (pc : Z)
  : outcome (Z * bool * uw_state) :=
  '(ret, signal, st) ←
    gu_cfi_parse_cfi_ex heap_ok cfi (mk_parse (ec_cache e) (uw_scratch u) (uw_heap u)) pc;
  let c := with_elfs (uw_ctx u) (<[a := with_cache e (ps_cache st)]> (cx_elfs (uw_ctx u))) in
  mret (ret, signal, mk_uw c (uw_pid u) (uw_info u) (uw_frames u) (ps_scratch st) (ps_heap st)
                       (uw_oor u)).

(** [gen_reg] on the state. *)
Definition walk_reg (u : uw_state) (bias raw_sp regno : Z)
  : outcome (gu_unwind_reason * option Z * uw_state) :=
  '(reason, v, o) ← gen_reg page_size (uw_info u) bias raw_sp depth (uw_scratch u) regno (uw_oor u);
  mret (reason, v, with_oor_record u o).

Definition walk_write (u : uw_state) (regno v : Z) : outcome uw_state :=
  '(_, info) ← write_regs (uw_info u) regno v; mret (with_info u info).

(** The caller's return address, stack pointer and frame pointer: [inl] is the
    reason of a [break], [inr] the two values and the reason left by the frame
    pointer, which is written back when it is known. *)
Definition walk_registers (u : uw_state) (bias raw_sp : Z) (initial_frame : bool)
  : outcome ((gu_unwind_reason + gu_unwind_reason * Z * Z) * uw_state) :=
  '(reason, ra, u) ← walk_reg u bias raw_sp pc_regno;
  ra ← (if decide (reason = GU_UNWIND_REASON_OK) then mret ra else
        if initial_frame then get_regs (uw_info u) pc_regno else mret None);
  match ra with
  | None => mret (inl reason, u)
  | Some ra =>
    '(reason, sp, u) ← walk_reg u bias raw_sp reg_name_rsp;
    match sp with
    | None => mret (inl reason, u)
    | Some sp =>
      '(reason, bp, u) ← walk_reg u bias raw_sp reg_name_rbp;
      match bp with
      | None => mret (inr (reason, ra, sp), u)
      | Some bp => u ← walk_write u reg_name_rbp bp; mret (inr (reason, ra, sp), u)
      end
    end
  end.

(** One iteration of the loop. *)
Definition walk_step (raw_sp : Z) (u : uw_state) (w : walk) : outcome (walk_flow * uw_state) :=
  let initial_frame := wk_loop_count w =? 0 in
  let loop_count := if verbose then wk_loop_count w + 1 else wk_loop_count w in
  let pc := wk_pc w in
  '(stop, m, u) ← walk_mapping u (wk_mapping w) pc;
  match stop with
  | Some flow => mret (flow, u)
  | None =>
    a ← deref (mp_elf m);
    e ← deref (cx_elfs (uw_ctx u) !! a);
    let bias := mapping_bias m in
    let relative_pc := pc -w bias in
    let lookup_relative_pc :=
      gu_frame_lookup_pc_for_return_address relative_pc initial_frame (wk_signal_frame w) in
    '(sym, func_offset) ← gu_lookup_elf_symbol e lookup_relative_pc;
    let u := emit u (image_frame (uw_ctx u) e a pc relative_pc func_offset sym) in
    name ← name_at e sym;
    if is_stack_bottom_symbol name then mret (WStop GU_UNWIND_REASON_END_OF_STACK pc false, u) else
    match ec_cfi e with
    | None => mret (WStop GU_UNWIND_REASON_NO_CFI pc false, u)
    | Some cfi =>
      let cfi_relative_pc := gu_cfi_lookup_pc_for_frame relative_pc initial_frame (wk_signal_frame w) in
      '(ret, unwound_signal_frame, u) ← walk_parse u a e cfi cfi_relative_pc;
      if negb (ret =? 0) then
        mret (WStop GU_UNWIND_REASON_CFI_FRAME_DECODE_FAILED pc false, u) else
      '(r, u) ← walk_registers u bias raw_sp initial_frame;
      match r with
      | inl reason => mret (WStop reason pc false, u)
      | inr (reason, ra, sp) =>
        if ra =? 0 then mret (WStop GU_UNWIND_REASON_END_OF_STACK ra false, u) else
        if (sp <=? wk_prev_sp w) || (ra =? wk_prev_pc w)
        then mret (WStop GU_UNWIND_REASON_NO_PROGRESS ra false, u) else
        u ← walk_write u reg_name_rsp sp;
        u ← walk_write u pc_regno ra;
        mret (WNext reason (mk_walk ra sp sp ra m loop_count unwound_signal_frame), u)
      end
    end
  end.

(** The loop: the reason, the last pc, whether the tail reports it, the final
    [max_backtrace_level] and the state. *)
Fixpoint walk_loop (budget : nat) (raw_sp : Z) (reason : gu_unwind_reason) (u : uw_state) (w : walk)
  : outcome (gu_unwind_reason * Z * bool * Z * uw_state) :=
  match budget with
  | O => mret (reason, wk_pc w, false, -1, u)
  | S budget =>
    '(flow, u) ← walk_step raw_sp u w;
    match flow with
    | WStop reason pc append => mret (reason, pc, append, Z.of_nat budget, u)
    | WNext reason w => walk_loop budget raw_sp reason u w
    end
  end.

Definition MAX_BACKTRACE_LEVEL : Z := 512.

(** [gu_unwind] from the choice of the unwinder on, for the DWARF path. *)
Definition gu_unwind_dwarf (u : uw_state) : outcome (Z * uw_state) :=
  pc ← get_regs (uw_info u) reg_name_rip;
  pc ← deref pc;
  sp ← get_regs (uw_info u) reg_name_rsp;
  sp ← deref sp;
  '(reason, pc, append, level, u) ←
    walk_loop (Z.to_nat MAX_BACKTRACE_LEVEL) sp GU_UNWIND_REASON_UNKNOWN u
      (mk_walk pc sp sp 0 no_mapping 0 false);
  let reason := if decide (reason = GU_UNWIND_REASON_UNKNOWN) then GU_UNWIND_REASON_TRUNCATED
                else reason in
  '(reason, u) ←
    (if decide (reason <> GU_UNWIND_REASON_END_OF_STACK /\ reason <> GU_UNWIND_REASON_PROCESS_EXIT) then
       bp ← get_regs (uw_info u) reg_name_rbp;
       match bp with
       | None => mret (reason, u)
       | Some bp =>
         '(_, reason, u) ← gu_unwind_dwarf_tail_by_fp u sp bp pc append reason;
         mret (reason, u)
       end
     else mret (reason, u));
  mret (MAX_BACKTRACE_LEVEL - level, set_reason u reason).

(** [gu_unwind] on a non-[NULL] snapshot: the return value and the state, whose
    context and snapshot are those of the caller. *)
Definition gu_unwind (u : uw_state) : outcome (Z * uw_state) :=
  let fp := gu_flags_is_set (uw_info u) GU_FLAG_HINT_SET_FP in
  '(info, c, found) ← gu_unwind_front (uw_ctx u) (uw_info u);
  let u := with_process u found info c in
  match found with
  | None => mret (-1, u)
  | Some _ => if fp then gu_unwind_by_fp u else gu_unwind_dwarf u
  end.
End unwind.

(** ** What a walk leaves alone

    Two snapshots with the same captured stack and pc list; registers and flags
    may differ. *)
Record same_memory (i j : gu_stack_info) : Prop := {
  sm_pid : si_pid j = si_pid i;
  sm_size : stack_size j = stack_size i;
  sm_unique : si_unique_id j = si_unique_id i;
  sm_fp : ustack_fp j = ustack_fp i;
  sm_level : ustack_fp_level j = ustack_fp_level i;
  sm_stack : stack_data j = stack_data i;
}.

#[export] Instance same_memory_equiv : Equivalence same_memory.
Proof.
  split; [by split| |].
  - intros i j []. by split.
  - intros i j k [] []. split; congruence.
Qed.

Lemma same_memory_captured page_size i j raw_sp addr :
  same_memory i j -> captured page_size j raw_sp addr = captured page_size i raw_sp addr.
Proof. intros []. unfold captured. by rewrite sm_size0, sm_stack0. Qed.

Lemma same_memory_flags i f : same_memory i (with_flags i f).
Proof. by split. Qed.
Lemma same_memory_regs i r : same_memory i (with_regs i r).
Proof. by split. Qed.
#[export] Hint Resolve same_memory_flags same_memory_regs : gu.

(** The snapshot after a process lookup: only the flags may have changed. *)
Definition same_but_flags (i j : gu_stack_info) : Prop := j = with_flags i (flags j).

#[export] Instance same_but_flags_preorder : PreOrder same_but_flags.
Proof.
  split.
  - by intros [].
  - unfold same_but_flags. intros i j k -> ->. done.
Qed.

Lemma same_but_flags_memory i j : same_but_flags i j -> same_memory i j.
Proof. unfold same_but_flags. intros ->. apply same_memory_flags. Qed.
Lemma same_but_flags_snapshot `{Arch} i j : same_but_flags i j -> snapshot_ok i -> snapshot_ok j.
Proof. unfold same_but_flags. intros -> []. by split. Qed.
Lemma set_reason_flags i r : same_but_flags i (gu_flags_set_reason i r).
Proof. done. Qed.
Lemma set_fp_hint_flags i g : same_but_flags i (set_fp_hint i g).
Proof. destruct g; [done|]. by destruct i. Qed.
#[export] Hint Resolve set_reason_flags set_fp_hint_flags same_but_flags_memory : gu.

Section facts.
Context {HA : Arch} {HE : Env} {HQ : Qsort}.
Variable page_size : Z.

Lemma reload_flags c pid info new info' c' :
  gu_reload_pid_ctx c pid info = Done (new, info', c') -> same_but_flags info info'.
Proof.
  unfold gu_reload_pid_ctx. destruct (deref _) as [old|]; run; [|done].
  destruct (gu_clear_pid_ctx _ _) as [c1|]; run; [|done].
  destruct (gu_load_pid _ _) as [[[new1|] c2]|]; run; [| |done].
  - intros [= <- <- <-]. auto with gu.
  - by intros [= <- <- <-].
Qed.

Lemma search_flags c p info pc reloaded ret it p' info' reloaded' c' :
  gu_search_pid_elf_ctx c p info pc reloaded = Done (ret, it, p', info', reloaded', c') ->
  same_but_flags info info'.
Proof.
  unfold gu_search_pid_elf_ctx. destruct (deref p) as [pid|]; run; [|done].
  destruct (deref (cx_pids c !! pid)) as [px|]; run; [|done].
  destruct (gu_interval_array_search _ _) as [[[r1 it1] x1]|]; run; [|done].
  destruct ((0 <=? r1) || reloaded); [by intros [= <- <- <- <- <- <-]|].
  destruct (gu_maps_reload_allowed c pid) as [[allowed c1]|]; run; [|done].
  destruct allowed; cbn [negb]; [|by intros [= <- <- <- <- <- <-]].
  destruct (cx_debug c1 || _); cbn [negb].
  2:{ intros [= <- <- <- <- <- <-]. auto with gu. }
  destruct (gu_reload_pid_ctx _ _ _) as [[[new i1] c2]|] eqn:E; run; [|done].
  apply reload_flags in E. destruct new as [np|]; [|by intros [= <- <- <- <- <- <-]].
  destruct (deref _) as [px'|]; run; [|done].
  destruct (pc_elf_ctx_list px'); [|by intros [= <- <- <- <- <- <-]].
  destruct (gu_interval_array_search _ _) as [[[? ?] ?]|]; run; [|done].
  by intros [= <- <- <- <- <- <-].
Qed.

(** The parts of the state a process lookup does not touch. *)
Record lookup_frame (u u' : uw_state) : Prop := {
  lf_info : same_but_flags (uw_info u) (uw_info u');
  lf_frames : uw_frames u' = uw_frames u;
  lf_scratch : uw_scratch u' = uw_scratch u;
  lf_heap : uw_heap u' = uw_heap u;
}.

#[local] Instance lookup_frame_refl : Reflexive lookup_frame.
Proof. intros u. by split. Qed.

Lemma search_mapping_frame u m pc ret m' u' :
  search_mapping u m pc = Done (ret, m', u') -> lookup_frame u u'.
Proof.
  unfold search_mapping.
  destruct (gu_search_pid_elf_ctx _ _ _ _ _) as [[[[[[r it] p] i] rl] c]|] eqn:E; run; [|done].
  intros [= <- <- <-]. apply search_flags in E. by split.
Qed.

(** A frame is reported exactly when the call succeeds, and carries the pc. *)
Lemma append_frame_spec u m pc initial signal ok end_ m' u' :
  gu_append_pc_frame u m pc initial signal = Done (ok, end_, m', u') ->
  same_but_flags (uw_info u) (uw_info u') /\
  if ok then exists f, uw_frames u' = uw_frames u ++ [f] /\ fr_abs_pc f = pc
  else uw_frames u' = uw_frames u /\ end_ = false.
Proof.
  unfold gu_append_pc_frame. destruct (pc =? 0); [by intros [= <- <- <- <-]|].
  set (look := if in_mapping m pc then _ else _).
  assert (Hlook : forall ret m1 u1, look = Done (ret, m1, u1) -> lookup_frame u u1).
  { intros ret m1 u1. subst look. destruct (in_mapping m pc); [by intros [= <- <- <-]|].
    apply search_mapping_frame. }
  destruct look as [[[ret m1] u1]|]; run; [|done]. destruct (Hlook _ _ _ eq_refl) as [Hi Hf _ _].
  destruct (ret <? 0); [by intros [= <- <- <- <-]; rewrite Hf|].
  destruct (open_mapping u1 m1) as [m2|]; run; [|done].
  destruct (mp_elf m2) as [a|].
  - destruct (deref _) as [e|]; run; [|done].
    destruct (gu_lookup_elf_symbol _ _) as [[sym off]|]; run; [|done].
    destruct (name_at e sym) as [name|]; run; [|done].
    intros [= <- <- <- <-]. split; [done|]. cbn. rewrite Hf. by eexists.
  - intros [= <- <- <- <-]. split; [done|]. cbn. rewrite Hf. by eexists.
Qed.

(** Snapshot reads agree with those of the CFI evaluation. *)
Lemma snapshot_read_captured info raw_sp addr :
  snapshot_ok info -> 0 < page_size -> is_u64 raw_sp -> is_u64 addr ->
  gu_stack_snapshot_read_u64 page_size info raw_sp addr = Done (captured page_size info raw_sp addr).
Proof.
  intros Hsnap Hp Hsp Ha. pose proof (read_addr_captured page_size info raw_sp addr no_oor Hsnap Hp Hsp Ha) as Hr.
  destruct Hsnap as [_ _ (bytes & Hb & _)].
  unfold read_addr_from_info, read_addr, page_start in Hr. rewrite Hb in Hr. cbn [deref] in Hr.
  unfold gu_stack_snapshot_read_u64. rewrite Hb.
  destruct (_ || _); [by destruct (captured _ _ _ _)|].
  cbn [mbind outcome_bind deref] in Hr. destruct (of_opt _) as [[v r]|]; run; cbn [mbind outcome_bind] in Hr; [|done].
  unfold mret, outcome_ret in *. destruct (captured _ _ _ _); by simplify_eq.
Qed.

(** ** The frame-pointer tail *)

(** The return addresses stored along the chain of saved frame pointers that
    starts at [bp], as far as the capture, the sanity checks and [n] go. *)
Fixpoint saved_pcs (n : nat) (info : gu_stack_info) (raw_sp bp : Z) : list Z :=
  match n with
  | O => []
  | S n =>
    match captured page_size info raw_sp bp, captured page_size info raw_sp (bp +w 8) with
    | Some next_bp, Some next_pc =>
      if decide (0 < bp < next_bp /\ bp mod 8 = 0 /\ next_bp mod 8 = 0 /\ next_pc <> 0)
      then next_pc :: saved_pcs n info raw_sp next_bp
      else []
    | _, _ => []
    end
  end.

Lemma frame_pointer_sane_spec bp next_bp :
  is_u64 bp -> is_u64 next_bp ->
  gu_frame_pointer_sane bp next_bp =
    bool_decide (0 < bp < next_bp /\ bp mod 8 = 0 /\ next_bp mod 8 = 0).
Proof.
  intros Hb Hn. unfold gu_frame_pointer_sane. change 7 with (Z.ones 3). rewrite !Z.land_ones by lia.
  change (2 ^ 3) with 8. symmetry. unfold in_width in *.
  repeat match goal with |- context [?a =? ?b] => destruct (Z.eqb_spec a b) end; cbn [negb orb];
    try (apply bool_decide_eq_false_2; lia).
  destruct (Z.leb_spec next_bp bp); [apply bool_decide_eq_false_2|apply bool_decide_eq_true_2]; lia.
Qed.

Lemma saved_pcs_same n i j raw_sp bp :
  same_memory i j -> saved_pcs n j raw_sp bp = saved_pcs n i raw_sp bp.
Proof.
  intros Hs. revert bp. induction n as [|n IH]; intros bp; [done|]. cbn [saved_pcs].
  rewrite !(same_memory_captured page_size i j) by done.
  do 2 (destruct (captured _ _ _ _); [|done]). case_decide; [|done]. by rewrite IH.
Qed.

(** The frames [u'] has beyond those of [u]. *)
Definition reported (u u' : uw_state) (fs : list gu_frame_record) : Prop :=
  uw_frames u' = uw_frames u ++ fs.

(** A readable snapshot, as the reads need it. *)
Definition readable (info : gu_stack_info) (raw_sp bp : Z) : Prop :=
  snapshot_ok info /\ 0 < page_size /\ is_u64 raw_sp /\ is_u64 bp.

Lemma tail_loop_spec n raw_sp u m bp k appended u' :
  tail_loop page_size n raw_sp u m bp k = Done (appended, u') ->
  exists fs, reported u u' fs /\ appended = k + Z.of_nat (length fs) /\ (length fs <= n)%nat /\
    same_but_flags (uw_info u) (uw_info u') /\
    (readable (uw_info u) raw_sp bp ->
     fr_abs_pc <$> fs = take (length fs) (saved_pcs n (uw_info u) raw_sp bp)).
Proof.
  revert u m bp k. induction n as [|n IH]; intros u m bp k; cbn [tail_loop].
  { intros [= <- <-]. exists []. unfold reported. rewrite app_nil_r. split_and!; simpl; [done|lia..|done|done]. }
  set (Concl := exists fs, _).
  assert (Hstop : Done (k, u) = Done (appended, u') -> Concl).
  { intros [= <- <-]. exists []. unfold reported. rewrite app_nil_r. split_and!; simpl; [done|lia..|done|done]. }
  destruct (gu_stack_snapshot_read_u64 page_size (uw_info u) raw_sp bp) as [nb|] eqn:Enb; run; [|done].
  destruct nb as [nb|]; [|exact Hstop].
  destruct (gu_stack_snapshot_read_u64 page_size (uw_info u) raw_sp (bp +w 8)) as [npc|] eqn:Epc; run; [|done].
  destruct npc as [npc|]; [|exact Hstop].
  destruct (gu_frame_pointer_sane bp nb) eqn:Esane; cbn [negb]; [|exact Hstop].
  destruct (npc =? 0) eqn:Ezero; [exact Hstop|].
  destruct (gu_append_pc_frame u m npc false false) as [[[[ok e] m1] u1]|] eqn:Ea; run; [|done].
  apply append_frame_spec in Ea as [Hi Hok]. destruct ok; cbn [negb].
  2:{ intros [= <- <-]. exists []. destruct Hok as [Hok _]. unfold reported. rewrite app_nil_r, Hok.
      split_and!; simpl; [done|lia..|done|done]. }
  destruct Hok as (f & Hf & Hpc).
  assert (Hread : readable (uw_info u) raw_sp bp ->
    saved_pcs (S n) (uw_info u) raw_sp bp = npc :: saved_pcs n (uw_info u1) raw_sp nb /\
    readable (uw_info u1) raw_sp nb).
  { intros (Hs & Hp & Hsp & Hbp). rewrite snapshot_read_captured in Enb, Epc by auto with gu.
    simplify_eq. assert (is_u64 nb) by (by eapply captured_u64).
    rewrite frame_pointer_sane_spec in Esane by done. apply bool_decide_eq_true in Esane.
    apply Z.eqb_neq in Ezero. cbn [saved_pcs]. rewrite Enb, Epc, decide_True by tauto.
    rewrite (saved_pcs_same n (uw_info u) (uw_info u1)) by auto with gu. split; [done|].
    split_and!; try done; by eapply same_but_flags_snapshot. }
  destruct e.
  - intros [= <- <-]. exists [f]. split_and!; simpl length; [done|lia..|done|]. intros Hr.
    destruct (Hread Hr) as [-> _]. by rewrite <- Hpc.
  - intros E. apply IH in E as (fs & Hfs & Hn & Hlen & Hi' & Hpcs).
    exists (f :: fs). unfold reported in *. rewrite Hfs, Hf, <- app_assoc.
    split_and!; cbn [length]; [done|lia..|by etrans|]. intros Hr. destruct (Hread Hr) as [-> Hr'].
    rewrite fmap_cons, (Hpcs Hr'), Hpc. done.
Qed.

(** The whole tail: the current pc when asked for, then the saved chain. *)
Lemma tail_spec u raw_sp bp pc append reason n r u' :
  gu_unwind_dwarf_tail_by_fp page_size u raw_sp bp pc append reason = Done (n, r, u') ->
  exists cur fs, reported u u' (cur ++ fs) /\ n = Z.of_nat (length (cur ++ fs)) /\
    (length (cur ++ fs) <= 128)%nat /\
    (forall f, f ∈ cur -> append = true /\ fr_abs_pc f = pc) /\ (length cur <= 1)%nat /\
    same_but_flags (uw_info u) (uw_info u') /\
    r = (if decide (cur ++ fs = []) then reason else GU_UNWIND_REASON_END_OF_STACK) /\
    (readable (uw_info u) raw_sp bp ->
     fr_abs_pc <$> fs = take (length fs) (saved_pcs 127 (uw_info u) raw_sp bp)).
Proof.
  unfold gu_unwind_dwarf_tail_by_fp. destruct (uw_pid u) as [pid|].
  2:{ intros [= <- <- <-]. exists [], []. unfold reported. rewrite app_nil_r. split_and!; try done; simpl; [lia..|set_solver|lia]. }
  set (first := if append then _ else _).
  assert (Hfirst : forall ok e m1 u1, first = Done (ok, e, m1, u1) ->
    same_but_flags (uw_info u) (uw_info u1) /\
    if ok then append = true /\ exists f, reported u u1 [f] /\ fr_abs_pc f = pc else reported u u1 [] /\ e = false).
  { intros ok e m1 u1. subst first. unfold reported. destruct append.
    - intros E. apply append_frame_spec in E as [? Hok]. split; [done|]. rewrite app_nil_r. by destruct ok.
    - intros [= <- <- <- <-]. by rewrite app_nil_r. }
  destruct first as [[[[ok e] m1] u1]|]; run; [|done]. destruct (Hfirst _ _ _ _ eq_refl) as [Hi Hok]. clear Hfirst.
  assert (Hcur : exists cur, reported u u1 cur /\ length cur = (if ok then 1 else 0)%nat /\
    forall f, f ∈ cur -> append = true /\ fr_abs_pc f = pc).
  { destruct ok; [destruct Hok as (-> & f & Hf & Hpc); exists [f]|destruct Hok as [Hf ->]; exists []];
      split_and!; try done; set_solver. }
  destruct Hcur as (cur & Hrep & Hlen & Hpc).
  destruct (ok && e) eqn:Eend.
  { intros [= <- <- <-]. apply andb_true_iff in Eend as [-> ->]. exists cur, []. rewrite app_nil_r.
    split_and!; try done; rewrite ?Hlen; [lia..|]. rewrite decide_False; [done|]. by intros ->. }
  destruct (tail_loop page_size _ raw_sp u1 m1 bp _) as [[appended u2]|] eqn:Et; run; [|done].
  apply tail_loop_spec in Et as (fs & Hfs & Hn & Hle & Hi' & Hpcs). intros [= <- <- <-].
  exists cur, fs. unfold reported in *. rewrite Hfs, Hrep, <- app_assoc. rewrite length_app, Hlen.
  change (Z.to_nat MAX_FP_STACK_LEVEL) with 127%nat in Hle, Hpcs.
  split_and!; try done; [destruct ok; lia|destruct ok; lia|destruct ok; lia|by etrans| |].
  - destruct (decide (cur ++ fs = [])) as [E|E].
    + apply app_nil in E as [-> ->]. destruct ok; [done|]. by rewrite Hn.
    + destruct (Z.ltb_spec 0 appended); [done|]. exfalso. apply E.
      assert (length cur = 0%nat) as ->%nil_length_inv by (destruct ok; lia).
      assert (length fs = 0%nat) as ->%nil_length_inv by (destruct ok; lia). done.
  - intros (Hs & Hrest). rewrite (Hpcs ltac:(split; [by eapply same_but_flags_snapshot|done])).
    by rewrite (saved_pcs_same 127 (uw_info u)) by auto with gu.
Qed.
End facts.

(** ** The DWARF walk *)
Section walk_facts.
Context {HA : Arch} {HE : Env} {HQ : Qsort}.
Variables (page_size : Z) (verbose : bool) (heap_ok : cfi_heap -> bool) (depth : nat).

(** The reasons an iteration can end with. *)
Definition classified (r : gu_unwind_reason) : Prop :=
  r <> GU_UNWIND_REASON_UNKNOWN /\ r <> GU_UNWIND_REASON_TRUNCATED.

Lemma gen_reg_classified info bias raw_sp s regno o r v o' :
  gen_reg page_size info bias raw_sp depth s regno o = Done (r, v, o') ->
  classified r /\ (r = GU_UNWIND_REASON_OK <-> is_Some v).
Proof.
  unfold gen_reg, classified. destruct (gu_cfi_get_ops _ _ _) as [ops|].
  2:{ intros [= <- <- <-]. split; [done|]. by split; [|intros []]. }
  destruct (fast_dwarf_ops_eval _ _ _ _ _ _ _ _) as [[x o1]|]; run; [|done].
  set (slow := match x with Some _ => _ | None => _ end). destruct slow as [[y o2]|]; run; [|done].
  destruct y as [y|]; intros [= <- <- <-].
  - split; [done|]. split; eauto.
  - destruct (stack_read_out_of_range o2); (split; [done|]); by split; [|intros []].
Qed.

(** What the parts of an iteration below the report do to the state. *)
Record step_frame (u u' : uw_state) : Prop := {
  sf_info : same_memory (uw_info u) (uw_info u');
  sf_frames : uw_frames u' = uw_frames u;
  sf_pid : uw_pid u' = uw_pid u;
}.
#[local] Instance step_frame_preorder : PreOrder step_frame.
Proof.
  split; [by split|]. intros u v w [] []. split; [by etrans|congruence..].
Qed.

Lemma walk_reg_frame u bias raw_sp regno r v u' :
  walk_reg page_size depth u bias raw_sp regno = Done (r, v, u') ->
  step_frame u u' /\ classified r /\ (r = GU_UNWIND_REASON_OK <-> is_Some v).
Proof.
  unfold walk_reg. destruct (gen_reg _ _ _ _ _ _ _ _) as [[[r1 v1] o1]|] eqn:E; run; [|done].
  intros [= <- <- <-]. split; [by split|]. by eapply gen_reg_classified.
Qed.

Lemma walk_write_frame u regno v u' : walk_write u regno v = Done u' -> step_frame u u'.
Proof.
  unfold walk_write, write_regs. destruct (regs (uw_info u)) as [words|]; run.
  2:{ intros [= <-]. by split. }
  destruct (regno <? 0); run; [intros [= <-]; by split|].
  destruct (reg_count <=? regno); run; [intros [= <-]; by split|].
  destruct (words !! _); run; [|done]. intros [= <-]. split; cbn; auto with gu.
Qed.

Lemma walk_parse_frame u a e cfi pc ret sg u' :
  walk_parse heap_ok u a e cfi pc = Done (ret, sg, u') -> step_frame u u'.
Proof.
  unfold walk_parse. destruct (gu_cfi_parse_cfi_ex _ _ _ _) as [[[r1 s1] st]|]; run; [|done].
  intros [= <- <- <-]. by split.
Qed.

Lemma walk_registers_frame u bias raw_sp initial r u' :
  walk_registers page_size depth u bias raw_sp initial = Done (r, u') ->
  step_frame u u' /\ classified (match r with inl r => r | inr (r, _, _) => r end).
Proof.
  unfold walk_registers.
  destruct (walk_reg page_size depth u bias raw_sp pc_regno) as [[[r1 ra1] u1]|] eqn:E1; run; [|done].
  apply walk_reg_frame in E1 as (F1 & C1 & O1).
  set (got := if decide (r1 = GU_UNWIND_REASON_OK) then _ else _).
  destruct got as [[ra|]|]; run; [| |done]; [|by intros [= <- <-]].
  destruct (walk_reg page_size depth u1 bias raw_sp reg_name_rsp) as [[[r2 sp] u2]|] eqn:E2; run; [|done].
  apply walk_reg_frame in E2 as (F2 & C2 & O2).
  destruct sp as [sp|]; [|intros [= <- <-]; split; [by etrans|done]].
  destruct (walk_reg page_size depth u2 bias raw_sp reg_name_rbp) as [[[r3 bp] u3]|] eqn:E3; run; [|done].
  apply walk_reg_frame in E3 as (F3 & C3 & O3).
  destruct bp as [bp|]; [|intros [= <- <-]; split; [by do 2 (etrans; [eassumption|])|done]].
  destruct (walk_write u3 reg_name_rbp bp) as [u4|] eqn:E4; run; [|done].
  apply walk_write_frame in E4. intros [= <- <-]. split; [|done]. by do 3 (etrans; [eassumption|]).
Qed.

Lemma walk_mapping_frame u m pc stop m' u' :
  walk_mapping u m pc = Done (stop, m', u') ->
  lookup_frame u u' /\ match stop with
                       | Some (WStop r pc' _) => r = GU_UNWIND_REASON_NO_EXEC_PC /\ pc' = pc
                       | Some (WNext _ _) => False
                       | None => True
                       end.
Proof.
  unfold walk_mapping. destruct (in_mapping m pc); [by intros [= <- <- <-]|].
  destruct (search_mapping u m pc) as [[[ret m1] u1]|] eqn:E; run; [|done].
  apply search_mapping_frame in E. destruct (ret <? 0); [by intros [= <- <- <-]|].
  destruct (open_mapping u1 m1) as [m2|]; run; [|done].
  destruct (mp_elf m2); by intros [= <- <- <-].
Qed.

(** One iteration.  Going on means that a frame was reported for the current
    pc, that the stack pointer moved up and that the next pc is neither zero nor
    the one guarded against. *)
Lemma walk_step_spec raw_sp u w flow u' :
  walk_step page_size verbose heap_ok depth raw_sp u w = Done (flow, u') ->
  same_memory (uw_info u) (uw_info u') /\
  exists fs, reported u u' fs /\ (length fs <= 1)%nat /\ (forall f, f ∈ fs -> fr_abs_pc f = wk_pc w) /\
  match flow with
  | WStop r _ _ => classified r
  | WNext r w' => classified r /\ length fs = 1%nat /\ wk_prev_sp w < wk_sp w' /\
      wk_prev_sp w' = wk_sp w' /\ wk_prev_pc w' = wk_pc w' /\ wk_pc w' <> 0 /\
      wk_pc w' <> wk_prev_pc w /\
      wk_loop_count w' = wk_loop_count w + (if verbose then 1 else 0)
  end.
Proof.
  unfold walk_step. destruct (walk_mapping u (wk_mapping w) (wk_pc w)) as [[[stop m] u1]|] eqn:Em; run; [|done].
  apply walk_mapping_frame in Em as ([Hi1 Hf1 _ _] & Hstop). destruct stop as [flow1|].
  { intros [= <- <-]. split; [auto with gu|]. exists []. unfold reported. rewrite app_nil_r, Hf1.
    split_and!; try done; [simpl; lia|set_solver|]. destruct flow1; [|done]. by destruct Hstop as [-> _]. }
  destruct (deref (mp_elf m)) as [a|]; run; [|done].
  destruct (deref (cx_elfs (uw_ctx u1) !! a)) as [e|]; run; [|done].
  destruct (gu_lookup_elf_symbol _ _) as [[sym off]|]; run; [|done].
  set (f := image_frame _ _ _ _ _ _ _). set (u2 := emit u1 f).
  assert (Hf : fr_abs_pc f = wk_pc w) by (unfold f, image_frame; by destruct (_ || _)).
  assert (Hdone : forall u3, step_frame u2 u3 -> same_memory (uw_info u) (uw_info u3) /\
    reported u u3 [f] /\ (length [f] <= 1)%nat /\ forall f', f' ∈ [f] -> fr_abs_pc f' = wk_pc w).
  { intros u3 [Hi3 Hf3 _]. split; [etrans; [apply same_but_flags_memory; exact Hi1|exact Hi3]|].
    unfold reported. rewrite Hf3. cbn. rewrite Hf1. split_and!; [done|lia|set_solver]. }
  destruct (name_at e sym) as [name|]; run; [|done].
  destruct (is_stack_bottom_symbol name).
  { intros [= <- <-]. destruct (Hdone u2) as (? & ? & ? & ?); [done|]. split; [done|]. exists [f]. by split_and!. }
  destruct (ec_cfi e) as [cfi|].
  2:{ intros [= <- <-]. destruct (Hdone u2) as (? & ? & ? & ?); [done|]. split; [done|]. exists [f]. by split_and!. }
  destruct (walk_parse heap_ok u2 a e cfi _) as [[[ret sg] u3]|] eqn:Ep; run; [|done].
  apply walk_parse_frame in Ep. destruct (ret =? 0); cbn [negb].
  2:{ intros [= <- <-]. destruct (Hdone u3) as (? & ? & ? & ?); [done|]. split; [done|]. exists [f]. by split_and!. }
  destruct (walk_registers page_size depth u3 _ raw_sp _) as [[r u4]|] eqn:Er; run; [|done].
  apply walk_registers_frame in Er as [F4 C4].
  assert (F4' : step_frame u2 u4) by (by etrans).
  destruct r as [reason|[[reason ra] sp]].
  { intros [= <- <-]. destruct (Hdone u4) as (? & ? & ? & ?); [done|]. split; [done|]. exists [f]. by split_and!. }
  destruct (Z.eqb_spec ra 0).
  { intros [= <- <-]. destruct (Hdone u4) as (? & ? & ? & ?); [done|]. split; [done|]. exists [f]. by split_and!. }
  destruct (Z.leb_spec sp (wk_prev_sp w)); cbn [orb].
  { intros [= <- <-]. destruct (Hdone u4) as (? & ? & ? & ?); [done|]. split; [done|]. exists [f]. by split_and!. }
  destruct (Z.eqb_spec ra (wk_prev_pc w)).
  { intros [= <- <-]. destruct (Hdone u4) as (? & ? & ? & ?); [done|]. split; [done|]. exists [f]. by split_and!. }
  destruct (walk_write u4 reg_name_rsp sp) as [u5|] eqn:E5; run; [|done].
  destruct (walk_write u5 pc_regno ra) as [u6|] eqn:E6; run; [|done].
  apply walk_write_frame in E5, E6. intros [= <- <-].
  destruct (Hdone u6) as (? & ? & ? & ?); [by do 2 (etrans; [eassumption|])|]. split; [done|].
  exists [f]. split_and!; try done. cbn. destruct verbose; lia.
Qed.

(** The loop. *)
Lemma walk_loop_spec budget raw_sp r0 u w reason pc append level u' :
  walk_loop page_size verbose heap_ok depth budget raw_sp r0 u w = Done (reason, pc, append, level, u') ->
  same_memory (uw_info u) (uw_info u') /\
  exists fs, reported u u' fs /\ (length fs <= budget)%nat /\ -1 <= level /\
    Z.of_nat (length fs) <= Z.of_nat budget - level <= Z.of_nat (length fs) + 1 /\
    (classified r0 \/ budget <> 0%nat -> classified reason).
Proof.
  revert r0 u w. induction budget as [|budget IH]; intros r0 u w; cbn [walk_loop].
  { intros [= <- <- <- <- <-]. split; [done|]. exists []. unfold reported. rewrite app_nil_r.
    split_and!; try done; simpl; [lia..|]. by intros [?|?]. }
  destruct (walk_step _ _ _ _ raw_sp u w) as [[flow u1]|] eqn:Es; run; [|done].
  apply walk_step_spec in Es as (Hi & fs & Hrep & Hlen & _ & Hflow). destruct flow as [r pc1 app1|r w1].
  - intros [= <- <- <- <- <-]. split; [done|]. exists fs. split_and!; try done; lia.
  - intros E. apply IH in E as (Hi' & fs' & Hrep' & Hlen' & Hlev & Hn & Hc).
    destruct Hflow as (C & Hone & _). split; [by etrans|]. exists (fs ++ fs').
    unfold reported in *. rewrite Hrep', Hrep, app_assoc, length_app. split_and!; try done; try lia.
    intros _. apply Hc. by left.
Qed.
End walk_facts.

(** ** Frame-pointer samples against a reference

    The reference resolves every pc afresh, without the mapping the loop keeps
    from one pc to the next. *)
Section fp_reference.
Context {HA : Arch} {HE : Env} {HQ : Qsort}.

(** The record of a pc and whether it is a stack bottom; [None] when no image
    is mapped there. *)
Definition fp_frame (c : gu_context) (arr : interval_array) (pc : Z)
  : outcome (option gu_frame_record * bool) :=
  '(ret, it, _) ← gu_interval_array_search (Some arr) pc;
  '(elf, v) ← (if 0 <=? ret then gu_get_elf_ctx_from_item c it else mret (None, 0));
  match elf with
  | None => mret (None, false)
  | Some a =>
    e ← deref (cx_elfs c !! a);
    let relative_pc := pc -w (start it -w v) in
    '(sym, func_offset) ← fp_lookup_symbol e relative_pc;
    name ← name_at e sym;
    mret (Some (image_frame c e a pc relative_pc func_offset sym), is_stack_bottom_symbol name)
  end.

Fixpoint fp_reference (c : gu_context) (arr : interval_array) (allow_unknown : bool) (pcs : list Z)
  : outcome (gu_unwind_reason * list gu_frame_record) :=
  match pcs with
  | [] => mret (GU_UNWIND_REASON_END_OF_STACK, [])
  | pc :: pcs =>
    if pc =? 0 then mret (GU_UNWIND_REASON_END_OF_STACK, []) else
    '(f, bottom) ← fp_frame c arr pc;
    match f with
    | None =>
      if negb allow_unknown then mret (GU_UNWIND_REASON_NO_EXEC_PC, []) else
      '(r, fs) ← fp_reference c arr allow_unknown pcs;
      mret (r, mk_gu_frame_record pc pc 0 0 0 GU_FRAME_ANON_EXEC :: fs)
    | Some f =>
      if bottom : bool then mret (GU_UNWIND_REASON_END_OF_STACK, [f]) else
      '(r, fs) ← fp_reference c arr allow_unknown pcs;
      mret (r, f :: fs)
    end
  end.

(** The contexts that resolve pcs alike. *)
Record same_view (c c' : gu_context) : Prop := {
  sv_elfs : cx_elfs c' = cx_elfs c;
  sv_maps : cx_maps c' = cx_maps c;
  sv_pids : cx_pids c' = cx_pids c;
  sv_go : cx_go_only_buildid c' = cx_go_only_buildid c;
}.
#[export] Instance same_view_preorder : PreOrder same_view.
Proof. split; [by split|]. intros ? ? ? [] []. split; congruence. Qed.

Lemma fp_frame_view c c' arr pc : same_view c c' -> fp_frame c' arr pc = fp_frame c arr pc.
Proof.
  intros [He Hm _ Hg]. unfold fp_frame, gu_get_elf_ctx_from_item, image_frame. by rewrite He, Hm, Hg.
Qed.
Lemma fp_reference_view c c' arr allow pcs :
  same_view c c' -> fp_reference c' arr allow pcs = fp_reference c arr allow pcs.
Proof.
  intros Hv. induction pcs as [|pc pcs IH]; [done|]. cbn [fp_reference].
  by rewrite (fp_frame_view c c'), IH.
Qed.

(** A process whose mappings are indexed by [arr] and are not due for a reload
    before call [horizon] of the run. *)
Record settled (horizon : nat) (c : gu_context) (pid : Z) (arr : interval_array) : Prop := {
  st_entry : exists p, cx_pids c !! pid = Some p /\ pc_elf_ctx_list p = Some arr /\
    0 < pc_next_maps_reload_ns p /\
    forall n, (n < horizon)%nat -> clock_ns n < pc_next_maps_reload_ns p /\
      timer_now n < pc_next_maps_reload_ns p;
  st_array : exists l, array_holds arr l;
}.

Lemma settled_view horizon c c' pid arr :
  same_view c c' -> settled horizon c pid arr -> settled horizon c' pid arr.
Proof. intros [_ _ Hp _] [He Ha]. split; [|done]. by rewrite Hp. Qed.

Lemma cache_now_settled horizon c next now c' :
  (forall n, (n < horizon)%nat -> clock_ns n < next /\ timer_now n < next) ->
  (cx_ticks c + 2 <= horizon)%nat -> gu_cache_now_ns c = (now, c') ->
  now < next /\ same_view c c' /\ (cx_ticks c' <= cx_ticks c + 2)%nat.
Proof.
  intros Hnext Hh. unfold gu_cache_now_ns, gu_monotonic_ns.
  destruct (cx_timer_started c); [destruct (timer_now (cx_ticks c) =? 0); cbn [negb]|];
    intros [= <- <-]; (split; [apply Hnext; cbn; lia|]); (split; [done|]); cbn; lia.
Qed.

(** A settled process is looked up in its index, hit or miss. *)
Lemma search_settled horizon c pid arr info pc ret it x :
  settled horizon c pid arr -> (cx_ticks c + 2 <= horizon)%nat ->
  gu_interval_array_search (Some arr) pc = Done (ret, it, x) ->
  exists c', gu_search_pid_elf_ctx c (Some pid) info pc false = Done (ret, it, Some pid, info, false, c') /\
    same_view c c' /\ (cx_ticks c' <= cx_ticks c + 2)%nat.
Proof.
  intros [(p & Hp & Ha & Hpos & Hnext) _] Hh Hs. unfold gu_search_pid_elf_ctx.
  cbn [deref]. run. rewrite Hp. run. rewrite Ha, Hs. run.
  destruct (0 <=? ret); cbn [orb]; [exists c; split; [done|]; split; [done|lia]|].
  unfold gu_maps_reload_allowed. rewrite Hp. run. destruct (Z.eqb_spec (pc_next_maps_reload_ns p) 0); [lia|].
  set (c1 := with_pids c _).
  assert (Hc1 : same_view c c1) by (split; [done|done|cbn; by rewrite insert_id|done]).
  destruct (gu_cache_now_ns c1) as [now c2] eqn:E.
  destruct (cache_now_settled horizon c1 _ now c2 Hnext Hh E) as (Hnow & Hv & Ht).
  destruct (Z.leb_spec (pc_next_maps_reload_ns p) now); [lia|]. run. cbn [negb].
  eexists. split; [done|]. split; [|cbn in *; lia]. etrans; [exact Hc1|]. etrans; [exact Hv|done].
Qed.

(** Searching again inside the interval a search returned finds it again. *)
Lemma search_again arr l pc0 pc ret0 it x0 :
  array_holds arr l -> gu_interval_array_search (Some arr) pc0 = Done (ret0, it, x0) -> 0 <= ret0 ->
  item_contains pc it = true ->
  exists ret x, gu_interval_array_search (Some arr) pc = Done (ret, it, x) /\ 0 <= ret.
Proof.
  unfold gu_interval_array_search. intros Hh.
  destruct (search_gen_holds arr l pc0 false Hh) as [[-> _]|(i & x & Hi & Hc & ->)];
    intros [= <- <- <-] H0 Hin; [lia|].
  destruct (search_gen_holds arr l pc false Hh) as [[_ Hno]|(j & y & Hj & Hcy & ->)].
  - specialize (Hno i x Hi). unfold item_contains in *. cbn in Hin. congruence.
  - assert (Hcx : item_contains pc x = true) by (unfold item_contains in *; exact Hin).
    pose proof (chain_contains_unique _ _ _ _ _ _ (ah_chain _ _ Hh) Hi Hj Hcx Hcy) as ->.
    simplify_eq. do 2 eexists. split; [done|]. lia.
Qed.

Lemma search_total arr l pc :
  array_holds arr l -> exists ret it x, gu_interval_array_search (Some arr) pc = Done (ret, it, x).
Proof.
  intros Hh. unfold gu_interval_array_search.
  destruct (search_gen_holds arr l pc false Hh) as [[-> _]|(i & x & _ & _ & ->)]; eauto.
Qed.

(** The mapping kept between two pcs is what a lookup would return. *)
Definition kept_mapping (c : gu_context) (arr : interval_array) (m : mapping) : Prop :=
  mp_reloaded m = false /\
  forall pc, in_mapping m pc = true ->
    (exists ret x, gu_interval_array_search (Some arr) pc = Done (ret, mp_item m, x) /\ 0 <= ret) /\
    gu_get_elf_ctx_from_item c (mp_item m) = Done (mp_elf m, mp_exec_virt_addr m).

Lemma kept_mapping_view c c' arr m : same_view c c' -> kept_mapping c arr m -> kept_mapping c' arr m.
Proof.
  intros [_ Hm _ _] [Hr Hk]. split; [done|]. intros pc Hin. destruct (Hk pc Hin) as [? Hg]. split; [done|].
  unfold gu_get_elf_ctx_from_item in *. by rewrite Hm.
Qed.

(** The end of an iteration, given the record of its pc. *)
Definition fp_finish (u : uw_state) (m : mapping) (pc : Z) (allow : bool) (lvl max : Z)
    (f : option gu_frame_record) (bottom : bool) : (gu_unwind_reason + mapping) * uw_state :=
  match f with
  | None =>
    if negb allow then (inl GU_UNWIND_REASON_NO_EXEC_PC, u) else
    let u := emit u (mk_gu_frame_record pc pc 0 0 0 GU_FRAME_ANON_EXEC) in
    if max <=? lvl then (inl GU_UNWIND_REASON_END_OF_STACK, u) else (inr m, u)
  | Some f =>
    let u := emit u f in
    if bottom then (inl GU_UNWIND_REASON_END_OF_STACK, u) else
    if max <=? lvl then (inl GU_UNWIND_REASON_END_OF_STACK, u) else (inr m, u)
  end.

(** The second half of an iteration, on the mapping of its pc. *)
Lemma fp_report u m pc allow lvl max c :
  same_view c (uw_ctx u) ->
  ('(frame, bottom) ←
    (match mp_elf m with
     | Some a =>
       e ← deref (cx_elfs (uw_ctx u) !! a);
       let relative_pc := pc -w mapping_bias m in
       '(sym, func_offset) ← fp_lookup_symbol e relative_pc;
       name ← name_at e sym;
       mret (Some (image_frame (uw_ctx u) e a pc relative_pc func_offset sym),
             is_stack_bottom_symbol name)
     | None =>
       if negb allow then mret (None, false) else
       mret (Some (mk_gu_frame_record pc pc 0 0 0 GU_FRAME_ANON_EXEC), false)
     end);
  match frame with
  | None => mret (inl GU_UNWIND_REASON_NO_EXEC_PC, u)
  | Some f =>
    let u := emit u f in
    if bottom : bool then mret (inl GU_UNWIND_REASON_END_OF_STACK, u) else
    if max <=? lvl then mret (inl GU_UNWIND_REASON_END_OF_STACK, u) else
    mret (inr m, u)
  end) =
  ('(f, b) ←
    (match mp_elf m with
     | None => mret (None, false)
     | Some a =>
       e ← deref (cx_elfs c !! a);
       let relative_pc := pc -w mapping_bias m in
       '(sym, func_offset) ← fp_lookup_symbol e relative_pc;
       name ← name_at e sym;
       mret (Some (image_frame c e a pc relative_pc func_offset sym), is_stack_bottom_symbol name)
     end); mret (fp_finish u m pc allow lvl max f b)).
Proof.
  intros [He _ _ Hg]. rewrite He. unfold image_frame. rewrite Hg. destruct (mp_elf m) as [a|]; run.
  - destruct (deref _) as [e|]; run; [|done]. cbv zeta.
    destruct (fp_lookup_symbol _ _) as [[sym off]|]; run; [|done].
    destruct (name_at e sym) as [name|]; run; [|done]. unfold fp_finish.
    by repeat case_match.
  - unfold fp_finish. destruct allow; cbn [negb]; run; [|done]. by case_match.
Qed.

(** One iteration is a fresh resolution of its pc. *)
Lemma fp_step_reference horizon c u m pid arr pc allow lvl max :
  settled horizon c pid arr -> same_view c (uw_ctx u) -> uw_pid u = Some pid ->
  kept_mapping c arr m -> (cx_ticks (uw_ctx u) + 2 <= horizon)%nat -> pc <> 0 ->
  exists u1 m1, lookup_frame u u1 /\ uw_pid u1 = Some pid /\ same_view c (uw_ctx u1) /\
    uw_info u1 = uw_info u /\ (cx_ticks (uw_ctx u1) <= cx_ticks (uw_ctx u) + 2)%nat /\
    kept_mapping c arr m1 /\
    fp_step u m pc allow lvl max =
      ('(f, b) ← fp_frame c arr pc; mret (fp_finish u1 m1 pc allow lvl max f b)).
Proof.
  intros Hset Hv Hpid [Hrl Hk] Hh Hpc. pose proof Hset as [_ [l Hl]]. unfold fp_step, fp_frame.
  destruct (Z.eqb_spec pc 0); [done|]. destruct (in_mapping m pc) eqn:Ein.
  - destruct (Hk pc Ein) as ((ret & x & Hs & Hret) & Hget). exists u, m.
    split_and!; try done; [lia|]. rewrite Hs. run. destruct (Z.leb_spec 0 ret); [|lia].
    rewrite Hget. run. apply (fp_report u m pc allow lvl max c Hv).
  - destruct (search_total arr l pc Hl) as (ret & it & x & Hs). rewrite Hs. run.
    destruct (search_settled horizon (uw_ctx u) pid arr (uw_info u) pc ret it x) as (c' & Es & Hv' & Ht);
      [by eapply settled_view|lia|done|].
    unfold search_mapping. rewrite Hpid, Hrl, Es. run. set (u1 := with_process u _ _ _).
    assert (Hv1 : same_view c (uw_ctx u1)) by (by etrans).
    assert (Hm1 : cx_maps (uw_ctx u1) = cx_maps c) by apply Hv1.
    destruct (Z.leb_spec 0 ret).
    + unfold open_mapping. cbn [mp_item mp_reloaded].
      replace (gu_get_elf_ctx_from_item (uw_ctx u1) it) with (gu_get_elf_ctx_from_item c it)
        by (unfold gu_get_elf_ctx_from_item; by rewrite Hm1).
      destruct (gu_get_elf_ctx_from_item c it) as [[elf v]|w] eqn:Eg; run.
      * exists u1, (mk_mapping it elf v false). split_and!; try done; [|].
        -- split; [done|]. intros pc' Hin. split; [|done]. cbn [mp_item].
           destruct (search_again arr l pc pc' ret it x Hl Hs) as (r' & x' & ? & ?); [done| |by eauto].
           unfold in_mapping in Hin. unfold item_contains. cbn in Hin.
           apply andb_true_iff in Hin as [Hin ->]. by apply andb_true_iff in Hin as [_ ->].
        -- apply (fp_report u1 (mk_mapping it elf v false) pc allow lvl max c Hv1).
      * exists u1, no_mapping. split_and!; try done.
    + run. exists u1, (mk_mapping it None (mp_exec_virt_addr m) false). split_and!; try done; [|].
      * split; [done|]. intros pc' Hin. unfold gu_interval_array_search in Hs.
        destruct (search_gen_holds arr l pc false Hl) as [[Hs' _]|(i & y & _ & _ & Hs')];
          rewrite Hs' in Hs; simplify_eq; try done; lia.
      * unfold fp_finish. by destruct allow; cbn [negb]; run; try case_match.
Qed.

(** The loop from pc number [k] of the list on; [pcs] are the pcs left. *)
Lemma fp_loop_reference horizon c pid arr allow max fp :
  settled horizon c pid arr -> (Z.to_nat max <= length fp)%nat ->
  forall budget u m pc pcs k, same_view c (uw_ctx u) -> uw_pid u = Some pid -> kept_mapping c arr m ->
  (cx_ticks (uw_ctx u) + 2 * budget <= horizon)%nat -> ustack_fp (uw_info u) = fp ->
  1 <= k <= max -> max - k < Z.of_nat budget -> fp !! Z.to_nat (k - 1) = Some pc ->
  pcs = take (Z.to_nat (max - k)) (drop (Z.to_nat k) fp) ->
  match fp_reference c arr allow (pc :: pcs) with
  | Undef w => fp_loop budget u m pc allow k max = Undef w
  | Done (reason, fs) => exists n u', fp_loop budget u m pc allow k max = Done (reason, Z.of_nat n, u') /\
      reported u u' fs /\ uw_info u' = uw_info u /\ same_view c (uw_ctx u') /\
      (length fs <= budget - n <= S (length fs))%nat /\ (n < budget)%nat
  end.
Proof.
  intros Hset Hmax. induction budget as [|budget IH];
    intros u m pc pcs k Hv Hpid Hm Hh Hfp Hk Hb Hpc Hpcs; [lia|]. cbn [fp_loop fp_reference].
  destruct (Z.eqb_spec pc 0) as [->|Hne].
  { exists budget, u. unfold fp_step. run. unfold reported. rewrite app_nil_r.
    split_and!; try done; cbn [length]; lia. }
  destruct (fp_step_reference horizon c u m pid arr pc allow k max)
    as (u1 & m1 & [_ Hf1 _ _] & Hpid1 & Hv1 & Hi1 & Ht1 & Hm1 & ->); [done..|lia|done|].
  destruct (fp_frame c arr pc) as [[f bottom]|w]; run; [|done].
  assert (Hnext : forall f, (max <=? k) = false ->
    match fp_reference c arr allow pcs with
    | Undef w => (pc ← of_opt (ustack_fp (uw_info (emit u1 f)) !! Z.to_nat k);
                  fp_loop budget (emit u1 f) m1 pc allow (k + 1) max) = Undef w
    | Done (reason, fs) => exists n u',
      (pc ← of_opt (ustack_fp (uw_info (emit u1 f)) !! Z.to_nat k);
       fp_loop budget (emit u1 f) m1 pc allow (k + 1) max) = Done (reason, Z.of_nat n, u') /\
      reported u u' (f :: fs) /\ uw_info u' = uw_info u /\ same_view c (uw_ctx u') /\
      (S (length fs) <= S budget - n <= S (S (length fs)))%nat /\ (n < S budget)%nat
    end).
  { intros fr Hlt. apply Z.leb_gt in Hlt.
    destruct (lookup_lt_is_Some_2 fp (Z.to_nat k)) as [pc' Hpc']; [lia|].
    assert (Hp : pcs = pc' :: take (Z.to_nat (max - (k + 1))) (drop (Z.to_nat (k + 1)) fp)).
    { rewrite Hpcs. replace (Z.to_nat (max - k)) with (S (Z.to_nat (max - (k + 1)))) by lia.
      rewrite (drop_S fp pc') by done. cbn [take]. by replace (Z.to_nat (k + 1)) with (S (Z.to_nat k)) by lia. }
    cbn [uw_info emit]. rewrite Hi1, Hfp, Hpc'. run. rewrite Hp.
    assert (Hlook : fp !! Z.to_nat (k + 1 - 1) = Some pc') by (by rewrite Z.add_simpl_r).
    assert (Hti : (cx_ticks (uw_ctx (emit u1 fr)) + 2 * budget <= horizon)%nat) by (cbn; lia).
    assert (Hfpi : ustack_fp (uw_info (emit u1 fr)) = fp) by (cbn; by rewrite Hi1).
    specialize (IH (emit u1 fr) m1 pc' (take (Z.to_nat (max - (k + 1))) (drop (Z.to_nat (k + 1)) fp))
      (k + 1) Hv1 Hpid1 Hm1 Hti Hfpi ltac:(lia) ltac:(lia) Hlook eq_refl).
    destruct (fp_reference c arr allow _) as [[r fs]|w]; [|exact IH].
    destruct IH as (n & u' & E & Hrep & Hi & Hv' & Hn & Hnb).
    exists n, u'. split; [exact E|]. unfold reported in *. cbn [uw_frames uw_info emit] in Hrep, Hi.
    split_and!; [by rewrite Hrep, Hf1, <- app_assoc|by rewrite Hi|done|lia..]. }
  assert (Hlast : forall f reason, exists n u', @Done (gu_unwind_reason * Z * uw_state)
      (reason, Z.of_nat budget, emit u1 f) = Done (reason, Z.of_nat n, u') /\
      reported u u' [f] /\ uw_info u' = uw_info u /\ same_view c (uw_ctx u') /\
      (1 <= S budget - n <= 2)%nat /\ (n < S budget)%nat).
  { intros fr reason. exists budget, (emit u1 fr). unfold reported. cbn. rewrite Hf1, Hi1.
    split_and!; try done; lia. }
  assert (Hend : (max <=? k) = true -> pcs = []).
  { intros Hle. apply Z.leb_le in Hle. rewrite Hpcs. by replace (Z.to_nat (max - k)) with 0%nat by lia. }
  unfold fp_finish. destruct f as [f|]; [destruct bottom|destruct allow]; cbn [negb].
  - run. apply Hlast.
  - destruct (max <=? k) eqn:Emax.
    + rewrite (Hend eq_refl). cbn [fp_reference]. run. apply Hlast.
    + specialize (Hnext f eq_refl). run. destruct (fp_reference c arr allow pcs) as [[r fs]|w]; run; exact Hnext.
  - destruct (max <=? k) eqn:Emax.
    + rewrite (Hend eq_refl). cbn [fp_reference]. run. apply Hlast.
    + specialize (Hnext (mk_gu_frame_record pc pc 0 0 0 GU_FRAME_ANON_EXEC) eq_refl). run.
      destruct (fp_reference c arr true pcs) as [[r fs]|w]; run; exact Hnext.
  - run. exists budget, u1. unfold reported. rewrite app_nil_r, Hf1.
    split_and!; try done; cbn [length]; lia.
Qed.
End fp_reference.

(** ** Properties *)

Lemma fp_reference_reason {HE : Env} c arr allow pcs r fs :
  fp_reference c arr allow pcs = Done (r, fs) ->
  r = GU_UNWIND_REASON_END_OF_STACK \/ r = GU_UNWIND_REASON_NO_EXEC_PC.
Proof.
  revert r fs. induction pcs as [|pc pcs IH]; intros r fs; cbn [fp_reference].
  { intros [= <- <-]. by left. }
  destruct (pc =? 0); [intros [= <- <-]; by left|].
  destruct (fp_frame c arr pc) as [[[f|] bottom]|]; run; [destruct bottom| |done].
  - intros [= <- <-]. by left.
  - destruct (fp_reference c arr allow pcs) as [[r' fs']|]; run; [|done]. intros [= <- <-]. by eapply IH.
  - destruct allow; cbn [negb]; [|intros [= <- <-]; by right].
    destruct (fp_reference c arr true pcs) as [[r' fs']|]; run; [|done]. intros [= <- <-]. by eapply IH.
Qed.


(** A process with one image: [work] and [_start], mapped at [0x401000]. *)
Definition sample_symbols : interval_array :=
  mk_interval_array (Some [mk_item 0x1000 0x1010 0x500; mk_item 0x1010 0x1020 0x510]) None 2
    INTERVAL_ARRAY_TYPE_U32 0x1000 0x1020.
Definition sample_elf : per_elf_ctx :=
  mk_elf [1; 2; 3] false (Some sample_symbols)
    (<[0x500 := "work"%string]> (<[0x510 := "_start"%string]> ∅)) (Some sample_cfi)
    (replicate 64 empty_entry) 0 1 0x1000 [mk_range 0x1000 0x2000 0] false 0.
Definition sample_maps : interval_array :=
  mk_interval_array (Some [mk_item 0x401000 0x402000 0x200]) None 1 INTERVAL_ARRAY_TYPE_U32
    0x401000 0x402000.
Definition sample_pid : per_pid_ctx :=
  mk_pid 0x1000 (Some sample_maps) 42 EmptyString false false 7 1 5000 1 None.
Definition sample_ctx : gu_context :=
  mk_ctx {[ 0x100 := sample_elf ]} {[ 0x200 := mk_map 0x100 0x1000 ]} {[ 42 := sample_pid ]} 0 false
    false false (mk_gu_statistics 1 1 1 1 0 0 0 0 0 0 0 0 0 0) [] 0.
Definition sample_now : 0 <= 1000 < 2 ^ 63.
Proof. split; lia. Defined.
Definition sample_env : Env := still_env 1000 sample_now.

Lemma sample_maps_holds : array_holds sample_maps [mk_item 0x401000 0x402000 0x200].
Proof.
  split; try done; [|by left]. split; [by repeat constructor|]. repeat constructor.
Qed.

Lemma sample_settled : settled (HE := sample_env) 1000 sample_ctx 42 sample_maps.
Proof.
  split; [|eexists; apply sample_maps_holds]. exists sample_pid. split; [done|]. split; [done|].
  split; [done|]. by intros n _.
Qed.

Definition fp_info : gu_stack_info :=
  mk_gu_stack_info 42 0 7 (Some []) 0 0 ([0x401004; 0x401014] ++ replicate 126 0) 2 None.
Definition start_state (c : gu_context) (pid : Z) (info : gu_stack_info) : uw_state :=
  mk_uw c (Some pid) info [] (mk_scratch [] [] [] []) empty_heap no_oor.


(** ** Properties of the DWARF walk *)

(** One step of the loop that goes on. *)
Definition walk_next {HA : Arch} {HE : Env} {HQ : Qsort} page_size verbose heap_ok depth raw_sp
    (x y : uw_state * walk) : Prop :=
  exists r, walk_step page_size verbose heap_ok depth raw_sp x.1 x.2 = Done (WNext r y.2, y.1).

(** C23: the walk always advances.  However many iterations separate two of its
    states, the stack pointer of the later one is strictly higher, so no state
    repeats; its pc is not zero, and each iteration reported exactly one frame. *)
Theorem walk_makes_progress {HA : Arch} {HE : Env} {HQ : Qsort} page_size verbose heap_ok depth raw_sp
    n x y :
  wk_prev_sp x.2 = wk_sp x.2 ->
  nsteps (walk_next page_size verbose heap_ok depth raw_sp) (S n) x y ->
  wk_sp x.2 < wk_sp y.2 /\ wk_pc y.2 <> 0 /\
  length (uw_frames y.1) = (length (uw_frames x.1) + S n)%nat.
Proof.
  intros Hx. revert x Hx. induction n as [|n IH]; intros x Hx Hs.
  - apply nsteps_once_inv in Hs as [r Hr]. apply walk_step_spec in Hr as (_ & fs & Hrep & _ & _ & Hn).
    destruct Hn as (_ & Hl & Hsp & _ & _ & Hpc & _). rewrite Hrep, length_app, Hl. split_and!; [lia|done|lia].
  - inversion Hs as [|? ? z ? [r Hr] Hrest]; subst. apply walk_step_spec in Hr as (_ & fs & Hrep & _ & _ & Hn).
    destruct Hn as (_ & Hl & Hsp & Heq & _). destruct (IH z Heq Hrest) as (Hsp' & Hpc & Hlen).
    rewrite Hlen, Hrep, length_app, Hl. split_and!; [lia|done|lia].
Qed.


(** C25: the frames appended from saved frame pointers are the chain the captured
    stack holds: after the current pc (reported only when its mapping is
    anonymous), their pcs are a prefix of the return addresses found by following
    8-byte aligned, strictly increasing saved frame pointers through the
    captured words; the reason becomes [END_OF_STACK] exactly when some frame
    was appended. *)
Theorem fp_tail_follows_chain {HA : Arch} {HE : Env} {HQ : Qsort} page_size u raw_sp bp pc append reason n r u' :
  readable page_size (uw_info u) raw_sp bp ->
  gu_unwind_dwarf_tail_by_fp page_size u raw_sp bp pc append reason = Done (n, r, u') ->
  exists cur fs, reported u u' (cur ++ fs) /\ n = Z.of_nat (length (cur ++ fs)) /\
    (forall f, f ∈ cur -> append = true /\ fr_abs_pc f = pc) /\ (length cur <= 1)%nat /\
    fr_abs_pc <$> fs = take (length fs) (saved_pcs page_size 127 (uw_info u) raw_sp bp) /\
    r = (if decide (n = 0) then reason else GU_UNWIND_REASON_END_OF_STACK).
Proof.
  intros Hr E. apply tail_spec in E as (cur & fs & Hrep & Hn & _ & Hcur & Hl & _ & Hres & Hpcs).
  exists cur, fs. split_and!; auto. rewrite Hres. destruct (decide (cur ++ fs = [])) as [E|E].
  - by rewrite decide_True by (by rewrite Hn, E).
  - rewrite decide_False; [done|]. intros ->. apply E, nil_length_inv. lia.
Qed.

(** ** Sample runs *)

(** A snapshot in [work] after its prologue, with the given words on the stack
    from [0x7fff0000]; [rsp] is [0x7fff0008], [rbp] is [0x7fff0010]. *)
Definition stack_words (l : list Z) : list Z := l ≫= le_bytes 8.
Definition frame_info (words : list Z) : gu_stack_info :=
  mk_gu_stack_info 42 (8 * Z.of_nat (length words)) 7
    (Some (<[19%nat := 0x7fff0008]> (<[16%nat := 0x401006]> (<[4%nat := 0x7fff0010]> (replicate 21 0)))))
    168 0 (replicate 128 0) 0 (Some (stack_words words)).
Definition sample_run (verbose : bool) (words : list Z) : outcome (Z * uw_state) :=
  gu_unwind_dwarf (HA := linux_x86_64) (HE := sample_env) (HQ := merge_qsort) 4096 verbose (fun _ => true) 1
    (start_state sample_ctx 42 (frame_info words)).
Definition frames_of (m : outcome (Z * uw_state)) : list (Z * Z) :=
  match m with Done (_, u) => (fun f => (fr_abs_pc f, fr_symbol f)) <$> uw_frames u | Undef _ => [] end.

(** [work] called itself twice from the same place before [_start] called it. *)
Definition recursion_words : list Z :=
  [0; 0; 0x7fff0030; 0x401006; 0; 0; 0x7fff0050; 0x401006; 0; 0; 0x7fff0070; 0x401014; 0; 0; 0; 0].
(** [work] was called by the last instruction of another [work] frame. *)
Definition last_call_words : list Z :=
  [0; 0; 0x7fff0030; 0x401010; 0; 0; 0x7fff0050; 0x401014; 0; 0; 0; 0; 0; 0; 0; 0].

Lemma frame_info_ok words :
  (length words <= 512)%nat -> snapshot_ok (H := linux_x86_64) (frame_info words).
Proof.
  intros Hl. assert (Hlen : Z.of_nat (length (stack_words words)) = 8 * Z.of_nat (length words)).
  { induction words as [|w ws IH]; [done|]. unfold stack_words in *. cbn in Hl.
    rewrite bind_cons, length_app, length_le_bytes, Nat2Z.inj_add, IH by lia. cbn [length]. lia. }
  split.
  - eexists. split_and!; [done|done|]. apply (bool_decide_unpack _). vm_compute. done.
  - unfold in_width. cbn. lia.
  - exists (stack_words words). split_and!; [done| |exact Hlen]. clear. unfold stack_words.
    induction words as [|w ws IH]; [constructor|]. rewrite bind_cons. apply Forall_app_2; [apply le_bytes_ok|done].
Qed.


(** The frames reported depend on the log level.  [loop_count] is only
    incremented by an argument of [GU_VERBOSE], so without verbose logging every
    return address is looked up as if it were a sampled pc: a call that ends its
    function is attributed to the next function, here [_start], and the walk
    stops one frame early. *)
Theorem log_level_changes_frames :
  frames_of (sample_run true last_call_words) =
    [(0x401006, 0x500); (0x401010, 0x500); (0x401014, 0x510)] /\
  frames_of (sample_run false last_call_words) = [(0x401006, 0x500); (0x401010, 0x510)].
Proof. split; vm_compute; reflexivity. Qed.

Definition first_walk : walk := mk_walk 0x401006 0x7fff0008 0x7fff0008 0 no_mapping 0 false.

Lemma walk_makes_progress_witness :
  exists u1 w1, walk_next (HA := linux_x86_64) (HE := sample_env) (HQ := merge_qsort) 4096 false
      (fun _ => true) 1 0x7fff0008
      (start_state sample_ctx 42 (frame_info recursion_words), first_walk) (u1, w1) /\
    0x7fff0008 < wk_sp w1 /\ length (uw_frames u1) = 1%nat.
Proof.
  destruct (walk_step (HA := linux_x86_64) (HE := sample_env) (HQ := merge_qsort) 4096 false (fun _ => true) 1
    0x7fff0008 (start_state sample_ctx 42 (frame_info recursion_words)) first_walk)
    as [[[|r w1] u1]|] eqn:E; [vm_compute in E; done| |vm_compute in E; done].
  assert (Hs : walk_next (HA := linux_x86_64) (HE := sample_env) (HQ := merge_qsort) 4096 false
    (fun _ => true) 1 0x7fff0008 (start_state sample_ctx 42 (frame_info recursion_words), first_walk) (u1, w1))
    by (exists r; exact E).
  exists u1, w1. split; [exact Hs|].
  destruct (walk_makes_progress (HA := linux_x86_64) (HE := sample_env) (HQ := merge_qsort) 4096 false
    (fun _ => true) 1 0x7fff0008 0 _ _ (eq_refl : wk_prev_sp (_, first_walk).2 = _) (nsteps_once _ _ Hs))
    as (Hsp & _ & Hl).
  split; [exact Hsp|exact Hl].
Defined.


Lemma fp_tail_follows_chain_witness :
  exists n r u' fs, gu_unwind_dwarf_tail_by_fp (HE := sample_env) (HQ := merge_qsort) 4096
      (start_state sample_ctx 42 (frame_info recursion_words)) 0x7fff0008 0x7fff0010 0 false
      GU_UNWIND_REASON_NO_CFI = Done (n, r, u') /\
    reported (start_state sample_ctx 42 (frame_info recursion_words)) u' fs /\
    n = Z.of_nat (length fs).
Proof.
  destruct (gu_unwind_dwarf_tail_by_fp (HE := sample_env) (HQ := merge_qsort) 4096
      (start_state sample_ctx 42 (frame_info recursion_words)) 0x7fff0008 0x7fff0010 0 false
      GU_UNWIND_REASON_NO_CFI) as [[[n r] u']|w] eqn:E; [|vm_compute in E; done].
  assert (Hr : readable (HA := linux_x86_64) 4096 (frame_info recursion_words) 0x7fff0008 0x7fff0010)
    by (split; [apply frame_info_ok; vm_compute; lia|split_and!; [lia|word|word]]).
  destruct (fp_tail_follows_chain (HA := linux_x86_64) (HE := sample_env) (HQ := merge_qsort) 4096
    (start_state sample_ctx 42 (frame_info recursion_words)) 0x7fff0008 0x7fff0010 _ _ _ _ _ _
    Hr E) as (cur & fs & Hrep & Hn & _).
  exists n, r, u', (cur ++ fs). split; [done|]. split; [exact Hrep|exact Hn].
Defined.
