(* ===== verification/Typed.v ===== *)
(** * Types of the registers of an unwound frame

    The C code keeps registers in 64-bit words; here they are integers, so that
    they stay in the range of the machine is a theorem.  The values [gen_reg]
    computes and the unwinder writes back are 64-bit words, and the snapshot
    keeps a complete register block. *)

From S2P Require Import Prelude Types IntervalArray Arch CfiProgram CfiOps Cfi CfiParse DwarfEval Frame Context Unwind.

Lemma gen_reg_typed `{Arch} page_size info bias raw_sp d s regno o :
  snapshot_ok info -> 0 < page_size -> is_u64 raw_sp -> scratch_ok s ->
  match gen_reg page_size info bias raw_sp (S d) s regno o with
  | Done (reason, v, _) => (reason = GU_UNWIND_REASON_OK <-> is_Some v) /\ forall x, v = Some x -> is_u64 x
  | Undef f => f = SignedOverflow
  end.
Proof.
  intros Hi Hp Hsp Hs. rewrite gen_reg_eq_slow by done. unfold gen_reg_slow.
  destruct (gu_cfi_get_ops s (trans_reg_type regno) false) as [ops|] eqn:E; [|by run].
  pose proof (ops_eval_ok page_size info bias raw_sp Hi Hp Hsp (cfa_ops s) d ops no_oor (scratch_cfa s Hs) (scratch_no_cycle s Hs)
    (get_ops_ok _ _ _ _ Hs E)) as Hok.
  destruct (gu_dwarf_ops_eval _ _ _ _ _ _ _ _) as [[[v|] o']|u]; run; [| |exact Hok].
  - destruct Hok as [Hv _]. split; [by split; eauto|]. by intros x [= <-].
  - split; [|done]. split; [by destruct (stack_read_out_of_range o')|by intros []].
Qed.

Lemma known_registers `{Arch} :
  0 <= reg_name_rip < reg_count /\ 0 <= reg_name_rsp < reg_count /\ 0 <= reg_name_rbp < reg_count /\ 0 <= pc_regno < reg_count.
Proof.
  pose proof reg_names_range as Hr. rewrite Forall_app in Hr. destruct Hr as [Hr Hlr].
  rewrite !Forall_cons in Hr. destruct Hr as (H1 & H2 & H3 & _). split_and!; try lia; unfold pc_regno;
    destruct reg_name_lr as [lr|]; cbn in *; rewrite ?Forall_singleton in Hlr; lia.
Qed.

Lemma rsp_not_pc `{Arch} : reg_name_rsp <> pc_regno.
Proof.
  pose proof reg_names_distinct as Hd. unfold pc_regno. destruct reg_name_lr as [lr|]; cbn in *; rewrite !NoDup_cons in Hd; set_solver.
Qed.

Lemma snapshot_with_regs `{Arch} info info' :
  snapshot_ok info -> regs_ok info' -> info' = with_regs info (regs info') -> snapshot_ok info'.
Proof. intros [_ Hsize Hstack] Hregs E. rewrite E in Hregs |- *. by split. Qed.

Section typed.
Context {HA : Arch}.
Context (page_size : Z) (d : nat) (bias raw_sp : Z).
Hypothesis Hpage : 0 < page_size.
Hypothesis Hsp : is_u64 raw_sp.

(** The state a frame is unwound in. *)
Definition typed_state (u : uw_state) : Prop := snapshot_ok (uw_info u) /\ scratch_ok (uw_scratch u).

Lemma walk_write_typed u regno v :
  typed_state u -> is_u64 v -> 0 <= regno < reg_count ->
  exists u', walk_write u regno v = Done u' /\ typed_state u' /\ get_regs (uw_info u') regno = Done (Some v) /\
    forall r, r <> regno -> get_regs (uw_info u') r = get_regs (uw_info u) r.
Proof.
  intros [Hi Hs] Hv Hr. unfold walk_write. pose proof (snap_regs _ Hi) as Hregs.
  destruct (write_regs_ok (uw_info u) regno v Hregs Hv Hr) as (info' & E & Hok & Hw).
  destruct (write_regs_get_regs (uw_info u) regno v Hregs Hv Hr) as (info'' & E' & H1 & H2 & _). rewrite E in E' |- *. injection E' as <-.
  run. eexists. split; [done|]. split; [|done]. split; [by eapply snapshot_with_regs|done].
Qed.

Lemma walk_reg_typed u regno :
  typed_state u ->
  match walk_reg page_size (S d) u bias raw_sp regno with
  | Done (reason, v, u') => typed_state u' /\ (reason = GU_UNWIND_REASON_OK <-> is_Some v) /\ (forall x, v = Some x -> is_u64 x) /\ uw_info u' = uw_info u
  | Undef f => f = SignedOverflow
  end.
Proof.
  intros [Hi Hs]. unfold walk_reg.
  pose proof (gen_reg_typed page_size (uw_info u) bias raw_sp d (uw_scratch u) regno (uw_oor u) Hi Hpage Hsp Hs) as Hg.
  destruct (gen_reg _ _ _ _ _ _ _ _) as [[[reason v] o]|f]; run; [|done]. by destruct Hg.
Qed.

(** The registers of the caller. *)
Definition caller_typed (m : outcome ((gu_unwind_reason + gu_unwind_reason * Z * Z) * uw_state)) : Prop :=
  match m with
  | Done (inl _, u') => typed_state u'
  | Done (inr (_, ra, sp), u') => typed_state u' /\ is_u64 ra /\ is_u64 sp
  | Undef f => f = SignedOverflow
  end.

Lemma walk_registers_typed u initial : typed_state u -> caller_typed (walk_registers page_size (S d) u bias raw_sp initial).
Proof.
  intros Hu. unfold walk_registers. pose proof (walk_reg_typed u pc_regno Hu) as H1.
  destruct (walk_reg page_size (S d) u bias raw_sp pc_regno) as [[[r1 ra] u1]|f]; run; [|done].
  destruct H1 as (Hu1 & _ & Hra & _).
  assert (Hra' : exists ra', (if decide (r1 = GU_UNWIND_REASON_OK) then mret ra else
      if initial then get_regs (uw_info u1) pc_regno else mret None) = Done ra' /\ forall x, ra' = Some x -> is_u64 x).
  { case_decide; [by exists ra|]. destruct initial; [|by exists None].
    destruct (get_regs_ok (uw_info u1) pc_regno (snap_regs _ (proj1 Hu1))) as (r & -> & Hr & _). exists r. split; [done|].
    intros x Hx. by apply Hr. }
  destruct Hra' as (ra' & -> & Hra'). run. destruct ra' as [ra'|]; [|exact Hu1]. specialize (Hra' _ eq_refl).
  pose proof (walk_reg_typed u1 reg_name_rsp Hu1) as H2.
  destruct (walk_reg page_size (S d) u1 bias raw_sp reg_name_rsp) as [[[r2 sp] u2]|f]; run; [|done].
  destruct H2 as (Hu2 & _ & Hsp2 & _). destruct sp as [sp|]; [|exact Hu2]. specialize (Hsp2 _ eq_refl).
  pose proof (walk_reg_typed u2 reg_name_rbp Hu2) as H3.
  destruct (walk_reg page_size (S d) u2 bias raw_sp reg_name_rbp) as [[[r3 bp] u3]|f]; run; [|done].
  destruct H3 as (Hu3 & _ & Hbp & _). destruct bp as [bp|]; [|done].
  destruct (walk_write_typed u3 reg_name_rbp bp Hu3 (Hbp _ eq_refl)) as (u4 & -> & Hu4 & _); [apply known_registers|]. by run.
Qed.
End typed.

(** ** Properties *)

(** C2: unwinding one frame keeps the types of the machine.  From a snapshot with
    a complete block of 64-bit registers and a row with operands in range,
    recovering the caller's registers is defined, but for the negation of the
    least integer; the return address and the stack pointer found are 64-bit
    words, and writing them back as the walk does succeeds, leaves a complete
    block of 64-bit registers, and each is read back as written. *)
Theorem caller_registers_typed {HA : Arch} page_size d bias raw_sp u initial :
  0 < page_size -> is_u64 raw_sp -> snapshot_ok (uw_info u) -> scratch_ok (uw_scratch u) ->
  match walk_registers page_size (S d) u bias raw_sp initial with
  | Done (inl _, u') => snapshot_ok (uw_info u')
  | Done (inr (_, ra, sp), u') => is_u64 ra /\ is_u64 sp /\
      exists u1 u2, walk_write u' reg_name_rsp sp = Done u1 /\ walk_write u1 pc_regno ra = Done u2 /\
        snapshot_ok (uw_info u2) /\ get_regs (uw_info u2) reg_name_rsp = Done (Some sp) /\ get_regs (uw_info u2) pc_regno = Done (Some ra)
  | Undef f => f = SignedOverflow
  end.
Proof.
  intros Hp Hsp Hi Hs. pose proof (walk_registers_typed page_size d bias raw_sp Hp Hsp u initial (conj Hi Hs)) as Ht.
  destruct (walk_registers _ _ _ _ _ _) as [[[reason|[[reason ra] sp]] u']|f]; [apply Ht| |done].
  destruct Ht as (Hu & Hra & Hsp'). split; [done|]. split; [done|].
  destruct (walk_write_typed u' reg_name_rsp sp Hu Hsp') as (u1 & E1 & Hu1 & G1 & _); [apply known_registers|].
  destruct (walk_write_typed u1 pc_regno ra Hu1 Hra) as (u2 & E2 & Hu2 & G2 & G3); [apply known_registers|].
  exists u1, u2. split; [done|]. split; [done|]. split; [apply Hu2|]. split; [|done]. by rewrite G3 by apply rsp_not_pc.
Qed.

(** A row that gives the caller's registers as the stack pointer plus 16. *)
Definition plus16 : list Dwarf_Op := [mk_op DW_OP_bregx 7 16 0].
Lemma plus16_ok : scratch_ok (mk_scratch plus16 plus16 plus16 plus16).
Proof.
  assert (Hop : Forall is_op plus16) by (apply Forall_singleton, bregx_op; word).
  split; [by intros []|done|by apply Forall_singleton].
Qed.

Definition no_context : gu_context := gu_init false false false.
Definition typed_sample : uw_state :=
  mk_uw no_context None sample_info [] (mk_scratch plus16 plus16 plus16 plus16) empty_heap no_oor.

Lemma caller_registers_typed_witness :
  exists ra sp u' u1 u2,
    walk_registers (HA := linux_x86_64) 4096 1 typed_sample 0 0x7fff0008 true = Done (inr (GU_UNWIND_REASON_OK, ra, sp), u') /\
    is_u64 ra /\ is_u64 sp /\
    walk_write (HA := linux_x86_64) u' 7 sp = Done u1 /\ walk_write (HA := linux_x86_64) u1 16 ra = Done u2 /\
    snapshot_ok (H := linux_x86_64) (uw_info u2).
Proof.
  pose proof (caller_registers_typed (HA := linux_x86_64) 4096 0 0 0x7fff0008 typed_sample true) as H.
  destruct (walk_registers (HA := linux_x86_64) 4096 1 typed_sample 0 0x7fff0008 true) as [[[reason|[[reason ra] sp]] u']|f] eqn:E;
    [vm_compute in E; discriminate| |vm_compute in E; discriminate].
  destruct H as (Hra & Hsp & u1 & u2 & E1 & E2 & Hok & _); [lia|word|apply sample_info_ok|apply plus16_ok|].
  exists ra, sp, u', u1, u2. split; [by vm_compute in E |- *; injection E as -> _ _ _|]. split_and!; done.
Defined.
