(* ===== verification/Session.v ===== *)
(** * Sessions: any sequence of public operations on one context

    A client creates a context, feeds it samples and events in any order, and
    destroys it.  This file composes the unwinder with the context operations:
    whatever the order and whatever the environment answers, the invariant
    holds, images named by reported frames are alive when the unwind returns,
    and destroying the context releases everything. *)

From stdpp Require Import strings relations.
From S2P Require Import Prelude Types IntervalArray Arch CfiProgram CfiOps DwarfEval Cfi CfiParse.
From S2P Require Import ElfRanges Maps Context ContextInv ContextSafe Unwind.

(** ** Images are never freed while a sample is unwound *)

(** What a client can read of an image. *)
Definition image_view (e : per_elf_ctx) : list Z * bool * option interval_array * gmap Z string * option gu_cfi :=
  (ec_build_id e, ec_golang e, ec_symbols e, ec_names e, ec_cfi e).

Definition keeps (c c' : gu_context) : Prop :=
  forall a e, cx_elfs c !! a = Some e -> exists e', cx_elfs c' !! a = Some e' /\ image_view e' = image_view e.

#[export] Instance keeps_preorder : PreOrder keeps.
Proof.
  split; [intros c a e He; eauto|]. intros c1 c2 c3 H1 H2 a e He.
  destruct (H1 a e He) as (e2 & He2 & V2). destruct (H2 a e2 He2) as (e3 & He3 & V3). exists e3. split; congruence.
Qed.

Lemma keeps_eq c c' : cx_elfs c' = cx_elfs c -> keeps c c'.
Proof. intros E a e He. exists e. by rewrite E. Qed.
Lemma keeps_update c c' a e e' :
  cx_elfs c !! a = Some e -> cx_elfs c' = <[a := e']> (cx_elfs c) -> image_view e' = image_view e -> keeps c c'.
Proof.
  intros Ha E V b f Hb. rewrite E. destruct (decide (a = b)) as [<-|].
  - exists e'. rewrite lookup_insert_eq. rewrite Ha in Hb. by injection Hb as <-.
  - exists f. by rewrite lookup_insert_ne.
Qed.

(** *** What loading and clearing mappings may do

    A relation closed under the updates the code between the process table and
    the image cache performs: counters, time, mappings, and images that are
    added or change only their bookkeeping. *)
Class Frame (R : relation gu_context) : Prop := {
  frame_pre :: PreOrder R;
  frame_stats f c : R c (on_stats f c);
  frame_ticks n c : R c (with_ticks c n);
  frame_next d c : R c (with_next_deadline c d);
  frame_maps m c : R c (with_maps c m);
  frame_update c a e e' : cx_elfs c !! a = Some e -> image_view e' = image_view e ->
    R c (with_elfs c (<[a := e']> (cx_elfs c)));
  frame_new c a e : cx_elfs c !! a = None -> R c (with_elfs c (<[a := e]> (cx_elfs c)));
}.

#[export] Instance keeps_frame : Frame keeps.
Proof.
  split; try (intros; by apply keeps_eq); [apply _| |].
  - intros c a e e' He V. by eapply keeps_update.
  - intros c a e He b f Hf. exists f. cbn. rewrite lookup_insert_ne; [done|]. intros ->. congruence.
Qed.

(** The process table and the events sent. *)
Definition same_table (c c' : gu_context) : Prop := cx_pids c' = cx_pids c /\ cx_events c' = cx_events c.
#[export] Instance same_table_frame : Frame same_table.
Proof.
  split; try (intros; by split).
  split; [by split|]. intros c1 c2 c3 [P1 E1] [P2 E2]. split; congruence.
Qed.

Section frame.
Context {HE : Env} {HQ : Qsort} (R : relation gu_context) {HR : Frame R}.

Lemma frame_step c c' c'' : R c c' -> R c' c'' -> R c c''.
Proof. intros. by etrans. Qed.

Lemma cache_now_frame c now c' : gu_cache_now_ns c = (now, c') -> R c c'.
Proof.
  unfold gu_cache_now_ns, gu_monotonic_ns.
  destruct (cx_timer_started c); [destruct (negb _)|]; intros [= <- <-]; unfold tick; repeat apply frame_ticks.
  eapply frame_step; apply frame_ticks.
Qed.

Lemma schedule_frame c p p' c' : gu_schedule_next_maps_reload c p = (p', c') -> R c c'.
Proof.
  unfold gu_schedule_next_maps_reload. destruct (gu_cache_now_ns c) as [now c1] eqn:E. apply cache_now_frame in E.
  unfold gu_maps_reload_random_u64, gu_monotonic_ns.
  destruct (pc_rand_state p =? 0); cbv zeta; intros [= <- <-]; [|done].
  eapply frame_step; [exact E|]. apply frame_ticks.
Qed.

Lemma retire_frame c a c' : gu_retire_elf_ctx c a = Done c' -> R c c'.
Proof.
  unfold gu_retire_elf_ctx. destruct (cx_elfs c !! a) as [e|] eqn:He; run; [|done].
  destruct (ec_retired e); [by intros [= <-]|].
  destruct (gu_cache_now_ns c) as [now c1] eqn:En. apply cache_now_frame in En as Hr.
  apply cache_now_core in En as [[E1 _ _ _ _ _ _] _].
  intros [= <-]. set (e' := with_retired e true _). set (c2 := on_stats _ (on_stats _ _)).
  assert (H2 : R c c2).
  { eapply frame_step; [exact Hr|]. eapply frame_step; [apply (frame_update c1 a e e'); [by rewrite E1|done]|].
    eapply frame_step; apply frame_stats. }
  destruct (_ || _); [|done]. eapply frame_step; [exact H2|]. apply frame_next.
Qed.

Lemma put_frame c a c' : gu_put_elf_ctx c a = Done c' -> R c c'.
Proof.
  unfold gu_put_elf_ctx. destruct (cx_elfs c !! a) as [e|] eqn:He; run; [|done].
  assert (H1 : R c (with_elfs c (<[a := with_refcnt e (decr (ec_refcnt e))]> (cx_elfs c)))) by (by eapply frame_update).
  destruct (_ =? 0); [|by intros [= <-]]. intros H%retire_frame. by etrans.
Qed.

Lemma unretire_frame c a b c' : gu_unretire_elf_ctx c a b = Done c' -> R c c'.
Proof.
  unfold gu_unretire_elf_ctx. destruct (cx_elfs c !! a) as [e|] eqn:He; run; [|done].
  destruct (ec_retired e); cbn [negb]; [|by intros [= <-]].
  intros [= <-]. eapply frame_step; [by apply (frame_update c a e (with_retired e false 0))|].
  destruct b; [eapply frame_step|]; apply frame_stats.
Qed.

Lemma load_elf_frame c file pid path r c' : load_elf c file pid path = Done (r, c') -> R c c'.
Proof.
  unfold load_elf, reuse_elf, insert_elf. assert (Ht : R c (tick c)) by apply frame_ticks.
  destruct (read_build_id _ _ _ _) as [id|]; [|by intros [= <- <-]].
  destruct (find_build_id (tick c) id) as [a|].
  - destruct (deref (cx_elfs (tick c) !! a)) as [e|]; run; [|done].
    match goal with |- (?m ≫= _) = _ -> _ => assert (Hm : forall c1, m = Done c1 -> R c c1) end.
    { intros c1. destruct (ec_retired e); [|by intros [= <-]].
      destruct (gu_unretire_elf_ctx (tick c) a true) as [c2|] eqn:Eu; run; [|done]. apply unretire_frame in Eu.
      intros [= <-]. eapply frame_step; [exact Ht|]. eapply frame_step; [exact Eu|]. apply frame_stats. }
    match goal with |- (?m ≫= _) = _ -> _ => destruct m as [c1|]; run; [|done] end. specialize (Hm _ eq_refl).
    destruct (cx_elfs c1 !! a) as [e1|] eqn:E1; run; [|done].
    intros [= <- <-]. eapply frame_step; [exact Hm|]. by apply (frame_update _ _ e1).
  - set (c1 := on_stats _ (tick c)).
    assert (H1 : R c (tick c1)).
    { eapply frame_step; [exact Ht|]. eapply frame_step; [apply frame_stats|apply frame_ticks]. }
    destruct (read_image _ _ _ _) as [im|]; [|by intros [= <- <-]].
    destruct (image_ranges _ im) as [ranges v].
    set (c2 := on_stats (add_tables im) (tick c1)).
    assert (H2 : R c (tick (tick c2))).
    { eapply frame_step; [exact H1|]. eapply frame_step; [apply frame_stats|].
      eapply frame_step; [apply frame_ticks|]. apply frame_ticks. }
    destruct (malloc_addr _ _) as [a|] eqn:Em.
    + intros [= <- <-]. destruct (malloc_fresh _ _ _ Em) as [Hfresh _].
      eapply frame_step; [exact H2|]. eapply frame_step; [|apply frame_stats]. apply (frame_new (tick (tick c2))).
      apply not_elem_of_dom. intros Hin. apply Hfresh, elem_of_union. by left.
    + intros [= <- <-]. eapply frame_step; [exact H2|]. apply frame_stats.
Qed.

Lemma alloc_map_frame c a v r c' : gu_alloc_elf_map_ctx c a v = Done (r, c') -> R c c'.
Proof.
  unfold gu_alloc_elf_map_ctx. assert (Ht : R c (tick c)) by apply frame_ticks.
  destruct (malloc_addr _ _); [|by intros [= <- <-]].
  destruct (deref _) as [e|]; run; [|done]. intros [= <- <-]. eapply frame_step; [exact Ht|]. apply frame_maps.
Qed.

Lemma clean_all_frame ps c c' : clean_all ps c = Done c' -> R c c'.
Proof.
  revert c. induction ps as [|p ps IH]; intros c; cbn [clean_all]; [by intros [= <-]|].
  unfold private_clean_elf_ctx. destruct (deref _) as [m|]; run; [|done].
  destruct (gu_put_elf_ctx c _) as [c1|] eqn:E; run; [|done]. apply put_frame in E. intros H%IH.
  eapply frame_step; [exact E|]. eapply frame_step; [|exact H]. apply frame_maps.
Qed.

Lemma load_maps_frame pid i maps items golang c ok items' golang' c' :
  load_maps pid i maps items golang c = Done (ok, items', golang', c') -> R c c'.
Proof.
  revert i items golang c. induction maps as [|m maps IH]; intros i items golang c; cbn [load_maps].
  { by intros [= <- <- <- <-]. }
  destruct (load_elf c _ _ _) as [[r c1]|] eqn:E1; run; [|done]. apply load_elf_frame in E1.
  destruct r as [a|]; [|intros H%IH; by etrans].
  destruct (deref _) as [e|]; run; [|done].
  destruct (gu_alloc_elf_map_ctx c1 a _) as [[r c2]|] eqn:E2; run; [|done]. apply alloc_map_frame in E2.
  destruct r as [p|]; [intros H%IH; by do 2 (etrans; [eassumption|])|].
  destruct (gu_put_elf_ctx c2 a) as [c3|] eqn:E3; run; [|done]. apply put_frame in E3.
  intros [= <- <- <- <-]. by do 2 (etrans; [eassumption|]).
Qed.

Lemma load_pid_frame c info r c' : gu_load_pid c info = Done (r, c') -> R c c'.
Proof.
  unfold gu_load_pid. destruct (cx_pids c !! _); [by intros [= <- <-]|].
  destruct (gu_get_maps_info _ _ _) as [[maps|]|]; run; [|intros [= <- <-]; apply frame_ticks|done].
  assert (H2 : R c (tick (tick c))) by (eapply frame_step; apply frame_ticks).
  assert (H3 : R c (tick (tick (tick c)))) by (eapply frame_step; [exact H2|apply frame_ticks]).
  destruct (malloc_ok _); cbn [negb]; [|by intros [= <- <-]].
  destruct (pid_block _); [|by intros [= <- <-]].
  destruct (load_maps _ _ _ _ _ _) as [[[[ok items] golang] c1]|] eqn:E1; run; [|done]. apply load_maps_frame in E1.
  assert (H1 : R c c1) by (eapply frame_step; [exact H3|]; eapply frame_step; [apply frame_stats|exact E1]).
  destruct ok; cbn [negb].
  2:{ unfold gu_cleanup_elf_map_items. destruct (clean_all _ c1) as [c2|] eqn:E2; run; [|done].
      apply clean_all_frame in E2. intros [= <- <-]. by etrans. }
  assert (H4 : R c (tick (tick c1))).
  { eapply frame_step; [exact H1|]. eapply frame_step; apply frame_ticks. }
  destruct (gu_interval_array_init _ _ items) as [items' [arr|]].
  - destruct (gu_schedule_next_maps_reload _ _) as [p c3] eqn:Es. apply schedule_frame in Es.
    intros [= <- <-]. eapply frame_step; [exact H4|]. eapply frame_step; [apply frame_ticks|exact Es].
  - unfold gu_cleanup_elf_map_items. destruct (clean_all _ (tick _)) as [c2|] eqn:E2; run; [|done].
    apply clean_all_frame in E2. intros [= <- <-]. by etrans.
Qed.

Lemma free_maps_frame ps c c' : free_maps ps c = Done c' -> R c c'.
Proof.
  revert c. induction ps as [|p ps IH]; intros c; cbn [free_maps]; [by intros [= <-]|].
  destruct (deref _); run; [|done]. intros H%IH. eapply frame_step; [|exact H]. apply frame_maps.
Qed.

(** Clearing an entry: everything but its removal from the table. *)
Lemma clear_pid_frame c pid c' :
  gu_clear_pid_ctx c pid = Done c' -> R (with_pids c (delete pid (cx_pids c))) c'.
Proof.
  unfold gu_clear_pid_ctx. destruct (deref _) as [p|]; run; [|done].
  destruct (pc_elf_ctx_list p); [|intros [= <-]; apply frame_stats].
  destruct (clean_all _ _) as [c1|] eqn:E; run; [|done]. apply clean_all_frame in E.
  intros H%free_maps_frame. eapply frame_step; [apply frame_stats|]. by etrans.
Qed.
End frame.

Section keeps.
Context {HE : Env} {HQ : Qsort}.

Lemma reload_keeps c pid info new info' c' :
  gu_reload_pid_ctx c pid info = Done (new, info', c') -> keeps c c'.
Proof.
  unfold gu_reload_pid_ctx. destruct (deref _) as [old|]; run; [|done].
  destruct (gu_clear_pid_ctx _ _) as [c1|] eqn:E1; run; [|done]. apply (clear_pid_frame keeps) in E1.
  destruct (gu_load_pid _ _) as [[r c2]|] eqn:E2; run; [|done]. apply (load_pid_frame keeps) in E2.
  assert (H : keeps c c2) by (etrans; [|exact E2]; etrans; [|exact E1]; by apply keeps_eq).
  destruct r; intros [= <- <- <-]; [|done]. etrans; [exact H|]. by apply keeps_eq.
Qed.

Lemma allowed_keeps c pid b c' : gu_maps_reload_allowed c pid = Done (b, c') -> keeps c c'.
Proof.
  unfold gu_maps_reload_allowed. destruct (deref _) as [p|]; run; [|done].
  set (s := if _ =? 0 then _ else _). assert (Hs : same_core c s.2).
  { subst s. destruct (_ =? 0); [|done]. destruct (gu_schedule_next_maps_reload c p) as [p1 c1] eqn:E.
    by apply schedule_spec in E as (Hc & _). }
  destruct s as [p1 c1]. destruct (gu_cache_now_ns _) as [now c2] eqn:En. apply cache_now_core in En as [[E2 _ _ _ _ _ _] _].
  destruct Hs as [E1 _ _ _ _ _ _]. cbn in E1, E2.
  destruct (_ <=? now); intros [= <- <-]; apply keeps_eq; cbn; congruence.
Qed.

Lemma search_keeps c p info pc reloaded ret it p' info' reloaded' c' :
  gu_search_pid_elf_ctx c p info pc reloaded = Done (ret, it, p', info', reloaded', c') -> keeps c c'.
Proof.
  unfold gu_search_pid_elf_ctx. destruct (deref p) as [pid|]; run; [|done].
  destruct (deref (cx_pids c !! pid)) as [px|]; run; [|done].
  destruct (gu_interval_array_search _ _) as [[[r1 it1] x1]|]; run; [|done].
  destruct ((0 <=? r1) || reloaded); [by intros [= <- <- <- <- <- <-]|].
  destruct (gu_maps_reload_allowed c pid) as [[allowed c1]|] eqn:E1; run; [|done]. apply allowed_keeps in E1.
  destruct allowed; cbn [negb]; [|by intros [= <- <- <- <- <- <-]].
  set (c2 := if cx_debug c1 then c1 else tick c1).
  assert (H2 : keeps c c2) by (etrans; [exact E1|]; unfold c2; destruct (cx_debug c1); [done|apply frame_ticks]).
  destruct (cx_debug c1 || _); cbn [negb]; [|by intros [= <- <- <- <- <- <-]].
  destruct (gu_reload_pid_ctx _ _ _) as [[[new i1] c3]|] eqn:E3; run; [|done]. apply reload_keeps in E3.
  assert (H3 : keeps c c3) by (etrans; [exact H2|]; etrans; [|exact E3]; by apply keeps_eq).
  destruct new as [np|]; [|by intros [= <- <- <- <- <- <-]].
  destruct (deref _) as [px'|]; run; [|done].
  destruct (pc_elf_ctx_list px'); [|by intros [= <- <- <- <- <- <-]].
  destruct (gu_interval_array_search _ _) as [[[? ?] ?]|]; run; [|done].
  by intros [= <- <- <- <- <- <-].
Qed.
End keeps.

(** ** The unwinder on a valid context *)

(** A reported frame names a live image and, when it has a symbol, a name that
    image owns; the frames of unknown pcs name none. *)
Definition frame_ok (c : gu_context) (f : gu_frame_record) : Prop :=
  (fr_elf_info f = 0 /\ fr_symbol f = 0) \/
  exists e, cx_elfs c !! fr_elf_info f = Some e /\ (fr_symbol f = 0 \/ is_Some (ec_names e !! fr_symbol f)).

Lemma frame_ok_keeps c c' f : keeps c c' -> frame_ok c f -> frame_ok c' f.
Proof.
  intros Hk [H|(e & He & Hs)]; [by left|right]. destruct (Hk _ _ He) as (e' & He' & V). exists e'. split; [done|].
  injection V as _ _ _ Hn _. by rewrite Hn.
Qed.

(** The state an unwind works on: the entry is that of the sampled process. *)
Record uw_ok (u : uw_state) : Prop := {
  uo_ctx : ctx_ok (uw_ctx u);
  uo_pid q : uw_pid u = Some q -> q = si_pid (uw_info u) /\ is_Some (cx_pids (uw_ctx u) !! q);
}.

(** The ways the context changes during an unwind: a search of the sampled
    process, which may reload it, and the parse cache of an image. *)
Inductive inner_step {HE : Env} {HQ : Qsort} : gu_context -> gu_context -> Prop :=
  | inner_search c info pc reloaded ret it p info' reloaded' c' :
      gu_search_pid_elf_ctx c (Some (si_pid info)) info pc reloaded = Done (ret, it, p, info', reloaded', c') ->
      inner_step c c'
  | inner_cache c a e l :
      cx_elfs c !! a = Some e -> inner_step c (with_elfs c (<[a := with_cache e l]> (cx_elfs c))).

(** What a part of an unwind may do to the state. *)
Record grows {HE : Env} {HQ : Qsort} (u u' : uw_state) : Prop := {
  gr_ok : uw_ok u -> uw_ok u';
  gr_path : uw_ok u -> rtc inner_step (uw_ctx u) (uw_ctx u');
  gr_keeps : keeps (uw_ctx u) (uw_ctx u');
  gr_pid : si_pid (uw_info u') = si_pid (uw_info u);
  gr_frames : exists fs, uw_frames u' = uw_frames u ++ fs /\ Forall (frame_ok (uw_ctx u')) fs;
}.

#[export] Instance grows_preorder {HE : Env} {HQ : Qsort} : PreOrder grows.
Proof.
  split.
  - intros u. split; [done|by intros _|done|done|]. exists []. by rewrite app_nil_r.
  - intros u1 u2 u3 [O1 R1 K1 P1 (f1 & E1 & F1)] [O2 R2 K2 P2 (f2 & E2 & F2)].
    split; [auto|intros H; etrans; [by apply R1|by apply R2, O1]|by etrans|congruence|].
    exists (f1 ++ f2). rewrite E2, E1, app_assoc. split; [done|]. apply Forall_app. split; [|done].
    eapply Forall_impl; [exact F1|]. intros f. by apply frame_ok_keeps.
Qed.

(** The parts that touch neither the context nor the frames. *)
Lemma grows_rest {HE : Env} {HQ : Qsort} u u' :
  uw_ctx u' = uw_ctx u -> uw_pid u' = uw_pid u -> si_pid (uw_info u') = si_pid (uw_info u) ->
  uw_frames u' = uw_frames u -> grows u u'.
Proof.
  intros Ec Ep Ei Ef. split; [|by rewrite Ec|by rewrite Ec|done|exists []; by rewrite app_nil_r, Ef].
  intros [H1 H2]. split; [by rewrite Ec|]. rewrite Ep, Ei, Ec. exact H2.
Qed.

Lemma grows_emit {HE : Env} {HQ : Qsort} u f : frame_ok (uw_ctx u) f -> grows u (emit u f).
Proof.
  intros Hf. split; [|by intros _|done|done|exists [f]; split; [done|by apply Forall_singleton]]. intros [H1 H2]. by split.
Qed.

Section unwinding.
Context {HA : Arch} {HE : Env} {HQ : Qsort}.
Variables (page_size : Z) (verbose : bool) (heap_ok : cfi_heap -> bool) (depth : nat).

Lemma search_grows u m pc r m' u' : search_mapping u m pc = Done (r, m', u') -> grows u u'.
Proof.
  unfold search_mapping.
  destruct (gu_search_pid_elf_ctx _ _ _ _ _) as [[[[[[r1 it] p] i] rl] c]|] eqn:E; run; [|done].
  intros [= <- <- <-]. pose proof (search_keeps _ _ _ _ _ _ _ _ _ _ _ E) as Hk.
  pose proof (search_flags _ _ _ _ _ _ _ _ _ _ _ E) as Hfl. apply same_but_flags_memory in Hfl as Hm.
  split; [| |done|by apply sm_pid|exists []; by rewrite app_nil_r];
    intros [Hc Hp]; (destruct (uw_pid u) as [q|] eqn:Eq; [|by unfold gu_search_pid_elf_ctx in E]);
    destruct (Hp q eq_refl) as [-> Hsome].
  2:{ apply rtc_once. by eapply inner_search. }
  destruct (search_ok (uw_ctx u) (uw_info u) pc (mp_reloaded m) Hc Hsome)
    as (ret' & it' & p' & i' & rl' & c' & E' & Hc' & _ & Hp'). rewrite E in E'.
  injection E' as <- <- <- <- <- <-. split; [done|]. cbn. intros q ->.
  destruct Hp' as [-> ?]. by rewrite (sm_pid _ _ Hm).
Qed.

(** A frame of an image whose symbol was looked up. *)
Lemma named_frame_ok c a e sym name f :
  cx_elfs c !! a = Some e -> name_at e sym = Done name -> fr_elf_info f = a ->
  fr_symbol f = sym \/ fr_symbol f = 0 -> frame_ok c f.
Proof.
  intros He Hn <- Hs. right. exists e. split; [done|]. destruct Hs as [->| ->]; [|by left].
  unfold name_at in Hn. destruct (Z.eqb_spec sym 0); [by left|].
  destruct (ec_names e !! sym); [by right|done].
Qed.

Lemma image_frame_ok c c' e a pc rpc off sym name :
  cx_elfs c !! a = Some e -> name_at e sym = Done name -> frame_ok c (image_frame c' e a pc rpc off sym).
Proof.
  intros He Hn. unfold image_frame. destruct (_ || _); eapply named_frame_ok; eauto.
Qed.

Lemma append_grows u m pc i s ok e m' u' :
  gu_append_pc_frame u m pc i s = Done (ok, e, m', u') -> grows u u'.
Proof.
  unfold gu_append_pc_frame. destruct (pc =? 0); [by intros [= <- <- <- <-]|].
  set (look := if in_mapping m pc then _ else _).
  assert (Hlook : forall ret m1 u1, look = Done (ret, m1, u1) -> grows u u1).
  { intros ret m1 u1. subst look. destruct (in_mapping m pc); [by intros [= <- <- <-]|]. apply search_grows. }
  destruct look as [[[ret m1] u1]|]; run; [|done]. specialize (Hlook _ _ _ eq_refl).
  destruct (ret <? 0); [by intros [= <- <- <- <-]|].
  destruct (open_mapping u1 m1) as [m2|]; run; [|done].
  destruct (mp_elf m2) as [a|]; [|intros [= <- <- <- <-]; etrans; [exact Hlook|]; apply grows_emit; by left].
  destruct (cx_elfs (uw_ctx u1) !! a) as [x|] eqn:Ex; run; [|done].
  destruct (gu_lookup_elf_symbol _ _) as [[sym off]|]; run; [|done].
  destruct (name_at x sym) as [name|] eqn:En; run; [|done].
  intros [= <- <- <- <-]. etrans; [exact Hlook|]. apply grows_emit. eapply named_frame_ok; eauto.
Qed.

Lemma tail_loop_grows n raw_sp u m bp k appended u' :
  tail_loop page_size n raw_sp u m bp k = Done (appended, u') -> grows u u'.
Proof.
  revert u m bp k. induction n as [|n IH]; intros u m bp k; cbn [tail_loop]; [by intros [= <- <-]|].
  destruct (gu_stack_snapshot_read_u64 _ _ _ bp) as [[nb|]|]; run; [|by intros [= <- <-]|done].
  destruct (gu_stack_snapshot_read_u64 _ _ _ _) as [[npc|]|]; run; [|by intros [= <- <-]|done].
  destruct (gu_frame_pointer_sane bp nb); cbn [negb]; [|by intros [= <- <-]].
  destruct (npc =? 0); [by intros [= <- <-]|].
  destruct (gu_append_pc_frame u m npc false false) as [[[[ok e] m1] u1]|] eqn:Ea; run; [|done].
  apply append_grows in Ea. destruct ok; cbn [negb]; [|by intros [= <- <-]].
  destruct e; [by intros [= <- <-]|]. intros H%IH. by etrans.
Qed.

Lemma tail_grows u raw_sp bp pc append reason n r u' :
  gu_unwind_dwarf_tail_by_fp page_size u raw_sp bp pc append reason = Done (n, r, u') -> grows u u'.
Proof.
  unfold gu_unwind_dwarf_tail_by_fp. destruct (uw_pid u); [|by intros [= <- <- <-]].
  set (first := if append then _ else _).
  assert (Hfirst : forall ok e m1 u1, first = Done (ok, e, m1, u1) -> grows u u1).
  { intros ok e m1 u1. subst first. destruct append; [apply append_grows|by intros [= <- <- <- <-]]. }
  destruct first as [[[[ok e] m1] u1]|]; run; [|done]. specialize (Hfirst _ _ _ _ eq_refl).
  destruct (ok && e); [by intros [= <- <- <-]|].
  destruct (tail_loop _ _ _ _ _ _ _) as [[appended u2]|] eqn:E; run; [|done]. apply tail_loop_grows in E.
  intros [= <- <- <-]. by etrans.
Qed.

Lemma walk_mapping_grows u m pc stop m' u' : walk_mapping u m pc = Done (stop, m', u') -> grows u u'.
Proof.
  unfold walk_mapping. destruct (in_mapping m pc); [by intros [= <- <- <-]|].
  destruct (search_mapping u m pc) as [[[r m1] u1]|] eqn:E; run; [|done]. apply search_grows in E.
  destruct (r <? 0); [by intros [= <- <- <-]|]. destruct (open_mapping u1 m1) as [m2|]; run; [|done].
  destruct (mp_elf m2); by intros [= <- <- <-].
Qed.

(** The parse cache is not part of the invariant. *)
Lemma cache_update_ok c a e l :
  ctx_ok c -> cx_elfs c !! a = Some e -> ctx_ok (with_elfs c (<[a := with_cache e l]> (cx_elfs c))).
Proof.
  intros Hc He. pose proof (ci_refcnt _ _ _ Hc _ _ He). pose proof (ci_retired _ _ _ Hc _ _ He).
  apply (inv_update [] [] [] c _ a e (with_cache e l)); try done; cbn; try lia.
  - set_solver.
  - apply (ci_next _ _ _ Hc).
  - intros b f _. apply (ci_deadline _ _ _ Hc).
  - intros Hr. by apply (ci_deadline _ _ _ Hc _ _ He).
  - unfold is_active. cbn. lia.
  - unfold is_retired. cbn. lia.
Qed.

Lemma walk_parse_grows u a e cfi pc r s u' :
  cx_elfs (uw_ctx u) !! a = Some e -> walk_parse heap_ok u a e cfi pc = Done (r, s, u') -> grows u u'.
Proof.
  intros He. unfold walk_parse. destruct (gu_cfi_parse_cfi_ex _ _ _ _) as [[[r1 s1] st]|]; run; [|done].
  intros [= <- <- <-].
  split; [|intros _; by apply rtc_once, inner_cache|by apply (keeps_update _ _ a e (with_cache e (ps_cache st)))|done
         |exists []; by rewrite app_nil_r].
  intros [Hc Hp]. split; [|done]. by apply cache_update_ok.
Qed.

Lemma walk_registers_grows u bias raw_sp i r u' :
  walk_registers page_size depth u bias raw_sp i = Done (r, u') -> grows u u' /\ uw_ctx u' = uw_ctx u.
Proof.
  assert (Hreg : forall v regno x y w, walk_reg page_size depth v bias raw_sp regno = Done (x, y, w) ->
    grows v w /\ uw_ctx w = uw_ctx v).
  { intros v regno x y w. unfold walk_reg. destruct (gen_reg _ _ _ _ _ _ _ _) as [[[? ?] ?]|]; run; [|done].
    intros [= <- <- <-]. split; [by apply grows_rest|done]. }
  unfold walk_registers. destruct (walk_reg page_size depth u bias raw_sp pc_regno) as [[[r1 ra] u1]|] eqn:E1; run; [|done].
  apply Hreg in E1 as [G1 C1]. set (got := if decide (r1 = GU_UNWIND_REASON_OK) then _ else _).
  destruct got as [[ra'|]|]; run; [|by intros [= <- <-]|done].
  destruct (walk_reg page_size depth u1 bias raw_sp reg_name_rsp) as [[[r2 sp] u2]|] eqn:E2; run; [|done].
  apply Hreg in E2 as [G2 C2]. assert (G2' : grows u u2) by (by etrans).
  destruct sp as [sp|]; [|intros [= <- <-]; split; [done|congruence]].
  destruct (walk_reg page_size depth u2 bias raw_sp reg_name_rbp) as [[[r3 bp] u3]|] eqn:E3; run; [|done].
  apply Hreg in E3 as [G3 C3]. assert (G3' : grows u u3) by (by etrans).
  destruct bp as [bp|]; [|intros [= <- <-]; split; [done|congruence]].
  destruct (walk_write u3 reg_name_rbp bp) as [u4|] eqn:E4; run; [|done].
  intros [= <- <-]. apply walk_write_frame in E4 as F4. unfold walk_write in E4.
  destruct (write_regs _ _ _) as [[? info]|]; cbn [mbind outcome_bind] in E4; [|done]. injection E4 as <-.
  split; [|cbn; congruence]. etrans; [exact G3'|]. apply grows_rest; [done|done|apply F4|done].
Qed.

Lemma walk_write_grows u regno v u' :
  walk_write u regno v = Done u' -> grows u u'.
Proof.
  intros E. apply walk_write_frame in E as F. unfold walk_write in E.
  destruct (write_regs _ _ _) as [[? info]|]; cbn [mbind outcome_bind] in E; [|done]. injection E as <-.
  apply grows_rest; try done. apply F.
Qed.

Lemma walk_step_grows raw_sp u w flow u' :
  walk_step page_size verbose heap_ok depth raw_sp u w = Done (flow, u') -> grows u u'.
Proof.
  unfold walk_step. destruct (walk_mapping u (wk_mapping w) (wk_pc w)) as [[[stop m] u1]|] eqn:Em; run; [|done].
  apply walk_mapping_grows in Em. destruct stop as [flow1|]; [by intros [= <- <-]|].
  destruct (deref (mp_elf m)) as [a|]; run; [|done].
  destruct (cx_elfs (uw_ctx u1) !! a) as [e|] eqn:Ee; run; [|done].
  destruct (gu_lookup_elf_symbol _ _) as [[sym off]|]; run; [|done].
  set (f := image_frame _ _ _ _ _ _ _). set (u2 := emit u1 f).
  destruct (name_at e sym) as [name|] eqn:En; run; [|done].
  assert (G2 : grows u u2) by (etrans; [exact Em|]; apply grows_emit; by eapply image_frame_ok).
  destruct (is_stack_bottom_symbol name); [by intros [= <- <-]|].
  destruct (ec_cfi e) as [cfi|]; [|by intros [= <- <-]].
  destruct (walk_parse heap_ok u2 a e cfi _) as [[[ret sg] u3]|] eqn:Ep; run; [|done].
  apply walk_parse_grows in Ep; [|done]. assert (G3 : grows u u3) by (by etrans).
  destruct (ret =? 0); cbn [negb]; [|by intros [= <- <-]].
  destruct (walk_registers page_size depth u3 _ raw_sp _) as [[r u4]|] eqn:Er; run; [|done].
  apply walk_registers_grows in Er as [G4 _]. assert (G4' : grows u u4) by (by etrans).
  destruct r as [reason|[[reason ra] sp]]; [by intros [= <- <-]|].
  destruct (ra =? 0); [by intros [= <- <-]|]. destruct (_ || _); [by intros [= <- <-]|].
  destruct (walk_write u4 reg_name_rsp sp) as [u5|] eqn:E5; run; [|done].
  destruct (walk_write u5 pc_regno ra) as [u6|] eqn:E6; run; [|done].
  apply walk_write_grows in E5, E6. intros [= <- <-]. by do 2 (etrans; [eassumption|]).
Qed.

Lemma walk_loop_grows budget raw_sp r0 u w reason pc append level u' :
  walk_loop page_size verbose heap_ok depth budget raw_sp r0 u w = Done (reason, pc, append, level, u') ->
  grows u u'.
Proof.
  revert r0 u w. induction budget as [|budget IH]; intros r0 u w; cbn [walk_loop].
  { by intros [= <- <- <- <- <-]. }
  destruct (walk_step _ _ _ _ raw_sp u w) as [[flow u1]|] eqn:Es; run; [|done]. apply walk_step_grows in Es.
  destruct flow; [by intros [= <- <- <- <- <-]|]. intros H%IH. by etrans.
Qed.

Lemma dwarf_grows u n u' : gu_unwind_dwarf page_size verbose heap_ok depth u = Done (n, u') -> grows u u'.
Proof.
  unfold gu_unwind_dwarf. destruct (get_regs (uw_info u) reg_name_rip) as [pc|]; run; [|done].
  destruct (deref pc) as [pc'|]; run; [|done].
  destruct (get_regs (uw_info u) reg_name_rsp) as [sp|]; run; [|done]. destruct (deref sp) as [sp'|]; run; [|done].
  destruct (walk_loop _ _ _ _ _ _ _ _ _) as [[[[[r pc1] ap] level] u1]|] eqn:Ew; run; [|done].
  apply walk_loop_grows in Ew. set (r1 := if decide (r = _) then _ else _).
  match goal with |- (?m ≫= _) = _ -> _ => assert (Hm : forall x v, m = Done (x, v) -> grows u v) end.
  { intros x v. case_decide; [|by intros [= <- <-]].
    destruct (get_regs (uw_info u1) reg_name_rbp) as [[bp|]|]; run; [|by intros [= <- <-]|done].
    destruct (gu_unwind_dwarf_tail_by_fp _ _ _ _ _ _ _) as [[[k r2] u2]|] eqn:Et; run; [|done].
    apply tail_grows in Et. intros [= <- <-]. by etrans. }
  match goal with |- (?m ≫= _) = _ -> _ => destruct m as [[x v]|] eqn:Ev; run; [|done] end.
  intros [= <- <-]. etrans; [by eapply Hm|]. by apply grows_rest.
Qed.

Lemma fp_step_grows u m pc allow lvl mx flow u' :
  fp_step u m pc allow lvl mx = Done (flow, u') -> grows u u'.
Proof.
  unfold fp_step. destruct (pc =? 0); [by intros [= <- <-]|].
  set (look := if in_mapping m pc then _ else _).
  assert (Hlook : forall stop m1 u1, look = Done (stop, m1, u1) -> grows u u1).
  { intros stop m1 u1. subst look. destruct (in_mapping m pc); [by intros [= <- <- <-]|].
    destruct (search_mapping u m pc) as [[[r m2] u2]|] eqn:E; run; [|done]. apply search_grows in E.
    destruct (0 <=? r); [|by intros [= <- <- <-]]. destruct (open_mapping u2 m2); run; [|done]. by intros [= <- <- <-]. }
  destruct look as [[[stop m1] u1]|]; run; [|done]. specialize (Hlook _ _ _ eq_refl).
  destruct stop; [by intros [= <- <-]|].
  match goal with |- (?m ≫= _) = _ -> _ => assert (Hm : forall f b, m = Done (Some f, b) -> frame_ok (uw_ctx u1) f) end.
  { intros f b. destruct (mp_elf m1) as [a|].
    - destruct (cx_elfs (uw_ctx u1) !! a) as [e|] eqn:Ee; run; [|done].
      destruct (fp_lookup_symbol _ _) as [[sym off]|]; run; [|done].
      destruct (name_at e sym) as [name|] eqn:En; run; [|done]. intros [= <- <-]. by eapply image_frame_ok.
    - destruct allow; cbn [negb]; [|done]. intros [= <- <-]. by left. }
  match goal with |- (?m ≫= _) = _ -> _ => destruct m as [[[f|] b]|] eqn:Ev; run; [| |done] end; [|by intros [= <- <-]].
  specialize (Hm _ _ eq_refl). assert (G : grows u (emit u1 f)) by (etrans; [exact Hlook|]; by apply grows_emit).
  destruct b; [by intros [= <- <-]|]. destruct (mx <=? lvl); by intros [= <- <-].
Qed.

Lemma fp_loop_grows budget u m pc allow lvl mx reason k u' :
  fp_loop budget u m pc allow lvl mx = Done (reason, k, u') -> grows u u'.
Proof.
  revert u m pc lvl. induction budget as [|budget IH]; intros u m pc lvl; cbn [fp_loop]; [by intros [= <- <- <-]|].
  destruct (fp_step u m pc allow lvl mx) as [[flow u1]|] eqn:E; run; [|done]. apply fp_step_grows in E.
  destruct flow; [by intros [= <- <- <-]|]. destruct (of_opt _); run; [|done]. intros H%IH. by etrans.
Qed.

Lemma by_fp_grows u n u' : gu_unwind_by_fp u = Done (n, u') -> grows u u'.
Proof.
  unfold gu_unwind_by_fp. set (mx := if _ <? _ then _ else _).
  destruct (mx <=? 0); [intros [= <- <-]; by apply grows_rest|].
  destruct (of_opt _) as [pc|]; run; [|done].
  destruct (fp_loop _ _ _ _ _ _ _) as [[[r k] u1]|] eqn:E; run; [|done]. apply fp_loop_grows in E.
  intros [= <- <-]. etrans; [exact E|]. by apply grows_rest.
Qed.

(** A whole sample. *)
Lemma unwind_ok u n u' :
  ctx_ok (uw_ctx u) -> gu_unwind page_size verbose heap_ok depth u = Done (n, u') ->
  ctx_ok (uw_ctx u') /\ (exists fs, uw_frames u' = uw_frames u ++ fs /\ Forall (frame_ok (uw_ctx u')) fs) /\
  exists info c found, gu_unwind_front (uw_ctx u) (uw_info u) = Done (info, c, found) /\ rtc inner_step c (uw_ctx u').
Proof.
  intros Hc. unfold gu_unwind.
  destruct (front_ok (uw_ctx u) (uw_info u) Hc) as (info & c & found & -> & Hc' & Hpid & Hfound). run.
  assert (Hok : uw_ok (with_process u found info c)).
  { split; [done|]. cbn. intros q Hq. destruct (Hfound q Hq) as [-> ?]. by rewrite Hpid. }
  assert (Hend : forall v, grows (with_process u found info c) v ->
    ctx_ok (uw_ctx v) /\ (exists fs, uw_frames v = uw_frames u ++ fs /\ Forall (frame_ok (uw_ctx v)) fs) /\
    exists info' c' found', Done (info, c, found) = Done (info', c', found') /\ rtc inner_step c' (uw_ctx v)).
  { intros v [G P _ _ F]. split; [by apply G|]. split; [done|]. do 3 eexists. split; [done|]. by apply P. }
  destruct found as [q|]; [|intros [= <- <-]; by apply Hend].
  destruct (gu_flags_is_set _ _); intros E; apply Hend; [by eapply by_fp_grows|by eapply dwarf_grows].
Qed.
End unwinding.

(** ** Sessions *)
Section sessions.
Context {HA : Arch} {HE : Env} {HQ : Qsort}.

(** One call of the public interface that returned. *)
Inductive ctx_step : gu_context -> gu_context -> Prop :=
  | step_unwind page_size verbose heap_ok depth u n u' :
      gu_unwind page_size verbose heap_ok depth u = Done (n, u') -> ctx_step (uw_ctx u) (uw_ctx u')
  | step_event c type data c' : gu_event_occur c type data = Done c' -> ctx_step c c'
  | step_exit c pid uid c' : gu_set_pid_exit_unique c pid uid = Done c' -> ctx_step c c'
  | step_preload c pid r c' : gu_preload_pid_debug_info c pid = Done (r, c') -> ctx_step c c'
  | step_set_private c pid block : ctx_step c (gu_set_pid_private_info c pid block)
  | step_get_private c pid : ctx_step c (gu_get_pid_private_info c pid).2
  | step_unique_id c pid : ctx_step c (gu_get_pid_unique_id c pid).2.

(** The contexts a client can come to. *)
Definition reachable (debug go_buildid_only timer : bool) (c : gu_context) : Prop :=
  rtc ctx_step (gu_init debug go_buildid_only timer) c.

Lemma init_ok debug go timer : ctx_ok (gu_init debug go timer).
Proof.
  split; cbn; try done; try (by intros ? []); try (intros; by rewrite lookup_empty in *).
  split; [lia|]. set_solver.
Qed.

Lemma step_ok c c' : ctx_step c c' -> ctx_ok c -> ctx_ok c'.
Proof.
  intros [??????? E|???? E|???? E|???? E|???|??|??] Hc.
  - by eapply unwind_ok.
  - edestruct (event_ok c0) as (? & E' & ?); [done|]. rewrite E in E'. by simplify_eq.
  - edestruct (exit_ok c0) as (? & E' & ?); [done|]. rewrite E in E'. by simplify_eq.
  - edestruct (preload_ok c0) as (? & ? & E' & ?); [done|]. rewrite E in E'. by simplify_eq.
  - by apply set_private_ok.
  - by eapply inv_core; [apply get_private_core|].
  - destruct (gu_get_pid_unique_id c0 pid) as [x c1] eqn:E. apply unique_id_core in E. by eapply inv_core.
Qed.

Lemma reachable_ok debug go timer c : reachable debug go timer c -> ctx_ok c.
Proof.
  unfold reachable. intros Hr. pose proof (init_ok debug go timer) as H0. revert H0.
  induction Hr; [done|]. intros H0. by apply IHHr, (step_ok x).
Qed.
End sessions.

(** ** Properties *)

(** C9: the caches stay consistent in every session, whatever the order of the
    calls and the answers of the environment: every mapping names a live image
    and belongs to exactly one process entry, an image counts exactly the
    mappings that name it and is retired exactly when there is none, no two
    images share a build-id, and the published counters are the sizes of the
    caches. *)
Theorem session_invariant {HA : Arch} {HE : Env} {HQ : Qsort} debug go timer c :
  reachable debug go timer c ->
  (forall m x, cx_maps c !! m = Some x -> is_Some (cx_elfs c !! mc_elf_ctx x)) /\
  all_payloads (cx_pids c) ≡ₚ (map_to_list (cx_maps c)).*1 /\
  (forall a e, cx_elfs c !! a = Some e ->
     ec_refcnt e = Z.of_nat (size (filter (fun x => mc_elf_ctx x.2 = a) (cx_maps c))) /\
     (ec_retired e = true <-> ec_refcnt e = 0)) /\
  (forall a b e f, cx_elfs c !! a = Some e -> cx_elfs c !! b = Some f ->
     ec_build_id e = ec_build_id f -> a = b) /\
  elf_ctx_count (cx_stats c) + retired_elf_ctx_count (cx_stats c) = Z.of_nat (size (cx_elfs c)) /\
  retired_elf_ctx_count (cx_stats c) = Z.of_nat (size (filter (fun x => ec_retired x.2 = true) (cx_elfs c))) /\
  pid_ctx_count (cx_stats c) = u64 (Z.of_nat (size (cx_pids c))).
Proof.
  intros Hi%reachable_ok. split_and!.
  - apply (ci_target _ _ _ Hi).
  - rewrite <- (ci_owner _ _ _ Hi). by rewrite app_nil_r.
  - intros a e He. split; [|by apply (ci_retired _ _ _ Hi _ _ He)].
    rewrite (ci_refcnt _ _ _ Hi _ _ He). unfold refs, count_where. cbn. rewrite Z.add_0_r. do 2 f_equal.
    apply map_filter_ext. intros m x _. unfold maps_to. cbn. lia.
  - apply (ci_build_id _ _ _ Hi).
  - rewrite (ci_active_count _ _ _ Hi), (ci_retired_count _ _ _ Hi). apply count_partition.
  - apply (ci_retired_count _ _ _ Hi).
  - apply (ci_pid_count _ _ _ Hi).
Qed.


(** C11: destroying a context releases everything.  From any reachable context
    [gu_cleanup] is defined and leaves no process entry, no mapping and no
    image, with the published counters at zero. *)
Theorem cleanup_releases_everything {HA : Arch} {HE : Env} {HQ : Qsort} debug go timer c :
  reachable debug go timer c ->
  exists c', gu_cleanup c = Done c' /\ cx_elfs c' = ∅ /\ cx_maps c' = ∅ /\ cx_pids c' = ∅ /\
    elf_ctx_count (cx_stats c') = 0 /\ retired_elf_ctx_count (cx_stats c') = 0 /\
    pid_ctx_count (cx_stats c') = 0.
Proof.
  intros Hi%reachable_ok. destruct (cleanup_ok c Hi) as (c' & -> & Hi' & He & Hm & Hp). exists c'.
  rewrite (ci_active_count _ _ _ Hi'), (ci_retired_count _ _ _ Hi'), (ci_pid_count _ _ _ Hi'), He, Hm, Hp. done.
Qed.

(** C12: the frames a sample reports stay usable until the next call.  Each names
    an image that is alive in the context the unwind returns, with a symbol name
    that image owns, or no image at all; reloading the mappings in the middle of
    a walk retires images but frees none. *)
Theorem reported_frames_alive {HA : Arch} {HE : Env} {HQ : Qsort} page_size verbose heap_ok depth
    debug go timer u n u' :
  reachable debug go timer (uw_ctx u) -> uw_frames u = [] ->
  gu_unwind page_size verbose heap_ok depth u = Done (n, u') ->
  forall f, f ∈ uw_frames u' ->
    (fr_elf_info f = 0 /\ fr_symbol f = 0) \/
    exists e, cx_elfs (uw_ctx u') !! fr_elf_info f = Some e /\
      (fr_symbol f = 0 \/ is_Some (ec_names e !! fr_symbol f)).
Proof.
  intros Hi%reachable_ok H0 E f Hf. apply unwind_ok in E as (_ & (fs & Hfs & Hall) & _); [|done].
  rewrite Hfs, H0 in Hf. rewrite Forall_forall in Hall. by apply Hall.
Qed.

(** A sweep frees exactly the images that may go.  From any reachable
    context, whatever shortcut it takes, a sweep at time [now] keeps an image
    exactly when a mapping still names it or its deadline has not passed; the
    final sweep ([UINT64_MAX]) keeps only the referenced ones. *)
Theorem sweep_frees_exactly_expired {HA : Arch} {HE : Env} {HQ : Qsort} debug go timer c now :
  reachable debug go timer c -> 0 <= now <= UINT64_MAX ->
  exists c', gu_retired_elf_sweep c now = Done c' /\ cx_maps c' = cx_maps c /\ cx_pids c' = cx_pids c /\
    forall a e, cx_elfs c' !! a = Some e <->
      cx_elfs c !! a = Some e /\
      (0 < ec_refcnt e \/ now < ec_retire_deadline_ns e /\ now <> UINT64_MAX).
Proof.
  intros Hi%reachable_ok [Hnow _]. destruct (sweep_ok c now Hi Hnow) as (c' & -> & _ & He & Hm & Hp).
  exists c'. split_and!; try done. intros a e. rewrite He, map_lookup_filter_Some. cbn.
  split; (intros [Ha Hx]; split; [done|]); pose proof (ci_retired _ _ _ Hi _ _ Ha) as Hr;
    pose proof (refs_bound _ _ _ a Hi); rewrite <- (ci_refcnt _ _ _ Hi _ _ Ha) in *;
    unfold expired in *; destruct (ec_retired e); cbn [andb] in *; lia.
Qed.


(** ** A session

    Process 42 maps one image; the clock advances a second per reading.  The
    client samples the process, learns that it exited and, later, of another
    exit, whose sweep frees the image. *)
Definition app_image : elf_image :=
  mk_image false (Some sample_symbols) (<[0x500 := "work"%string]> (<[0x510 := "_start"%string]> ∅))
    (Some sample_cfi) 64 (Some [Some (mk_phdr PT_LOAD 5 0x1000 0x1000 0x1000 0x1000)]).
Definition live_clock (n : nat) : Z := Z.min (1000000000 * (1 + Z.of_nat n)) (2 ^ 62).
Lemma live_clock_range n : 0 <= live_clock n < 2 ^ 63.
Proof. unfold live_clock. lia. Qed.

(** The maps file of the process: its code, in two pieces. *)
Definition app_maps : text :=
  txt "00401000-00401800 r-xp 00001000 08:01 77   /bin/app" ++ [newline] ++
  txt "00401800-00402000 r-xp 00001800 08:01 77   /bin/app" ++ [newline].
Lemma app_maps_ok : maps_file_ok app_maps.
Proof.
  split; [vm_compute; done|]. let v := eval vm_compute in (file_lines app_maps) in
    change (file_lines app_maps) with v. repeat constructor; vm_compute; (split; [lia|done]) || done.
Qed.

Definition live_env : Env.
Proof.
  refine {| clock_ns := live_clock; timer_now := live_clock; timer_pending := fun _ => true;
    kill_ok := fun _ _ => true;
    proc_maps_file := fun _ _ _ => Some app_maps; maps_alloc := fun _ _ => true;
    proc_comm := fun _ _ => "app"%string; proc_start_time := fun _ _ => 7;
    read_build_id := fun _ _ _ _ => Some [1; 2; 3]; read_image := fun _ _ _ _ => Some app_image;
    malloc_addr := fun _ used => if next_free used <? 2 ^ 63 then Some (next_free used) else None;
    malloc_ok := fun _ => true; pid_block := fun _ => Some 0x1000 |}.
  - intros n. apply live_clock_range.
  - intros n. apply live_clock_range.
  - intros _ a [= <-]. done.
  - intros _ _ _ t [= <-]. exact app_maps_ok.
  - intros _ used a. destruct (next_free_spec used) as [Hlt Hpos].
    destruct (Z.ltb_spec (next_free used) (2 ^ 63)); [|done]. intros [= <-]. split; [|lia].
    intros Hin. specialize (Hlt _ Hin). lia.
Defined.

Definition done_or {A} (d : A) (m : outcome A) : A := match m with Done a => a | Undef _ => d end.
Definition sample_input (c : gu_context) : uw_state :=
  mk_uw c None (mk_gu_stack_info 42 (8 * 16) 7 (regs (frame_info recursion_words)) 168 0 (replicate 128 0) 0
                  (Some (stack_words recursion_words))) [] (mk_scratch [] [] [] []) empty_heap no_oor.
Abbreviation live_unwind := (gu_unwind (HA := linux_x86_64) (HE := live_env) (HQ := merge_qsort) 4096 false (fun _ => true) 1).

Definition fresh_ctx : gu_context := gu_init false false false.
Definition sampled : Z * uw_state := done_or (0, sample_input fresh_ctx) (live_unwind (sample_input fresh_ctx)).
Definition sampled_ctx : gu_context := uw_ctx sampled.2.
Definition exited_ctx : gu_context :=
  done_or sampled_ctx (gu_event_occur (HE := live_env) sampled_ctx GU_EVENT_PROCESS_EXIT (Some 42)).

Abbreviation live_reachable := (reachable (HA := linux_x86_64) (HE := live_env) (HQ := merge_qsort)).

Lemma sampled_runs : live_unwind (sample_input fresh_ctx) = Done sampled.
Proof. vm_compute. reflexivity. Qed.

Lemma sampled_reachable : live_reachable false false false sampled_ctx.
Proof.
  apply rtc_once. apply (step_unwind 4096 false (fun _ => true) 1 (sample_input fresh_ctx) sampled.1 sampled.2).
  rewrite sampled_runs. by destruct sampled.
Qed.

Lemma exited_reachable : live_reachable false false false exited_ctx.
Proof.
  eapply rtc_r; [apply sampled_reachable|].
  apply (step_event sampled_ctx GU_EVENT_PROCESS_EXIT (Some 42)). vm_compute. reflexivity.
Qed.

Lemma session_invariant_witness :
  live_reachable false false false sampled_ctx /\
  retired_elf_ctx_count (cx_stats sampled_ctx) = Z.of_nat (size (filter (fun x => ec_retired x.2 = true) (cx_elfs sampled_ctx))).
Proof.
  split; [exact sampled_reachable|].
  apply (session_invariant (HA := linux_x86_64) (HE := live_env) (HQ := merge_qsort) false false false sampled_ctx sampled_reachable).
Defined.


Lemma cleanup_releases_everything_witness :
  exists c', gu_cleanup (HE := live_env) exited_ctx = Done c' /\ cx_elfs c' = ∅.
Proof.
  destruct (cleanup_releases_everything (HA := linux_x86_64) (HE := live_env) (HQ := merge_qsort) false false false exited_ctx exited_reachable)
    as (c' & E & He & _).
  exists c'. split; [exact E|exact He].
Defined.

Lemma reported_frames_alive_witness :
  Forall (fun f => is_Some (cx_elfs sampled_ctx !! fr_elf_info f)) (uw_frames sampled.2).
Proof.
  apply Forall_forall. intros f Hf. assert (Hz : fr_elf_info f <> 0).
  { revert f Hf. apply Forall_forall. apply (bool_decide_unpack _). vm_compute. done. }
  destruct (reported_frames_alive (HA := linux_x86_64) (HE := live_env) (HQ := merge_qsort) 4096 false (fun _ => true) 1
    false false false (sample_input fresh_ctx) sampled.1 sampled.2 (rtc_refl _ _) eq_refl
    ltac:(rewrite sampled_runs; by destruct sampled) f Hf) as [[H0 _]|(e & He & _)].
  - by destruct Hz.
  - exists e. exact He.
Defined.

Lemma sweep_frees_exactly_expired_witness :
  exists c', gu_retired_elf_sweep exited_ctx UINT64_MAX = Done c' /\ cx_elfs c' !! 1 = None.
Proof.
  destruct (sweep_frees_exactly_expired (HA := linux_x86_64) (HE := live_env) (HQ := merge_qsort) false false false exited_ctx UINT64_MAX
    exited_reachable) as (c' & E & _ & _ & Hk); [word|].
  exists c'. split; [exact E|]. destruct (cx_elfs c' !! 1) as [e|] eqn:He; [|reflexivity]. exfalso.
  apply Hk in He as [He [Hr|[_ Hn]]]; [|destruct (Hn eq_refl)].
  assert (ec_refcnt <$> cx_elfs exited_ctx !! 1 = Some 0) as Hx by (vm_compute; reflexivity).
  rewrite He in Hx. injection Hx as Hz. clear -Hr Hz. lia.
Defined.

