(* ===== verification/Lifecycle.v ===== *)
(** * The event stream of a session

    Listeners learn about process entries from CREATE and DESTROY events only.
    This file shows that the stream is well formed and complete: replaying it
    gives exactly the process table. *)

From stdpp Require Import strings relations.
From S2P Require Import Prelude Types IntervalArray Arch CfiProgram CfiOps DwarfEval Cfi CfiParse.
From S2P Require Import ElfRanges Maps Context ContextInv ContextSafe Unwind Session.

(** What a listener can reconstruct: the live processes with their start time
    and name; [None] when an event contradicts what came before. *)
Definition replay_event (live : gmap Z (Z * string)) (e : gu_pid_ctx_event) : option (gmap Z (Z * string)) :=
  match e with
  | GU_PID_CTX_EVENT_CREATE pid start comm =>
    if decide (live !! pid = None) then Some (<[pid := (start, comm)]> live) else None
  | GU_PID_CTX_EVENT_DESTROY pid start comm =>
    if decide (live !! pid = Some (start, comm)) then Some (delete pid live) else None
  end.
Definition replay (events : list gu_pid_ctx_event) : option (gmap Z (Z * string)) :=
  foldl (fun live e => live ← live; replay_event live e) (Some ∅) events.

Definition announced (c : gu_context) : gmap Z (Z * string) :=
  (fun p => (pc_unique_id p, pc_comm p)) <$> cx_pids c.

Definition events_ok (c : gu_context) : Prop := replay (cx_events c) = Some (announced c).

Lemma replay_snoc l e : replay (l ++ [e]) = (live ← replay l; replay_event live e).
Proof. unfold replay. by rewrite foldl_app. Qed.

Lemma events_table c c' : same_table c c' -> events_ok c -> events_ok c'.
Proof. unfold events_ok, announced. by intros [-> ->]. Qed.

Section lifecycle.
Context {HA : Arch} {HE : Env} {HQ : Qsort}.

(** Announcing the end of an entry and clearing it. *)
Lemma destroy_events c c0 pid p c' :
  events_ok c -> same_table c c0 -> cx_pids c !! pid = Some p -> pc_pid p = pid ->
  gu_clear_pid_ctx (notify c0 (event_destroy p)) pid = Done c' ->
  events_ok c' /\ cx_pids c' = delete pid (cx_pids c).
Proof.
  intros Hev [Ep Ee] Hp Hid E. apply (clear_pid_frame same_table) in E as [Hpids Hevents].
  cbn in Hpids, Hevents. rewrite Ep in Hpids. rewrite Ee in Hevents. split; [|done].
  unfold events_ok, announced in *. rewrite Hpids, Hevents, replay_snoc, Hev. cbn [mbind option_bind].
  unfold event_destroy. cbn. rewrite Hid, lookup_fmap, Hp. cbn. rewrite decide_True by done. by rewrite fmap_delete.
Qed.

(** Adding an entry and announcing it. *)
Lemma create_events c p :
  events_ok c -> cx_pids c !! pc_pid p = None -> events_ok (add_pid c p).
Proof.
  intros Hev Hn. unfold events_ok, announced in *. cbn. rewrite replay_snoc, Hev. cbn.
  rewrite lookup_fmap, Hn. cbn. rewrite decide_True by done. by rewrite fmap_insert.
Qed.

Lemma update_events c pid p p' :
  cx_pids c !! pid = Some p -> pc_unique_id p' = pc_unique_id p -> pc_comm p' = pc_comm p ->
  events_ok c -> events_ok (with_pids c (<[pid := p']> (cx_pids c))).
Proof.
  intros Hp H1 H2. unfold events_ok, announced. cbn [cx_events cx_pids with_pids]. intros ->. f_equal. rewrite fmap_insert, H1, H2.
  symmetry. apply insert_id. by rewrite lookup_fmap, Hp.
Qed.

Lemma clear_elf_table c a c' : clear_elf_ctx c a = Done c' -> same_table c c'.
Proof.
  unfold clear_elf_ctx. destruct (deref _) as [e|]; run; [|done]. destruct (ec_retired e).
  - destruct (gu_unretire_elf_ctx c a false) as [c1|] eqn:E; run; [|done].
    apply (unretire_frame same_table) in E as [H1 H2]. intros [= <-]. by split.
  - run. intros [= <-]. by split.
Qed.

Lemma sweep_loop_table todo now next c next' c' :
  sweep_loop todo now next c = Done (next', c') -> same_table c c'.
Proof.
  revert next c. induction todo as [|a todo IH]; intros next c; cbn [sweep_loop]; [by intros [= <- <-]|].
  destruct (deref _) as [e|]; run; [|done]. destruct (negb (ec_retired e)); [apply IH|].
  destruct (_ || _); [|destruct (_ || _); apply IH].
  destruct (clear_elf_ctx _ a) as [c1|] eqn:E; run; [|done]. intros H%IH. etrans; [|exact H].
  apply clear_elf_table in E as [H1 H2]. by split.
Qed.

Lemma sweep_table c now c' : gu_retired_elf_sweep c now = Done c' -> same_table c c'.
Proof.
  unfold gu_retired_elf_sweep. destruct (now =? 0); [by intros [= <-]|]. destruct (_ && _); [by intros [= <-]|].
  destruct (sweep_loop _ _ _ _) as [[n c1]|] eqn:E; run; [|done]. apply sweep_loop_table in E as [H1 H2].
  intros [= <-]. by split.
Qed.

Lemma maybe_sweep_table c c' : gu_maybe_sweep_retired_elf c = Done c' -> same_table c c'.
Proof.
  unfold gu_maybe_sweep_retired_elf. destruct (_ =? 0); [by intros [= <-]|].
  destruct (cx_timer_started c).
  - destruct (timer_pending _); cbn [negb]; [|by intros [= <-]].
    destruct (_ =? 0); intros [H1 H2]%sweep_table; by split.
  - intros [H1 H2]%sweep_table. by split.
Qed.

Lemma allowed_table c pid b c' :
  gu_maps_reload_allowed c pid = Done (b, c') -> ctx_ok c -> is_Some (cx_pids c !! pid) -> same_table c c'.
Proof.
  intros E Hc [p Hp]. destruct (reload_allowed_ok c pid p Hc Hp) as (c1 & E1 & Hc1 & _).
  rewrite E1 in E. injection E as _ <-. split; [apply Hc1|].
  revert E1. unfold gu_maps_reload_allowed. rewrite Hp. run.
  destruct (pc_next_maps_reload_ns p =? 0).
  - destruct (gu_schedule_next_maps_reload c p) as [p1 c2] eqn:Es. apply (schedule_frame same_table) in Es as [_ Es].
    destruct (gu_cache_now_ns _) as [now c3] eqn:En. apply (cache_now_frame same_table) in En as [_ En].
    destruct (_ <=? now); intros [= _ <-]; cbn in *; congruence.
  - destruct (gu_cache_now_ns _) as [now c3] eqn:En. apply (cache_now_frame same_table) in En as [_ En].
    destruct (_ <=? now); intros [= _ <-]; cbn in *; congruence.
Qed.

(** The entry a load returns is that of the process asked for. *)
Lemma load_pid_entry c info p c' :
  ctx_ok c -> cx_pids c !! si_pid info = None -> gu_load_pid c info = Done (Some p, c') ->
  pc_pid p = si_pid info /\ same_table c c'.
Proof.
  intros Hc Hn E. destruct (load_pid_ok [] c info Hc Hn) as (r & c1 & E' & _ & Hr). rewrite E in E'.
  injection E' as <- <-. split; [by apply Hr|]. by apply (load_pid_frame same_table) in E.
Qed.

Lemma exit_events c pid uid c' :
  ctx_ok c -> events_ok c -> gu_set_pid_exit_unique c pid uid = Done c' -> events_ok c'.
Proof.
  intros Hc Hev. unfold gu_set_pid_exit_unique. destruct (cx_pids c !! pid) as [p|] eqn:Hp; [|by intros [= <-]].
  destruct (_ && _); [by intros [= <-]|]. intros E.
  destruct (ci_entry _ _ _ Hc _ _ Hp) as [Hid _]. by eapply (destroy_events c c).
Qed.

Lemma sweep_both c :
  ctx_ok c -> events_ok c -> exists c', gu_maybe_sweep_retired_elf c = Done c' /\ ctx_ok c' /\ events_ok c'.
Proof.
  intros Hc Hev. destruct (maybe_sweep_ok c Hc) as (c' & E & Hc' & _). exists c'. split; [done|]. split; [done|].
  apply maybe_sweep_table in E. by eapply events_table.
Qed.

Lemma preload_events c pid r c' :
  ctx_ok c -> events_ok c -> gu_preload_pid_debug_info c pid = Done (r, c') -> events_ok c'.
Proof.
  intros Hc Hev. unfold gu_preload_pid_debug_info. destruct (gu_get_pid_unique_id c pid) as [uid c1] eqn:Eu.
  assert (Ht : same_table c c1).
  { unfold gu_get_pid_unique_id in Eu. repeat case_match; injection Eu as <- <-; by split. }
  apply unique_id_core in Eu. destruct (sweep_both c1) as (c2 & -> & Hc2 & Hev2).
  { by eapply inv_core. } { by eapply events_table. }
  run. destruct (cx_pids c2 !! pid) as [p|] eqn:Hp; [by intros [= <- <-]|].
  destruct (kill_ok _ _); cbn [negb]; [|by intros [= <- <-]].
  destruct (gu_load_pid _ _) as [[[p|] c3]|] eqn:El; run; [| |done].
  - apply load_pid_entry in El as [Hid [H1 H2]]; [|by eapply inv_core; [apply core_tick|]|done].
    intros [= <- <-]. apply create_events; [by eapply (events_table c2)|]. cbn. rewrite Hid, H1. done.
  - apply (load_pid_frame same_table) in El as [H1 H2]. intros [= <- <-]. by eapply (events_table c2).
Qed.

Lemma reload_events c info new info' c' :
  ctx_ok c -> events_ok c -> gu_reload_pid_ctx c (si_pid info) info = Done (new, info', c') -> events_ok c'.
Proof.
  intros Hc Hev. unfold gu_reload_pid_ctx. destruct (cx_pids c !! si_pid info) as [old|] eqn:Hp; run; [|done].
  destruct (ci_entry _ _ _ Hc _ _ Hp) as [Hid _].
  destruct (clear_pid_ok (notify (tick c) (event_destroy old)) (si_pid info) old) as (c1 & E1 & Hc1 & _).
  { apply (inv_core _ _ c); [by split|done]. } { done. }
  rewrite E1. run. apply (destroy_events c (tick c)) with (p := old) in E1 as [Hev1 Hp1]; try done.
  assert (Hn : cx_pids c1 !! si_pid info = None) by (rewrite Hp1; apply lookup_delete_eq).
  destruct (gu_load_pid c1 info) as [[[p|] c2]|] eqn:El; run; [| |done].
  - apply load_pid_entry in El as [Hpid Ht]; [|done|done]. intros [= <- <- <-].
    apply create_events; [by eapply events_table|]. cbn. destruct Ht as [-> _]. by rewrite Hpid.
  - apply (load_pid_frame same_table) in El. intros [= <- <- <-]. by eapply events_table.
Qed.

(** A search from a live entry; a missing one would be a fault. *)
Lemma inner_events c c' : inner_step c c' -> ctx_ok c -> events_ok c -> ctx_ok c' /\ events_ok c'.
Proof.
  intros [c0 info pc rl ret it p info' rl' c1 E|c0 a e l He] Hc Hev.
  - destruct (cx_pids c0 !! si_pid info) as [px|] eqn:Hp.
    2:{ unfold gu_search_pid_elf_ctx in E. cbn [mbind outcome_bind deref] in E. by rewrite Hp in E. }
    destruct (search_ok c0 info pc rl Hc) as (? & ? & ? & ? & ? & ? & E' & Hc' & _); [by eauto|].
    rewrite E in E'. injection E' as <- <- <- <- <- <-. split; [done|].
    revert E. unfold gu_search_pid_elf_ctx. run. rewrite Hp. run.
    destruct (gu_interval_array_search _ _) as [[[r1 it1] x1]|]; run; [|done].
    destruct ((0 <=? r1) || rl); [by intros [= <- <- <- <- <- <-]|].
    destruct (reload_allowed_ok c0 (si_pid info) px Hc Hp) as (c2 & E2 & Hc2 & _). rewrite E2. run.
    assert (Hev2 : events_ok c2 /\ cx_events c2 = cx_events c0).
    { apply allowed_table in E2; [|done|by eauto]. split; [by eapply events_table|apply E2]. }
    destruct Hev2 as [Hev2 _]. destruct (_ <=? _); cbn [negb]; [|by intros [= <- <- <- <- <- <-]].
    set (c3 := if cx_debug c2 then c2 else tick c2).
    assert (Hev3 : events_ok c3) by (unfold c3; by destruct (cx_debug c2)).
    assert (Hc3 : same_core c0 c3) by (etrans; [exact Hc2|]; unfold c3; destruct (cx_debug c2); [done|apply core_tick]).
    destruct (cx_debug c2 || _); cbn [negb]; [|by intros [= <- <- <- <- <- <-]].
    destruct (gu_reload_pid_ctx _ _ _) as [[[new i1] c4]|] eqn:E4; run; [|done].
    apply reload_events in E4; [|eapply inv_core; [|exact Hc]; etrans; [exact Hc3|by apply core_stats]|done].
    destruct new as [np|]; [|by intros [= <- <- <- <- <- <-]].
    destruct (deref _) as [px'|]; run; [|done].
    destruct (pc_elf_ctx_list px'); [|by intros [= <- <- <- <- <- <-]].
    destruct (gu_interval_array_search _ _) as [[[? ?] ?]|]; run; [|done].
    by intros [= <- <- <- <- <- <-].
  - split; [|done]. by apply cache_update_ok.
Qed.

Lemma front_events c info info' c' found :
  ctx_ok c -> events_ok c -> gu_unwind_front c info = Done (info', c', found) -> events_ok c'.
Proof.
  intros Hc Hev. unfold gu_unwind_front. destruct (regs info); [|by intros [= <- <- <-]].
  destruct (sweep_both c Hc Hev) as (c1 & -> & Hc1 & Hev1). run.
  match goal with |- (?m ≫= _) = _ -> _ => assert (Hm : exists c2, m = Done c2 /\ ctx_ok c2 /\ events_ok c2) end.
  { destruct (cx_pids c1 !! si_pid info) as [p|] eqn:Hp; [|by eexists]. destruct (_ && _); [|by eexists].
    destruct (ci_entry _ _ _ Hc1 _ _ Hp) as [Hid _]. rewrite Hid.
    destruct (clear_pid_ok (notify (on_stats (on_unique_id_caused_reload_count incr) c1) (event_destroy p)) (si_pid info) p)
      as (c2 & E & Hc2 & _); [apply (inv_core _ _ c1); [by split|done]|done|]. exists c2. split; [done|]. split; [done|].
    by eapply (destroy_events c1 (on_stats (on_unique_id_caused_reload_count incr) c1)). }
  destruct Hm as (c2 & -> & Hc2 & Hev2). run.
  match goal with |- (?m ≫= _) = _ -> _ =>
    assert (Hm : forall f i c3, m = Done (f, i, c3) -> events_ok c3); [|destruct m as [[[f i] c3]|]; run; [|done]] end.
  { intros f i c3. destruct (cx_pids c2 !! si_pid info) as [p|] eqn:Hp; run; [by intros [= <- <- <-]|].
    destruct (negb (kill_ok _ _) && _); [by intros [= <- <- <-]|].
    destruct (gu_load_pid _ _) as [[[p|] c4]|] eqn:El; run; [| |done].
    - apply load_pid_entry in El as [Hid [H1 H2]]; [|by eapply inv_core; [apply core_tick|]|done].
      intros [= <- <- <-]. apply create_events; [by eapply (events_table c2)|]. rewrite Hid, H1. done.
    - apply (load_pid_frame same_table) in El as [H1 H2]. intros [= <- <- <-]. by eapply (events_table c2). }
  specialize (Hm _ _ _ eq_refl). destruct f as [p|]; [|by intros [= <- <- <-]].
  destruct (pc_elf_ctx_list p); by intros [= <- <- <-].
Qed.

Lemma step_events c c' : ctx_step c c' -> ctx_ok c -> events_ok c -> events_ok c'.
Proof.
  intros [ps vb ho dp u n u' E|c0 type data c1 E|c0 pid uid c1 E|c0 pid r c1 E|c0 pid block|c0 pid|c0 pid] Hc Hev.
  - apply unwind_ok in E as (_ & _ & info & cf & found & Ef & Hpath); [|done].
    pose proof (front_events _ _ _ _ _ Hc Hev Ef) as Hev1.
    destruct (front_ok (uw_ctx u) (uw_info u) Hc) as (i & c1 & f & Ef' & Hc1 & _). rewrite Ef in Ef'.
    injection Ef' as <- <- <-. clear -Hpath Hc1 Hev1. induction Hpath as [|x y z Hxy _ IH]; [done|].
    destruct (inner_events x y Hxy Hc1 Hev1). by apply IH.
  - revert E. unfold gu_event_occur. destruct (sweep_both c0 Hc Hev) as (c2 & -> & Hc2 & Hev2). run.
    destruct type, data; try (by intros [= <-]). by apply exit_events.
  - by eapply exit_events.
  - by eapply preload_events.
  - unfold gu_set_pid_private_info. destruct (cx_pids c0 !! pid) as [p|] eqn:Hp; [|done].
    by apply (events_table (with_pids c0 (<[pid := with_private p (match block with Some bytes =>
      if malloc_ok (cx_ticks c0) then Some bytes else None | None => None end)]> (cx_pids c0)))), (update_events c0 pid p).
  - unfold gu_get_pid_private_info. by repeat case_match.
  - unfold gu_get_pid_unique_id. by repeat case_match.
Qed.

Lemma reachable_events debug go timer c : reachable debug go timer c -> ctx_ok c /\ events_ok c.
Proof.
  unfold reachable. intros Hr. pose proof (init_ok debug go timer) as H0.
  assert (H1 : events_ok (gu_init debug go timer)) by done. revert H0 H1.
  induction Hr as [|x y z Hxy _ IH]; [done|]. intros H0 H1. apply IH; [by eapply step_ok|by eapply step_events].
Qed.
End lifecycle.

(** ** Properties *)

(** C22: the events of a session describe its process table.  In every reachable
    context, replaying the events sent so far never meets a CREATE of a process
    that is already announced nor a DESTROY that does not match the last CREATE
    in start time and name, and ends in exactly the processes of the table. *)
Theorem event_stream_faithful {HA : Arch} {HE : Env} {HQ : Qsort} debug go timer c :
  reachable debug go timer c ->
  replay (cx_events c) = Some ((fun p => (pc_unique_id p, pc_comm p)) <$> cx_pids c).
Proof. intros H. by apply reachable_events in H as [_ H]. Qed.

Lemma event_stream_faithful_witness :
  live_reachable false false false exited_ctx /\
  replay (cx_events exited_ctx) = Some ((fun p => (pc_unique_id p, pc_comm p)) <$> cx_pids exited_ctx).
Proof.
  split; [exact exited_reachable|].
  apply (event_stream_faithful (HA := linux_x86_64) (HE := live_env) (HQ := merge_qsort) false false false exited_ctx exited_reachable).
Defined.
