(* ===== verification/LoadElf.v ===== *)
(** * Loading an image from its files: [load_elf] of [src/gu_stacktrace.c], lines 996-1008, 1205-1447

    [Context.load_elf] takes the build-id and the tables of an image from its
    environment.  This file spells them out: which path is opened and how, the
    two scans for sections, the build-id or its MD5 substitute, the choice and
    opening of the debug file, the CFI index and the symbol table, and the
    closing of every descriptor and libelf handle on each way out.  It composes
    [DebugFile], [Symbols], [Cfi] and [ElfRanges]. *)

From Stdlib Require Import Ascii.
From stdpp Require Import strings.
From S2P Require Import Prelude Types IntervalArray Arch CfiProgram Cfi ElfRanges Maps PathWalk DebugFile Comm NameHeap Symbols Dump Context Unwind.

(** ** What the system answers *)

(** An open file as libelf shows it: whether [elf_begin] accepts it, its
    sections and program headers, the symbol sections, the identification, size
    and (decompressed) contents of the frame sections, and what [read] returns,
    call by call. *)
Record elf_file : Type := mk_file {
  ef_begin : bool;
  ef_scns : option (list elf_scn);
  ef_phdrs : option (list (option GElf_Phdr));
  ef_syms : elf_scn_type -> sym_source;
  ef_ident : option (list Z);
  ef_frame_size : frame_scn -> Z;
  ef_frame_data : frame_scn -> option (list Z);
  ef_next_cfi : frame_scn -> next_cfi;
  ef_reads : list text;
}.

(** A file is opened by its path, or inside the root of a process. *)
Inductive open_request : Type :=
  | OpenPath (path : text)
  | OpenInRoot (pid : Z) (path : text).

(** The first argument is the position of the call in the run. *)
Class LoadOs : Type := {
  lo_alloc : nat -> nat -> bool;              (** the allocations of one call in order *)
  lo_alloc_size : nat -> Z -> bool;           (** the copy of the build-id *)
  lo_cfi_alloc : nat -> cfi_heap -> bool;     (** states remembered by CIE programs *)
  lo_open : nat -> gset Z -> open_request -> option (Z * elf_file);
  lo_vdso : nat -> bool;                      (** [stat] of the vDSO just dumped *)
  lo_vdso_path : text;
  lo_exists : nat -> text -> bool;            (** [access(path, F_OK) == 0] *)
  lo_candidate : nat -> text -> candidate;
  lo_md5 : text -> text;
  lo_fdes_addr : nat -> Z;
  lo_cfi_fuel : nat;
  lo_sizeof_Elf_Data : Z;
  lo_open_fresh n used r fd f : lo_open n used r = Some (fd, f) -> 0 <= fd /\ fd ∉ used;
}.

(** ** State *)

(** The descriptors and libelf handles the process has open, [vdso_dumped] of
    the context, and the static state of the CFI code. *)
Record load_state : Type := mk_load_state {
  ls_fds : gset Z;
  ls_elfs : Z;
  ls_vdso : bool;
  ls_globals : cfi_globals;
}.
Definition with_files (s : load_state) (fds : gset Z) (elfs : Z) : load_state :=
  mk_load_state fds elfs (ls_vdso s) (ls_globals s).
Definition add_fd (fd : Z) (s : load_state) : load_state := with_files s ({[fd]} ∪ ls_fds s) (ls_elfs s).
Definition add_elf (s : load_state) : load_state := with_files s (ls_fds s) (ls_elfs s + 1).
Definition elf_end (s : load_state) : load_state := with_files s (ls_fds s) (ls_elfs s - 1).
Definition close (fd : Z) (s : load_state) : load_state := with_files s (ls_fds s ∖ {[fd]}) (ls_elfs s).

(** The handles and descriptors of [tmp_ctx]: [None] is a [NULL] handle. *)
Record handles : Type := mk_handles {
  hd_elf : option elf_file;
  hd_elf_fd : Z;
  hd_debug_elf : option elf_file;
  hd_debug_elf_fd : Z;
}.

(** [clear_elf_ctx] on [tmp_ctx]: a descriptor is closed when it is positive. *)
Definition clear_handles (h : handles) (s : load_state) : load_state :=
  let s := if hd_elf h then elf_end s else s in
  let s := if hd_debug_elf h then elf_end s else s in
  let s := if 0 <? hd_elf_fd h then close (hd_elf_fd h) s else s in
  if 0 <? hd_debug_elf_fd h then close (hd_debug_elf_fd h) s else s.

(** The end of a successful load: handles are closed with their descriptors. *)
Definition close_handles (h : handles) (s : load_state) : load_state :=
  let s := if hd_debug_elf h then close (hd_debug_elf_fd h) (elf_end s) else s in
  if hd_elf h then close (hd_elf_fd h) (elf_end s) else s.

(** ** Paths *)

(** [%lx] *)
Definition hex (v : Z) : text :=
  match list_find (fun c => c <> "0"%char) (print_hex 16 v) with
  | Some (i, _) => drop i (print_hex 16 v)
  | None => txt "0"
  end.

(** [live_open_path] of [gu_load_pid]. *)
Definition live_path (p : live_open_path) : text :=
  snprintf 64 match p with
              | ProcExe pid => txt "/proc/" ++ decimal pid ++ txt "/exe"
              | ProcMapFile pid s e => txt "/proc/" ++ decimal pid ++ txt "/map_files/" ++ hex s ++ txt "-" ++ hex e
              end.

Definition pid_root_path (debug : bool) (pid : Z) : text :=
  if debug then [] else snprintf 64 (txt "/proc/" ++ decimal pid ++ txt "/root").

(** The part after the last slash. *)
Definition base_of (file_name : text) : text := default file_name (after_last_slash file_name).

Section load.
Context {HA : Arch} {HM : Malloc} {HQ : Qsort} {HL : LoadOs}.

(** The file a [vdso] mapping is read from: the name to open and whether it is
    local; [None] when it could not be dumped. *)
Definition vdso_file (n : nat) (file_name : text) (s : load_state) : option (text * bool) * load_state :=
  if decide (take 6 file_name = txt "[vdso]") then
    let dumped := ls_vdso s || lo_vdso n in
    let s := mk_load_state (ls_fds s) (ls_elfs s) dumped (ls_globals s) in
    (if dumped then Some (lo_vdso_path, true) else None, s)
  else (Some (file_name, false), s).

(** ** First half: from the name to the build-id *)

(** The fields of [tmp_ctx] once the build-id is known. *)
Record opened_elf : Type := mk_opened {
  oe_file_name : text;
  oe_elf_file_path : text;
  oe_file : elf_file;
  oe_fd : Z;
  oe_scn : scn_table;
  oe_build_id : text;
}.

Definition own_handles (o : opened_elf) : handles := mk_handles (Some (oe_file o)) (oe_fd o) None 0.

(** The file to open, by the three cases of [load_elf]. *)
Definition open_target (debug vdso_local : bool) (pid : Z) (file_name elf_file_path : text) (open_path : option text) : open_request :=
  match open_path with
  | Some p => OpenPath p
  | None => if negb debug && negb vdso_local then OpenInRoot pid file_name else OpenPath elf_file_path
  end.

(** The path the image is known by; [alloc] is its allocation. *)
Definition elf_path (alloc debug vdso_local : bool) (pid : Z) (file_name : text) (open_path : option text) : option text :=
  match open_path with
  | Some p => if alloc then Some p else None
  | None => if vdso_local then if alloc then Some file_name else None
            else gu_path_join alloc (pid_root_path debug pid) file_name
  end.

Definition open_elf (n : nat) (debug : bool) (s : load_state) (file_name : text) (pid : Z) (open_path : option text)
  : outcome (option opened_elf * load_state) :=
  let '(target, s) := vdso_file n file_name s in
  match target with
  | None => mret (None, s)
  | Some (file_name, vdso_local) =>
    if negb (lo_alloc n 0) then mret (None, s) else
    match elf_path (lo_alloc n 1) debug vdso_local pid file_name open_path with
    | None => mret (None, s)
    | Some elf_file_path =>
      match lo_open n (ls_fds s) (open_target debug vdso_local pid file_name elf_file_path open_path) with
      | None => mret (None, clear_handles (mk_handles None (-1) None 0) s)
      | Some (fd, f) =>
        let s := add_fd fd s in
        if negb (ef_begin f) then mret (None, clear_handles (mk_handles None fd None 0) s) else
        let s := add_elf s in
        let '(ret, scn) := scan_all_elf_scn 0 (ef_scns f) no_scn in
        if negb (ret =? 0) then mret (None, clear_handles (mk_handles (Some f) fd None 0) s) else
        id ← get_elf_build_id (lo_alloc_size n) scn;
        build_id ← deref (match id with
                          | Some id => Some id
                          | None => gu_calculate_md5 lo_md5 (lo_alloc n 2) (ef_reads f) (base_of file_name)
                          end);
        mret (Some (mk_opened file_name elf_file_path f fd scn build_id), s)
      end
    end
  end.

(** ** Second half: the tables *)

(** The debug file, when it is another file: its sections are added to those of
    the image.  [None] is the way through [exit]. *)
Definition open_debug (n : nat) (s : load_state) (o : opened_elf) (debug_file_path : text)
  : option (option (elf_file * Z) * scn_table) * load_state :=
  if decide (oe_elf_file_path o = debug_file_path) then (Some (None, oe_scn o), s) else
  let h := own_handles o in
  match lo_open n (ls_fds s) (OpenPath debug_file_path) with
  | None => (None, clear_handles (mk_handles (hd_elf h) (hd_elf_fd h) None (-1)) s)
  | Some (fd, f) =>
    let s := add_fd fd s in
    if negb (ef_begin f) then (None, clear_handles (mk_handles (hd_elf h) (hd_elf_fd h) None fd) s) else
    let s := add_elf s in
    let '(ret, scn) := scan_all_elf_scn 1 (ef_scns f) (oe_scn o) in
    if negb (ret =? 0) then (None, clear_handles (mk_handles (hd_elf h) (hd_elf_fd h) (Some f) fd) s) else
    (Some (Some (f, fd), scn), s)
  end.

(** The file a tracked section belongs to. *)
Definition file_of (o : opened_elf) (debug : option (elf_file * Z)) (elf : nat) : elf_file :=
  match elf, debug with S _, Some (f, _) => f | _, _ => oe_file o end.

Definition frame_type (t : frame_scn) : elf_scn_type :=
  match t with
  | Cfi.ELF_SCN_TYPE_DWARF_FRAME => ELF_SCN_TYPE_DWARF_FRAME
  | Cfi.ELF_SCN_TYPE_EH_FRAME => ELF_SCN_TYPE_EH_FRAME
  | Cfi.ELF_SCN_TYPE_ZDWARF_FRAME => ELF_SCN_TYPE_ZDWARF_FRAME
  end.

Definition scn_file (o : opened_elf) (debug : option (elf_file * Z)) (scn : scn_table) (t : frame_scn) : option elf_file :=
  match st_scn scn (frame_type t) with Some (elf, _) => Some (file_of o debug elf) | None => None end.

(** The sections [gu_cfi_init] chooses from. *)
Definition image_sections (o : opened_elf) (debug : option (elf_file * Z)) (scn : scn_table) : cfi_sections :=
  let size t := (fun f => ef_frame_size f t) <$> scn_file o debug scn t in
  let present t := bool_decide (is_Some (st_scn scn t)) in
  mk_sections (size Cfi.ELF_SCN_TYPE_DWARF_FRAME) (size Cfi.ELF_SCN_TYPE_EH_FRAME)
    (present ELF_SCN_TYPE_ZDWARF_FRAME) (present ELF_SCN_TYPE_GO_BUILD_ID).

Definition scn_bytes (scn : scn_table) (t : elf_scn_type) : option (list Z) :=
  match st_scn scn t with Some (_, s) => (fun d : text => code <$> d) <$> sn_data s | None => None end.
Definition scn_addr (scn : scn_table) (t : elf_scn_type) : option Z :=
  match st_scn scn t with Some (_, s) => sn_addr s | None => None end.

(** [gu_cfi_init] on the tracked sections. *)
Definition image_cfi (n : nat) (o : opened_elf) (debug : option (elf_file * Z)) (scn : scn_table) (g : cfi_globals)
  : outcome (option gu_cfi * cfi_globals) :=
  let sections := image_sections o debug scn in
  let chosen := match gu_cfi_select sections with Some (t, _) => t | None => Cfi.ELF_SCN_TYPE_EH_FRAME end in
  let file := scn_file o debug scn chosen in
  gu_cfi_init (lo_cfi_alloc n) (lo_alloc n 10) (lo_alloc n 11) (lo_alloc n 12) (lo_alloc n 13) (lo_alloc n 14)
    (match file with Some f => ef_next_cfi f chosen | None => fun _ => inl 1 end)
    (lo_fdes_addr n) lo_cfi_fuel lo_sizeof_Elf_Data (lo_alloc n 15) (lo_alloc n 16) (file ≫= ef_ident) sections
    (fun t => scn_addr scn (frame_type t)) (fun t => f ← scn_file o debug scn t; ef_frame_data f t)
    (scn_bytes scn ELF_SCN_TYPE_EH_FRAME_HDR) g.

(** The symbol section: [.symtab] when one of the files has it, else
    [.dynsym]. *)
Definition sym_section (o : opened_elf) (debug : option (elf_file * Z)) (scn : scn_table) : option sym_source :=
  match st_scn scn ELF_SCN_TYPE_SYMTAB, st_scn scn ELF_SCN_TYPE_DYNSYM with
  | Some (elf, _), _ => Some (ef_syms (file_of o debug elf) ELF_SCN_TYPE_SYMTAB)
  | None, Some (elf, _) => Some (ef_syms (file_of o debug elf) ELF_SCN_TYPE_DYNSYM)
  | None, None => None
  end.

Definition no_names : name_heap := mk_heap ∅ [] 0.
Definition image_symbols (n : nat) (cfg : sym_config) (src : option sym_source) : outcome fill_result :=
  match src with
  | None => mret (mk_result None no_names 0 0)
  | Some src => fill_symbols_debug_info cfg src (lo_alloc n 20) (lo_alloc n 21) (lo_alloc n 22) (lo_alloc n 23) no_names
  end.

(** The strings the payloads of a table point to. *)
Definition named_item (h : name_heap) (it : interval_array_item) : option (Z * string) :=
  let p := (get_interval_array_pointer (private it)).1 in
  match read_name h p with
  | Done s => if p =? 0 then None else Some (p, of_txt s)
  | Undef _ => None
  end.
Definition table_names (symbols : option interval_array) (h : name_heap) : gmap Z string :=
  match symbols with
  | None => ∅
  | Some a => list_to_map (omap (named_item h) (all_items a))
  end.

(** The tables of the image, and what stays open until it is in the cache. *)
Definition build_image (n : nat) (cfg : bool -> sym_config) (live : bool) (s : load_state) (o : opened_elf) (root : text)
    (open_path : option text) : outcome (option (elf_image * handles) * load_state) :=
  debug_file_path ← choose_debug_file (lo_candidate n) (lo_exists n) (fun i => lo_alloc n (3 + i)) (oe_scn o) (oe_build_id o)
                      (oe_elf_file_path o) (oe_file_name o) root live open_path;
  let '(r, s) := open_debug n s o debug_file_path in
  match r with
  | None => mret (None, s)
  | Some (debug, scn) =>
    let golang := bool_decide (is_Some (st_scn scn ELF_SCN_TYPE_GO_BUILD_ID)) in
    '(cfi, g) ← (if golang then mret (None, ls_globals s) else image_cfi n o debug scn (ls_globals s));
    symbols ← image_symbols n (cfg golang) (sym_section o debug scn);
    let im := mk_image golang (fr_symbols symbols) (table_names (fr_symbols symbols) (fr_heap symbols)) cfi (fr_size symbols)
                (ef_phdrs (oe_file o)) in
    mret (Some (im, mk_handles (Some (oe_file o)) (oe_fd o) (fst <$> debug) (default 0 (snd <$> debug))),
          mk_load_state (ls_fds s) (ls_elfs s) (ls_vdso s) g)
  end.

(** ** [load_elf] *)
Definition load_elf_from_files {HE : Env} (cfg : bool -> sym_config) (c : gu_context) (s : load_state) (file_name : string)
    (pid : Z) (open_path : option live_open_path) : outcome (option Z * gu_context * load_state) :=
  let path := live_path <$> open_path in
  let n := cx_ticks c in
  let c := tick c in
  '(o, s) ← open_elf n (cx_debug c) s (txt file_name) pid path;
  match o with
  | None => mret (None, c, s)
  | Some o =>
    let id := code <$> oe_build_id o in
    match find_build_id c id with
    | Some a => '(r, c) ← reuse_elf c a; mret (r, c, clear_handles (own_handles o) s)
    | None =>
      let c := on_stats (on_elf_ctx_alloc_count incr) c in
      let n := cx_ticks c in
      let c := tick c in
      '(im, s) ← build_image n cfg (negb (cx_debug c)) s o (pid_root_path (cx_debug c) pid) path;
      match im with
      | None => mret (None, c, s)
      | Some (im, h) =>
        let '(r, c) := insert_elf c id im in
        mret (r, c, if r then close_handles h s else clear_handles h s)
      end
    end
  end.
End load.

(** ** Descriptors and handles *)

(** Nothing stays open. *)
Definition settled (s s' : load_state) : Prop := ls_fds s' = ls_fds s /\ ls_elfs s' = ls_elfs s.

(** [s'] has open what [s] had, and what [h] holds. *)
Definition fd_set (fd : Z) : gset Z := if 0 <? fd then {[fd]} else ∅.
Definition elf_count (f : option elf_file) : Z := if f then 1 else 0.
Definition fds_of (h : handles) : gset Z := fd_set (hd_elf_fd h) ∪ fd_set (hd_debug_elf_fd h).
Record holds (h : handles) (s s' : load_state) : Prop := {
  ho_fds : ls_fds s' = fds_of h ∪ ls_fds s;
  ho_apart : fds_of h ## ls_fds s;
  ho_elfs : ls_elfs s' = ls_elfs s + elf_count (hd_elf h) + elf_count (hd_debug_elf h);
}.

Lemma clear_holds h s s' : holds h s s' -> settled s (clear_handles h s').
Proof.
  intros [Hf Ha He]. unfold settled, clear_handles, fds_of, fd_set, elf_count in *.
  destruct (hd_elf h), (hd_debug_elf h), (0 <? hd_elf_fd h), (0 <? hd_debug_elf_fd h);
    cbn [ls_fds ls_elfs close elf_end with_files]; (split; [set_solver|lia]).
Qed.

Lemma close_holds h s s' :
  holds h s s' -> is_Some (hd_elf h) -> 0 < hd_elf_fd h ->
  (if hd_debug_elf h then 0 < hd_debug_elf_fd h else hd_debug_elf_fd h = 0) -> settled s (close_handles h s').
Proof.
  intros [Hf Ha He] [f Hh] H1 H2. unfold settled, close_handles, fds_of, fd_set, elf_count in *. rewrite Hh in *.
  rewrite (proj2 (Z.ltb_lt _ _) H1) in Hf, Ha. destruct (hd_debug_elf h).
  - rewrite (proj2 (Z.ltb_lt _ _) H2) in Hf, Ha. cbn [ls_fds ls_elfs close elf_end with_files]. split; [set_solver|lia].
  - rewrite H2 in Hf, Ha. cbn [ls_fds ls_elfs close elf_end with_files Z.ltb Z.compare] in *. split; [set_solver|lia].
Qed.

Lemma holds_open {HL : LoadOs} h s s' n r fd f :
  holds h s s' -> 0 ∈ ls_fds s -> lo_open n (ls_fds s') r = Some (fd, f) -> 0 < fd /\ fd ∉ ls_fds s'.
Proof.
  intros [Hf _ _] H0 [Hfd Hn]%lo_open_fresh. split; [|done].
  assert (fd <> 0) by (intros ->; apply Hn; rewrite Hf; set_solver). lia.
Qed.

(** A file just opened, without and with its libelf handle. *)
Lemma holds_elf_fd s fd f :
  0 < fd -> fd ∉ ls_fds s ->
  holds (mk_handles None fd None 0) s (add_fd fd s) /\ holds (mk_handles (Some f) fd None 0) s (add_elf (add_fd fd s)).
Proof.
  intros H1 H2. unfold add_elf, add_fd. split; split; unfold fds_of, fd_set; cbn [ls_fds ls_elfs hd_elf hd_elf_fd hd_debug_elf hd_debug_elf_fd with_files elf_count];
    rewrite ?(proj2 (Z.ltb_lt _ _) H1); cbn [Z.ltb Z.compare]; (set_solver || lia).
Qed.

Lemma holds_debug_fd f fd s s' fd' f' :
  holds (mk_handles (Some f) fd None 0) s s' -> 0 < fd' -> fd' ∉ ls_fds s' ->
  holds (mk_handles (Some f) fd None fd') s (add_fd fd' s') /\
  holds (mk_handles (Some f) fd (Some f') fd') s (add_elf (add_fd fd' s')).
Proof.
  intros [Hf Ha He] H1 H2. unfold fds_of in Hf, Ha. cbn [hd_elf hd_elf_fd hd_debug_elf hd_debug_elf_fd elf_count] in *.
  assert (Hs : fd_set fd' = {[fd']}) by (unfold fd_set; by rewrite (proj2 (Z.ltb_lt _ _) H1)).
  change (fd_set 0) with (∅ : gset Z) in *.
  assert (Hfds : {[fd']} ∪ ls_fds s' = (fd_set fd ∪ fd_set fd') ∪ ls_fds s) by (rewrite Hf, Hs; clear; set_solver).
  assert (Hap : fd_set fd ∪ fd_set fd' ## ls_fds s) by (rewrite Hs; set_solver).
  split; split; cbn [ls_elfs hd_elf hd_debug_elf elf_count add_elf add_fd with_files]; try done; lia.
Qed.

Lemma holds_no_debug f fd s s' : holds (mk_handles (Some f) fd None 0) s s' -> holds (mk_handles (Some f) fd None (-1)) s s'.
Proof. intros [Hf Ha He]. by split. Qed.

(** ** The phases *)
Section phases.
Context {HA : Arch} {HM : Malloc} {HQ : Qsort} {HL : LoadOs}.

Definition from_disk (f : elf_file) : Prop := exists n used r fd, lo_open n used r = Some (fd, f).

(** Files the code handles: build-id notes have a header and contents, symbol
    tables an entry size, the CFI entries can be decoded, candidates can be read
    to their end; and the two copies whose failure is not checked succeed. *)
Record load_ok : Prop := {
  lk_notes f scns s : from_disk f -> ef_scns f = Some scns -> s ∈ scns ->
    sn_name s = Some (elf_scn_type_str ELF_SCN_TYPE_GO_BUILD_ID) \/ sn_name s = Some (elf_scn_type_str ELF_SCN_TYPE_GNU_BUILD_ID) ->
    exists d, sn_data s = Some d /\ (16 <= length d)%nat;
  lk_alloc n : lo_alloc n 2 = true /\ lo_alloc n 5 = true;
  lk_reads n p : reads_all (lo_candidate n p);
  lk_syms f t : from_disk f -> source_ok (ef_syms f t) /\ forall size, so_shdr (ef_syms f t) <> Some (size, 0);
  lk_cfi n o debug scn g : from_disk (oe_file o) -> (forall f fd, debug = Some (f, fd) -> from_disk f) ->
    exists r, image_cfi n o debug scn g = Done r;
}.

Lemma vdso_settled n file_name s r s' : vdso_file n file_name s = (r, s') -> settled s s'.
Proof. unfold vdso_file. case_decide; by intros [= <- <-]. Qed.

Lemma build_id_done (Hok : load_ok) n f scns scn :
  from_disk f -> ef_scns f = Some scns -> scan_loop 0 scns no_scn = (0, scn) ->
  exists id, get_elf_build_id (lo_alloc_size n) scn = Done id.
Proof.
  intros Hf Hs E. unfold get_elf_build_id.
  assert (Hnote : forall t x, t = ELF_SCN_TYPE_GO_BUILD_ID \/ t = ELF_SCN_TYPE_GNU_BUILD_ID -> st_scn scn t = Some x ->
    exists d, sn_data x.2 = Some d /\ (16 <= length d)%nat).
  { intros t x Ht Hx. destruct (scan_loop_tracks _ _ _ _ _ _ E Hx) as [?|(_ & Hin & Hname)]; [done|].
    eapply (lk_notes Hok); [done..|]. destruct Ht as [->| ->]; [by left|by right]. }
  assert (Hdone : forall x : nat * elf_scn, (exists d, sn_data x.2 = Some d /\ (16 <= length d)%nat) -> exists id,
    (let '(_, s) := x in data ← deref (sn_data s);
     if negb (lo_alloc_size n (Z.of_nat (length data) -w 16)) then mret None else
     if Z.of_nat (length data) <? 16 then Undef OutOfBounds else mret (Some (drop 16 data))) = Done id).
  { intros [? x] (d & Hd & Hl). cbn in Hd. rewrite Hd. run. destruct (lo_alloc_size _ _); [|by eexists].
    cbn [negb]. rewrite (proj2 (Z.ltb_ge _ _)) by lia. by eexists. }
  destruct (st_scn scn ELF_SCN_TYPE_GO_BUILD_ID) as [x|] eqn:E1.
  - specialize (Hdone x (Hnote _ _ (or_introl eq_refl) E1)). by destruct x.
  - destruct (st_scn scn ELF_SCN_TYPE_GNU_BUILD_ID) as [x|] eqn:E2; [|by eexists].
    specialize (Hdone x (Hnote _ _ (or_intror eq_refl) E2)). by destruct x.
Qed.

(** The first half: it ends, and what it opens is what the context holds. *)
Lemma open_elf_ok (Hok : load_ok) n debug s file_name pid open_path :
  0 ∈ ls_fds s ->
  exists o s', open_elf n debug s file_name pid open_path = Done (o, s') /\
    match o with
    | None => settled s s'
    | Some o => holds (own_handles o) s s' /\ 0 < oe_fd o /\ from_disk (oe_file o) /\
        exists scns, ef_scns (oe_file o) = Some scns /\ scan_loop 0 scns no_scn = (0, oe_scn o)
    end.
Proof.
  intros H0. unfold open_elf. destruct (vdso_file n file_name s) as [target s1] eqn:Ev. apply vdso_settled in Ev as Hs1.
  assert (Hset : forall h s', holds h s1 s' -> settled s (clear_handles h s')).
  { intros h s' [E1 E2]%clear_holds. destruct Hs1 as [E3 E4]. split; congruence. }
  destruct Hs1 as [Ef Ee]. rewrite <- Ef in H0.
  destruct target as [[name local]|]; [|by do 2 eexists]. destruct (lo_alloc n 0); cbn [negb]; [|by do 2 eexists].
  destruct (elf_path _ _ _ _ _ _) as [path|]; [|by do 2 eexists].
  destruct (lo_open n (ls_fds s1) _) as [[fd f]|] eqn:Eo; [|by do 2 eexists].
  assert (Hd : from_disk f) by (by do 4 eexists).
  assert (Hnil : holds (mk_handles None 0 None 0) s1 s1) by (split; cbn; [set_solver|set_solver|lia]).
  destruct (holds_open _ _ _ _ _ _ _ Hnil H0 Eo) as [Hfd Hfresh]. destruct (holds_elf_fd s1 fd f Hfd Hfresh) as [Hh1 Hh2].
  destruct (ef_begin f); cbn [negb]; [|do 2 eexists; split; [done|by apply Hset]].
  unfold scan_all_elf_scn. destruct (ef_scns f) as [scns|] eqn:Es; [|do 2 eexists; split; [done|by apply Hset]].
  destruct (scan_loop 0 scns no_scn) as [ret scn] eqn:Escan.
  destruct (Z.eqb_spec ret 0) as [->|]; cbn [negb]; [|do 2 eexists; split; [done|by apply Hset]].
  destruct (build_id_done Hok n f scns scn Hd Es Escan) as [id ->]. run. destruct (lk_alloc Hok n) as [-> _].
  unfold gu_calculate_md5. assert (exists b, match id with Some id => Some id | None => Some (lo_md5 (md5_input (ef_reads f) 0 ++ base_of name)) end = Some b) as [b ->]
    by (destruct id; by eexists). run. do 2 eexists. split; [done|]. unfold own_handles. cbn [oe_file oe_fd oe_scn].
  split_and!; [|done|done|by exists scns].
  destruct Hh2 as [E1 E2 E3]. split; [by rewrite <- Ef|by rewrite <- Ef|by rewrite <- Ee].
Qed.

Lemma open_debug_ok n s0 s o path :
  0 ∈ ls_fds s0 -> holds (own_handles o) s0 s -> 0 < oe_fd o ->
  exists r s', open_debug n s o path = (r, s') /\
    match r with
    | None => settled s0 s'
    | Some (debug, scn) =>
      holds (mk_handles (Some (oe_file o)) (oe_fd o) (fst <$> debug) (default 0 (snd <$> debug))) s0 s' /\
      (forall t x, st_scn (oe_scn o) t = Some x -> st_scn scn t = Some x) /\
      (forall f fd, debug = Some (f, fd) -> 0 < fd /\ from_disk f)
    end.
Proof.
  intros H0 Hh Hfd. unfold open_debug. case_decide; [do 2 eexists; split; [done|]; by split|].
  destruct (lo_open n (ls_fds s) _) as [[fd f]|] eqn:Eo.
  2:{ do 2 eexists. split; [done|]. by apply clear_holds, holds_no_debug. }
  assert (Hd : from_disk f) by (by do 4 eexists). destruct (holds_open _ _ _ _ _ _ _ Hh H0 Eo) as [Hpos Hfresh].
  destruct (holds_debug_fd _ _ _ _ fd f Hh Hpos Hfresh) as [Hh1 Hh2].
  destruct (ef_begin f); cbn [negb]; [|do 2 eexists; split; [done|by apply clear_holds]].
  unfold scan_all_elf_scn. destruct (ef_scns f) as [scns|]; [|do 2 eexists; split; [done|by apply clear_holds]].
  destruct (scan_loop 1 scns (oe_scn o)) as [ret scn] eqn:Escan.
  destruct (Z.eqb_spec ret 0) as [->|]; cbn [negb]; [|do 2 eexists; split; [done|by apply clear_holds]].
  do 2 eexists. split; [done|]. split; [done|]. split; [|by intros ? ? [= <- <-]].
  intros t x. by eapply scan_loop_keeps.
Qed.

Lemma empty_heap_ok : heap_ok no_names.
Proof. apply empty_names_ok. Qed.

Lemma file_of_disk o debug elf :
  from_disk (oe_file o) -> (forall f fd, debug = Some (f, fd) -> 0 < fd /\ from_disk f) -> from_disk (file_of o debug elf).
Proof. intros Ho Hd. unfold file_of. destruct elf; [done|]. destruct debug as [[f fd]|]; [by eapply Hd|done]. Qed.

(** The symbol section chosen is one of a file from disk. *)
Lemma sym_section_ok (Hok : load_ok) o debug scn src :
  from_disk (oe_file o) -> (forall f fd, debug = Some (f, fd) -> 0 < fd /\ from_disk f) ->
  sym_section o debug scn = Some src -> source_ok src /\ forall size, so_shdr src <> Some (size, 0).
Proof.
  intros Ho Hd. unfold sym_section.
  destruct (st_scn scn ELF_SCN_TYPE_SYMTAB) as [[elf x]|].
  - intros [= <-]. by apply (lk_syms Hok), file_of_disk.
  - destruct (st_scn scn ELF_SCN_TYPE_DYNSYM) as [[elf x]|]; [|done]. intros [= <-]. by apply (lk_syms Hok), file_of_disk.
Qed.

(** The second half: it ends; a failure closes everything, a success holds both
    files, has no CFI for a Go image, and has the symbols of the section chosen
    after both scans. *)
Lemma build_image_ok (Hok : load_ok) n cfg live s0 s o root open_path :
  0 ∈ ls_fds s0 -> holds (own_handles o) s0 s -> 0 < oe_fd o -> from_disk (oe_file o) ->
  exists r s', build_image n cfg live s o root open_path = Done (r, s') /\
    match r with
    | None => settled s0 s'
    | Some (im, h) => holds h s0 s' /\ is_Some (hd_elf h) /\ 0 < hd_elf_fd h /\
        (if hd_debug_elf h then 0 < hd_debug_elf_fd h else hd_debug_elf_fd h = 0)
    end.
Proof.
  intros H0 Hh Hfd Ho. unfold build_image.
  destruct (choose_debug_file_done (lo_candidate n) (lo_exists n) (fun i => lo_alloc n (3 + i)) (oe_scn o) (oe_build_id o)
    (oe_elf_file_path o) (oe_file_name o) root live open_path) as [path ->]; [apply (lk_reads Hok)|apply (lk_alloc Hok)|]. run.
  destruct (open_debug_ok n s0 s o path H0 Hh Hfd) as (r & s1 & -> & Hr). destruct r as [[debug scn]|]; [|by do 2 eexists].
  destruct Hr as (Hh1 & _ & Hd). set (golang := bool_decide _).
  assert (Hcfi : exists x, (if golang then mret (None, ls_globals s1) else image_cfi n o debug scn (ls_globals s1)) = Done x).
  { destruct golang; [by eexists|]. apply (lk_cfi Hok); [done|]. intros f fd E. by apply Hd in E as [_ ?]. }
  destruct Hcfi as [[cfi g] ->]. run.
  assert (Hsym : exists x, image_symbols n (cfg golang) (sym_section o debug scn) = Done x).
  { unfold image_symbols. destruct (sym_section o debug scn) as [src|] eqn:Es; [|by eexists].
    destruct (sym_section_ok Hok _ _ _ _ Ho Hd Es) as [H1 H2].
    destruct (fill_result_ok (cfg golang) src _ (lo_alloc n 20) (lo_alloc n 21) (lo_alloc n 22) (lo_alloc n 23) no_names H1 empty_heap_ok eq_refl H2)
      as (x & -> & _). by eexists. }
  destruct Hsym as [x ->]. run. do 2 eexists. split; [done|]. cbn [hd_elf hd_elf_fd hd_debug_elf hd_debug_elf_fd].
  split; [by destruct Hh1; split|]. split; [by eexists|]. split; [done|].
  destruct debug as [[f fd]|]; [by eapply Hd|done].
Qed.

(** Using a cached image again is defined. *)
Lemma reuse_elf_done {HE : Env} c a id : find_build_id c id = Some a -> exists r, reuse_elf c a = Done r.
Proof.
  intros E. unfold find_build_id in E. destruct (head _) as [[b e]|] eqn:Eh; [|done]. injection E as <-.
  apply head_Some_elem_of, list_elem_of_filter in Eh as [_ He%elem_of_map_to_list]. unfold reuse_elf, gu_unretire_elf_ctx.
  cbn [fst]. rewrite He. run. destruct (ec_retired e) eqn:Er.
  - rewrite ?He. run. rewrite ?Er. cbn [negb]. run. cbn [cx_elfs on_stats with_stats with_elfs]. rewrite lookup_insert_eq. run. by eexists.
  - run. rewrite He. run. by eexists.
Qed.
End phases.

(** ** The cache sees the image the files make

    The environment of [Context] agrees with the files at one call: its answers
    are what the two halves compute. *)
Definition env_agrees {HA : Arch} {HM : Malloc} {HQ : Qsort} {HL : LoadOs} {HE : Env} (cfg : bool -> sym_config) (c : gu_context)
    (s : load_state) (file_name : string) (pid : Z) (open_path : option live_open_path) : Prop :=
  let n := cx_ticks c in
  forall o s1, open_elf n (cx_debug c) s (txt file_name) pid (live_path <$> open_path) = Done (o, s1) ->
    read_build_id n pid file_name open_path = (fun o => code <$> oe_build_id o) <$> o /\
    forall o' im s2, o = Some o' ->
      build_image (S n) cfg (negb (cx_debug c)) s1 o' (pid_root_path (cx_debug c) pid) (live_path <$> open_path) = Done (im, s2) ->
      read_image (S n) pid file_name open_path = fst <$> im.

(** The names of a table: every named payload leads to its text. *)
Lemma table_names_lookup a h p q s :
  p ∈ private <$> all_items a -> q = (get_interval_array_pointer p).1 -> q <> 0 -> read_name h q = Done s ->
  table_names (Some a) h !! q = Some (of_txt s).
Proof.
  intros (it & -> & Hit)%list_elem_of_fmap Hq Hne Hs.
  assert (Hnamed : forall x y, named_item h x = Some (q, y) -> y = of_txt s).
  { intros x y. unfold named_item. set (r := (get_interval_array_pointer (private x)).1). destruct (read_name h r) as [s'|] eqn:E; [|done]. destruct (r =? 0); [done|].
    intros [= Eq Ey]. rewrite Eq, Hs in E. by injection E as <-. }
  cbn [table_names]. apply elem_of_list_to_map_1'.
  - intros y (x & _ & Hx)%list_elem_of_omap. by apply Hnamed in Hx.
  - apply list_elem_of_omap. exists it. split; [done|]. unfold named_item. rewrite <- Hq, Hs. by rewrite (proj2 (Z.eqb_neq q 0)).
Qed.

(** ** Properties *)



(** ** Witnesses *)

(** An environment that answers from the files, for calls made in state [s] of a
    live context. *)
Definition files_env {HA : Arch} {HM : Malloc} {HQ : Qsort} {HL : LoadOs} (HE : Env) (cfg : bool -> sym_config) (s : load_state) : Env.
Proof.
  refine {| clock_ns := clock_ns; timer_now := timer_now; timer_pending := timer_pending; kill_ok := kill_ok;
    proc_maps_file := proc_maps_file; maps_alloc := maps_alloc; proc_comm := proc_comm; proc_start_time := proc_start_time;
    read_build_id := fun n pid file op =>
      match open_elf n false s (txt file) pid (live_path <$> op) with Done (Some o, _) => Some (code <$> oe_build_id o) | _ => None end;
    read_image := fun n pid file op =>
      match open_elf (pred n) false s (txt file) pid (live_path <$> op) with
      | Done (Some o, s1) =>
        match build_image n cfg true s1 o (pid_root_path false pid) (live_path <$> op) with Done (Some (im, _), _) => Some im | _ => None end
      | _ => None
      end;
    malloc_addr := malloc_addr; malloc_ok := malloc_ok; pid_block := pid_block |}.
  - apply clock_range.
  - apply timer_range.
  - apply pid_block_u64.
  - apply proc_maps_format.
  - apply malloc_fresh.
Defined.

Lemma files_env_agrees {HA : Arch} {HM : Malloc} {HQ : Qsort} {HL : LoadOs} (HE : Env) cfg c s file_name pid open_path :
  cx_debug c = false -> env_agrees (HE := files_env HE cfg s) cfg c s file_name pid open_path.
Proof.
  intros Hd. unfold env_agrees. rewrite Hd. cbn zeta. intros o s1 Eo. cbn [read_build_id read_image files_env pred negb].
  rewrite Eo. split; [by destruct o|]. intros o' im s2 -> ->. by destruct im as [[? ?]|].
Qed.

(** One file, with a build-id and a symbol table, found in the root of the
    process; nothing else exists. *)
Definition sample_file : elf_file :=
  mk_file true
    (Some [mk_scn (Some 0) (Some (txt ".note.gnu.build-id")) (Some (replicate 36 "a"%char)); mk_scn (Some 0) (Some (txt ".symtab")) None])
    None (fun _ => sample_source) None (fun _ => 0) (fun _ => None) (fun _ _ => inl 1) [].
Definition sample_os : LoadOs.
Proof.
  refine {| lo_alloc := fun _ _ => true; lo_alloc_size := fun _ _ => true; lo_cfi_alloc := fun _ _ => true;
    lo_open := fun _ used r => match r with OpenInRoot _ _ => Some (next_free used, sample_file) | OpenPath _ => None end;
    lo_vdso := fun _ => false; lo_vdso_path := []; lo_exists := fun _ _ => false;
    lo_candidate := fun _ _ => mk_candidate false false false [] [Got 0] false; lo_md5 := fun _ => [];
    lo_fdes_addr := fun _ => 0; lo_cfi_fuel := 0; lo_sizeof_Elf_Data := 0 |}.
  intros _ used [p|pid p] fd f; [done|]. intros [= <- _]. destruct (next_free_spec used) as [H1 H2]. split; [lia|].
  intros Hin. specialize (H1 _ Hin). lia.
Defined.

Lemma sample_from_disk f : from_disk (HL := sample_os) f -> f = sample_file.
Proof. intros (n & used & [p|pid p] & fd & E); [done|]. by injection E as _ <-. Qed.

Lemma sample_load_ok : load_ok (HA := linux_x86_64) (HQ := merge_qsort) (HL := sample_os).
Proof.
  split.
  - intros f scns s ->%sample_from_disk [= <-] Hs [Hn|Hn]; repeat (apply elem_of_cons in Hs as [->|Hs]); try done.
    1,3: by apply not_elem_of_nil in Hs.
    eexists. split; [reflexivity|]. cbn. lia.
  - done.
  - intros n p. split; [constructor|]. split; [|apply (bool_decide_unpack _); vm_compute; done]. cbn. by intros [[=]|?%not_elem_of_nil]%elem_of_cons.
  - intros f t ->%sample_from_disk. split; [apply sample_source_ok|]. intros size. by intros [=].
  - intros n o debug scn g Ho Hd. apply sample_from_disk in Ho.
    assert (Hf : forall elf, file_of o debug elf = sample_file).
    { intros elf. unfold file_of. destruct elf; [done|]. destruct debug as [[f fd]|]; [|done]. by apply sample_from_disk, (Hd f fd). }
    unfold image_cfi, gu_cfi_init. destruct (gu_cfi_select _) as [[t use_hdr]|]; [|by eexists].
    destruct (scn_addr _ _); [|by eexists]. assert ((f ← scn_file o debug scn t; ef_frame_data f t) = None) as ->; [|by eexists].
    unfold scn_file. destruct (st_scn scn _) as [[elf x]|]; [|done]. cbn. by rewrite Hf.
Qed.

Definition sample_load_state : load_state := mk_load_state {[0; 1; 2]} 0 false (mk_globals false zero_calc_ctx empty_heap).
Definition plain_config (golang : bool) : sym_config := mk_config golang false false (fun _ => true).
Lemma five_range : 0 <= 5 < 2 ^ 63.
Proof. lia. Qed.
Abbreviation sample_env := (files_env (HA := linux_x86_64) (HM := rising_malloc) (HQ := merge_qsort) (HL := sample_os)
  (still_env 5 five_range) plain_config sample_load_state).
Abbreviation live_ctx := (gu_init false false false).


(** The first half of that load. *)
Definition sample_opened : opened_elf * load_state :=
  match open_elf (HL := sample_os) 0 false sample_load_state (txt "/bin/app") 7 None with
  | Done (Some o, s) => (o, s)
  | _ => (mk_opened [] [] sample_file 0 no_scn [], sample_load_state)
  end.
Definition sample_built : option (elf_image * handles) * load_state :=
  match build_image (HA := linux_x86_64) (HM := rising_malloc) (HQ := merge_qsort) (HL := sample_os) 1 plain_config true
          sample_opened.2 sample_opened.1 (txt "/proc/7/root") None with
  | Done x => x
  | Undef _ => (None, sample_load_state)
  end.

Lemma sample_build_runs :
  build_image (HA := linux_x86_64) (HM := rising_malloc) (HQ := merge_qsort) (HL := sample_os) 1 plain_config true
    sample_opened.2 sample_opened.1 (txt "/proc/7/root") None = Done sample_built.
Proof. vm_compute. reflexivity. Qed.

Lemma sample_opened_ok : holds (own_handles sample_opened.1) sample_load_state sample_opened.2 /\ 0 < oe_fd sample_opened.1.
Proof.
  split; [|vm_compute; done]. split; [apply (bool_decide_unpack _); vm_compute; done| |vm_compute; done].
  assert (fds_of (own_handles sample_opened.1) = {[3]}) as -> by (apply (bool_decide_unpack _); vm_compute; done). set_solver.
Qed.

