(* ===== verification/BtDebug.v ===== *)
(** * Replaying dumps: [tools/bt_debug.c], lines 390-828

    The tool reads the dumps of a directory back and unwinds each of them, by
    CFI and, for the current format, again by frame pointers.  A dump keeps the
    maps of the sampled process beside the copied files, so the tool first
    rewrites the paths in it.  This file models the rewriting, the printing of
    frames and summaries, and the loop over the dumps; it composes [Dump],
    [BtStats] and [Unwind].  The file system and the demangler are arguments. *)

From Stdlib Require Import Ascii Floats.SpecFloat.
From stdpp Require Import strings.
From S2P Require Import Prelude Types IntervalArray Arch CfiProgram CfiOps Cfi CfiParse DwarfEval Maps PathWalk DebugFile Dump BtStats Context Unwind LoadElf.

(** ** Names *)

(** [rm_template_param] on a buffer: [r] and [w] are the distances of
    [read_pos] and [write_pos] from its start. *)
Fixpoint strip_loop (fuel : nat) (buf : text) (r w : nat) (depth : Z) : outcome text :=
  match fuel with
  | O => Undef OutOfFuel
  | S fuel =>
    c ← of_opt (buf !! r);
    if decide (c = NUL) then (_ ← of_opt (buf !! w); mret (<[w := NUL]> buf))
    else if decide (c = "<"%char) then strip_loop fuel buf (S r) w (depth + 1)
    else if decide (c = ">"%char) then strip_loop fuel buf (S r) w (depth - 1)
    else if depth =? 0 then (_ ← of_opt (buf !! w); strip_loop fuel (<[w := c]> buf) (S r) (S w) depth)
    else strip_loop fuel buf (S r) w depth
  end.
Definition rm_template_param (demangled : option text) : outcome (option text) :=
  match demangled with
  | None => mret None
  | Some buf => buf ← strip_loop (S (length buf)) buf 0 0 0; mret (Some buf)
  end.

(** ** Frames *)

(** [struct trace_output], and the lines printed so far. *)
Record trace_output : Type := mk_trace {
  print_frames : bool;
  frame_count : Z;
  last_frame : text;
  printed : list text;
}.

Section frames.
(** [cplus_demangle]: a fresh terminated string. *)
Variable demangle : text -> option text.

(** [format_frame]: [symbol] is the string of the frame, [module] the base name
    of its image. *)
Definition format_frame (symbol module : option text) (offset pc buf_size : Z) : outcome text :=
  let module := default (txt "anon exec segment") module in
  symbol ← (match symbol with
            | None => mret None
            | Some s => if decide (take 2 s = txt "_Z") then (d ← rm_template_param (demangle s); mret (c_str <$> d)) else mret (Some s)
            end);
  mret (snprintf buf_size
          match symbol with
          | Some s => s ++ txt "+0x" ++ hex offset ++ txt " (0x" ++ hex pc ++ txt ") [" ++ module ++ txt "]"
          | None => txt "0x" ++ hex pc ++ txt " [" ++ module ++ txt "]"
          end).

(** [%02d] *)
Definition pad2 (n : Z) : text := if (0 <=? n) && (n <? 10) then "0"%char :: decimal n else decimal n.

(** [process_single_frame] with a non-[NULL] context. *)
Definition process_single_frame (symbol module : option text) (offset pc : Z) (output : trace_output) : outcome trace_output :=
  frame_text ← format_frame symbol module offset pc 512;
  let line := "#"%char :: pad2 (frame_count output) ++ " "%char :: frame_text in
  if 2 ^ 31 - 1 <=? frame_count output then Undef SignedOverflow else
  mret (mk_trace (print_frames output) (frame_count output + 1) (snprintf 512 line)
          (printed output ++ if print_frames output then [txt "  " ++ line ++ [newline]] else [])).

(** The strings a frame points to: the name its image owns, and the base name of
    the image at that address. *)
Variable base_name : Z -> text.
Definition frame_symbol (c : gu_context) (f : gu_frame_record) : option text :=
  e ← cx_elfs c !! fr_elf_info f; txt <$> ec_names e !! fr_symbol f.
Definition frame_module (f : gu_frame_record) : option text :=
  if fr_elf_info f =? 0 then None else Some (base_name (fr_elf_info f)).

(** The callback over the frames an unwind reported. *)
Fixpoint process_frames (c : gu_context) (fs : list gu_frame_record) (output : trace_output) : outcome trace_output :=
  match fs with
  | [] => mret output
  | f :: fs =>
    output ← process_single_frame (frame_symbol c f) (frame_module f) (fr_offset f) (fr_pc f) output;
    process_frames c fs output
  end.
End frames.

(** ** The saved maps *)

Definition get_parent_dir (alloc : bool) (path : text) : option text := if alloc then before_last_slash path else None.

(** [strstr(line, sub)]: where it starts. *)
Fixpoint strstr_at (line sub : text) : option nat :=
  if decide (sub `prefix_of` line) then Some O else
  match line with
  | [] => None
  | _ :: line => S <$> strstr_at line sub
  end.

(** Where the path of a line is looked for. *)
Definition path_token (line : text) : option nat :=
  match before_last_slash line with
  | Some d => Some (length d)
  | None => strstr_at line (txt "[vdso]")
  end.

(** [while ( *tmp != ' ' && tmp > line) tmp--;] *)
Fixpoint back_to_space (line : text) (i : nat) : nat :=
  match i with
  | O => O
  | S j => if decide (line !! i = Some " "%char) then i else back_to_space line j
  end.

(** One line of the saved maps; [len] is the size of the buffer [getline] has,
    [alloc_path] and [alloc_line] the two allocations.  [None] is [goto out]. *)
Definition rewrite_line (parent_dir : text) (len : nat) (alloc_path alloc_line : bool) (line : text) : option text :=
  match path_token line with
  | Some t =>
    let token := drop t line in
    let binary_name := if decide (take 6 token = txt "[vdso]") then txt "__vdso.so" else drop 1 token in
    new_path ← gu_path_join alloc_path parent_dir binary_name;
    if negb alloc_line then None else
    Some (snprintf (Z.of_nat (len + length parent_dir + 1)) (take (back_to_space line t) line ++ new_path ++ [newline]))
  | None => Some line
  end.

(** What the system answers while one maps file is rewritten. *)
Record maps_answers : Type := mk_maps_answers {
  ma_parent : bool;
  ma_join_maps : bool;
  ma_maps : option (list text);          (** the lines [getline] reads *)
  ma_join_output : bool;
  ma_open_output : bool;
  ma_len : nat -> nat;
  ma_path : nat -> bool;
  ma_line : nat -> bool;
  ma_fputs : nat -> bool;
}.

Fixpoint rewrite_lines (a : maps_answers) (parent_dir : text) (i : nat) (lines : list text) (out : list text) : list text * bool :=
  match lines with
  | [] => (out, true)
  | line :: lines =>
    match rewrite_line parent_dir (ma_len a i) (ma_path a i) (ma_line a i) line with
    | None => (out, false)
    | Some new => if ma_fputs a i then rewrite_lines a parent_dir (S i) lines (out ++ [new]) else (out, false)
    end
  end.

(** [update_maps_paths]: the name of the rewritten file when it is to be used,
    the static [updated], and the file when this call wrote it. *)
Definition update_maps_paths (a : maps_answers) (path : text) (updated : bool) : option text * bool * option (list text) :=
  match get_parent_dir (ma_parent a) path with
  | None => (None, updated, None)
  | Some parent_dir =>
    match gu_path_join (ma_join_maps a) parent_dir (txt "maps"), ma_maps a with
    | Some _, Some lines =>
      match gu_path_join (ma_join_output a) parent_dir (txt "maps_updated") with
      | None => (None, updated, None)
      | Some output_maps_path =>
        if updated then (Some output_maps_path, true, None) else
        if negb (ma_open_output a) then (None, true, None) else
        let '(out, ok) := rewrite_lines a parent_dir 0 lines [] in
        (if ok : bool then Some output_maps_path else None, true, Some out)
      end
    | _, _ => (None, updated, None)
    end
  end.

(** ** Summaries *)

(** The window of the captured stack [print_dump_header] prints. *)
Definition dump_window {HA : Arch} (page_size : Z) (info : gu_stack_info) : outcome (Z * Z * Z) :=
  match regs info with
  | None => mret (0, 0, 0)
  | Some _ =>
    sp ← get_regs info reg_name_rsp;
    mret (match sp with
          | Some raw_sp => let start := raw_sp -w raw_sp mod page_size in (raw_sp, start, start +w stack_size info)
          | None => (0, 0, 0)
          end)
  end.

(** What [print_trace_summary] computes: status, reason, number of frames, and
    for a stack read out of range the size the stack should have had and how
    much is missing. *)
Record trace_summary : Type := mk_summary {
  ts_status : text;
  ts_reason : text;
  ts_frames : Z;
  ts_oob : option (Z * Z * Z * Z * Z * Z);
}.
Definition print_trace_summary (info : gu_stack_info) (o : oor) (output : trace_output) : trace_summary :=
  let oob := if gu_flags_reason (flags info) =? reason_code GU_UNWIND_REASON_STACK_READ_OUT_OF_RANGE
             then gu_last_stack_read_out_of_range o else None in
  mk_summary (format_stop_status (flags info)) (format_stop_reason (flags info) 64) (frame_count output)
    match oob with
    | Some (read_addr, stack_start, stack_end, raw_sp) =>
      let needed := if stack_start <=? read_addr then (read_addr -w stack_start) +w 8 else 0 in
      let extra := if stack_start <=? read_addr then s64 needed - s64 (stack_size info) else 0 in
      Some (read_addr, raw_sp, stack_start, stack_end, needed, extra)
    | None => None
    end.

(** The time between two readings of the monotonic clock, (seconds,
    nanoseconds). *)
Definition elapsed_ns (start_time end_time : Z * Z) : Z :=
  if start_time.2 <=? end_time.2 then u64 ((end_time.1 - start_time.1) * 1000000000 + (end_time.2 - start_time.2))
  else u64 ((end_time.1 - start_time.1 - 1) * 1000000000 + (1000000000 + end_time.2 - start_time.2)).

(** ** Replaying one dump *)

#[export] Instance dump_version_eq_dec : EqDecision dump_version.
Proof. solve_decision. Defined.

(** What outlives a dump: the context, the static state of the unwinder, the
    static [updated] and the two sets of statistics. *)
Record replay_state : Type := mk_replay {
  rs_ctx : gu_context;
  rs_scratch : ops_scratch;
  rs_heap : cfi_heap;
  rs_oor : oor;
  rs_updated : bool;
  rs_dwarf_stats : unwind_timing_stats;
  rs_fp_stats : unwind_timing_stats;
}.

(** What the system answers for one dump: its contents, the allocations of the
    reader, the rewriting of the maps, the address of the name of the rewritten
    file, and the clock. *)
Record dump_answers : Type := mk_dump_answers {
  da_file : option (list Z);
  da_alloc_info : bool;
  da_alloc : Z -> bool;
  da_maps : maps_answers;
  da_path_addr : Z;
  da_clock : nat -> Z * Z;
}.

Definition with_unique_id (info : gu_stack_info) (id : Z) : gu_stack_info :=
  mk_gu_stack_info (si_pid info) (stack_size info) id (regs info) (regs_size info) (flags info) (ustack_fp info)
    (ustack_fp_level info) (stack_data info).

Section replay.
Context {HA : Arch} {HE : Env} {HQ : Qsort}.
Context (page_size : Z) (verbose : bool) (heap_ok : cfi_heap -> bool) (depth : nat).
Context (demangle : text -> option text) (base_name : Z -> text).

(** One unwind of the snapshot: the reason is reset, the frames are printed, and
    the time is taken.  [start] is the reading of the clock before it. *)
Definition replay_pass (clock : nat -> Z * Z) (start : nat) (print_details : bool) (s : replay_state) (info : gu_stack_info)
  : outcome (replay_state * gu_stack_info * trace_output * trace_summary * Z) :=
  let u := mk_uw (rs_ctx s) None (gu_flags_set_reason info GU_UNWIND_REASON_OK) [] (rs_scratch s) (rs_heap s) (rs_oor s) in
  '(_, u) ← gu_unwind page_size verbose heap_ok depth u;
  output ← process_frames demangle base_name (uw_ctx u) (uw_frames u) (mk_trace print_details 0 [] []);
  let s := mk_replay (uw_ctx u) (uw_scratch u) (uw_heap u) (uw_oor u) (rs_updated s) (rs_dwarf_stats s) (rs_fp_stats s) in
  mret (s, uw_info u, output, print_trace_summary (uw_info u) (uw_oor u) output, elapsed_ns (clock start) (clock (S start))).

(** The passes over a snapshot that was read: by CFI with the hint cleared and,
    in the current format, by frame pointers with the hint set. *)
Definition replay_snapshot (version : dump_version) (clock : nat -> Z * Z) (print_details : bool) (s : replay_state) (info : gu_stack_info)
  : outcome (Z * replay_state * list (trace_output * trace_summary)) :=
  _ ← dump_window page_size info;
  let info := gu_flags_clear info GU_FLAG_HINT_SET_FP in
  '(s, info, out1, sum1, ns) ← replay_pass clock 0 print_details s info;
  let s := mk_replay (rs_ctx s) (rs_scratch s) (rs_heap s) (rs_oor s) (rs_updated s) (update_timing_stats (rs_dwarf_stats s) ns)
             (rs_fp_stats s) in
  if decide (version = GU_DEBUG_DUMP_VERSION_V2) then
    let info := gu_flags_set info GU_FLAG_HINT_SET_FP in
    '(s, info, out2, sum2, ns) ← replay_pass clock 2 print_details s info;
    mret (0, mk_replay (rs_ctx s) (rs_scratch s) (rs_heap s) (rs_oor s) (rs_updated s) (rs_dwarf_stats s)
               (update_timing_stats (rs_fp_stats s) ns), [(out1, sum1); (out2, sum2)])
  else mret (0, s, [(out1, sum1)]).

(** [stack_trace_from_dump]: the return value, the state, and the summaries of
    the passes made, in order. *)
Definition stack_trace_from_dump (a : dump_answers) (file_name : text) (print_details : bool) (s : replay_state)
  : outcome (Z * replay_state * list (trace_output * trace_summary)) :=
  let version := gu_debug_dump_version file_name in
  info ← gu_read_stack_dump file_name (da_file a) (da_alloc_info a) (da_alloc a);
  match info with
  | None => mret (-1, s, [])
  | Some info =>
    let '(maps, updated, _) := update_maps_paths (da_maps a) file_name (rs_updated s) in
    let info := with_unique_id info (match maps with Some _ => da_path_addr a | None => 0 end) in
    let s := mk_replay (rs_ctx s) (rs_scratch s) (rs_heap s) (rs_oor s) updated (rs_dwarf_stats s) (rs_fp_stats s) in
    if decide (version = GU_DEBUG_DUMP_VER_ERROR) then mret (-1, s, []) else
    replay_snapshot version (da_clock a) print_details s info
  end.

(** ** The program *)

(** The options: [-v], [-q] and the last other argument. *)
Fixpoint bt_options (argv : list text) (verbose quiet : bool) (file_name : option text) : bool * bool * option text :=
  match argv with
  | [] => (verbose, quiet, file_name)
  | o :: argv =>
    if decide (o = txt "-v" \/ o = txt "--verbose") then bt_options argv true quiet file_name
    else if decide (o = txt "-q" \/ o = txt "--quiet") then bt_options argv verbose true file_name
    else bt_options argv verbose quiet (Some o)
  end.

(** The entries of the directory, while no dump failed. *)
Fixpoint replay_entries (answers : text -> dump_answers) (alloc : text -> bool) (dir : text) (print_details : bool)
    (entries : list text) (s : replay_state) : outcome (Z * replay_state) :=
  match entries with
  | [] => mret (0, s)
  | d_name :: entries =>
    if decide (d_name = txt "." \/ d_name = txt "..") then replay_entries answers alloc dir print_details entries s else
    if strstr d_name (txt ".dump") then
      abs_path ← deref (gu_path_join (alloc d_name) dir d_name);
      '(ret, s, _) ← stack_trace_from_dump (answers d_name) abs_path print_details s;
      if ret =? 0 then replay_entries answers alloc dir print_details entries s else mret (ret, s)
    else replay_entries answers alloc dir print_details entries s
  end.

(** What [stat] and [opendir] say of the argument. *)
Inductive path_stat : Type := StatFails | Directory (entries : option (list text)) | RegularFile | OtherFile.

(** The run over the argument, up to [out]. *)
Definition replay_argument (answers : text -> dump_answers) (alloc : text -> bool) (stat : text -> path_stat) (file_name : text)
    (print_details : bool) (s : replay_state) : outcome (Z * replay_state) :=
  match stat file_name with
  | StatFails => mret (-1, s)
  | Directory None => mret (-1, s)
  | Directory (Some entries) => replay_entries answers alloc file_name print_details entries s
  | RegularFile =>
    if strstr file_name (txt ".dump") then '(ret, s, _) ← stack_trace_from_dump (answers file_name) file_name print_details s; mret (ret, s)
    else mret (0, s)
  | OtherFile => mret (0, s)
  end.

End replay.

(** [main]: the status; the statistics are printed unless quiet, then the
    context is destroyed.  [init] is the context [gu_init] returns, [heap] tells
    which allocations of the statistics succeed. *)
Definition bt_main {HA : Arch} {HE : Env} {HQ : Qsort} (page_size : Z) (heap_ok : cfi_heap -> bool) (depth : nat)
    (demangle : text -> option text) (base_name : Z -> text) (answers : text -> dump_answers) (alloc : text -> bool) (stat : text -> path_stat) (init : option gu_context)
    (log2 : spec_float -> spec_float) (fuel : nat) (heap : nat -> bool) (argv : list text) : outcome (Z * option gu_context) :=
  let '(verbose, quiet, file_name) := bt_options argv false false None in
  match file_name with
  | None => mret (-1, None)
  | Some file_name =>
    match stat file_name, init with
    | StatFails, _ | _, None => mret (-1, None)
    | _, Some c =>
      '(ret, s) ← replay_argument page_size verbose heap_ok depth demangle base_name answers alloc stat file_name (negb quiet)
                    (mk_replay c no_ops empty_heap no_oor false
                       (init_timing_stats (heap 0%nat) (heap 1%nat)) (init_timing_stats (heap 2%nat) (heap 3%nat)));
      _ ← (if quiet then mret None else print_timing_stats log2 fuel (heap 4%nat) (heap 5%nat) (rs_dwarf_stats s));
      _ ← (if quiet then mret None else print_timing_stats log2 fuel (heap 6%nat) (heap 7%nat) (rs_fp_stats s));
      c ← gu_cleanup (rs_ctx s);
      mret (ret, Some c)
    end
  end.

(** ** Removing template arguments *)

(** What the loop keeps of a text from a nesting depth on. *)
Fixpoint visible (depth : Z) (l : text) : text :=
  match l with
  | [] => []
  | c :: l =>
    if decide (c = "<"%char) then visible (depth + 1) l
    else if decide (c = ">"%char) then visible (depth - 1) l
    else if depth =? 0 then c :: visible depth l else visible depth l
  end.

(** [outside s o]: [o] is the text of [s] outside its bracketed parts. *)
Inductive outside : text -> text -> Prop :=
  | outside_nil : outside [] []
  | outside_char c l o : c <> "<"%char -> c <> ">"%char -> outside l o -> outside (c :: l) (c :: o)
  | outside_args inner hidden l o : outside inner hidden -> outside l o -> outside ("<"%char :: inner ++ ">"%char :: l) o.

Lemma visible_char depth c l :
  c <> "<"%char -> c <> ">"%char -> visible depth (c :: l) = if depth =? 0 then c :: visible depth l else visible depth l.
Proof. intros H1 H2. cbn [visible]. by rewrite !decide_False by done. Qed.

Lemma outside_hidden s o depth rest : outside s o -> 0 < depth -> visible depth (s ++ rest) = visible depth rest.
Proof.
  intros Ho. revert depth rest. induction Ho as [|c l o H1 H2 _ IH|inner h l o _ IH1 _ IH2]; intros depth rest Hd; [done|..].
  - cbn [app]. rewrite visible_char by done. destruct (Z.eqb_spec depth 0); [lia|]. by apply IH.
  - cbn [app]. rewrite <- app_assoc. cbn [visible app]. rewrite decide_True by done. rewrite IH1 by lia. cbn [visible].
    rewrite decide_False, decide_True by done. replace (depth + 1 - 1) with depth by lia. by apply IH2.
Qed.

Lemma outside_visible s o rest : outside s o -> visible 0 (s ++ rest) = o ++ visible 0 rest.
Proof.
  intros Ho. revert rest. induction Ho as [|c l o H1 H2 _ IH|inner h l o Hi _ _ IH2]; intros rest; [done|..].
  - cbn [app]. rewrite visible_char by done. cbn [Z.eqb]. by rewrite IH.
  - cbn [app]. rewrite <- app_assoc. cbn [visible app]. rewrite decide_True by done.
    rewrite (outside_hidden inner h) by (done || lia). cbn [visible]. rewrite decide_False, decide_True by done. apply IH2.
Qed.

(** The loop in place: [out] is what was written, [junk] what lies between the
    two positions. *)
Lemma strip_loop_ok fuel out junk s rest depth :
  NUL ∉ out -> NUL ∉ s -> (length s < fuel)%nat ->
  exists buf, strip_loop fuel (out ++ junk ++ s ++ NUL :: rest) (length out + length junk) (length out) depth = Done buf /\
    c_str buf = out ++ visible depth s /\ length buf = length (out ++ junk ++ s ++ NUL :: rest).
Proof.
  revert out junk s depth. induction fuel as [|fuel IH]; intros out junk s depth Hout Hs Hf; [lia|]. cbn [strip_loop].
  set (buf := out ++ junk ++ s ++ NUL :: rest).
  assert (Hr : buf !! (length out + length junk)%nat = (s ++ NUL :: rest) !! 0%nat).
  { subst buf. rewrite app_assoc, lookup_app_r by (rewrite length_app; lia). rewrite length_app, Nat.sub_diag. done. }
  assert (Hw : forall c, exists x tl, buf = out ++ x :: tl /\ <[length out := c]> buf = out ++ c :: tl /\ buf !! length out = Some x).
  { intros c. subst buf. destruct (junk ++ s ++ NUL :: rest) as [|x tl] eqn:E; [by destruct junk, s|]. exists x, tl.
    rewrite insert_app_r_alt, lookup_app_r, Nat.sub_diag by lia. done. }
  rewrite Hr. destruct s as [|c s]; cbn [app lookup list_lookup of_opt]; run.
  { rewrite decide_True by done. destruct (Hw NUL) as (x & tl & Eb & Ei & ->). run. rewrite Ei. eexists. split; [done|].
    split; [by rewrite c_str_app_nul, app_nil_r|]. rewrite Eb, !length_app. done. }
  apply not_elem_of_cons in Hs as [Hc Hs]. rewrite decide_False by done.
  assert (Hskip : forall d, exists buf', strip_loop fuel buf (S (length out + length junk)) (length out) d = Done buf' /\
    c_str buf' = out ++ visible d s /\ length buf' = length buf).
  { intros d. destruct (IH out (junk ++ [c]) s d) as (buf' & E & H1 & H2); [done|done|cbn in Hf; lia|].
    exists buf'. rewrite <- app_assoc in E, H2. split; [|done]. rewrite <- E. f_equal. rewrite length_app. cbn. lia. }
  cbn [visible]. destruct (decide (c = "<"%char)); [apply Hskip|]. destruct (decide (c = ">"%char)); [apply Hskip|].
  destruct (depth =? 0); [|apply Hskip]. destruct (Hw c) as (x & tl & Eb & Ei & ->). run. rewrite Ei.
  assert (Htl : exists junk', length junk' = length junk /\ tl = junk' ++ s ++ NUL :: rest).
  { subst buf. apply app_inv_head in Eb. destruct junk as [|j junk]; cbn [app] in Eb; injection Eb as _ <-; [by exists []|].
    exists (junk ++ [c]). rewrite length_app, <- app_assoc. cbn. split; [lia|done]. }
  destruct Htl as (junk' & Hl & ->).
  destruct (IH (out ++ [c]) junk' s depth) as (buf' & E & H1 & H2); [set_solver|done|cbn in Hf; lia|].
  rewrite <- !app_assoc in E, H1, H2. cbn [app] in E, H1, H2. exists buf'. split_and!; [|done|].
  - rewrite <- E. f_equal; rewrite length_app; cbn; lia.
  - rewrite H2, Eb, !length_app. cbn. rewrite !length_app. done.
Qed.

(** ** Rewriting a line *)

Lemma before_last_slash_app a b : slash ∉ b -> before_last_slash (a ++ slash :: b) = Some a.
Proof.
  intros Hb. assert (Hn : before_last_slash b = None).
  { induction b as [|c b IH]; [done|]. apply not_elem_of_cons in Hb as [Hc Hb]. cbn. by rewrite IH, decide_False by done. }
  induction a as [|c a IH]; cbn [app before_last_slash]; [by rewrite Hn, decide_True by done|by rewrite IH].
Qed.

Lemma back_to_space_at a w rest j :
  " "%char ∉ w -> (j <= length w)%nat -> back_to_space (a ++ " "%char :: w ++ rest) (length a + j) = length a.
Proof.
  intros Hw. induction j as [|j IH]; intros Hj.
  - rewrite Nat.add_0_r. destruct (length a) as [|k] eqn:E; [done|]. cbn [back_to_space]. rewrite decide_True; [done|].
    rewrite lookup_app_r by lia. by rewrite E, Nat.sub_diag.
  - replace (length a + S j)%nat with (S (length a + j)) by lia. cbn [back_to_space]. rewrite decide_False; [apply IH; lia|].
    rewrite lookup_app_r by lia. replace (S (length a + j) - length a)%nat with (S j) by lia.
    change ((" "%char :: w ++ rest) !! S j) with ((w ++ rest) !! j). rewrite lookup_app_l by lia. intros E. apply Hw. by eapply list_elem_of_lookup_2.
Qed.

Lemma trim_end_newline l c : c <> newline -> c <> " "%char -> trim_end (l ++ [c; newline]) = l ++ [c].
Proof.
  intros Hn Hs. induction l as [|d l IH]; cbn [app trim_end].
  - repeat case_decide; naive_solver.
  - rewrite IH, decide_False by (intros [H _]; by destruct l). done.
Qed.

(** The mapping of a line whose file was copied into [parent]. *)
Definition joined (parent base : text) : text :=
  parent ++ (match last parent with Some c => if decide (c = slash) then [] else [slash] | None => [] end) ++ base.
Definition moved (m : maps_info) (parent base : text) : maps_info :=
  mk_maps (of_txt (joined parent base)) (mi_start m) (mi_end m) (mi_offset m) (mi_permission m) (mi_deleted m).

Lemma join_base parent base d :
  word_ok base -> slash ∉ base ->
  gu_path_join true parent (base ++ (if d : bool then txt " (deleted)" else []) ++ [newline]) =
  Some (joined parent base ++ if d then txt " (deleted)" else []).
Proof.
  intros [Hne Hsp] Hs. destruct (exists_last Hne) as (base0 & b & ->).
  apply Forall_app in Hsp as [_ Hb]. rewrite Forall_singleton in Hb.
  assert (Hc : b <> newline /\ b <> " "%char) by (split; intros ->; discriminate Hb). destruct Hc as [Hc1 Hc2].
  unfold gu_path_join, joined. cbn [negb]. rewrite (bool_decide_eq_true_2 (head _ <> _))
    by (destruct base0; cbn; intros [= ->]; apply Hs; set_solver). f_equal.
  match goal with |- trim_end (parent ++ ?x ++ _) = (parent ++ ?y ++ _) ++ _ => replace x with y end.
  2: { destruct (last parent) as [c|]; [|done]. rewrite andb_true_r. case_decide as Hd; [by rewrite bool_decide_eq_false_2 by naive_solver|by rewrite bool_decide_eq_true_2]. }
  match goal with |- trim_end (parent ++ ?x ++ _) = _ => set (sep := x) end. destruct d.
  - replace (parent ++ sep ++ (base0 ++ [b]) ++ txt " (deleted)" ++ [newline])
      with ((parent ++ sep ++ (base0 ++ [b]) ++ txt " (deleted") ++ [")"%char; newline]) by (by rewrite <- !app_assoc).
    rewrite trim_end_newline by done. by rewrite <- !app_assoc.
  - replace (parent ++ sep ++ (base0 ++ [b]) ++ [] ++ [newline]) with ((parent ++ sep ++ base0) ++ [b; newline]) by (by rewrite <- !app_assoc).
    rewrite trim_end_newline by done. rewrite app_nil_r, <- !app_assoc. done.
Qed.

Lemma length_joined parent base : (length (joined parent base) <= length parent + S (length base))%nat.
Proof. unfold joined. rewrite !length_app. destruct (last parent); [case_decide|]; cbn; lia. Qed.

(** The fields before the path. *)
Definition line_front (n1 n2 n3 : nat) (m : maps_info) (perm dev inode : text) (pad : nat) : text :=
  print_hex n1 (mi_start m) ++ "-"%char :: print_hex n2 (mi_end m) ++ " "%char :: perm ++
  " "%char :: print_hex n3 (mi_offset m) ++ " "%char :: dev ++ " "%char :: inode ++ replicate pad " "%char.

Lemma maps_line_front n1 n2 n3 m perm dev inode pad :
  maps_line n1 n2 n3 m perm dev inode pad =
  line_front n1 n2 n3 m perm dev inode (S pad) ++ txt (mi_path m) ++ (if mi_deleted m then txt " (deleted)" else []) ++ [newline].
Proof. unfold maps_line, line_front. repeat (rewrite <- app_assoc || rewrite <- app_comm_cons). done. Qed.

Lemma line_front_snoc n1 n2 n3 m perm dev inode pad :
  line_front n1 n2 n3 m perm dev inode (S pad) = line_front n1 n2 n3 m perm dev inode pad ++ [" "%char].
Proof. unfold line_front. rewrite replicate_S_end. repeat (rewrite <- app_assoc || rewrite <- app_comm_cons). done. Qed.

Lemma rewrite_printed n1 n2 n3 m perm dev inode pad parent len dir base :
  printable n1 n2 n3 m perm dev inode -> txt (mi_path m) = dir ++ slash :: base -> slash ∉ base -> base <> [] ->
  (length (maps_line (S n1) (S n2) (S n3) m perm dev inode (S pad)) < len)%nat ->
  rewrite_line parent len true true (maps_line (S n1) (S n2) (S n3) m perm dev inode (S pad)) =
  Some (maps_line (S n1) (S n2) (S n3) (moved m parent base) perm dev inode pad).
Proof.
  intros Hp Hpath Hs Hne. assert (Hsp : Forall (fun c => isspace c = false) (dir ++ slash :: base)) by (rewrite <- Hpath; apply Hp).
  apply Forall_app in Hsp as [Hdir Hsp]. apply Forall_cons in Hsp as [_ Hbase].
  rewrite !maps_line_front, line_front_snoc, Hpath. cbn [moved mi_path mi_deleted].
  change (line_front (S n1) (S n2) (S n3) (moved m parent base) perm dev inode (S pad)) with (line_front (S n1) (S n2) (S n3) m perm dev inode (S pad)).
  set (pre := line_front (S n1) (S n2) (S n3) m perm dev inode (S pad)).
  unfold txt at 3, of_txt. rewrite String.list_ascii_of_string_of_list_ascii. set (d := mi_deleted m).
  pose proof (join_base parent base d (conj Hne Hbase) Hs) as Hjoin.
  set (rest := base ++ (if d then txt " (deleted)" else []) ++ [newline]) in *.
  replace ((pre ++ [" "%char]) ++ (dir ++ slash :: base) ++ (if d then txt " (deleted)" else []) ++ [newline])
    with ((pre ++ " "%char :: dir) ++ slash :: rest) by (subst rest; by rewrite <- !app_assoc). intros Hlen.
  assert (Hrest : slash ∉ rest).
  { subst rest. rewrite !not_elem_of_app. split; [done|]. split; [|set_solver]. destruct d; [|set_solver].
    apply (bool_decide_unpack _). by vm_compute. }
  unfold rewrite_line, path_token. rewrite before_last_slash_app by done. rewrite drop_app_length.
  rewrite decide_False by done. change (drop 1 (slash :: rest)) with rest. rewrite Hjoin. cbn [mbind option_bind negb].
  replace (length (pre ++ " "%char :: dir)) with (length pre + S (length dir))%nat by (rewrite length_app; done).
  replace ((pre ++ " "%char :: dir) ++ slash :: rest) with (pre ++ " "%char :: (dir ++ [slash]) ++ rest)
    by (by rewrite <- !app_assoc).
  rewrite back_to_space_at, take_app_length.
  2: { rewrite not_elem_of_app. split; [|set_solver]. intros Hin. by apply (proj1 (Forall_forall _ _) Hdir) in Hin. }
  2: { rewrite length_app. cbn. lia. }
  unfold snprintf. rewrite take_ge, <- app_assoc; [done|]. pose proof (length_joined parent base).
  subst rest. rewrite !length_app in Hlen. cbn [length] in Hlen. rewrite !length_app in Hlen. rewrite !length_app. cbn [length]. lia.
Qed.

(** The time between two readings is exact, whichever branch computes it. *)
Lemma elapsed_exact s0 n0 s1 n1 :
  0 <= n0 < 1000000000 -> 0 <= n1 < 1000000000 -> 0 <= s0 < 2 ^ 33 -> 0 <= s1 < 2 ^ 33 ->
  s0 * 1000000000 + n0 <= s1 * 1000000000 + n1 ->
  elapsed_ns (s0, n0) (s1, n1) = (s1 * 1000000000 + n1) - (s0 * 1000000000 + n0).
Proof. intros. unfold elapsed_ns. cbn [fst snd]. destruct (Z.leb_spec n0 n1); rewrite wrap_small by word; lia. Qed.

(** ** Properties *)



(** The template arguments of a demangled name are removed in place.  For a
    name whose brackets are balanced the buffer ends up with the text outside all
    of them, within the buffer and without reading what was overwritten. *)
Theorem template_params_removed s o rest :
  outside s o -> NUL ∉ s ->
  exists buf, rm_template_param (Some (s ++ NUL :: rest)) = Done (Some buf) /\ c_str buf = o /\ length buf = length (s ++ NUL :: rest).
Proof.
  intros Ho Hs. destruct (strip_loop_ok (S (length (s ++ NUL :: rest))) [] [] s rest 0) as (buf & E & Hc & Hl);
    [set_solver|done|rewrite length_app; cbn; lia|].
  cbn [app length Nat.add] in E, Hl. exists buf. unfold rm_template_param. rewrite E. run. split_and!; [done| |done].
  rewrite Hc. cbn [app]. rewrite <- (app_nil_r s) at 1. rewrite (outside_visible s o []) by done. apply app_nil_r.
Qed.

(** The arrow of an overloaded operator counts as a closing bracket: the rest of
    the name is lost. *)
Lemma operator_arrow_cut :
  (fun b => of_txt (c_str (default [] b))) <$> (match rm_template_param (Some (txt "Ptr<int>::operator->() const" ++ [NUL])) with Done r => Some r | Undef _ => None end)
  = Some "Ptr::operator-"%string.
Proof. vm_compute. reflexivity. Qed.

(** A path that contains a space is cut inside: the new path is appended to its
    first part. *)
Lemma maps_rewrite_space :
  of_txt <$> rewrite_line (txt "/dump") 120 true true
    (txt "7f0000001000-7f0000002000 r-xp 00001000 08:01 77    /opt/my app/lib.so" ++ [newline]) =
  Some (of_txt (txt "7f0000001000-7f0000002000 r-xp 00001000 08:01 77    /opt/my/dump/lib.so" ++ [newline])).
Proof. vm_compute. reflexivity. Qed.

(** ** Witnesses *)



Lemma template_params_removed_witness :
  exists buf, rm_template_param (Some (txt "f<g<x> >(int)" ++ [NUL])) = Done (Some buf) /\ c_str buf = txt "f(int)" /\ length buf = 14%nat.
Proof.
  apply (template_params_removed (txt "f<g<x> >(int)") (txt "f(int)") []); [|apply (bool_decide_unpack _); by vm_compute].
  apply outside_char; [done..|].
  apply (outside_args (txt "g<x> ") (txt "g ") (txt "(int)")); [|repeat (apply outside_char; [done..|]); apply outside_nil].
  apply outside_char; [done..|].
  apply (outside_args (txt "x") (txt "x") (txt " ")); repeat (apply outside_char; [done..|]); apply outside_nil.
Defined.
