(* ===== verification/Regress.v ===== *)
(** * Two regression tests: [tools/test_zero_size_func_lookup.c], [tools/test_stable_fp_miss_reload.c]

    The first test samples a pc inside an assembly function whose symbol has
    size zero, the second unwinds the same frame-pointer sample, with one pc that
    belongs to no mapping, nine times.  Both are transcribed over the model of
    the library, run in a process whose maps, image and clock are given, and give
    the result the authors expect. *)

From Stdlib Require Import Ascii.
From stdpp Require Import strings.
From S2P Require Import Prelude Types IntervalArray Arch CfiProgram CfiOps Cfi CfiParse ElfRanges DwarfEval Maps PathWalk DebugFile NameHeap Symbols Context Unwind Session LoadElf.

Section tests.
Context {HA : Arch} {HE : Env} {HQ : Qsort}.

(** A zeroed snapshot with 64 registers, the given frame pointers and the hint. *)
Definition fp_sample (pid : Z) (pcs : list Z) : gu_stack_info :=
  gu_flags_set (mk_gu_stack_info pid 0 0 (Some (replicate 64 0)) 512 0 (pcs ++ replicate (128 - length pcs) 0)
                  (Z.of_nat (length pcs)) None) GU_FLAG_HINT_SET_FP.

(** [gu_unwind] of it: the return value, the frames reported and the context. *)
Definition unwind_sample (c : gu_context) (info : gu_stack_info) : outcome (Z * list gu_frame_record * gu_context) :=
  '(n, u) ← gu_unwind 4096 false (fun _ => true) 2 (mk_uw c None info [] no_ops empty_heap no_oor);
  mret (n, uw_frames u, uw_ctx u).

(** ** A function symbol of size zero *)

(** The symbol of a frame as the callback sees it. *)
Definition observed_symbol (c : gu_context) (f : gu_frame_record) : option string :=
  e ← cx_elfs c !! fr_elf_info f; ec_names e !! fr_symbol f.

Definition zero_size_main (pid asm_zero_size_func : Z) : outcome Z :=
  '(n, frames, c) ← unwind_sample (gu_init false false false) (fp_sample pid [asm_zero_size_func + 1]);
  ret ← (match frames with
         | f :: _ => mret (if (0 <? n) && bool_decide (observed_symbol c f = Some "asm_zero_size_func"%string) && (fr_offset f =? 1) then 0 else 1)
         | [] => mret 1
         end);
  _ ← gu_cleanup c;
  mret ret.

(** ** A pc that stays unknown *)
Definition REPEAT_UNWINDS : nat := 8.
Definition STABLE_UNKNOWN_PC : Z := 0xc0000f6000.

(** [run_fp_unwind]: how many frames the callback counted. *)
Definition run_fp_unwind (c : gu_context) (pid known_text_function : Z) : outcome (Z * gu_context) :=
  '(_, frames, c) ← unwind_sample c (fp_sample pid [known_text_function; STABLE_UNKNOWN_PC]);
  mret (Z.of_nat (length frames), c).

(** The repeated unwinds: [None] when one lost the known frame. *)
Fixpoint repeat_unwinds (n : nat) (c : gu_context) (pid known_text_function : Z) : outcome (option gu_context) :=
  match n with
  | O => mret (Some c)
  | S n =>
    '(frames, c) ← run_fp_unwind c pid known_text_function;
    if frames <=? 0 then mret None else repeat_unwinds n c pid known_text_function
  end.

Definition stable_miss_main (child known_text_function : Z) : outcome Z :=
  '(frames, c) ← run_fp_unwind (gu_init false false false) child known_text_function;
  if frames <=? 0 then mret 1 else
  let alloc_after_first := pid_ctx_alloc_count (cx_stats c) in
  r ← repeat_unwinds REPEAT_UNWINDS c child known_text_function;
  match r with
  | None => mret 1
  | Some c =>
    let ret := if negb (pid_ctx_alloc_count (cx_stats c) =? alloc_after_first) then 1
               else if pid_maps_reload_throttle_count (cx_stats c) =? 0 then 1 else 0 in
    _ ← gu_cleanup c;
    mret ret
  end.
End tests.

(** ** The process under test *)

(** One image, mapped at 0x401000 from offset 0x1000, with the two functions of
    the first test among its symbols. *)
Definition test_strtab : strtab :=
  mk_strtab (Some 54) (Some (NUL :: txt "asm_zero_size_func" ++ NUL :: txt "asm_next_func" ++ NUL :: txt "known_text_function" ++ [NUL], 0))
    false (fun _ => None).
Definition test_source : sym_source :=
  mk_source (Some (72, 24)) true
    (fun i => [mk_sym 1 2 1 0x1040 0; mk_sym 20 2 1 0x1043 1; mk_sym 34 2 1 0x1050 0x10] !! i) test_strtab (fun i => if i =? 1 then Some 6 else None).
Definition test_file : elf_file :=
  mk_file true
    (Some [mk_scn (Some 0) (Some (txt ".note.gnu.build-id")) (Some (replicate 36 "a"%char)); mk_scn (Some 0) (Some (txt ".symtab")) None])
    (Some [Some (mk_phdr PT_LOAD 5 0x1000 0x1000 0x1000 0x1000)]) (fun _ => test_source) None (fun _ => 0) (fun _ => None) (fun _ _ => inl 1) [].
(** A system that opens the same file for every path. *)
Definition os_with (file : elf_file) : LoadOs.
Proof.
  refine {| lo_alloc := fun _ _ => true; lo_alloc_size := fun _ _ => true; lo_cfi_alloc := fun _ _ => true;
    lo_open := fun _ used r => match r with OpenInRoot _ _ => Some (next_free used, file) | OpenPath _ => None end;
    lo_vdso := fun _ => false; lo_vdso_path := []; lo_exists := fun _ _ => false;
    lo_candidate := fun _ _ => mk_candidate false false false [] [Got 0] false; lo_md5 := fun _ => [];
    lo_fdes_addr := fun _ => 0; lo_cfi_fuel := 0; lo_sizeof_Elf_Data := 0 |}.
  intros _ used [p|pid p] fd f; [done|]. intros [= <- _]. destruct (next_free_spec used) as [H1 H2]. split; [lia|].
  intros Hin. specialize (H1 _ Hin). lia.
Defined.
Definition test_os : LoadOs := os_with test_file.

(** The clock advances by a millisecond per reading. *)
Definition ms_clock (n : nat) : Z := Z.min (1000000 * (1 + Z.of_nat n)) (2 ^ 62).
Lemma ms_clock_range n : 0 <= ms_clock n < 2 ^ 63.
Proof. unfold ms_clock. lia. Qed.

Definition process_env : Env.
Proof.
  refine {| clock_ns := ms_clock; timer_now := ms_clock; timer_pending := fun _ => false; kill_ok := fun _ _ => true;
    proc_maps_file := fun _ _ _ => Some app_maps; maps_alloc := fun _ _ => true; proc_comm := fun _ _ => "test"%string;
    proc_start_time := fun _ _ => 7; read_build_id := fun _ _ _ _ => None; read_image := fun _ _ _ _ => None;
    malloc_addr := @malloc_addr live_env; malloc_ok := fun _ => true; pid_block := fun _ => Some 0x1000 |}.
  - intros n. apply ms_clock_range.
  - intros n. apply ms_clock_range.
  - intros _ a [= <-]. done.
  - intros _ _ _ t [= <-]. exact app_maps_ok.
  - apply (@malloc_fresh live_env).
Defined.
Definition test_env (HA : Arch) : Env :=
  files_env (HA := HA) (HM := rising_malloc) (HQ := merge_qsort) (HL := test_os) process_env plain_config sample_load_state.

(** Both programs exit with 0 on both targets: the pc after the start of a
    symbol of size zero is named after it with offset 1; a pc that stays unknown
    causes no second load of the process, and the avoided reloads are counted. *)
Theorem regressions_pass :
  zero_size_main (HA := linux_x86_64) (HE := test_env linux_x86_64) (HQ := merge_qsort) 42 0x401040 = Done 0 /\
  zero_size_main (HA := aarch64) (HE := test_env aarch64) (HQ := merge_qsort) 42 0x401040 = Done 0 /\
  stable_miss_main (HA := linux_x86_64) (HE := test_env linux_x86_64) (HQ := merge_qsort) 42 0x401050 = Done 0 /\
  stable_miss_main (HA := aarch64) (HE := test_env aarch64) (HQ := merge_qsort) 42 0x401050 = Done 0.
Proof. split_and!; vm_compute; reflexivity. Qed.
