(* ===== verification/SymTest.v ===== *)
(** * The symbol resolution test: [tools/test_symbol_resolution.c]

    The test stops a child, copies its registers and stack and hands them to
    [gu_unwind]; it passes when a frame is named after the function the child
    spins in.  Commands, processes and [ptrace] are parameters; the snapshot the
    test builds, the calls into the library and the verdicts are transcribed. *)

From Stdlib Require Import Ascii.
From stdpp Require Import strings.
From S2P Require Import Prelude Types IntervalArray Arch CfiProgram CfiOps Cfi CfiParse ElfRanges DwarfEval Maps PathWalk DebugFile NameHeap Symbols Context Unwind Session LoadElf Regress.

(** ** The registers *)

(** What [ptrace] reports: [rbp] or [x29], the stack pointer, the pc and, on
    arm64, [x30]. *)
Record cpu_regs : Type := mk_cpu {
  cpu_bp : Z;
  cpu_sp : Z;
  cpu_pc : Z;
  cpu_lr : Z;
}.

(** [REGMAP_RBP], [REGMAP_RSP], [REGMAP_RIP] and [REGMAP_LR]. *)
Definition regmap (arm64 : bool) : nat * nat * nat * option nat :=
  if arm64 then (29%nat, 31%nat, 32%nat, Some 30%nat) else (6%nat, 7%nat, 16%nat, None).

(** The array [regs] of [unwind_stopped_child]. *)
Definition test_regs (arm64 : bool) (r : cpu_regs) : list Z :=
  let '(bp, sp, ip, lr) := regmap arm64 in
  let words := <[ip := cpu_pc r]> (<[sp := cpu_sp r]> (<[bp := cpu_bp r]> (replicate (if arm64 then 34 else 32)%nat 0))) in
  match lr with Some lr => <[lr := cpu_lr r]> words | None => words end.

(** ** The stack *)
Definition STACK_SNAPSHOT_SIZE : Z := 32 * 1024.

(** One [pread]: the bytes read, or [errno]. *)
Inductive pread_result : Type :=
  | Read (bytes : list Z)
  | Failed (errno : Z).

(** [EIO], [EFAULT], [EINVAL] and [ENOMEM]. *)
Definition tolerated (errno : Z) : bool := (errno =? 5) || (errno =? 14) || (errno =? 22) || (errno =? 12).

Definition write_at (off : nat) (bytes buf : list Z) : list Z :=
  take off buf ++ bytes ++ drop (off + length bytes) buf.

Section test.
Context (arm64 : bool) (page : nat).

(** [sp & ~(unsigned long)(getpagesize() - 1)] *)
Definition stack_start (sp : Z) : Z := Z.land sp (not64 (Z.of_nat page - 1)).

(** The loop over the pages of the snapshot; [None] is the exit on an [errno]
    that is not tolerated. *)
Fixpoint read_pages (fuel : nat) (pread : Z -> pread_result) (start : Z) (off : nat) (stack : list Z)
    : outcome (option (list Z)) :=
  if Z.of_nat off <? STACK_SNAPSHOT_SIZE then
    match fuel with
    | O => Undef OutOfFuel
    | S fuel =>
      match pread (start + Z.of_nat off) with
      | Read bytes =>
        if STACK_SNAPSHOT_SIZE <? Z.of_nat (off + length bytes) then Undef OutOfBounds
        else read_pages fuel pread start (off + page) (write_at off bytes stack)
      | Failed errno => if tolerated errno then read_pages fuel pread start (off + page) stack else mret None
      end
    end
  else mret (Some stack).

(** One iteration per page, and at least one. *)
Definition page_fuel : nat := Z.to_nat STACK_SNAPSHOT_SIZE.

Definition read_stack (pread : Z -> pread_result) (sp : Z) : outcome (option (list Z)) :=
  read_pages page_fuel pread (stack_start sp) 0 (replicate (Z.to_nat STACK_SNAPSHOT_SIZE) 0).

(** The snapshot handed to the library. *)
Definition test_info (pid : Z) (r : cpu_regs) (stack : list Z) : gu_stack_info :=
  mk_gu_stack_info pid STACK_SNAPSHOT_SIZE 0 (Some (test_regs arm64 r)) (8 * Z.of_nat (length (test_regs arm64 r))) 0
    (replicate 128 0) 0 (Some stack).

(** ** The verdict on one child *)
Record symbol_hits : Type := mk_hits {
  hot_leaf : bool;
  hot_mid : bool;
}.

Definition frame_callback (symbol : option string) (h : symbol_hits) : symbol_hits :=
  match symbol with
  | None => h
  | Some s => mk_hits (strstr (txt s) (txt "hot_leaf") || hot_leaf h) (strstr (txt s) (txt "hot_mid") || hot_mid h)
  end.

(** What the system answers about a child: whether [waitpid] reported a stop,
    its registers, [calloc], [/proc/<pid>/mem], and [gu_init]. *)
Record child : Type := mk_child {
  ch_pid : Z;
  ch_stopped : bool;
  ch_regs : option cpu_regs;
  ch_calloc : bool;
  ch_mem : option (Z -> pread_result);
  ch_init : bool;
}.

Context {HA : Arch} {HE : Env} {HQ : Qsort}.

(** [unwind_stopped_child]: the return value and the hits. *)
Definition unwind_stopped_child (ch : child) : outcome (Z * symbol_hits) :=
  let none := mk_hits false false in
  if negb (ch_stopped ch) then mret (1, none) else
  match ch_regs ch with
  | None => mret (1, none)
  | Some r =>
    if negb (ch_calloc ch) then mret (1, none) else
    match ch_mem ch with
    | None => mret (1, none)
    | Some pread =>
      stack ← read_stack pread (cpu_sp r);
      match stack with
      | None => mret (1, none)
      | Some stack =>
        if negb (ch_init ch) then mret (1, none) else
        '(n, u) ← gu_unwind (Z.of_nat page) false (fun _ => true) 2
                    (mk_uw (gu_init false false false) None (test_info (ch_pid ch) r stack) [] no_ops empty_heap no_oor);
        let hits := foldl (fun h f => frame_callback (observed_symbol (uw_ctx u) f) h) none (uw_frames u) in
        let ret := if n <? 0 then 1
                   else if gu_flags_reason (flags (uw_info u)) =? reason_code GU_UNWIND_REASON_NO_PROGRESS then 1 else 0 in
        _ ← gu_cleanup (uw_ctx u);
        mret (ret, hits)
      end
    end
  end.

(** [stop_and_unwind]; [None] is a failed [spawn_workload]. *)
Definition stop_and_unwind (spawn : option child) : outcome Z :=
  match spawn with
  | None => mret 1
  | Some ch =>
    '(rc, hits) ← unwind_stopped_child ch;
    mret (if (rc =? 0) && negb (hot_leaf hits) then 1 else rc)
  end.

(** ** The scenarios *)

(** [run_cmd] of the status [system] returned. *)
Definition run_cmd (ret : Z) : Z :=
  if ret =? -1 then -1 else
  if Z.land ret 0x7f =? 0 then Z.land (Z.shiftr ret 8) 0xff else -1.

(** What the system answers in a scenario: whether the source was written, the
    status of the build, the child, and the [rename] of the second scenario. *)
Record scenario : Type := mk_scenario {
  sc_source : bool;
  sc_build : Z;
  sc_spawn : option child;
  sc_rename : bool;
}.

(** [scenario_debuglink] and [scenario_no_cfi], which differ in their command. *)
Definition scenario_unwind (s : scenario) : outcome Z :=
  if negb (sc_source s) then mret 1 else
  if negb (run_cmd (sc_build s) =? 0) then mret 1 else
  rc ← stop_and_unwind (sc_spawn s);
  mret (if rc =? 0 then 0 else 1).

Definition scenario_deleted (s : scenario) : outcome Z :=
  if negb (sc_source s) then mret 1 else
  if negb (run_cmd (sc_build s) =? 0) then mret 1 else
  match sc_spawn s with
  | None => mret 1
  | Some ch =>
    if negb (sc_rename s) then mret 1 else
    '(rc, hits) ← unwind_stopped_child ch;
    mret (if (rc =? 0) && hot_leaf hits then 0 else 1)
  end.

(** [main]; the flag is [mkdtemp]. *)
Definition symbol_main (dir : bool) (debuglink deleted no_cfi : scenario) : outcome Z :=
  if negb dir then mret 1 else
  f1 ← scenario_unwind debuglink;
  f2 ← scenario_deleted deleted;
  f3 ← scenario_unwind no_cfi;
  mret (if f1 + f2 + f3 =? 0 then 0 else 1).
End test.

(** ** The snapshot of the stack *)

Lemma length_write_at off bytes buf :
  (off + length bytes <= length buf)%nat -> length (write_at off bytes buf) = length buf.
Proof. intros H. unfold write_at. rewrite !length_app, length_take, length_drop. lia. Qed.

Lemma take_write_at n off bytes buf :
  (n <= off)%nat -> (off <= length buf)%nat -> take n (write_at off bytes buf) = take n buf.
Proof.
  intros Hn Hl. unfold write_at. rewrite take_app_le by (rewrite length_take; lia).
  rewrite take_take. f_equal. lia.
Qed.

Lemma page_write_at off bytes buf :
  (off + length bytes <= length buf)%nat -> take (length bytes) (drop off (write_at off bytes buf)) = bytes.
Proof.
  intros H. unfold write_at. rewrite drop_app_le by (rewrite length_take; lia).
  rewrite (drop_ge (take off buf)) by (rewrite length_take; lia). simpl. by rewrite take_app_length.
Qed.

(** The child's memory, by the address of the page: [/proc/<pid>/mem] answers
    with whole pages, and with [EIO] for an address that is not mapped. *)
Definition mem_pread (mem : Z -> option (list Z)) (a : Z) : pread_result :=
  match mem a with Some l => Read l | None => Failed 5 end.

Definition pages_ok (page : nat) (mem : Z -> option (list Z)) : Prop :=
  forall a l, mem a = Some l -> length l = page /\ bytes_ok l.

(** The pages from number [i] on are copied to their place; what is before is
    left alone. *)
Lemma read_pages_ok page mem start N : forall fuel i buf,
  (0 < page)%nat -> pages_ok page mem -> Z.of_nat (N * page) = STACK_SNAPSHOT_SIZE ->
  length buf = (N * page)%nat -> bytes_ok buf -> (i <= N)%nat -> (N - i <= fuel)%nat ->
  exists buf', read_pages page fuel (mem_pread mem) start (i * page) buf = Done (Some buf') /\
    length buf' = (N * page)%nat /\ bytes_ok buf' /\ take (i * page) buf' = take (i * page) buf /\
    forall j l, (i <= j < N)%nat -> mem (start + Z.of_nat (j * page)) = Some l -> take page (drop (j * page) buf') = l.
Proof.
  induction fuel as [|fuel IH]; intros i buf Hp Hm HN Hl Hb Hi Hf; cbn [read_pages].
  - assert (i = N) as -> by lia. rewrite (proj2 (Z.ltb_ge _ _)) by lia. exists buf. split_and!; [done..|intros; lia].
  - destruct (decide (i = N)) as [->|Hne].
    { rewrite (proj2 (Z.ltb_ge _ _)) by lia. exists buf. split_and!; [done..|intros; lia]. }
    assert ((i + 1) * page <= N * page)%nat as Hle by (apply Nat.mul_le_mono_r; lia).
    rewrite (proj2 (Z.ltb_lt _ _)) by lia. unfold mem_pread at 1.
    replace (i * page + page)%nat with (S i * page)%nat by lia.
    assert (exists buf1, (length buf1 = N * page)%nat /\ bytes_ok buf1 /\ take (i * page) buf1 = take (i * page) buf /\
      (forall l, mem (start + Z.of_nat (i * page)) = Some l -> take page (drop (i * page) buf1) = l) /\
      match mem (start + Z.of_nat (i * page)) with
      | Some l => (STACK_SNAPSHOT_SIZE <? Z.of_nat (i * page + length l)) = false /\ buf1 = write_at (i * page) l buf
      | None => buf1 = buf
      end) as (buf1 & Hl1 & Hb1 & Ht1 & Hp1 & Hcase).
    { destruct (mem (start + Z.of_nat (i * page))) as [l|] eqn:E; [|by exists buf].
      destruct (Hm _ _ E) as [Hlen Hlb]. exists (write_at (i * page) l buf). split_and!; [| | | |apply Z.ltb_ge; rewrite Hlen, <- HN; apply Nat2Z.inj_le; lia|done].
      - rewrite length_write_at; lia.
      - unfold write_at. repeat apply Forall_app_2; [by apply Forall_take|done|by apply Forall_drop].
      - apply take_write_at; lia.
      - intros l' [= <-]. rewrite <- Hlen. apply page_write_at. lia. }
    destruct (IH (S i) buf1) as (buf' & Hrun & Hl' & Hb' & Ht' & Hpages); [done..|lia|lia|].
    exists buf'. split.
    { destruct (mem (start + Z.of_nat (i * page))) as [l|]; [destruct Hcase as [-> ->]|subst buf1]; done. }
    split; [done|]. split; [done|]. split.
    + rewrite <- Ht1. apply (f_equal (take (i * page))) in Ht'. rewrite !take_take in Ht'.
      by rewrite !Nat.min_l in Ht' by lia.
    + intros j l Hj Hjl. destruct (decide (j = i)) as [->|]; [|apply Hpages; [lia|done]].
      rewrite <- (Hp1 l Hjl). apply (f_equal (drop (i * page))) in Ht'.
      replace (S i * page)%nat with (i * page + page)%nat in Ht' by lia.
      by rewrite <- !take_drop_commute in Ht'.
Qed.

Lemma stack_start_page k sp :
  (k <= 15)%nat -> is_u64 sp -> stack_start (2 ^ k) sp = sp - sp mod 2 ^ Z.of_nat k.
Proof.
  intros Hk Hsp. unfold stack_start, not64, wrap. rewrite Nat2Z.inj_pow. change (Z.of_nat 2) with 2.
  replace (2 ^ Z.of_nat k - 1) with (Z.ones (Z.of_nat k)) by (rewrite Z.ones_equiv; lia).
  rewrite <- Z.land_ones, Z.land_assoc, (Z.land_comm (Z.land _ _)), Z.land_assoc, (Z.land_comm (Z.ones 64)) by lia.
  rewrite (Z.land_ones sp), Z.mod_small by word. rewrite <- Z.ldiff_land, Z.ldiff_ones_r by lia.
  rewrite Z.shiftl_mul_pow2, Z.shiftr_div_pow2 by lia. pose proof (Z.pow_pos_nonneg 2 (Z.of_nat k)).
  pose proof (Z.div_mod sp (2 ^ Z.of_nat k)). lia.
Qed.

(** A word inside one page of a buffer. *)
Lemma word_in_page (stack l : list Z) (j page i : nat) :
  take page (drop (j * page) stack) = l -> (i + 8 <= page)%nat -> length l = page ->
  read_le 8 (drop (j * page + i) stack) = Some (le_value (take 8 (drop i l)), drop 8 (drop (j * page + i) stack)).
Proof.
  intros Hl Hi Hlen. unfold read_le. rewrite decide_True.
  - rewrite <- Hl. by rewrite skipn_firstn_comm, !drop_drop, take_take, Nat.min_l by lia.
  - rewrite <- Hl, length_take, length_drop in Hlen. rewrite length_drop. lia.
Qed.

(** The snapshot is the stack of the child: whatever its pages below 64 KiB
    and whichever are mapped, the copy ends inside the buffer, and a stack read of
    the library with the child's stack pointer returns the word the child has at
    that address. *)
Theorem snapshot_reads_child `{Arch} arm64 k mem pid r addr l o :
  (3 <= k <= 15)%nat -> pages_ok (2 ^ k) mem -> is_u64 (cpu_sp r) ->
  let page := 2 ^ Z.of_nat k in let start := cpu_sp r - cpu_sp r mod page in
  start + STACK_SNAPSHOT_SIZE < 2 ^ 64 -> start <= addr -> addr + 8 <= start + STACK_SNAPSHOT_SIZE ->
  addr mod page + 8 <= page -> mem (addr - addr mod page) = Some l ->
  exists stack, read_stack (2 ^ k) (mem_pread mem) (cpu_sp r) = Done (Some stack) /\
    read_addr_from_info page (test_info arm64 pid r stack) (cpu_sp r) addr o =
      Done (Some (le_value (take 8 (drop (Z.to_nat (addr mod page)) l))), o).
Proof.
  intros Hk Hm Hsp page start Hend Hlo Hhi Hin Hl.
  assert (0 < page) as Hpos by (apply Z.pow_pos_nonneg; lia).
  assert (Z.of_nat (2 ^ k) = page) as Hpage by (by rewrite Nat2Z.inj_pow).
  assert (Z.of_nat (2 ^ (15 - k) * 2 ^ k) = STACK_SNAPSHOT_SIZE) as HN.
  { rewrite <- Nat.pow_add_r. by replace (15 - k + k)%nat with 15%nat by lia. }
  destruct (Hm _ _ Hl) as [Hlen _]. assert (0 < 2 ^ k)%nat as Hp0 by lia.
  assert (2 ^ (15 - k) <= Z.to_nat STACK_SNAPSHOT_SIZE)%nat as Hfuel.
  { apply Nat2Z.inj_le. rewrite Z2Nat.id by done. rewrite <- HN. apply Nat2Z.inj_le, Nat.le_mul_r. lia. }
  destruct (read_pages_ok (2 ^ k) mem start (2 ^ (15 - k)) page_fuel 0 (replicate (Z.to_nat STACK_SNAPSHOT_SIZE) 0))
    as (stack & Hrun & Hls & _ & _ & Hpages); [done|done|done| | |lia|unfold page_fuel; lia|].
  { rewrite length_replicate. apply Nat2Z.inj. rewrite HN. done. }
  { apply Forall_replicate. by vm_compute. }
  exists stack. split; [unfold read_stack; by rewrite stack_start_page by (lia || done)|].
  set (j := (addr - start) / page).
  assert (0 <= cpu_sp r mod page < page) as Hmod by by apply Z.mod_pos_bound.
  assert (start mod page = 0) as Hs0.
  { replace start with (cpu_sp r / page * page) by (pose proof (Z.div_mod (cpu_sp r) page); unfold start; lia). by apply Z.mod_mul; lia. }
  assert (addr - start = page * j + addr mod page) as Hj.
  { unfold j. rewrite (Z.div_mod (addr - start) page) at 1 by lia. f_equal.
    rewrite Zminus_mod, Hs0, Z.sub_0_r, Z.mod_mod by lia. done. }
  assert (0 <= j) as Hj0 by (apply Z.div_pos; lia). pose proof (Z.mod_pos_bound addr page Hpos) as Ha.
  assert (mem (start + Z.of_nat (Z.to_nat j * 2 ^ k)) = Some l) as Hl'.
  { rewrite Nat2Z.inj_mul, Hpage, Z2Nat.id by lia. rewrite <- Hl. f_equal. lia. }
  assert (Z.to_nat j < 2 ^ (15 - k))%nat as Hjn.
  { apply Nat2Z.inj_lt. rewrite Nat2Z.inj_mul, Hpage in HN. nia. }
  specialize (Hpages (Z.to_nat j) l ltac:(lia) Hl').
  assert (0 <= start) as Hs by (pose proof (Z.mod_le (cpu_sp r) page); unfold start, in_width in *; lia).
  clearbody j. unfold read_addr_from_info, read_addr. rewrite page_start_exact by done. fold start. clearbody start. cbn [stack_size stack_data test_info].
  unfold in_width in Hsp. rewrite (add64_small start), (add64_small addr), !sub64_small by (unfold STACK_SNAPSHOT_SIZE in *; word).
  replace (_ || _) with false; [|symmetry; rewrite !orb_false_iff, !Z.ltb_ge, Z.leb_gt; unfold STACK_SNAPSHOT_SIZE in *; lia].
  run. replace (Z.to_nat (addr - start)) with (Z.to_nat j * 2 ^ k + Z.to_nat (addr mod page))%nat.
  2: { apply Nat2Z.inj. rewrite Nat2Z.inj_add, Nat2Z.inj_mul, Hpage, !Z2Nat.id by lia. lia. }
  rewrite (word_in_page stack l) by (done || lia). by run.
Qed.

(** With pages larger than the buffer, as on arm64 kernels with pages of 64 KiB,
    the first [pread] writes past the end of it. *)
Theorem large_pages_overflow page mem sp l :
  STACK_SNAPSHOT_SIZE < Z.of_nat page -> pages_ok page mem -> mem (stack_start page sp) = Some l ->
  read_stack page (mem_pread mem) sp = Undef OutOfBounds.
Proof.
  intros Hp Hm Hl. destruct (Hm _ _ Hl) as [Hlen _]. unfold read_stack, page_fuel.
  destruct (Z.to_nat STACK_SNAPSHOT_SIZE) eqn:E; [done|]. cbn [read_pages]. change (Z.of_nat 0 <? STACK_SNAPSHOT_SIZE) with true.
  unfold mem_pread. rewrite Z.add_0_r, Hl. cbv beta match. by rewrite (proj2 (Z.ltb_lt _ _)) by lia.
Qed.

(** ** The register block

    The test stores the registers under their DWARF numbers; the library reads
    [struct pt_regs].  The two agree on arm64.  On x86-64 only the pc is found:
    the library takes the stack and frame pointers of the child to be zero, so
    that the frames above the first one are not reached. *)
Theorem test_registers_misplaced pid r stack :
  (get_regs (H := aarch64) (test_info true pid r stack) (reg_name_rbp (Arch := aarch64)) = Done (Some (cpu_bp r)) /\
   get_regs (H := aarch64) (test_info true pid r stack) (reg_name_rsp (Arch := aarch64)) = Done (Some (cpu_sp r)) /\
   get_regs (H := aarch64) (test_info true pid r stack) (reg_name_rip (Arch := aarch64)) = Done (Some (cpu_pc r)) /\
   get_regs (H := aarch64) (test_info true pid r stack) 30 = Done (Some (cpu_lr r))) /\
  (get_regs (H := linux_x86_64) (test_info false pid r stack) (reg_name_rip (Arch := linux_x86_64)) = Done (Some (cpu_pc r)) /\
   get_regs (H := linux_x86_64) (test_info false pid r stack) (reg_name_rsp (Arch := linux_x86_64)) = Done (Some 0) /\
   get_regs (H := linux_x86_64) (test_info false pid r stack) (reg_name_rbp (Arch := linux_x86_64)) = Done (Some 0)).
Proof. split_and!; vm_compute; reflexivity. Qed.

(** ** Runs of the test *)

(** The workload: [hot_leaf] called by [hot_mid] called by [main]. *)
Definition hot_strtab : strtab :=
  mk_strtab (Some 22) (Some (NUL :: txt "hot_leaf" ++ NUL :: txt "hot_mid" ++ NUL :: txt "main" ++ [NUL], 0)) false (fun _ => None).
Definition hot_source : sym_source :=
  mk_source (Some (72, 24)) true
    (fun i => [mk_sym 1 2 1 0x1040 0x10; mk_sym 10 2 1 0x1050 0x10; mk_sym 18 2 1 0x1060 0x20] !! i) hot_strtab
    (fun i => if i =? 1 then Some 6 else None).
Definition hot_file : elf_file :=
  mk_file true
    (Some [mk_scn (Some 0) (Some (txt ".note.gnu.build-id")) (Some (replicate 36 "a"%char)); mk_scn (Some 0) (Some (txt ".symtab")) None])
    (Some [Some (mk_phdr PT_LOAD 5 0x1000 0x1000 0x1000 0x1000)]) (fun _ => hot_source) None (fun _ => 0) (fun _ => None) (fun _ _ => inl 1) [].
Definition hot_env (HA : Arch) : Env :=
  files_env (HA := HA) (HM := rising_malloc) (HQ := merge_qsort) (HL := os_with hot_file) process_env plain_config sample_load_state.

(** Its stack at 0x7ffe0010, with two frame records from 0x7ffe0020 on. *)
Definition hot_page : list Z :=
  replicate 32 0 ++ le_bytes 8 0x7ffe0040 ++ le_bytes 8 0x401054 ++ replicate 16 0 ++ le_bytes 8 0 ++ le_bytes 8 0x401064 ++
  replicate (4096 - 80) 0.
Definition hot_mem (a : Z) : option (list Z) := if a =? 0x7ffe0000 then Some hot_page else None.
Definition hot_regs : cpu_regs := mk_cpu 0x7ffe0020 0x7ffe0010 0x401044 0x401054.
Definition hot_child : child := mk_child 42 true (Some hot_regs) true (Some (mem_pread hot_mem)) true.
Definition hot_scenario : scenario := mk_scenario true 0 (Some hot_child) true.

(** All scenarios pass on both targets; only on arm64 is the caller of the first
    frame seen. *)
Theorem symbol_test_runs :
  symbol_main false 4096 (HA := linux_x86_64) (HE := hot_env linux_x86_64) (HQ := merge_qsort) true hot_scenario hot_scenario hot_scenario = Done 0 /\
  symbol_main true 4096 (HA := aarch64) (HE := hot_env aarch64) (HQ := merge_qsort) true hot_scenario hot_scenario hot_scenario = Done 0 /\
  unwind_stopped_child false 4096 (HA := linux_x86_64) (HE := hot_env linux_x86_64) (HQ := merge_qsort) hot_child = Done (0, mk_hits true false) /\
  unwind_stopped_child true 4096 (HA := aarch64) (HE := hot_env aarch64) (HQ := merge_qsort) hot_child = Done (0, mk_hits true true).
Proof. split_and!; vm_compute; reflexivity. Qed.

Lemma hot_pages : pages_ok (2 ^ 12) hot_mem.
Proof.
  intros a l. unfold hot_mem. case_match; [|done]. intros [= <-]. split; [by vm_compute|].
  unfold hot_page. repeat apply Forall_app_2; try apply le_bytes_ok; apply Forall_replicate; by vm_compute.
Qed.

Lemma snapshot_reads_child_witness :
  exists stack, read_stack (2 ^ 12) (mem_pread hot_mem) 0x7ffe0010 = Done (Some stack) /\
    read_addr_from_info 4096 (test_info true 42 hot_regs stack) 0x7ffe0010 0x7ffe0028 no_oor = Done (Some 0x401054, no_oor).
Proof.
  apply (snapshot_reads_child (H := aarch64) true 12 hot_mem 42 hot_regs 0x7ffe0028 hot_page no_oor).
  - lia.
  - apply hot_pages.
  - vm_compute. by split.
  - by vm_compute.
  - by vm_compute.
  - by vm_compute.
  - by vm_compute.
  - reflexivity.
Defined.
